(** * UBI2: the PEB map allocator, the layout volume and the PPO byte code

    A shallow embedding of the UBI2 translation layer:
    - the PEB map sub-system ([ubi_pmap_*]), in its latest revision (the one
      with per-volume reserved areas, range extraction and the circular
      shrink scan) and, in module [PmapDraft], the earlier revision kept at
      drivers/mtd/ubi2/pmap.c;
    - the layout volume code of drivers/mtd/ubi2/vtbl.c ([vtbl_check],
      [create_vtbl], [process_lvol], [create_empty_lvol],
      [ubi_read_volume_table]);
    - the PPO byte categories of the UBI2 design notes.

    C [int]s are modelled in [Z].  PEB counts, LEB numbers and volume
    identifiers are far below 2^31 on any device, so the arithmetic of the
    loops below (increments of a loop index or of a LEB counter) is written
    without wrap-around.  An array access outside the PEB map is undefined
    in C; the model reads the all-zero entry there and drops the write, and
    the theorems that depend on it assume the accessed range lies in the
    map. *)

From Stdlib Require Import ZArith Lia Bool List Sorted.
From stdpp Require Import base list.

Open Scope Z_scope.

(** ** Error numbers (include/asm-generic/errno-base.h) *)

Definition ENOMEM : Z := 12.
Definition EINVAL : Z := 22.
Definition EROFS : Z := 30.

(** ** The PEB map *)

(** [struct ubi_pmap]: one entry per physical eraseblock. *)
Record ubi_pmap : Type := mk_pmap {
  vol_id : Z;
  lnum : Z;
  inuse : bool;
  bad : bool
}.

(** [memset(pmap, 0, sizeof(struct ubi_pmap))] *)
Definition zero_pmap : ubi_pmap := mk_pmap 0 0 false false.

(** [&peb_map[pnum]] read. *)
Definition peb_at (peb_map : list ubi_pmap) (pnum : Z) : ubi_pmap :=
  if 0 <=? pnum then default zero_pmap (peb_map !! Z.to_nat pnum)
  else zero_pmap.

(** [peb_map[pnum] = e]. *)
Definition peb_store (peb_map : list ubi_pmap) (pnum : Z) (e : ubi_pmap)
  : list ubi_pmap :=
  if 0 <=? pnum then <[Z.to_nat pnum := e]> peb_map else peb_map.

(** [ubi_pmap_init]: [vmalloc] of [peb_count] entries followed by [memset]
    to zero. *)
Definition ubi_pmap_init (peb_count : Z) : list ubi_pmap :=
  replicate (Z.to_nat peb_count) zero_pmap.

(** The test [pmap->vol_id == vol_id && pmap->inuse && !pmap->bad] shared by
    the counting loops. *)
Definition owned_by (vol : Z) (e : ubi_pmap) : bool :=
  (vol_id e =? vol) && inuse e && negb (bad e).

(** The test [!pmap->inuse && !pmap->bad] of the allocation scans. *)
Definition is_free (e : ubi_pmap) : bool := negb (inuse e) && negb (bad e).

Module Pmap.
Section WithConstants.

(** [UBI_LAYOUT_VOLUME_ID] and [UBI_LAYOUT_VOLUME_RESERVED_EBS] are defined
    in ubi.h, which is not part of the sources at hand; [peb_count] is
    [ubi->peb_count]. *)
Variable UBI_LAYOUT_VOLUME_ID : Z.
Variable UBI_LAYOUT_VOLUME_RESERVED_EBS : Z.
Variable peb_count : Z.

(** [ubi_pmap_vol_reserved_area]: the pair [(first_peb, last_peb)]. *)
Definition ubi_pmap_vol_reserved_area (vol : Z) : Z * Z :=
  if vol =? UBI_LAYOUT_VOLUME_ID
  then (0, UBI_LAYOUT_VOLUME_RESERVED_EBS - 1)
  else (UBI_LAYOUT_VOLUME_RESERVED_EBS, peb_count - 1).

(** Number of iterations of [for (pnum = first; pnum <= last; ++pnum)]. *)
Definition span (first_peb last_peb : Z) : nat :=
  Z.to_nat (last_peb - first_peb + 1).

(** Loop of [ubi_pmap_vol_peb_count]; [n] iterations remain. *)
Fixpoint count_loop (peb_map : list ubi_pmap) (vol : Z)
    (n : nat) (pnum number : Z) : Z :=
  match n with
  | O => number
  | S k =>
      let pmap := peb_at peb_map pnum in
      count_loop peb_map vol k (pnum + 1)
        (if owned_by vol pmap then number + 1 else number)
  end.

Definition ubi_pmap_vol_peb_count (peb_map : list ubi_pmap) (vol : Z) : Z :=
  let '(first_peb, last_peb) := ubi_pmap_vol_reserved_area vol in
  count_loop peb_map vol (span first_peb last_peb) first_peb 0.

(** Loop of [ubi_pmap_lookup_pnum]. *)
Fixpoint lookup_loop (peb_map : list ubi_pmap) (vol ln : Z)
    (n : nat) (pnum : Z) : Z :=
  match n with
  | O => -1
  | S k =>
      let pmap := peb_at peb_map pnum in
      if (vol_id pmap =? vol) && (lnum pmap =? ln) && inuse pmap
         && negb (bad pmap)
      then pnum
      else lookup_loop peb_map vol ln k (pnum + 1)
  end.

Definition ubi_pmap_lookup_pnum (peb_map : list ubi_pmap) (vol ln : Z) : Z :=
  let '(first_peb, last_peb) := ubi_pmap_vol_reserved_area vol in
  lookup_loop peb_map vol ln (span first_peb last_peb) first_peb.

(** [ubi_pmap_allocate_vol_pebs]: the "already allocated" check loop;
    [true] when some entry of the range is in use by [vol]. *)
Fixpoint allocated_loop (peb_map : list ubi_pmap) (vol peb : Z)
    (n : nat) (i : Z) : bool :=
  match n with
  | O => false
  | S k =>
      let pmap := peb_at peb_map (peb + i) in
      if (vol_id pmap =? vol) && inuse pmap then true
      else allocated_loop peb_map vol peb k (i + 1)
  end.

(** [ubi_pmap_allocate_vol_pebs]: the allocation loop. *)
Fixpoint allocate_loop (vol peb leb bad_arg : Z)
    (n : nat) (i : Z) (peb_map : list ubi_pmap) : list ubi_pmap :=
  match n with
  | O => peb_map
  | S k =>
      let e :=
        if bad_arg =? 0 then mk_pmap vol (leb + i) true false
        else mk_pmap vol (leb + i) false true in
      allocate_loop vol peb leb bad_arg k (i + 1)
        (peb_store peb_map (peb + i) e)
  end.

(** [ubi_pmap_allocate_vol_pebs]: returns the error code and the map. *)
Definition ubi_pmap_allocate_vol_pebs (peb_map : list ubi_pmap)
    (vol peb leb blocks bad_arg : Z) : Z * list ubi_pmap :=
  let '(first_peb, last_peb) := ubi_pmap_vol_reserved_area vol in
  if (peb <? first_peb) || (peb + blocks >? last_peb + 1)
  then (- EINVAL, peb_map)
  else if allocated_loop peb_map vol peb (Z.to_nat blocks) 0
  then (- EINVAL, peb_map)
  else (0, allocate_loop vol peb leb bad_arg (Z.to_nat blocks) 0 peb_map).

(** [ubi_pmap_extract_vol_pebs].  The callback receives the user state (the
    object behind [usr_ptr]) and the run, and returns its error code and the
    new user state.  [block_first] is [block_first_idx] when
    [block_first_pmap] is not [NULL]; [block_first_pmap] points into the map,
    which the scan does not modify, so it is read back from the map. *)
Section Extract.
Context {U : Type}.
Variable vol_pebs_cb : U -> Z -> Z -> Z -> Z -> bool -> Z * U.

Fixpoint extract_loop (peb_map : list ubi_pmap) (n : nat) (i : Z)
    (block_first : option Z) (usr : U) : Z * U :=
  match n with
  | O => (0, usr)
  | S k =>
      let pmap := peb_at peb_map i in
      match block_first with
      | None =>
          extract_loop peb_map k (i + 1)
            (if inuse pmap then Some i else None) usr
      | Some block_first_idx =>
          let block_first_pmap := peb_at peb_map block_first_idx in
          if negb (inuse pmap)
             || negb (vol_id pmap =? vol_id block_first_pmap)
             || negb (Bool.eqb (bad pmap) (bad block_first_pmap))
             || negb (lnum pmap =? lnum block_first_pmap + i - block_first_idx)
          then
            let '(err, usr') :=
              vol_pebs_cb usr (vol_id block_first_pmap) block_first_idx
                (lnum block_first_pmap) (i - block_first_idx)
                (bad block_first_pmap) in
            if negb (err =? 0) then (err, usr')
            else extract_loop peb_map k (i + 1)
                   (if inuse pmap then Some i else None) usr'
          else extract_loop peb_map k (i + 1) block_first usr
      end
  end.

Definition ubi_pmap_extract_vol_pebs (peb_map : list ubi_pmap) (usr : U)
  : Z * U :=
  extract_loop peb_map (Z.to_nat peb_count) 0 None usr.
End Extract.

(** [ubi_pmap_resize_volume]: deletion of all mappings of the volume. *)
Fixpoint delete_loop (vol : Z) (n : nat) (pnum : Z)
    (peb_map : list ubi_pmap) : list ubi_pmap :=
  match n with
  | O => peb_map
  | S k =>
      let pmap := peb_at peb_map pnum in
      delete_loop vol k (pnum + 1)
        (if vol_id pmap =? vol then peb_store peb_map pnum zero_pmap
         else peb_map)
  end.

(** [ubi_pmap_resize_volume]: the growth scan; returns the final [lnum]
    counter and the map. *)
Fixpoint grow_loop (vol reserved_pebs : Z) (n : nat) (pnum ln : Z)
    (peb_map : list ubi_pmap) : Z * list ubi_pmap :=
  match n with
  | O => (ln, peb_map)
  | S k =>
      let pmap := peb_at peb_map pnum in
      if is_free pmap then
        let peb_map' := peb_store peb_map pnum (mk_pmap vol ln true (bad pmap)) in
        let ln' := ln + 1 in
        if ln' =? reserved_pebs then (ln', peb_map')
        else grow_loop vol reserved_pebs k (pnum + 1) ln' peb_map'
      else grow_loop vol reserved_pebs k (pnum + 1) ln peb_map
  end.

(** [ubi_pmap_resize_volume]: the circular shrink scan, [while (true)].
    The loop has no bound of its own, so the model counts iterations down
    from [fuel] and yields [None] when they are used up. *)
Fixpoint shrink_loop (vol reserved_pebs first_peb last_peb : Z)
    (fuel : nat) (pnum ln : Z) (peb_map : list ubi_pmap)
  : option (list ubi_pmap) :=
  match fuel with
  | O => None
  | S f =>
      let pmap := peb_at peb_map pnum in
      let next := if pnum - 1 <? first_peb then last_peb else pnum - 1 in
      if (vol_id pmap =? vol) && (lnum pmap =? ln - 1) && inuse pmap
         && negb (bad pmap)
      then
        let ln' := ln - 1 in
        let peb_map' :=
          peb_store peb_map pnum
            (mk_pmap (vol_id pmap) (lnum pmap) false (bad pmap)) in
        if ln' =? reserved_pebs then Some peb_map'
        else shrink_loop vol reserved_pebs first_peb last_peb f next ln'
               peb_map'
      else shrink_loop vol reserved_pebs first_peb last_peb f next ln peb_map
  end.

(** [ubi_pmap_resize_volume]: the returned code and the map, or [None] when
    the shrink scan has not finished within [fuel] iterations. *)
Definition ubi_pmap_resize_volume (fuel : nat) (peb_map : list ubi_pmap)
    (vol reserved_pebs : Z) : option (Z * list ubi_pmap) :=
  let '(first_peb, last_peb) := ubi_pmap_vol_reserved_area vol in
  if reserved_pebs =? 0 then
    Some (0, delete_loop vol (span first_peb last_peb) first_peb peb_map)
  else
    let ln := count_loop peb_map vol (span first_peb last_peb) first_peb 0 in
    let '(ln, peb_map) :=
      if ln <? reserved_pebs
      then grow_loop vol reserved_pebs (span first_peb last_peb) first_peb ln
             peb_map
      else (ln, peb_map) in
    if ln >? reserved_pebs then
      match shrink_loop vol reserved_pebs first_peb last_peb fuel last_peb ln
              peb_map with
      | Some peb_map' => Some (0, peb_map')
      | None => None
      end
    else Some (0, peb_map).

(** [ubi_pmap_markbad_replace]: the replacement search.  [src] is the entry
    at [pnum], whose [vol_id] and [lnum] are copied; the result is the
    returned value and the map. *)
Fixpoint replace_loop (src : ubi_pmap) (n : nat) (replacment_pnum : Z)
    (peb_map : list ubi_pmap) : Z * list ubi_pmap :=
  match n with
  | O => (- ENOMEM, peb_map)
  | S k =>
      let replacment_pmap := peb_at peb_map replacment_pnum in
      if is_free replacment_pmap then
        (replacment_pnum,
         peb_store peb_map replacment_pnum
           (mk_pmap (vol_id src) (lnum src) true (bad replacment_pmap)))
      else replace_loop src k (replacment_pnum + 1) peb_map
  end.

Definition ubi_pmap_markbad_replace (peb_map : list ubi_pmap) (pnum : Z)
  : Z * list ubi_pmap :=
  let pmap := peb_at peb_map pnum in
  let need_replacment := inuse pmap && negb (bad pmap) in
  let peb_map1 :=
    peb_store peb_map pnum (mk_pmap (vol_id pmap) (lnum pmap) false true) in
  let '(first_peb, last_peb) :=
    ubi_pmap_vol_reserved_area (vol_id (peb_at peb_map1 pnum)) in
  if need_replacment then
    replace_loop (peb_at peb_map1 pnum) (span first_peb last_peb) first_peb
      peb_map1
  else (pnum, peb_map1).

(** [ubi_pmap_number_vols]: the scan for the next volume identifier.  The
    statement under the test, [next_vol_id < peb_map[i].vol_id;], is a
    comparison whose value is dropped, so [next_vol_id] keeps its value. *)
Definition INT_MAX : Z := 2147483647.

Fixpoint next_vol_loop (peb_map : list ubi_pmap) (vol : Z) (n : nat) (i : Z)
    (next_vol_id : Z) : Z :=
  match n with
  | O => next_vol_id
  | S k =>
      let e := peb_at peb_map i in
      next_vol_loop peb_map vol k (i + 1)
        (if inuse e && negb (bad e) && (vol_id e >? vol)
            && (vol_id e <? next_vol_id)
         then let _ := next_vol_id <? vol_id e in next_vol_id
         else next_vol_id)
  end.

(** [ubi_pmap_number_vols]: the [while (true)] loop, with fuel. *)
Fixpoint number_vols_loop (peb_map : list ubi_pmap) (fuel : nat)
    (number vol : Z) : option Z :=
  match fuel with
  | O => None
  | S f =>
      let next_vol_id :=
        next_vol_loop peb_map vol (Z.to_nat peb_count) 0 INT_MAX in
      if next_vol_id =? INT_MAX then Some number
      else number_vols_loop peb_map f (number + 1) next_vol_id
  end.

Definition ubi_pmap_number_vols (fuel : nat) (peb_map : list ubi_pmap)
  : option Z :=
  number_vols_loop peb_map fuel 0 0.

(** *** Extraction followed by re-allocation *)

(** A run as handed to the callback:
    [(vol_id, peb, leb, blocks, bad)]. *)
Record peb_run : Type := mk_run {
  run_vol_id : Z;
  run_peb : Z;
  run_leb : Z;
  run_blocks : Z;
  run_bad : bool
}.

(** A callback that records every run and never fails. *)
Definition collect_run (acc : list peb_run) (vol peb leb blocks : Z)
    (b : bool) : Z * list peb_run :=
  (0, acc ++ [mk_run vol peb leb blocks b]).

(** The runs [ubi_pmap_extract_vol_pebs] emits, in order. *)
Definition extracted_runs (peb_map : list ubi_pmap) : list peb_run :=
  snd (ubi_pmap_extract_vol_pebs collect_run peb_map []).

(** Re-allocation of a list of runs with [ubi_pmap_allocate_vol_pebs],
    stopping at the first error as [init_volumes] does. *)
Fixpoint allocate_runs (runs : list peb_run) (peb_map : list ubi_pmap)
  : Z * list ubi_pmap :=
  match runs with
  | [] => (0, peb_map)
  | r :: rest =>
      let '(err, peb_map') :=
        ubi_pmap_allocate_vol_pebs peb_map (run_vol_id r) (run_peb r)
          (run_leb r) (run_blocks r) (if run_bad r then 1 else 0) in
      if err <? 0 then (err, peb_map') else allocate_runs rest peb_map'
  end.

(** Extraction of a map followed by re-allocation into an empty map of the
    same size. *)
Definition extract_then_allocate (peb_map : list ubi_pmap)
  : Z * list ubi_pmap :=
  allocate_runs (extracted_runs peb_map)
    (replicate (length peb_map) zero_pmap).

(** *** Sequences of operations *)

Inductive pmap_op : Type :=
| OpAllocate (vol peb leb blocks bad_arg : Z)
| OpResize (fuel : nat) (vol reserved_pebs : Z)
| OpMarkbad (pnum : Z).

(** The map after one operation; [None] when a resize has not returned
    within its fuel. *)
Definition apply_op (peb_map : list ubi_pmap) (op : pmap_op)
  : option (list ubi_pmap) :=
  match op with
  | OpAllocate vol peb leb blocks bad_arg =>
      Some (snd (ubi_pmap_allocate_vol_pebs peb_map vol peb leb blocks bad_arg))
  | OpResize fuel vol reserved_pebs =>
      match ubi_pmap_resize_volume fuel peb_map vol reserved_pebs with
      | Some (_, peb_map') => Some peb_map'
      | None => None
      end
  | OpMarkbad pnum => Some (snd (ubi_pmap_markbad_replace peb_map pnum))
  end.

Fixpoint run_ops (peb_map : list ubi_pmap) (ops : list pmap_op)
  : option (list ubi_pmap) :=
  match ops with
  | [] => Some peb_map
  | op :: rest =>
      match apply_op peb_map op with
      | Some peb_map' => run_ops peb_map' rest
      | None => None
      end
  end.

(** *** Predicates used in the statements *)

(** [pnum] lies in the area reserved for [vol]. *)
Definition in_area (vol pnum : Z) : Prop :=
  fst (ubi_pmap_vol_reserved_area vol) <= pnum
  <= snd (ubi_pmap_vol_reserved_area vol).

(** The reserved areas lie inside the map. *)
Definition areas_in_map (peb_map : list ubi_pmap) : Prop :=
  0 <= UBI_LAYOUT_VOLUME_RESERVED_EBS <= peb_count /\
  Z.of_nat (length peb_map) = peb_count.

(** Number of free, non-bad entries among the [n] entries from [pnum]. *)
Fixpoint count_free (peb_map : list ubi_pmap) (n : nat) (pnum : Z) : Z :=
  match n with
  | O => 0
  | S k =>
      (if is_free (peb_at peb_map pnum) then 1 else 0)
      + count_free peb_map k (pnum + 1)
  end.

(** The in-use, non-bad entries of [vol] in its area carry the LEB numbers
    [0 .. k-1], each exactly once. *)
Definition vol_contiguous (peb_map : list ubi_pmap) (vol k : Z) : Prop :=
  (forall p, in_area vol p -> owned_by vol (peb_at peb_map p) = true ->
             0 <= lnum (peb_at peb_map p) < k) /\
  (forall p q, in_area vol p -> in_area vol q ->
               owned_by vol (peb_at peb_map p) = true ->
               owned_by vol (peb_at peb_map q) = true ->
               lnum (peb_at peb_map p) = lnum (peb_at peb_map q) -> p = q) /\
  (forall l, 0 <= l < k ->
             exists p, in_area vol p /\ owned_by vol (peb_at peb_map p) = true
                       /\ lnum (peb_at peb_map p) = l).

(** The [bad] and [inuse] flags of an entry are not both set. *)
Definition flags_exclusive (e : ubi_pmap) : Prop :=
  inuse e && bad e = false.

(** The in-use entries of a map, each with its PEB number. *)
Definition inuse_entries (peb_map : list ubi_pmap) : list (nat * ubi_pmap) :=
  List.filter (fun pe => inuse (snd pe))
    (List.combine (List.seq 0 (length peb_map)) peb_map).

End WithConstants.
End Pmap.


(** ** The earlier revision: drivers/mtd/ubi2/pmap.c

    This revision has no reserved areas (every scan runs over
    [0 .. peb_count-1]), no range extraction or allocation, and its shrink
    scan is compiled out.  Its loops have the bodies of the loops above and
    are shared with them. *)
Module PmapDraft.
Section WithDevice.

Variable peb_count : Z.

Definition ubi_pmap_lookup_pnum (peb_map : list ubi_pmap) (vol ln : Z) : Z :=
  Pmap.lookup_loop peb_map vol ln (Z.to_nat peb_count) 0.

Definition ubi_pmap_resize_volume (peb_map : list ubi_pmap)
    (vol reserved_pebs : Z) : Z * list ubi_pmap :=
  if reserved_pebs =? 0 then
    (0, Pmap.delete_loop vol (Z.to_nat peb_count) 0 peb_map)
  else
    let ln := Pmap.count_loop peb_map vol (Z.to_nat peb_count) 0 0 in
    if ln <? reserved_pebs
    then (0, snd (Pmap.grow_loop vol reserved_pebs (Z.to_nat peb_count) 0 ln
                    peb_map))
    else (0, peb_map).

(** [ubi_pmap_markbad_replace]: [pmap->bad = 1] is the only write to the
    entry at [pnum]; [inuse] keeps its value. *)
Definition ubi_pmap_markbad_replace (peb_map : list ubi_pmap) (pnum : Z)
  : Z * list ubi_pmap :=
  let pmap := peb_at peb_map pnum in
  let need_replacment := inuse pmap && negb (bad pmap) in
  let peb_map1 :=
    peb_store peb_map pnum
      (mk_pmap (vol_id pmap) (lnum pmap) (inuse pmap) true) in
  if need_replacment then
    Pmap.replace_loop (peb_at peb_map1 pnum) (Z.to_nat peb_count) 0 peb_map1
  else (pnum, peb_map1).

End WithDevice.
End PmapDraft.

(** ** Vocabulary of the statements about the PEB map *)

(** An invariant of the map: a property of every entry that the stores of
    an operation re-establish, together with the length of the map. *)
Definition entries_ok (P : ubi_pmap -> Prop) (n : nat)
    (m : list ubi_pmap) : Prop :=
  Forall P m /\ length m = n.

(** An entry after a growth or replacement scan: untouched, or a free,
    non-bad entry that was put in use. *)
Definition taken_from (e e' : ubi_pmap) : Prop :=
  e' = e \/ (is_free e = true /\ inuse e' = true /\ bad e' = false).

(** An entry after a deletion or shrink scan: untouched or not in use. *)
Definition released_from (e e' : ubi_pmap) : Prop :=
  e' = e \/ inuse e' = false.

(** The entry the growth scan writes at [q] when it never reaches
    [reserved_pebs]: every free entry gets the next LEB number. *)
Definition grown_entry (m : list ubi_pmap) (vol p ln : Z) (n : nat) (q : Z)
  : ubi_pmap :=
  if (p <=? q) && (q <? p + Z.of_nat n) && is_free (peb_at m q)
  then mk_pmap vol (ln + Pmap.count_free m (Z.to_nat (q - p)) p) true false
  else peb_at m q.

(** The test of the circular shrink scan. *)
Definition shrink_test (vol ln : Z) (e : ubi_pmap) : bool :=
  (vol_id e =? vol) && (lnum e =? ln - 1) && inuse e && negb (bad e).

Definition released (e : ubi_pmap) : ubi_pmap :=
  mk_pmap (vol_id e) (lnum e) false (bad e).

Definition circ_prev (fp lp p : Z) : Z :=
  if p - 1 <? fp then lp else p - 1.

(** The map in which the entries of [vol] with a LEB number of at least
    [ln] have been released. *)
Definition shrunk_entry (m : list ubi_pmap) (vol fp lp ln x : Z) : ubi_pmap :=
  let e := peb_at m x in
  if (fp <=? x) && (x <=? lp) && owned_by vol e && (ln <=? lnum e)
  then released e else e.

Definition deleted_entry (m : list ubi_pmap) (vol p : Z) (n : nat) (x : Z)
  : ubi_pmap :=
  if (p <=? x) && (x <? p + Z.of_nat n) && (vol_id (peb_at m x) =? vol)
  then zero_pmap else peb_at m x.

Definition allocated_entry (vol leb peb bad_arg p : Z) : ubi_pmap :=
  if bad_arg =? 0 then mk_pmap vol (leb + (p - peb)) true false
  else mk_pmap vol (leb + (p - peb)) false true.

(** The part of [m] below [s] that is in use. *)
Definition covered (m : list ubi_pmap) (s p : Z) : ubi_pmap :=
  if (p <? s) && inuse (peb_at m p) then peb_at m p else zero_pmap.

(** The entries [idx .. i-1] continue the run that starts at [idx]. *)
Definition run_open (m : list ubi_pmap) (idx i : Z) : Prop :=
  0 <= idx < i /\
  forall x, idx <= x < i ->
    inuse (peb_at m x) = true
    /\ vol_id (peb_at m x) = vol_id (peb_at m idx)
    /\ bad (peb_at m x) = bad (peb_at m idx)
    /\ lnum (peb_at m x) = lnum (peb_at m idx) + x - idx.

Definition scan_state_ok (m : list ubi_pmap) (i : Z) (first : option Z)
    (u : list ubi_pmap) : Prop :=
  length u = length m
  /\ match first with
     | Some idx => run_open m idx i /\ forall p, peb_at u p = covered m idx p
     | None => forall p, peb_at u p = covered m i p
     end.


(** ** Vocabulary of the statements about lookups, counts and runs *)

(** The test of [ubi_pmap_lookup_pnum]:
    [pmap->vol_id == vol_id && pmap->lnum == lnum && pmap->inuse
     && !pmap->bad]. *)
Definition lookup_match (vol ln : Z) (e : ubi_pmap) : bool :=
  (vol_id e =? vol) && (lnum e =? ln) && inuse e && negb (bad e).

(** The test of the "already allocated" loop of
    [ubi_pmap_allocate_vol_pebs]. *)
Definition allocated_to (vol : Z) (e : ubi_pmap) : bool :=
  (vol_id e =? vol) && inuse e.

(** An entry after an operation on volume [vol] that leaves the other
    volumes alone: untouched, or it was not in use by another volume before
    and is not in use by another volume after. *)
Definition touched_for (vol : Z) (e e' : ubi_pmap) : Prop :=
  e' = e \/ ((inuse e = false \/ vol_id e = vol)
             /\ (inuse e' = false \/ vol_id e' = vol)).

(** The callback of [ubi_pmap_extract_vol_pebs] applied to a run. *)
Definition call_cb {U : Type} (cb : U -> Z -> Z -> Z -> Z -> bool -> Z * U)
    (usr : U) (r : Pmap.peb_run) : Z * U :=
  cb usr (Pmap.run_vol_id r) (Pmap.run_peb r) (Pmap.run_leb r)
    (Pmap.run_blocks r) (Pmap.run_bad r).

(** The callback applied to a list of runs in order, up to the first call
    that returns an error. *)
Fixpoint feed_runs {U : Type} (cb : U -> Z -> Z -> Z -> Z -> bool -> Z * U)
    (runs : list Pmap.peb_run) (usr : U) : Z * U :=
  match runs with
  | [] => (0, usr)
  | r :: rest =>
      let '(err, usr') := call_cb cb usr r in
      if negb (err =? 0) then (err, usr') else feed_runs cb rest usr'
  end.

(** A run describes the map: its entries are in use, share the volume and
    the bad flag of the run, and carry consecutive LEB numbers; the entry
    after the run's last one is still in the map. *)
Definition run_sound (peb_count : Z) (m : list ubi_pmap) (r : Pmap.peb_run)
  : Prop :=
  0 <= Pmap.run_peb r /\ 1 <= Pmap.run_blocks r
  /\ Pmap.run_peb r + Pmap.run_blocks r < peb_count
  /\ forall x, Pmap.run_peb r <= x < Pmap.run_peb r + Pmap.run_blocks r ->
       inuse (peb_at m x) = true
       /\ vol_id (peb_at m x) = Pmap.run_vol_id r
       /\ bad (peb_at m x) = Pmap.run_bad r
       /\ lnum (peb_at m x) = Pmap.run_leb r + (x - Pmap.run_peb r).

(** The growth scan takes the entry at [q]: it lies in the scanned range
    [p .. p+n-1], is free, and the LEB counter, which starts at [ln] and
    advances by one for each free entry before [q], has not reached
    [reserved_pebs] yet. *)
Definition growth_takes (m : list ubi_pmap) (reserved_pebs p ln : Z)
    (n : nat) (q : Z) : Prop :=
  p <= q < p + Z.of_nat n /\ is_free (peb_at m q) = true
  /\ ln + Pmap.count_free m (Z.to_nat (q - p)) p < reserved_pebs.

(** [Pmap.vol_contiguous] with the bounds of the area written out: the
    in-use, non-bad entries of [vol] in [fp .. lp] carry the LEB numbers
    [0 .. k-1], each exactly once. *)
Definition contiguous_in (m : list ubi_pmap) (vol fp lp k : Z) : Prop :=
  (forall p, fp <= p <= lp -> owned_by vol (peb_at m p) = true ->
             0 <= lnum (peb_at m p) < k) /\
  (forall p q, fp <= p <= lp -> fp <= q <= lp ->
               owned_by vol (peb_at m p) = true ->
               owned_by vol (peb_at m q) = true ->
               lnum (peb_at m p) = lnum (peb_at m q) -> p = q) /\
  (forall l, 0 <= l < k ->
             exists p, fp <= p <= lp /\ owned_by vol (peb_at m p) = true
                       /\ lnum (peb_at m p) = l).

(** A run ends before another one starts. *)
Definition run_before (r1 r2 : Pmap.peb_run) : Prop :=
  Pmap.run_peb r1 + Pmap.run_blocks r1 <= Pmap.run_peb r2.

(** The state of the extraction scan at index [i]: the open run, if any,
    describes the entries from its first index up to [i], and every run
    emitted so far ends before the open run starts (before [i] when no run
    is open). *)
Definition extract_state_ok (m : list ubi_pmap) (i : Z) (first : option Z)
    (acc : list Pmap.peb_run) : Prop :=
  match first with
  | Some idx =>
      run_open m idx i
      /\ Forall (fun r => Pmap.run_peb r + Pmap.run_blocks r <= idx) acc
  | None => Forall (fun r => Pmap.run_peb r + Pmap.run_blocks r <= i) acc
  end.

(** The state of the scan of [init_layout_volume] before it looks at PEB
    [p], with [ln] good PEBs found so far: the layout volume [lv] has
    [ebs - ln] of its PEBs at [p] or after it; below [p] it holds exactly the
    PEBs that [isbad] reports as good; its PEBs lie before the free entries
    of its area [0 .. res-1]; its entries carry the LEB numbers
    [0 .. ebs-1] once each; no other volume has an entry in the area; and
    the entries marked bad in the area are bad by [isbad]. *)
Definition layout_scan_ok (lv res ebs : Z) (isbad : Z -> Z)
    (m : list ubi_pmap) (p ln : Z) : Prop :=
  0 <= p /\ 0 <= ln < ebs
  /\ Pmap.count_loop m lv (Z.to_nat (res - p)) p 0 = ebs - ln
  /\ (forall q, 0 <= q < p ->
        owned_by lv (peb_at m q) = true <-> isbad q = 0)
  /\ (forall q q', 0 <= q < res -> 0 <= q' < res ->
        owned_by lv (peb_at m q) = true -> is_free (peb_at m q') = true ->
        q < q')
  /\ contiguous_in m lv 0 (res - 1) ebs
  /\ (forall q, 0 <= q < res -> inuse (peb_at m q) = true ->
        owned_by lv (peb_at m q) = true)
  /\ (forall q, 0 <= q < res -> bad (peb_at m q) = true -> isbad q <> 0).

(** The PEBs of the volume [lv] are the good PEBs up to some PEB [last] of
    the area [0 .. res-1]. *)
Definition on_first_good (lv res : Z) (isbad : Z -> Z) (m : list ubi_pmap)
  : Prop :=
  exists last, 0 <= last < res
    /\ forall q, 0 <= q < res ->
         (owned_by lv (peb_at m q) = true <-> q <= last /\ isbad q = 0).

(** ** A concrete device for the examples

    The layout volume identifier is the one of mainline UBI
    ([UBI_INTERNAL_VOL_START], [0x7FFFFFFF - 4096]); four PEBs are reserved
    for the layout volume, so on a device of [peb_count] PEBs every other
    volume lives in PEBs [4 .. peb_count-1]. *)
Module Dev.

Definition layout_volume_id : Z := 2147479551.
Definition reserved_ebs : Z := 4.

Definition resize := Pmap.ubi_pmap_resize_volume layout_volume_id reserved_ebs.
Definition markbad := Pmap.ubi_pmap_markbad_replace layout_volume_id reserved_ebs.
Definition run_ops := Pmap.run_ops layout_volume_id reserved_ebs.
Definition extract_then_allocate :=
  Pmap.extract_then_allocate layout_volume_id reserved_ebs.

Definition free_peb : ubi_pmap := zero_pmap.
Definition used (vol ln : Z) : ubi_pmap := mk_pmap vol ln true false.

(** Eight PEBs, volume 0 grown to two PEBs: [resize 0 2] on a fresh map. *)
Definition two_pebs : list ubi_pmap :=
  [free_peb; free_peb; free_peb; free_peb; used 0 0; used 0 1; free_peb;
   free_peb].

(** Eight PEBs, volume 0 grown to three PEBs. *)
Definition three_pebs : list ubi_pmap :=
  [free_peb; free_peb; free_peb; free_peb; used 0 0; used 0 1; used 0 2;
   free_peb].

(** Eight PEBs, volume 0 grown to two PEBs and shrunk to one: PEB 5 is free
    again and still carries LEB number 1. *)
Definition grown_then_shrunk : list ubi_pmap :=
  [free_peb; free_peb; free_peb; free_peb; used 0 0; mk_pmap 0 1 false false;
   free_peb; free_peb].

(** Seven PEBs, volume 0 on PEBs 4, 5 and 6, then PEB 4 (LEB 0) gone bad
    with no free PEB left to replace it. *)
Definition lost_leb0 : list ubi_pmap :=
  [free_peb; free_peb; free_peb; free_peb; mk_pmap 0 0 false true; used 0 1;
   used 0 2].

(** Seven PEBs, volume 0 on PEBs 4, 5 and 6, then PEB 5 (LEB 1) gone bad
    with no free PEB left to replace it: LEBs 0 and 2 remain. *)
Definition lost_leb1 : list ubi_pmap :=
  [free_peb; free_peb; free_peb; free_peb; used 0 0; mk_pmap 0 1 false true;
   used 0 2].

End Dev.

(** ** The layout volume: volume table and PEB map table

    The model below follows the later of the two versions of the layout
    code in drivers/mtd/ubi2/vtbl.c (from [ubi_change_ptbl] on).  The buffers
    the code handles as [void *] are lists of records; the memory
    allocations ([vmalloc], [kzalloc]) are taken to succeed, so the
    [-ENOMEM] exits do not appear. *)
Module Layout.

(** [struct ubi_vtbl_record]: the fields as stored (big-endian fields hold
    the stored 32- or 16-bit pattern). *)
Record ubi_vtbl_record : Type := mk_vtbl_record {
  vt_reserved_pebs : Z;
  vt_alignment : Z;
  vt_data_pad : Z;
  vt_vol_type : Z;
  vt_upd_marker : Z;
  vt_name_len : Z;
  vt_name : list Z;
  vt_flags : Z;
  vt_crc : Z
}.

(** [struct ubi_pmap_record]: a run of the PEB map as stored. *)
Record ubi_pmap_record : Type := mk_pmap_record {
  pr_peb : Z;
  pr_leb : Z;
  pr_num : Z;
  pr_vol_id : Z;
  pr_flags : Z;
  pr_crc : Z
}.

#[global] Instance ubi_vtbl_record_eq_dec : EqDecision ubi_vtbl_record.
Proof. solve_decision. Defined.

#[global] Instance ubi_pmap_record_eq_dec : EqDecision ubi_pmap_record.
Proof. solve_decision. Defined.

(** [struct ubi_volume], the fields the layout code sets. *)
Record ubi_volume : Type := mk_volume {
  vol_reserved_pebs : Z;
  vol_alignment : Z;
  vol_data_pad : Z;
  vol_upd_marker : Z;
  vol_vol_type : Z;
  vol_name_len : Z;
  vol_usable_leb_size : Z;
  vol_name : list Z;
  vol_vol_id : Z;
  vol_used_ebs : Z;
  vol_last_eb_bytes : Z;
  vol_used_bytes : Z;
  vol_ref_count : Z
}.

(** [struct ubi_device], the fields the layout code reads and writes.
    [volumes] is the array [ubi->volumes], indexed by volume index. *)
Record ubi_device : Type := mk_ubi {
  peb_count : Z;
  leb_size : Z;
  min_io_size : Z;
  vtbl_slots : Z;
  vtbl_size : Z;
  ptbl_slots : Z;
  ptbl_size : Z;
  good_peb_count : Z;
  corr_peb_count : Z;
  bad_peb_count : Z;
  avail_pebs : Z;
  rsvd_pebs : Z;
  vol_count : Z;
  autoresize_vol_id : Z;
  volumes : Z -> option ubi_volume;
  peb_map : list ubi_pmap;
  vtbl : option (list ubi_vtbl_record);
  ptbl : option (list ubi_pmap_record)
}.

(** What the layout code takes from outside drivers/mtd/ubi2/vtbl.c and
    pmap.c: the byte order conversions, the checksum of a record (the
    [crc32] of its bytes before the [crc] field), the constants and
    [vol_id2idx] of ubi.h and ubi-media.h, and the EBA and I/O layers over a
    flash state.  A read returns its error code together with what the
    zeroed buffer holds after the call. *)
Record platform : Type := mk_platform {
  be32_to_cpu : Z -> Z;
  cpu_to_be32 : Z -> Z;
  be16_to_cpu : Z -> Z;
  crc32_vtbl_record : ubi_vtbl_record -> Z;
  crc32_pmap_record : ubi_pmap_record -> Z;
  UBI_VOL_NAME_MAX : Z;
  UBI_VID_DYNAMIC : Z;
  UBI_VID_STATIC : Z;
  UBI_DYNAMIC_VOLUME : Z;
  UBI_STATIC_VOLUME : Z;
  UBI_VTBL_AUTORESIZE_FLG : Z;
  UBI_VTBL_RECORD_SIZE : Z;
  UBI_PTBL_RECORD_SIZE : Z;
  UBI_MAX_VOLUMES : Z;
  UBI_MAX_PMAP : Z;
  UBI_PEB_FREE : Z;
  UBI_PEB_BAD : Z;
  UBI_PEB_INUSE : Z;
  UBI_PMAP_INUSE : Z;
  UBI_INT_VOL_COUNT : Z;
  UBI_LAYOUT_VOLUME_ID : Z;
  UBI_LAYOUT_VOLUME_RESERVED_EBS : Z;
  UBI_LAYOUT_VOLUME_EBS : Z;
  UBI_LAYOUT_VOLUME_SIZE : Z;
  UBI_LAYOUT_VOLUME_NAME : list Z;
  vol_id2idx : ubi_device -> Z -> Z;
  flash : Type;
  ubi_eba_read_vtbl : flash -> Z -> Z -> Z * list ubi_vtbl_record;
  ubi_eba_read_ptbl : flash -> Z -> Z -> Z * list ubi_pmap_record;
  ubi_eba_unmap_leb : flash -> Z -> Z * flash;
  ubi_eba_write_vtbl : flash -> Z -> list ubi_vtbl_record -> Z -> Z * flash;
  ubi_eba_write_ptbl : flash -> Z -> list ubi_pmap_record -> Z -> Z * flash;
  ubi_io_is_bad : flash -> Z -> Z
}.

(** Modelled from the spec: ubi.h, which defines
    [UBI_LAYOUT_VOLUME_COPIES] and [UBI_LAYOUT_VOLUME_EBS_PER_COPY], is not
    among the sources.  The layout volume holds exactly two copies, each
    occupying a pair of consecutive logical blocks (the volume table image,
    then the PEB table image); [process_lvol] initialises its arrays with two
    elements and [create_vtbl] writes copy [c] to LEBs
    [c * UBI_LAYOUT_VOLUME_EBS_PER_COPY] and the one after it. *)
Definition UBI_LAYOUT_VOLUME_COPIES : Z := 2.
Definition UBI_LAYOUT_VOLUME_EBS_PER_COPY : Z := 2.

(** The value of a 32-bit pattern read as a C [int]. *)
Definition to_int (z : Z) : Z :=
  let r := z mod 4294967296 in
  if r <? 2147483648 then r else r - 4294967296.

(** [ALIGN(x, a)] of linux/kernel.h, for a power of two [a]. *)
Definition ALIGN (x a : Z) : Z := Z.land (x + a - 1) (Z.lnot (a - 1)).

(** [strnlen(s, maxlen)] on an array of characters. *)
Fixpoint strnlen (s : list Z) (maxlen : nat) : Z :=
  match maxlen, s with
  | O, _ => 0
  | S _, [] => 0
  | S k, c :: rest => if c =? 0 then 0 else 1 + strnlen rest k
  end.

(** [strncmp(s1, s2, n) == 0]. *)
Fixpoint strncmp_eq (s1 s2 : list Z) (n : nat) : bool :=
  match n with
  | O => true
  | S k =>
      let c1 := hd 0 s1 in
      let c2 := hd 0 s2 in
      if negb (c1 =? c2) then false
      else if c1 =? 0 then true
      else strncmp_eq (tl s1) (tl s2) k
  end.

Section WithPlatform.

Variable P : platform.

(** [empty_vtbl_record]: a zero-initialised static whose [crc] field
    [ubi_read_volume_table] sets,
    [empty_vtbl_record.crc = cpu_to_be32(0xf116c36b);]. *)
Definition empty_vtbl_record : ubi_vtbl_record :=
  mk_vtbl_record 0 0 0 0 0 0
    (replicate (Z.to_nat (UBI_VOL_NAME_MAX P + 1)) 0) 0
    (cpu_to_be32 P 4044800875).

(** [empty_pmap_record], as [create_empty_lvol] copies it into the PEB
    table.  The source declares it
    [static struct ubi_vtbl_record empty_pmap_record;], so
    [empty_pmap_record.crc = cpu_to_be32(0xf116c36b);] sets the [crc] field
    of a volume table record (the last field of the record in mainline UBI,
    after the 128 bytes of the name);
    [memcpy(&ptbl[i], &empty_pmap_record, UBI_PTBL_RECORD_SIZE)] takes the
    first bytes of the static, as many as the shorter PEB table record has,
    and they are all zero: the record copied has a [crc] of zero. *)
Definition empty_pmap_record : ubi_pmap_record :=
  mk_pmap_record 0 0 0 0 0 0.

(** [vtbl_check]: the checks of one volume table record after its CRC;
    [None] when the record passes, [Some err] with the code the source
    assigns to [err] otherwise. *)
Definition vtbl_record_check (ubi : ubi_device) (r : ubi_vtbl_record)
  : option Z :=
  let reserved_pebs := to_int (be32_to_cpu P (vt_reserved_pebs r)) in
  let alignment := to_int (be32_to_cpu P (vt_alignment r)) in
  let data_pad := to_int (be32_to_cpu P (vt_data_pad r)) in
  let upd_marker := vt_upd_marker r in
  let vol_type := vt_vol_type r in
  let name_len := be16_to_cpu P (vt_name_len r) in
  let name := vt_name r in
  if reserved_pebs =? 0 then
    if bool_decide (r = empty_vtbl_record) then None else Some 2
  else if (reserved_pebs <? 0) || (alignment <? 0) || (data_pad <? 0)
          || (name_len <? 0) then Some 3
  else if (alignment >? leb_size ubi) || (alignment =? 0) then Some 4
  else if negb (alignment =? 1)
          && negb (Z.land alignment (min_io_size ubi - 1) =? 0) then Some 5
  else if negb (data_pad =? Z.rem (leb_size ubi) alignment) then Some 6
  else if negb (vol_type =? UBI_VID_DYNAMIC P)
          && negb (vol_type =? UBI_VID_STATIC P) then Some 7
  else if negb (upd_marker =? 0) && negb (upd_marker =? 1) then Some 8
  else if reserved_pebs >? good_peb_count ubi then Some 9
  else if name_len >? UBI_VOL_NAME_MAX P then Some 10
  else if hd 0 name =? 0 then Some 11
  else if negb (name_len =? strnlen name (Z.to_nat (name_len + 1)))
  then Some 12
  else None.

(** First loop of [vtbl_check]: [0] when every record passes, [1] on a bad
    CRC, [-EINVAL] on inconsistent data. *)
Fixpoint vtbl_records_check (ubi : ubi_device) (vt : list ubi_vtbl_record)
  : Z :=
  match vt with
  | [] => 0
  | r :: rest =>
      if negb (be32_to_cpu P (vt_crc r) =? crc32_vtbl_record P r) then 1
      else match vtbl_record_check ubi r with
           | Some _ => - EINVAL
           | None => vtbl_records_check ubi rest
           end
  end.

(** Second loop of [vtbl_check]: [true] when two records carry the same
    non-empty name. *)
Definition same_name (r1 r2 : ubi_vtbl_record) : bool :=
  let len1 := be16_to_cpu P (vt_name_len r1) in
  let len2 := be16_to_cpu P (vt_name_len r2) in
  (len1 >? 0) && (len1 =? len2)
  && strncmp_eq (vt_name r1) (vt_name r2) (Z.to_nat len1).

Fixpoint names_clash (vt : list ubi_vtbl_record) : bool :=
  match vt with
  | [] => false
  | r :: rest => existsb (same_name r) rest || names_clash rest
  end.

(** Third loop of [vtbl_check]: the PEB map records. *)
Fixpoint pmap_records_check (ubi : ubi_device) (pt : list ubi_pmap_record)
  : Z :=
  match pt with
  | [] => 0
  | r :: rest =>
      let peb := to_int (be32_to_cpu P (pr_peb r)) in
      let leb := to_int (be32_to_cpu P (pr_leb r)) in
      let vol := to_int (be32_to_cpu P (pr_vol_id r)) in
      let flags := pr_flags r in
      if negb (be32_to_cpu P (pr_crc r) =? crc32_pmap_record P r) then 1
      else if (peb <? 0) || (leb <? 0) then - EINVAL
      else if negb (Z.land flags
                      (Z.lnot (Z.lor (UBI_PEB_FREE P) (UBI_PEB_BAD P))) =? 0)
      then - EINVAL
      else if vol_id2idx P ubi vol >? vtbl_slots ubi + UBI_INT_VOL_COUNT P
      then - EINVAL
      else pmap_records_check ubi rest
  end.

(** [vtbl_check]: zero if both tables are all right, [1] if a CRC is
    incorrect, [-EINVAL] if either contains inconsistent data. *)
Definition vtbl_check (ubi : ubi_device) (vt : list ubi_vtbl_record)
    (pt : list ubi_pmap_record) : Z :=
  let r := vtbl_records_check ubi vt in
  if negb (r =? 0) then r
  else if names_clash vt then - EINVAL
  else pmap_records_check ubi pt.

(** *** Writing and recovering the two copies *)

Definition set_tables (ubi : ubi_device) (vt : list ubi_vtbl_record)
    (pt : list ubi_pmap_record) : ubi_device :=
  mk_ubi (peb_count ubi) (leb_size ubi) (min_io_size ubi) (vtbl_slots ubi)
    (vtbl_size ubi) (ptbl_slots ubi) (ptbl_size ubi) (good_peb_count ubi)
    (corr_peb_count ubi) (bad_peb_count ubi) (avail_pebs ubi) (rsvd_pebs ubi)
    (vol_count ubi) (autoresize_vol_id ubi) (volumes ubi) (peb_map ubi)
    (Some vt) (Some pt).

(** [err = f(...); if (err) goto write_error;] *)
Definition and_then (r : Z * flash P) (k : flash P -> Z * flash P)
  : Z * flash P :=
  let '(err, f) := r in if negb (err =? 0) then (err, f) else k f.

(** [create_vtbl]: unmap and write the volume table LEB of the copy, then
    unmap and write the PEB table LEB that follows it. *)
Definition create_vtbl (ubi : ubi_device) (f : flash P) (copy : Z)
    (vt : list ubi_vtbl_record) (pt : list ubi_pmap_record) : Z * flash P :=
  let leb := copy * UBI_LAYOUT_VOLUME_EBS_PER_COPY in
  and_then (ubi_eba_unmap_leb P f leb) (fun f =>
  and_then (ubi_eba_write_vtbl P f leb vt (vtbl_size ubi)) (fun f =>
  and_then (ubi_eba_unmap_leb P f (leb + 1)) (fun f =>
  ubi_eba_write_ptbl P f (leb + 1) pt (ptbl_size ubi)))).

(** [process_lvol]: the loop that reads the copies into [leb[]] and
    [pmap_leb[]].  A failed read is ignored ([err = 0]); the buffer keeps
    what the read left in it. *)
Fixpoint read_copies (ubi : ubi_device) (f : flash P) (n : nat) (i : Z)
    (leb : list (option (list ubi_vtbl_record)))
    (pmap_leb : list (option (list ubi_pmap_record)))
  : list (option (list ubi_vtbl_record))
    * list (option (list ubi_pmap_record)) :=
  match n with
  | O => (leb, pmap_leb)
  | S k =>
      if i <? UBI_LAYOUT_VOLUME_COPIES then
        let vt := snd (ubi_eba_read_vtbl P f i (vtbl_size ubi)) in
        let pt := snd (ubi_eba_read_ptbl P f (i + 1) (ptbl_size ubi)) in
        read_copies ubi f k (i + UBI_LAYOUT_VOLUME_EBS_PER_COPY)
          (<[Z.to_nat i := Some vt]> leb) (<[Z.to_nat i := Some pt]> pmap_leb)
      else (leb, pmap_leb)
  end.

(** [process_lvol]: the error code, the device (with [ubi->vtbl] and
    [ubi->ptbl] set on success) and the flash.  [leb_pmap] and [pmap_leb]
    of the source are one array. *)
Definition process_lvol (ubi : ubi_device) (f : flash P)
  : Z * ubi_device * flash P :=
  let '(leb, pmap_leb) :=
    read_copies ubi f (Z.to_nat UBI_LAYOUT_VOLUME_COPIES) 0
      [None; None] [None; None] in
  let leb0 := default None (leb !! 0%nat) in
  let leb1 := default None (leb !! 1%nat) in
  let pmap_leb0 := default None (pmap_leb !! 0%nat) in
  let pmap_leb1 := default None (pmap_leb !! 1%nat) in
  let copy_corrupted0 :=
    match leb0, pmap_leb0 with
    | Some vt0, Some pt0 => vtbl_check ubi vt0 pt0
    | _, _ => 1
    end in
  if copy_corrupted0 <? 0 then (- EINVAL, ubi, f)
  else if copy_corrupted0 =? 0 then
    (* LEB 0 is OK *)
    let vt0 := default [] leb0 in
    let pt0 := default [] pmap_leb0 in
    let copy_corrupted1 :=
      match leb1, pmap_leb1 with
      | Some vt1, Some pt1 =>
          if bool_decide (vt0 = vt1) && bool_decide (pt0 = pt1) then 0 else 1
      | _, _ => 1
      end in
    if negb (copy_corrupted1 =? 0) then
      let '(err, f') := create_vtbl ubi f 1 vt0 pt0 in
      if negb (err =? 0) then (err, ubi, f')
      else (0, set_tables ubi vt0 pt0, f')
    else (0, set_tables ubi vt0 pt0, f)
  else
    (* LEB 0 is corrupted or does not exist *)
    let copy_corrupted1 :=
      match leb1 with
      | Some vt1 => vtbl_check ubi vt1 (default [] pmap_leb1)
      | None => 1
      end in
    if copy_corrupted1 <? 0 then (- EINVAL, ubi, f)
    else if negb (copy_corrupted1 =? 0) then
      (* Both LEB 0 and LEB 1 are corrupted *)
      (- EINVAL, ubi, f)
    else
      let vt1 := default [] leb1 in
      let pt1 := default [] pmap_leb1 in
      let '(err, f') := create_vtbl ubi f 0 vt1 pt1 in
      if negb (err =? 0) then (err, ubi, f')
      else (0, set_tables ubi vt1 pt1, f').

(** [concat_pmap_record]: the two records after the call. *)
Definition concat_pmap_record (pr1 pr2 : ubi_pmap_record)
  : ubi_pmap_record * ubi_pmap_record :=
  let peb1 := to_int (be32_to_cpu P (pr_peb pr1)) in
  let leb1 := to_int (be32_to_cpu P (pr_leb pr1)) in
  let num1 := to_int (be32_to_cpu P (pr_num pr1)) in
  let vol_id1 := to_int (be32_to_cpu P (pr_vol_id pr1)) in
  let flags1 := pr_flags pr1 in
  let peb2 := to_int (be32_to_cpu P (pr_peb pr2)) in
  let leb2 := to_int (be32_to_cpu P (pr_leb pr2)) in
  let num2 := to_int (be32_to_cpu P (pr_num pr2)) in
  let vol_id2 := to_int (be32_to_cpu P (pr_vol_id pr2)) in
  let flags2 := pr_flags pr2 in
  if (vol_id1 =? vol_id2) && (flags1 =? flags2) then
    let peb_before := peb1 =? peb2 + num2 in
    let peb_after := peb2 =? peb1 + num1 in
    let leb_before := leb1 =? leb2 + num2 in
    let leb_after := leb2 =? leb1 + num1 in
    if (peb_after && leb_after) || (peb_before && leb_before) then
      let pr1a :=
        if peb_before
        then mk_pmap_record (pr_peb pr2) (pr_leb pr2) (pr_num pr1)
               (pr_vol_id pr1) (pr_flags pr1) (pr_crc pr1)
        else pr1 in
      let pr1b :=
        mk_pmap_record (pr_peb pr1a) (pr_leb pr1a)
          (cpu_to_be32 P (num1 + num2)) (pr_vol_id pr1a) (pr_flags pr1a)
          (pr_crc pr1a) in
      let pr1c :=
        mk_pmap_record (pr_peb pr1b) (pr_leb pr1b) (pr_num pr1b)
          (pr_vol_id pr1b) (pr_flags pr1b)
          (cpu_to_be32 P (crc32_pmap_record P pr1b)) in
      let pr2b :=
        mk_pmap_record (pr_peb pr2) (pr_leb pr2) (pr_num pr2) (pr_vol_id pr2)
          (cpu_to_be32 P (Z.land flags2 (Z.lnot (UBI_PEB_INUSE P))))
          (pr_crc pr2) in
      let pr2c :=
        mk_pmap_record (pr_peb pr2b) (pr_leb pr2b) (pr_num pr2b)
          (pr_vol_id pr2b) (pr_flags pr2b)
          (cpu_to_be32 P (crc32_pmap_record P pr2b)) in
      (pr1c, pr2c)
    else (pr1, pr2)
  else (pr1, pr2).

Definition inuse_not_bad (r : ubi_pmap_record) : bool :=
  negb (Z.land (pr_flags r) (UBI_PEB_INUSE P) =? 0)
  && (Z.land (pr_flags r) (UBI_PEB_BAD P) =? 0).

(** [normalise_ptbl]: the inner loop over [j], for a fixed [i]. *)
Fixpoint normalise_inner (n : nat) (i j : nat)
    (pt : list ubi_pmap_record) : list ubi_pmap_record :=
  match n with
  | O => pt
  | S k =>
      match pt !! i, pt !! j with
      | Some p1, Some p2 =>
          if inuse_not_bad p2 then
            let '(p1', p2') := concat_pmap_record p1 p2 in
            normalise_inner k i (S j) (<[j := p2']> (<[i := p1']> pt))
          else normalise_inner k i (S j) pt
      | _, _ => pt
      end
  end.

(** [normalise_ptbl]: the outer loop over [i]. *)
Fixpoint normalise_outer (n : nat) (i : nat) (slots : nat)
    (pt : list ubi_pmap_record) : list ubi_pmap_record :=
  match n with
  | O => pt
  | S k =>
      match pt !! i with
      | Some p1 =>
          normalise_outer k (S i) slots
            (if inuse_not_bad p1
             then normalise_inner (slots - S i) i (S i) pt else pt)
      | None => pt
      end
  end.

Definition normalise_ptbl (ubi : ubi_device) (pt : list ubi_pmap_record)
  : list ubi_pmap_record :=
  let slots := Z.to_nat (ptbl_slots ubi) in
  normalise_outer (slots - 1) 0 slots pt.

(** [create_empty_lvol]: the loop that fills the records of the layout
    volume itself. *)
Fixpoint reserve_layout_records (ubi : ubi_device) (n : nat) (i : Z)
    (pt : list ubi_pmap_record) : list ubi_pmap_record :=
  match n with
  | O => pt
  | S k =>
      let r0 := default empty_pmap_record (pt !! Z.to_nat i) in
      let r1 :=
        mk_pmap_record
          (Pmap.ubi_pmap_lookup_pnum (UBI_LAYOUT_VOLUME_ID P)
             (UBI_LAYOUT_VOLUME_RESERVED_EBS P) (peb_count ubi)
             (peb_map ubi) (UBI_LAYOUT_VOLUME_ID P) i)
          i (pr_num r0) (UBI_LAYOUT_VOLUME_ID P) (UBI_PMAP_INUSE P)
          (pr_crc r0) in
      let r2 :=
        mk_pmap_record (pr_peb r1) (pr_leb r1) (pr_num r1) (pr_vol_id r1)
          (pr_flags r1) (crc32_pmap_record P r1) in
      reserve_layout_records ubi k (i + 1) (<[Z.to_nat i := r2]> pt)
  end.

(** [create_empty_lvol]: the loop over the copies. *)
Fixpoint create_copies (ubi : ubi_device) (n : nat) (i : Z)
    (vt : list ubi_vtbl_record) (pt : list ubi_pmap_record) (f : flash P)
  : Z * flash P :=
  match n with
  | O => (0, f)
  | S k =>
      let '(err, f') := create_vtbl ubi f i vt pt in
      if negb (err =? 0) then (err, f')
      else create_copies ubi k (i + 1) vt pt f'
  end.

(** [create_empty_lvol]: an empty volume table and a PEB table that holds
    the layout volume only, written to both copies. *)
Definition create_empty_lvol (ubi : ubi_device) (f : flash P)
  : Z * ubi_device * flash P :=
  let vt := replicate (Z.to_nat (vtbl_slots ubi)) empty_vtbl_record in
  let pt0 := replicate (Z.to_nat (ptbl_slots ubi)) empty_pmap_record in
  let pt1 :=
    reserve_layout_records ubi (Z.to_nat (UBI_LAYOUT_VOLUME_SIZE P)) 0 pt0 in
  let pt := normalise_ptbl ubi pt1 in
  let '(err, f') :=
    create_copies ubi (Z.to_nat UBI_LAYOUT_VOLUME_COPIES) 0 vt pt f in
  if negb (err =? 0) then (err, ubi, f')
  else (0, set_tables ubi vt pt, f').

(** The images [process_lvol] reads for a copy: the volume table from the
    first LEB of the copy and the PEB table from the next one. *)
Definition copy_vtbl (ubi : ubi_device) (f : flash P) (copy : Z)
  : list ubi_vtbl_record :=
  snd (ubi_eba_read_vtbl P f (copy * UBI_LAYOUT_VOLUME_EBS_PER_COPY)
         (vtbl_size ubi)).

Definition copy_ptbl (ubi : ubi_device) (f : flash P) (copy : Z)
  : list ubi_pmap_record :=
  snd (ubi_eba_read_ptbl P f (copy * UBI_LAYOUT_VOLUME_EBS_PER_COPY + 1)
         (ptbl_size ubi)).

(** *** Attaching: [ubi_read_volume_table] *)

Definition set_slots (ubi : ubi_device) (vs vsz ps psz : Z) : ubi_device :=
  mk_ubi (peb_count ubi) (leb_size ubi) (min_io_size ubi) vs vsz ps psz
    (good_peb_count ubi) (corr_peb_count ubi) (bad_peb_count ubi)
    (avail_pebs ubi) (rsvd_pebs ubi) (vol_count ubi) (autoresize_vol_id ubi)
    (volumes ubi) (peb_map ubi) (vtbl ubi) (ptbl ubi).

Definition set_peb_map (ubi : ubi_device) (m : list ubi_pmap) : ubi_device :=
  mk_ubi (peb_count ubi) (leb_size ubi) (min_io_size ubi) (vtbl_slots ubi)
    (vtbl_size ubi) (ptbl_slots ubi) (ptbl_size ubi) (good_peb_count ubi)
    (corr_peb_count ubi) (bad_peb_count ubi) (avail_pebs ubi) (rsvd_pebs ubi)
    (vol_count ubi) (autoresize_vol_id ubi) (volumes ubi) m (vtbl ubi)
    (ptbl ubi).

Definition set_peb_counts (ubi : ubi_device) (good corr bad_ avail rsvd : Z)
  : ubi_device :=
  mk_ubi (peb_count ubi) (leb_size ubi) (min_io_size ubi) (vtbl_slots ubi)
    (vtbl_size ubi) (ptbl_slots ubi) (ptbl_size ubi) good corr bad_ avail rsvd
    (vol_count ubi) (autoresize_vol_id ubi) (volumes ubi) (peb_map ubi)
    (vtbl ubi) (ptbl ubi).

(** [ubi->volumes[idx] = vol; ubi->vol_count += 1;] *)
Definition add_volume (ubi : ubi_device) (idx : Z) (vol : ubi_volume)
  : ubi_device :=
  mk_ubi (peb_count ubi) (leb_size ubi) (min_io_size ubi) (vtbl_slots ubi)
    (vtbl_size ubi) (ptbl_slots ubi) (ptbl_size ubi) (good_peb_count ubi)
    (corr_peb_count ubi) (bad_peb_count ubi) (avail_pebs ubi) (rsvd_pebs ubi)
    (vol_count ubi + 1) (autoresize_vol_id ubi)
    (fun i => if i =? idx then Some vol else volumes ubi i) (peb_map ubi)
    (vtbl ubi) (ptbl ubi).

Definition set_autoresize (ubi : ubi_device) (i : Z) : ubi_device :=
  mk_ubi (peb_count ubi) (leb_size ubi) (min_io_size ubi) (vtbl_slots ubi)
    (vtbl_size ubi) (ptbl_slots ubi) (ptbl_size ubi) (good_peb_count ubi)
    (corr_peb_count ubi) (bad_peb_count ubi) (avail_pebs ubi) (rsvd_pebs ubi)
    (vol_count ubi) i (volumes ubi) (peb_map ubi) (vtbl ubi) (ptbl ubi).

(** The [out_free] exit of [ubi_read_volume_table]. *)
Definition out_free (ubi : ubi_device) : ubi_device :=
  mk_ubi (peb_count ubi) (leb_size ubi) (min_io_size ubi) (vtbl_slots ubi)
    (vtbl_size ubi) (ptbl_slots ubi) (ptbl_size ubi) (good_peb_count ubi)
    (corr_peb_count ubi) (bad_peb_count ubi) (avail_pebs ubi) (rsvd_pebs ubi)
    (vol_count ubi) (autoresize_vol_id ubi)
    (fun i => if (0 <=? i) && (i <? vtbl_slots ubi + UBI_INT_VOL_COUNT P)
              then None else volumes ubi i)
    (peb_map ubi) None None.

Definition pmap_resize (ubi : ubi_device) (fuel : nat) (vol rp : Z)
  : option (Z * list ubi_pmap) :=
  Pmap.ubi_pmap_resize_volume (UBI_LAYOUT_VOLUME_ID P)
    (UBI_LAYOUT_VOLUME_RESERVED_EBS P) (peb_count ubi) fuel (peb_map ubi)
    vol rp.

(** [init_layout_volume]: the scan for the good PEBs of the layout volume;
    [err] is the value the function returns when the loop is left. *)
Fixpoint layout_scan (ubi : ubi_device) (f : flash P) (reserved_pebs : Z)
    (n : nat) (pnum ln err : Z) (m : list ubi_pmap) : Z * list ubi_pmap :=
  match n with
  | O => (err, m)
  | S k =>
      let err := ubi_io_is_bad P f pnum in
      if err <? 0 then (err, m)
      else if negb (err =? 0) then
        let '(err, m') :=
          Pmap.ubi_pmap_markbad_replace (UBI_LAYOUT_VOLUME_ID P)
            (UBI_LAYOUT_VOLUME_RESERVED_EBS P) (peb_count ubi) m pnum in
        if err <? 0 then (err, m')
        else layout_scan ubi f reserved_pebs k (pnum + 1) ln err m'
      else
        let ln := ln + 1 in
        if ln =? reserved_pebs then (err, m)
        else layout_scan ubi f reserved_pebs k (pnum + 1) ln err m
  end.

Definition init_layout_volume (fuel : nat) (ubi : ubi_device) (f : flash P)
  : option (Z * ubi_device) :=
  let reserved := UBI_LAYOUT_VOLUME_EBS P in
  let lvol :=
    mk_volume reserved 1 0 0 (UBI_DYNAMIC_VOLUME P)
      (Z.of_nat (length (UBI_LAYOUT_VOLUME_NAME P))) (leb_size ubi)
      (UBI_LAYOUT_VOLUME_NAME P) (UBI_LAYOUT_VOLUME_ID P) reserved reserved
      (reserved * (leb_size ubi - 0)) 1 in
  let ubi := add_volume ubi (vol_id2idx P ubi (UBI_LAYOUT_VOLUME_ID P)) lvol in
  match pmap_resize ubi fuel (UBI_LAYOUT_VOLUME_ID P) reserved with
  | None => None
  | Some (err, m) =>
      let '(err, m') :=
        layout_scan ubi f reserved (Z.to_nat (peb_count ubi)) 0 0 err m in
      Some (err, set_peb_map ubi m')
  end.

(** [init_volumes]: the loop over the PEB map table. *)
Fixpoint init_ptbl_loop (ubi : ubi_device) (pt : list ubi_pmap_record)
    (good bad_ : Z) (m : list ubi_pmap) : Z * (Z * Z * list ubi_pmap) :=
  match pt with
  | [] => (0, (good, bad_, m))
  | r :: rest =>
      let num_blocks := to_int (be32_to_cpu P (pr_num r)) in
      if num_blocks =? 0 then init_ptbl_loop ubi rest good bad_ m
      else
        let '(err, m') :=
          if negb (Z.land (pr_flags r) (UBI_PEB_INUSE P) =? 0) then
            let peb := to_int (be32_to_cpu P (pr_peb r)) in
            let leb := to_int (be32_to_cpu P (pr_leb r)) in
            let vol := to_int (be32_to_cpu P (pr_vol_id r)) in
            if negb (be32_to_cpu P (pr_vol_id r) mod 4294967296
                     =? UBI_LAYOUT_VOLUME_ID P mod 4294967296)
            then Pmap.ubi_pmap_allocate_vol_pebs (UBI_LAYOUT_VOLUME_ID P)
                   (UBI_LAYOUT_VOLUME_RESERVED_EBS P) (peb_count ubi) m vol
                   peb leb num_blocks
                   (Z.land (pr_flags r) (UBI_PEB_BAD P))
            else (0, m)
          else (0, m) in
        if err <? 0 then (err, (good, bad_, m'))
        else if negb (Z.land (pr_flags r) (UBI_PEB_BAD P) =? 0)
        then init_ptbl_loop ubi rest good (bad_ + num_blocks) m'
        else init_ptbl_loop ubi rest (good + num_blocks) bad_ m'
  end.

(** [init_volumes]: the loop over the volume table; [reserved] is the local
    [reserved_pebs]. *)
Fixpoint init_vtbl_loop (vt : list ubi_vtbl_record) (i : Z)
    (ubi : ubi_device) (reserved : Z) : Z * ubi_device * Z :=
  match vt with
  | [] => (0, ubi, reserved)
  | r :: rest =>
      if be32_to_cpu P (vt_reserved_pebs r) mod 4294967296 =? 0
      then init_vtbl_loop rest (i + 1) ubi reserved
      else
        let v_reserved := to_int (be32_to_cpu P (vt_reserved_pebs r)) in
        let v_data_pad := to_int (be32_to_cpu P (vt_data_pad r)) in
        let v_type :=
          if vt_vol_type r =? UBI_VID_DYNAMIC P then UBI_DYNAMIC_VOLUME P
          else UBI_STATIC_VOLUME P in
        let v_name_len := be16_to_cpu P (vt_name_len r) in
        let v_usable := leb_size ubi - v_data_pad in
        let dynamic := v_type =? UBI_DYNAMIC_VOLUME P in
        let vol :=
          mk_volume v_reserved (to_int (be32_to_cpu P (vt_alignment r)))
            v_data_pad (vt_upd_marker r) v_type v_name_len v_usable
            (take (Z.to_nat v_name_len) (vt_name r)) i
            (if dynamic then v_reserved else 1)
            (if dynamic then v_usable else 0)
            (if dynamic then v_reserved * v_usable else (1 - 1) * v_usable)
            0 in
        let autoresize :=
          negb (Z.land (vt_flags r) (UBI_VTBL_AUTORESIZE_FLG P) =? 0) in
        if autoresize && negb (autoresize_vol_id ubi =? -1)
        then (- EINVAL, ubi, reserved)
        else
          let ubi := if autoresize then set_autoresize ubi i else ubi in
          init_vtbl_loop rest (i + 1) (add_volume ubi i vol)
            (reserved + v_reserved)
      end.

Definition init_volumes (ubi : ubi_device) (vt : list ubi_vtbl_record)
    (pt : list ubi_pmap_record) : Z * ubi_device :=
  let '(err, (good, bad_, m)) := init_ptbl_loop ubi pt 0 0 (peb_map ubi) in
  let ubi := set_peb_map (set_peb_counts ubi good 0 bad_ (avail_pebs ubi)
                            (rsvd_pebs ubi)) m in
  if err <? 0 then (err, ubi)
  else
    let ubi := set_peb_counts ubi good 0 bad_ (good - 0) (rsvd_pebs ubi) in
    let lvol_reserved :=
      match volumes ubi (vol_id2idx P ubi (UBI_LAYOUT_VOLUME_ID P)) with
      | Some lvol => vol_reserved_pebs lvol
      | None => 0
      end in
    let '(err, ubi, reserved) := init_vtbl_loop vt 0 ubi lvol_reserved in
    if negb (err =? 0) then (err, ubi)
    else
      (0, set_peb_counts ubi (good_peb_count ubi) (corr_peb_count ubi)
            (bad_peb_count ubi) (avail_pebs ubi - reserved)
            (rsvd_pebs ubi + reserved)).

Definition vol_peb_count (ubi : ubi_device) (m : list ubi_pmap) (vol : Z) : Z :=
  Pmap.ubi_pmap_vol_peb_count (UBI_LAYOUT_VOLUME_ID P)
    (UBI_LAYOUT_VOLUME_RESERVED_EBS P) (peb_count ubi) m vol.

(** [check_pmap]: the lookup loop. *)
Fixpoint check_lookup_loop (ubi : ubi_device) (m : list ubi_pmap) (vol : Z)
    (n : nat) (i : Z) : Z :=
  match n with
  | O => 0
  | S k =>
      if Pmap.ubi_pmap_lookup_pnum (UBI_LAYOUT_VOLUME_ID P)
           (UBI_LAYOUT_VOLUME_RESERVED_EBS P) (peb_count ubi) m vol i <? 0
      then - EINVAL
      else check_lookup_loop ubi m vol k (i + 1)
  end.

Definition check_pmap (ubi : ubi_device) (m : list ubi_pmap)
    (vol : ubi_volume) (vol_idx : Z) : Z :=
  if negb (vol_peb_count ubi m vol_idx =? vol_reserved_pebs vol)
  then - EINVAL
  else check_lookup_loop ubi m vol_idx (Z.to_nat (vol_reserved_pebs vol)) 0.

(** [check_volume_pmap]: the loop over the volume indices. *)
Fixpoint check_volume_loop (ubi : ubi_device) (n : nat) (i : Z)
    (m : list ubi_pmap) : Z * list ubi_pmap :=
  match n with
  | O => (0, m)
  | S k =>
      let count := vol_peb_count ubi m i in
      let released :=
        match Pmap.ubi_pmap_resize_volume (UBI_LAYOUT_VOLUME_ID P)
                (UBI_LAYOUT_VOLUME_RESERVED_EBS P) (peb_count ubi) 0 m i 0 with
        | Some (_, m') => m'
        | None => m
        end in
      match volumes ubi i with
      | None =>
          check_volume_loop ubi k (i + 1)
            (if negb (count =? 0) then released else m)
      | Some vol =>
          if vol_reserved_pebs vol =? 0 then
            check_volume_loop ubi k (i + 1)
              (if count =? 0 then m else released)
          else if negb (count =? 0) then
            let err := check_pmap ubi m vol i in
            if negb (err =? 0) then (err, m)
            else check_volume_loop ubi k (i + 1) m
          else check_volume_loop ubi k (i + 1) m
      end
  end.

Definition check_volume_pmap (fuel : nat) (ubi : ubi_device)
  : option (Z * ubi_device) :=
  match Pmap.ubi_pmap_number_vols (peb_count ubi) fuel (peb_map ubi) with
  | None => None
  | Some number =>
      if number >? UBI_INT_VOL_COUNT P + vtbl_slots ubi
      then Some (- EINVAL, ubi)
      else
        let '(err, m) :=
          check_volume_loop ubi
            (Z.to_nat (vtbl_slots ubi + UBI_INT_VOL_COUNT P)) 0
            (peb_map ubi) in
        Some (err, set_peb_map ubi m)
  end.

(** [ubi_read_volume_table], lines up to the processing of the layout
    volume: the table geometry. *)
Definition table_geometry (ubi : ubi_device) : ubi_device :=
  let vs0 := Z.quot (leb_size ubi) (UBI_VTBL_RECORD_SIZE P) in
  let vs := if vs0 >? UBI_MAX_VOLUMES P then UBI_MAX_VOLUMES P else vs0 in
  let ps0 := Z.quot (leb_size ubi) (UBI_PTBL_RECORD_SIZE P) in
  let ps := if ps0 >? UBI_MAX_PMAP P then UBI_MAX_PMAP P else ps0 in
  set_slots ubi vs (ALIGN (vs * UBI_VTBL_RECORD_SIZE P) (min_io_size ubi))
    ps (ALIGN (ps * UBI_PTBL_RECORD_SIZE P) (min_io_size ubi)).

(** [ubi_read_volume_table]: the lines
    [if (process_lvol(ubi)) { err = create_empty_lvol(ubi); ... }]. *)
Definition recover_or_create (ubi : ubi_device) (f : flash P)
  : Z * ubi_device * flash P :=
  let '(err, ubi1, f1) := process_lvol ubi f in
  if negb (err =? 0) then create_empty_lvol ubi1 f1
  else (0, ubi1, f1).

(** [ubi_read_volume_table]: the lines after the layout volume has been
    processed, [init_volumes] and [check_volume_pmap]. *)
Definition attach_volumes (fuel : nat) (ubi : ubi_device) (f : flash P)
  : option (Z * ubi_device * flash P) :=
  let '(err, ubi) :=
    init_volumes ubi (default [] (vtbl ubi)) (default [] (ptbl ubi)) in
  if negb (err =? 0) then Some (err, out_free ubi, f)
  else
    match check_volume_pmap fuel ubi with
    | None => None
    | Some (err, ubi) =>
        if negb (err =? 0) then Some (err, out_free ubi, f)
        else Some (0, ubi, f)
    end.

(** [ubi_read_volume_table]: the returned code, the device and the flash;
    [None] when a loop without a bound has used up [fuel]. *)
Definition ubi_read_volume_table (fuel : nat) (ubi : ubi_device) (f : flash P)
  : option (Z * ubi_device * flash P) :=
  let ubi := table_geometry ubi in
  match init_layout_volume fuel ubi f with
  | None => None
  | Some (err, ubi) =>
      if negb (err =? 0) then Some (err, out_free ubi, f)
      else
        let '(err, ubi, f) := recover_or_create ubi f in
        if negb (err =? 0) then Some (err, out_free ubi, f)
        else attach_volumes fuel ubi f
  end.

End WithPlatform.
End Layout.

(** ** Vocabulary of the statements about the layout tables *)

(** What [vtbl_check] requires of a volume table record. *)
Definition vtbl_record_sane (P : Layout.platform) (ubi : Layout.ubi_device)
    (r : Layout.ubi_vtbl_record) : Prop :=
  let reserved_pebs :=
    Layout.to_int (Layout.be32_to_cpu P (Layout.vt_reserved_pebs r)) in
  let alignment :=
    Layout.to_int (Layout.be32_to_cpu P (Layout.vt_alignment r)) in
  let data_pad :=
    Layout.to_int (Layout.be32_to_cpu P (Layout.vt_data_pad r)) in
  let name_len := Layout.be16_to_cpu P (Layout.vt_name_len r) in
  Layout.be32_to_cpu P (Layout.vt_crc r) = Layout.crc32_vtbl_record P r
  /\ (reserved_pebs = 0 -> r = Layout.empty_vtbl_record P)
  /\ (reserved_pebs <> 0 ->
      0 < reserved_pebs <= Layout.good_peb_count ubi
      /\ 0 < alignment <= Layout.leb_size ubi
      /\ (alignment = 1
          \/ Z.land alignment (Layout.min_io_size ubi - 1) = 0)
      /\ 0 <= data_pad
      /\ data_pad = Z.rem (Layout.leb_size ubi) alignment
      /\ (Layout.vt_vol_type r = Layout.UBI_VID_DYNAMIC P
          \/ Layout.vt_vol_type r = Layout.UBI_VID_STATIC P)
      /\ (Layout.vt_upd_marker r = 0 \/ Layout.vt_upd_marker r = 1)
      /\ 0 <= name_len <= Layout.UBI_VOL_NAME_MAX P
      /\ hd 0 (Layout.vt_name r) <> 0
      /\ name_len
         = Layout.strnlen (Layout.vt_name r) (Z.to_nat (name_len + 1))).

(** What [vtbl_check] requires of a PEB map record. *)
Definition pmap_record_sane (P : Layout.platform) (ubi : Layout.ubi_device)
    (r : Layout.ubi_pmap_record) : Prop :=
  Layout.be32_to_cpu P (Layout.pr_crc r) = Layout.crc32_pmap_record P r
  /\ 0 <= Layout.to_int (Layout.be32_to_cpu P (Layout.pr_peb r))
  /\ 0 <= Layout.to_int (Layout.be32_to_cpu P (Layout.pr_leb r))
  /\ Z.land (Layout.pr_flags r)
       (Z.lnot (Z.lor (Layout.UBI_PEB_FREE P) (Layout.UBI_PEB_BAD P))) = 0
  /\ Layout.vol_id2idx P ubi
       (Layout.to_int (Layout.be32_to_cpu P (Layout.pr_vol_id r)))
     <= Layout.vtbl_slots ubi + Layout.UBI_INT_VOL_COUNT P.

(** A record whose stored CRC is not the CRC of its contents. *)
Definition vtbl_crc_bad (P : Layout.platform) (r : Layout.ubi_vtbl_record)
  : Prop :=
  Layout.be32_to_cpu P (Layout.vt_crc r) <> Layout.crc32_vtbl_record P r.

Definition pmap_crc_bad (P : Layout.platform) (r : Layout.ubi_pmap_record)
  : Prop :=
  Layout.be32_to_cpu P (Layout.pr_crc r) <> Layout.crc32_pmap_record P r.

(** A volume table record that [init_volumes] does not skip:
    [be32_to_cpu(vtbl[i].reserved_pebs) != 0]. *)
Definition record_in_use (P : Layout.platform) (r : Layout.ubi_vtbl_record)
  : bool :=
  negb (Layout.be32_to_cpu P (Layout.vt_reserved_pebs r) mod 4294967296 =? 0).

(** A record of a volume with the auto-resize flag. *)
Definition record_autoresize (P : Layout.platform)
    (r : Layout.ubi_vtbl_record) : bool :=
  record_in_use P r
  && negb (Z.land (Layout.vt_flags r) (Layout.UBI_VTBL_AUTORESIZE_FLG P) =? 0).

(** The PEBs the volumes of a table reserve. *)
Definition table_reserved_pebs (P : Layout.platform)
    (vt : list Layout.ubi_vtbl_record) : Z :=
  fold_right
    (fun r acc =>
       (if record_in_use P r
        then Layout.to_int (Layout.be32_to_cpu P (Layout.vt_reserved_pebs r))
        else 0) + acc) 0 vt.

(** The PEB map agrees with the volume object at index [j]: a volume that
    is absent, or present with no reserved PEB, has no PEB in the map; a
    volume with reserved PEBs has either none in the map, or exactly the
    reserved number with every LEB below it resolving. *)
Definition volume_agrees (P : Layout.platform) (ubi : Layout.ubi_device)
    (m : list ubi_pmap) (j : Z) : Prop :=
  let count :=
    Pmap.ubi_pmap_vol_peb_count (Layout.UBI_LAYOUT_VOLUME_ID P)
      (Layout.UBI_LAYOUT_VOLUME_RESERVED_EBS P) (Layout.peb_count ubi) m j in
  match Layout.volumes ubi j with
  | None => count = 0
  | Some vol =>
      if Layout.vol_reserved_pebs vol =? 0 then count = 0
      else count = 0
           \/ (count = Layout.vol_reserved_pebs vol
               /\ forall l, 0 <= l < Layout.vol_reserved_pebs vol ->
                    0 <= Pmap.ubi_pmap_lookup_pnum
                           (Layout.UBI_LAYOUT_VOLUME_ID P)
                           (Layout.UBI_LAYOUT_VOLUME_RESERVED_EBS P)
                           (Layout.peb_count ubi) m j l)
  end.

(** The record [create_empty_lvol] makes for LEB [i] of the layout volume:
    [peb] is what [ubi_pmap_lookup_pnum] returns for the LEB, stored as it
    is; [num] is left at zero; [crc] is the checksum of the record, taken
    while its [crc] field is still zero and stored as it is. *)
Definition layout_pmap_record (P : Layout.platform)
    (ubi : Layout.ubi_device) (i : Z) : Layout.ubi_pmap_record :=
  let r :=
    Layout.mk_pmap_record
      (Pmap.ubi_pmap_lookup_pnum (Layout.UBI_LAYOUT_VOLUME_ID P)
         (Layout.UBI_LAYOUT_VOLUME_RESERVED_EBS P) (Layout.peb_count ubi)
         (Layout.peb_map ubi) (Layout.UBI_LAYOUT_VOLUME_ID P) i)
      i 0 (Layout.UBI_LAYOUT_VOLUME_ID P) (Layout.UBI_PMAP_INUSE P) 0 in
  Layout.mk_pmap_record (Layout.pr_peb r) (Layout.pr_leb r) (Layout.pr_num r)
    (Layout.pr_vol_id r) (Layout.pr_flags r) (Layout.crc32_pmap_record P r).

(** The record at slot [k] of a PEB table that holds the layout volume
    only. *)
Definition layout_only_slot (P : Layout.platform) (ubi : Layout.ubi_device)
    (k : nat) : Layout.ubi_pmap_record :=
  if Z.of_nat k <? Layout.UBI_LAYOUT_VOLUME_SIZE P
  then layout_pmap_record P ubi (Z.of_nat k)
  else Layout.empty_pmap_record.

(** A PEB table that holds the layout volume only: one record for each of
    the first [UBI_LAYOUT_VOLUME_SIZE] LEBs of the layout volume, and zero
    records in the other slots. *)
Definition layout_only_ptbl (P : Layout.platform) (ubi : Layout.ubi_device)
  : list Layout.ubi_pmap_record :=
  map (layout_only_slot P ubi) (seq 0 (Z.to_nat (Layout.ptbl_slots ubi))).
(** ** A concrete platform for the examples

    A big-endian machine (the byte order conversions are the identity)
    with the constants of mainline UBI where it has them, four LEBs in the
    layout volume, no bad blocks, and a flash layer kept in memory: a LEB is
    unmapped (it then reads as all ones) or holds the image last written to
    it, and every unmap and write is logged.  The checksum is the [crc32]
    of the kernel ([crc32_le], polynomial [0xedb88320], no final
    inversion) from [UBI_CRC32_INIT] over the bytes of a record before its
    [crc] field.  ubi-media.h is not among the sources: the volume table
    record is laid out as in mainline UBI (172 bytes, 168 of them before the
    [crc]), and the PEB table record as its five fields in order, four
    bytes each, followed by the [crc] (24 bytes); padding bytes are zero. *)
Module DevFlash.
Import Layout.

Inductive leb_state : Type :=
| Unmapped
| VtblImage (vt : list ubi_vtbl_record)
| PtblImage (pt : list ubi_pmap_record).

#[global] Instance leb_state_eq_dec : EqDecision leb_state.
Proof. solve_decision. Defined.

(** The operations the EBA layer has carried out, oldest first. *)
Inductive eba_op : Type :=
| Unmap (l : Z)
| Write (l : Z).

Record ram_flash : Type := mk_flash {
  lebs : list leb_state;
  oplog : list eba_op
}.

Definition UBI_CRC32_INIT : Z := 4294967295.

(** One bit of [crc32_le]:
    [crc = (crc >> 1) ^ ((crc & 1) ? CRCPOLY_LE : 0)]. *)
Definition crc32_bit (crc : Z) : Z :=
  if Z.odd crc then Z.lxor (Z.shiftr crc 1) 3988292384 else Z.shiftr crc 1.

Definition crc32_byte (crc b : Z) : Z :=
  Nat.iter 8 crc32_bit (Z.lxor crc (Z.land b 255)).

Definition crc32 (crc : Z) (buf : list Z) : Z := fold_left crc32_byte buf crc.

(** The bytes of a 32-bit and of a 16-bit field, most significant first. *)
Definition be32_bytes (v : Z) : list Z :=
  [Z.land (Z.shiftr v 24) 255; Z.land (Z.shiftr v 16) 255;
   Z.land (Z.shiftr v 8) 255; Z.land v 255].

Definition be16_bytes (v : Z) : list Z :=
  [Z.land (Z.shiftr v 8) 255; Z.land v 255].

(** The [UBI_VTBL_RECORD_SIZE_CRC] bytes of a volume table record:
    [reserved_pebs], [alignment], [data_pad], [vol_type], [upd_marker],
    [name_len], [name[UBI_VOL_NAME_MAX + 1]], [flags], [padding[23]]. *)
Definition vtbl_record_bytes (r : ubi_vtbl_record) : list Z :=
  be32_bytes (vt_reserved_pebs r) ++ be32_bytes (vt_alignment r)
  ++ be32_bytes (vt_data_pad r) ++ [vt_vol_type r; vt_upd_marker r]
  ++ be16_bytes (vt_name_len r)
  ++ take 128 (vt_name r ++ replicate 128 0)
  ++ [vt_flags r] ++ replicate 23 0.

(** The [UBI_PTBL_RECORD_SIZE_CRC] bytes of a PEB table record. *)
Definition pmap_record_bytes (r : ubi_pmap_record) : list Z :=
  be32_bytes (pr_peb r) ++ be32_bytes (pr_leb r) ++ be32_bytes (pr_num r)
  ++ be32_bytes (pr_vol_id r) ++ be32_bytes (pr_flags r).

Definition vtbl_checksum (r : ubi_vtbl_record) : Z :=
  crc32 UBI_CRC32_INIT (vtbl_record_bytes r).

Definition pmap_checksum (r : ubi_pmap_record) : Z :=
  crc32 UBI_CRC32_INIT (pmap_record_bytes r).

(** A record with the [crc] of its contents, as a tool that writes valid
    tables stores it. *)
Definition with_vtbl_crc (r : ubi_vtbl_record) : ubi_vtbl_record :=
  mk_vtbl_record (vt_reserved_pebs r) (vt_alignment r) (vt_data_pad r)
    (vt_vol_type r) (vt_upd_marker r) (vt_name_len r) (vt_name r)
    (vt_flags r) (vtbl_checksum r).

Definition with_pmap_crc (r : ubi_pmap_record) : ubi_pmap_record :=
  mk_pmap_record (pr_peb r) (pr_leb r) (pr_num r) (pr_vol_id r)
    (pr_flags r) (pmap_checksum r).

(** A record read from erased flash: every byte is [0xFF]. *)
Definition erased_vtbl_record : ubi_vtbl_record :=
  mk_vtbl_record 4294967295 4294967295 4294967295 255 255 65535
    (replicate 128 255) 255 4294967295.

Definition erased_pmap_record : ubi_pmap_record :=
  mk_pmap_record 4294967295 4294967295 4294967295 4294967295 4294967295
    4294967295.

Definition EBADMSG : Z := 74.

Definition read_vtbl (f : ram_flash) (l len : Z)
  : Z * list ubi_vtbl_record :=
  match lebs f !! Z.to_nat l with
  | Some (VtblImage vt) => (0, vt)
  | Some Unmapped =>
      (0, replicate (Z.to_nat (Z.quot len 172)) erased_vtbl_record)
  | _ => (- EBADMSG, [])
  end.

Definition read_ptbl (f : ram_flash) (l len : Z)
  : Z * list ubi_pmap_record :=
  match lebs f !! Z.to_nat l with
  | Some (PtblImage pt) => (0, pt)
  | Some Unmapped =>
      (0, replicate (Z.to_nat (Z.quot len 24)) erased_pmap_record)
  | _ => (- EBADMSG, [])
  end.

Definition store_leb (f : ram_flash) (l : Z) (s : leb_state) (op : eba_op)
  : Z * ram_flash :=
  if (0 <=? l) && (l <? Z.of_nat (length (lebs f)))
  then (0, mk_flash (<[Z.to_nat l := s]> (lebs f)) (oplog f ++ [op]))
  else (- EINVAL, f).

Definition mainline_vol_id2idx (ubi : ubi_device) (vol : Z) : Z :=
  if vol >=? 2147479551 then vol - 2147479551 + vtbl_slots ubi else vol.

(** "layout volume" *)
Definition layout_volume_name : list Z :=
  [108; 97; 121; 111; 117; 116; 32; 118; 111; 108; 117; 109; 101].

Definition dev : platform :=
  {| be32_to_cpu := fun z => z;
     cpu_to_be32 := fun z => z;
     be16_to_cpu := fun z => z;
     crc32_vtbl_record := vtbl_checksum;
     crc32_pmap_record := pmap_checksum;
     UBI_VOL_NAME_MAX := 127;
     UBI_VID_DYNAMIC := 1;
     UBI_VID_STATIC := 2;
     UBI_DYNAMIC_VOLUME := 3;
     UBI_STATIC_VOLUME := 4;
     UBI_VTBL_AUTORESIZE_FLG := 1;
     UBI_VTBL_RECORD_SIZE := 172;
     UBI_PTBL_RECORD_SIZE := 24;
     UBI_MAX_VOLUMES := 128;
     UBI_MAX_PMAP := 128;
     UBI_PEB_FREE := 0;
     UBI_PEB_BAD := 2;
     UBI_PEB_INUSE := 1;
     UBI_PMAP_INUSE := 1;
     UBI_INT_VOL_COUNT := 1;
     UBI_LAYOUT_VOLUME_ID := Dev.layout_volume_id;
     UBI_LAYOUT_VOLUME_RESERVED_EBS := Dev.reserved_ebs;
     UBI_LAYOUT_VOLUME_EBS := 4;
     UBI_LAYOUT_VOLUME_SIZE := 4;
     UBI_LAYOUT_VOLUME_NAME := layout_volume_name;
     vol_id2idx := mainline_vol_id2idx;
     flash := ram_flash;
     ubi_eba_read_vtbl := read_vtbl;
     ubi_eba_read_ptbl := read_ptbl;
     ubi_eba_unmap_leb := fun f l => store_leb f l Unmapped (Unmap l);
     ubi_eba_write_vtbl :=
       fun f l vt _ => store_leb f l (VtblImage vt) (Write l);
     ubi_eba_write_ptbl :=
       fun f l pt _ => store_leb f l (PtblImage pt) (Write l);
     ubi_io_is_bad := fun _ _ => 0 |}.

(** The same platform over a layout volume that cannot be written: unmap
    and write fail with [-EROFS], as the EBA layer does in read-only mode. *)
Definition dev_ro : platform :=
  {| be32_to_cpu := be32_to_cpu dev;
     cpu_to_be32 := cpu_to_be32 dev;
     be16_to_cpu := be16_to_cpu dev;
     crc32_vtbl_record := crc32_vtbl_record dev;
     crc32_pmap_record := crc32_pmap_record dev;
     UBI_VOL_NAME_MAX := UBI_VOL_NAME_MAX dev;
     UBI_VID_DYNAMIC := UBI_VID_DYNAMIC dev;
     UBI_VID_STATIC := UBI_VID_STATIC dev;
     UBI_DYNAMIC_VOLUME := UBI_DYNAMIC_VOLUME dev;
     UBI_STATIC_VOLUME := UBI_STATIC_VOLUME dev;
     UBI_VTBL_AUTORESIZE_FLG := UBI_VTBL_AUTORESIZE_FLG dev;
     UBI_VTBL_RECORD_SIZE := UBI_VTBL_RECORD_SIZE dev;
     UBI_PTBL_RECORD_SIZE := UBI_PTBL_RECORD_SIZE dev;
     UBI_MAX_VOLUMES := UBI_MAX_VOLUMES dev;
     UBI_MAX_PMAP := UBI_MAX_PMAP dev;
     UBI_PEB_FREE := UBI_PEB_FREE dev;
     UBI_PEB_BAD := UBI_PEB_BAD dev;
     UBI_PEB_INUSE := UBI_PEB_INUSE dev;
     UBI_PMAP_INUSE := UBI_PMAP_INUSE dev;
     UBI_INT_VOL_COUNT := UBI_INT_VOL_COUNT dev;
     UBI_LAYOUT_VOLUME_ID := UBI_LAYOUT_VOLUME_ID dev;
     UBI_LAYOUT_VOLUME_RESERVED_EBS := UBI_LAYOUT_VOLUME_RESERVED_EBS dev;
     UBI_LAYOUT_VOLUME_EBS := UBI_LAYOUT_VOLUME_EBS dev;
     UBI_LAYOUT_VOLUME_SIZE := UBI_LAYOUT_VOLUME_SIZE dev;
     UBI_LAYOUT_VOLUME_NAME := UBI_LAYOUT_VOLUME_NAME dev;
     vol_id2idx := vol_id2idx dev;
     flash := ram_flash;
     ubi_eba_read_vtbl := read_vtbl;
     ubi_eba_read_ptbl := read_ptbl;
     ubi_eba_unmap_leb := fun f _ => (- EROFS, f);
     ubi_eba_write_vtbl := fun f _ _ _ => (- EROFS, f);
     ubi_eba_write_ptbl := fun f _ _ _ => (- EROFS, f);
     ubi_io_is_bad := fun _ _ => 0 |}.

(** An eight-PEB device with 512-byte LEBs before the attach: two volume
    table slots and twenty-one PEB table slots. *)
Definition fresh_ubi : ubi_device :=
  mk_ubi 8 512 8 0 0 0 0 0 0 0 0 0 0 (-1) (fun _ => None) (ubi_pmap_init 8)
    None None.

(** Erased flash: no LEB of the layout volume is mapped. *)
Definition erased_flash : ram_flash :=
  mk_flash [Unmapped; Unmapped; Unmapped; Unmapped] [].

(** The device once [ubi_read_volume_table] has set the table geometry and
    the layout volume. *)
Definition attached_ubi : ubi_device :=
  match init_layout_volume dev 0 (table_geometry dev fresh_ubi) erased_flash
  with
  | Some (_, ubi) => ubi
  | None => fresh_ubi
  end.

(** An empty volume table, and a PEB table of unused records, each with
    the [crc] of its contents. *)
Definition empty_vtbl : list ubi_vtbl_record :=
  replicate 2 (empty_vtbl_record dev).

Definition unused_pmap_record : ubi_pmap_record :=
  with_pmap_crc (mk_pmap_record 0 0 0 0 0 0).

Definition empty_ptbl : list ubi_pmap_record :=
  replicate 21 unused_pmap_record.

(** Both copies hold the same valid tables. *)
Definition consistent_flash : ram_flash :=
  mk_flash
    [VtblImage empty_vtbl; PtblImage empty_ptbl; VtblImage empty_vtbl;
     PtblImage empty_ptbl] [].

(** A commit of new tables was interrupted after copy 0 was written and
    before copy 1 was touched: copy 1 still holds the previous, valid
    tables, in which the second PEB table record differs. *)
Definition interrupted_flash : ram_flash :=
  mk_flash
    [VtblImage empty_vtbl; PtblImage empty_ptbl; VtblImage empty_vtbl;
     PtblImage
       (<[1%nat := with_pmap_crc (mk_pmap_record 4 0 0 0 0 0)]> empty_ptbl)]
    [].

(** The same device with its eight PEBs counted as good before the
    attach, and that device once the table geometry and the layout volume
    are set. *)
Definition counted_ubi : ubi_device :=
  mk_ubi 8 512 8 0 0 0 0 8 0 0 0 0 0 (-1) (fun _ => None) (ubi_pmap_init 8)
    None None.

Definition attached_counted_ubi : ubi_device :=
  match init_layout_volume dev 0 (table_geometry dev counted_ubi) erased_flash
  with
  | Some (_, ubi) => ubi
  | None => counted_ubi
  end.

(** The record of a volume named "a" with two PEBs. *)
Definition volume_a_record : ubi_vtbl_record :=
  with_vtbl_crc (mk_vtbl_record 2 1 0 1 0 1 (97 :: replicate 127 0) 0 0).

(** The record of a volume named "b" with one PEB. *)
Definition volume_b_record : ubi_vtbl_record :=
  with_vtbl_crc (mk_vtbl_record 1 1 0 1 0 1 (98 :: replicate 127 0) 0 0).

(** A volume table with no empty slot: the volumes "a" and "b". *)
Definition in_use_vtbl : list ubi_vtbl_record :=
  [volume_a_record; volume_b_record].

(** A device in use: both copies hold the same valid tables, every record
    with the [crc] of its contents. *)
Definition in_use_flash : ram_flash :=
  mk_flash
    [VtblImage in_use_vtbl; PtblImage empty_ptbl; VtblImage in_use_vtbl;
     PtblImage empty_ptbl] [].

(** A device that has been in use, with both copies of its tables damaged:
    in the record of volume "a", copy 0 has a bit of [reserved_pebs]
    flipped and copy 1 a bit of the name, under the [crc] of the record as
    it was written. *)
Definition damaged_flash : ram_flash :=
  mk_flash
    [VtblImage
       [mk_vtbl_record 3 1 0 1 0 1 (97 :: replicate 127 0) 0
          (vt_crc volume_a_record);
        empty_vtbl_record dev];
     PtblImage empty_ptbl;
     VtblImage
       [mk_vtbl_record 2 1 0 1 0 1 (96 :: replicate 127 0) 0
          (vt_crc volume_a_record);
        empty_vtbl_record dev];
     PtblImage empty_ptbl] [].

(** The platform [dev] with six PEBs reserved for the four of the layout
    volume, on a flash whose PEB 1 is bad. *)
Definition dev_worn : platform :=
  {| be32_to_cpu := be32_to_cpu dev;
     cpu_to_be32 := cpu_to_be32 dev;
     be16_to_cpu := be16_to_cpu dev;
     crc32_vtbl_record := crc32_vtbl_record dev;
     crc32_pmap_record := crc32_pmap_record dev;
     UBI_VOL_NAME_MAX := UBI_VOL_NAME_MAX dev;
     UBI_VID_DYNAMIC := UBI_VID_DYNAMIC dev;
     UBI_VID_STATIC := UBI_VID_STATIC dev;
     UBI_DYNAMIC_VOLUME := UBI_DYNAMIC_VOLUME dev;
     UBI_STATIC_VOLUME := UBI_STATIC_VOLUME dev;
     UBI_VTBL_AUTORESIZE_FLG := UBI_VTBL_AUTORESIZE_FLG dev;
     UBI_VTBL_RECORD_SIZE := UBI_VTBL_RECORD_SIZE dev;
     UBI_PTBL_RECORD_SIZE := UBI_PTBL_RECORD_SIZE dev;
     UBI_MAX_VOLUMES := UBI_MAX_VOLUMES dev;
     UBI_MAX_PMAP := UBI_MAX_PMAP dev;
     UBI_PEB_FREE := UBI_PEB_FREE dev;
     UBI_PEB_BAD := UBI_PEB_BAD dev;
     UBI_PEB_INUSE := UBI_PEB_INUSE dev;
     UBI_PMAP_INUSE := UBI_PMAP_INUSE dev;
     UBI_INT_VOL_COUNT := UBI_INT_VOL_COUNT dev;
     UBI_LAYOUT_VOLUME_ID := UBI_LAYOUT_VOLUME_ID dev;
     UBI_LAYOUT_VOLUME_RESERVED_EBS := 6;
     UBI_LAYOUT_VOLUME_EBS := UBI_LAYOUT_VOLUME_EBS dev;
     UBI_LAYOUT_VOLUME_SIZE := UBI_LAYOUT_VOLUME_SIZE dev;
     UBI_LAYOUT_VOLUME_NAME := UBI_LAYOUT_VOLUME_NAME dev;
     vol_id2idx := vol_id2idx dev;
     flash := ram_flash;
     ubi_eba_read_vtbl := ubi_eba_read_vtbl dev;
     ubi_eba_read_ptbl := ubi_eba_read_ptbl dev;
     ubi_eba_unmap_leb := ubi_eba_unmap_leb dev;
     ubi_eba_write_vtbl := ubi_eba_write_vtbl dev;
     ubi_eba_write_ptbl := ubi_eba_write_ptbl dev;
     ubi_io_is_bad := fun _ pnum => if pnum =? 1 then 1 else 0 |}.

(** Tables that describe one volume: volume 0, dynamic, two PEBs, named
    "a", on PEBs 4 and 5. *)
Definition one_volume_vtbl : list ubi_vtbl_record :=
  [mk_vtbl_record 2 1 0 1 0 1 [97] 0 0; empty_vtbl_record dev].

Definition one_volume_ptbl : list ubi_pmap_record :=
  [mk_pmap_record 4 0 2 0 1 0].

(** The attached device once [init_volumes] has read these tables. *)
Definition one_volume_ubi : ubi_device :=
  snd (init_volumes dev attached_ubi one_volume_vtbl one_volume_ptbl).

End DevFlash.

(** ** The PPO byte code *)
Module Ppo.

(** Modelled from the spec: the decoder of the PEB payload offset (PPO).
    The sources hold no decoder; the UBI2 design notes list the categories
    of PPO byte values and the spec's table gives the decoded unit value per
    number of set bits, asking for a decode function with a tagged result
    ([Used n], [Invalid]).  A relocation by [k] blocks is recorded by setting
    the first [k] bytes of the region to zero and leaving the rest erased, so
    a byte of unit value 0 is a used offset unit (programmed to zero,
    possibly read with one or two bit errors) and a byte of unit value 1 is
    still erased; the notes' region [0x00 0x00 0x00 0x00 0x00 0xff 0xff ...]
    is the offset +5. *)
Inductive ppo_unit : Type :=
| Used (n : Z)
| Invalid.

#[global] Instance ppo_unit_eq_dec : EqDecision ppo_unit.
Proof. solve_decision. Defined.

(** The number of set bits of a byte, counted by shifting it out. *)
Fixpoint count_bits (n : nat) (b : Z) : Z :=
  match n with
  | O => 0
  | S k => Z.land b 1 + count_bits k (Z.shiftr b 1)
  end.

Definition ppo_decode_byte (b : Z) : ppo_unit :=
  let c := count_bits 8 b in
  if c <=? 2 then Used 0
  else if c <=? 5 then Invalid
  else Used 1.

Definition is_used (u : ppo_unit) : bool :=
  match u with
  | Used 0 => true
  | _ => false
  end.

Definition is_invalid (u : ppo_unit) : bool :=
  match u with
  | Invalid => true
  | Used _ => false
  end.

(** The number of used bytes at the start of the region. *)
Fixpoint leading_used (region : list Z) : Z :=
  match region with
  | [] => 0
  | b :: rest =>
      if is_used (ppo_decode_byte b) then 1 + leading_used rest else 0
  end.

(** Decoding of a PPO region: [None] is the error that aborts decoding. *)
Definition ppo_decode (region : list Z) : option Z :=
  if existsb (fun b => is_invalid (ppo_decode_byte b)) region then None
  else Some (leading_used region).

(** The number of set bits of a byte, as the positions at which it has a
    one. *)
Definition bits_set (b : Z) : Z :=
  Z.of_nat (length (List.filter (Z.testbit b) [0; 1; 2; 3; 4; 5; 6; 7])).

(** What the table asks of the decoding of one byte. *)
Definition byte_class_ok (b : Z) : bool :=
  let c := bits_set b in
  if c <=? 2 then bool_decide (ppo_decode_byte b = Used 0)
  else if c <=? 5 then bool_decide (ppo_decode_byte b = Invalid)
  else bool_decide (ppo_decode_byte b = Used 1).

End Ppo.
(** ** Array access lemmas *)

Lemma peb_store_length (m : list ubi_pmap) p e :
  length (peb_store m p e) = length m.
Proof.
  unfold peb_store. destruct (0 <=? p); [apply length_insert | reflexivity].
Qed.

Lemma peb_at_store_eq (m : list ubi_pmap) p e :
  0 <= p < Z.of_nat (length m) -> peb_at (peb_store m p e) p = e.
Proof.
  intros Hp. unfold peb_at, peb_store.
  destruct (Z.leb_spec 0 p); [|lia].
  rewrite list_lookup_insert_eq by lia. reflexivity.
Qed.

Lemma peb_at_store_ne (m : list ubi_pmap) p q e :
  p <> q -> peb_at (peb_store m p e) q = peb_at m q.
Proof.
  intros Hne. unfold peb_at, peb_store.
  destruct (Z.leb_spec 0 q); [|reflexivity].
  destruct (Z.leb_spec 0 p); [|reflexivity].
  rewrite list_lookup_insert_ne by lia. reflexivity.
Qed.

Lemma peb_at_store_cases (m : list ubi_pmap) p q e :
  peb_at (peb_store m p e) q = peb_at m q \/
  (q = p /\ 0 <= p < Z.of_nat (length m) /\ peb_at (peb_store m p e) q = e).
Proof.
  destruct (Z.eq_dec p q) as [->|Hne].
  - destruct (Z.leb_spec 0 q) as [H0|H0].
    + destruct (Z.ltb_spec q (Z.of_nat (length m))) as [H1|H1].
      * right. split; [reflexivity|]. split; [lia|].
        apply peb_at_store_eq. lia.
      * left. unfold peb_store. destruct (0 <=? q); [|reflexivity].
        rewrite list_insert_ge by lia. reflexivity.
    + left. unfold peb_store. destruct (Z.leb_spec 0 q); [lia|reflexivity].
  - left. apply peb_at_store_ne. exact Hne.
Qed.

(** ** Invariants of the PEB map operations *)

Section PmapProofs.

Variable UBI_LAYOUT_VOLUME_ID : Z.
Variable UBI_LAYOUT_VOLUME_RESERVED_EBS : Z.
Variable peb_count : Z.

Local Abbreviation area :=
  (Pmap.ubi_pmap_vol_reserved_area UBI_LAYOUT_VOLUME_ID
     UBI_LAYOUT_VOLUME_RESERVED_EBS peb_count).
Local Abbreviation lookup_pnum :=
  (Pmap.ubi_pmap_lookup_pnum UBI_LAYOUT_VOLUME_ID
     UBI_LAYOUT_VOLUME_RESERVED_EBS peb_count).
Local Abbreviation allocate :=
  (Pmap.ubi_pmap_allocate_vol_pebs UBI_LAYOUT_VOLUME_ID
     UBI_LAYOUT_VOLUME_RESERVED_EBS peb_count).
Local Abbreviation resize :=
  (Pmap.ubi_pmap_resize_volume UBI_LAYOUT_VOLUME_ID
     UBI_LAYOUT_VOLUME_RESERVED_EBS peb_count).
Local Abbreviation markbad :=
  (Pmap.ubi_pmap_markbad_replace UBI_LAYOUT_VOLUME_ID
     UBI_LAYOUT_VOLUME_RESERVED_EBS peb_count).
Local Abbreviation apply_op :=
  (Pmap.apply_op UBI_LAYOUT_VOLUME_ID UBI_LAYOUT_VOLUME_RESERVED_EBS
     peb_count).
Local Abbreviation run_ops :=
  (Pmap.run_ops UBI_LAYOUT_VOLUME_ID UBI_LAYOUT_VOLUME_RESERVED_EBS
     peb_count).

Lemma entries_ok_store P n m p e :
  entries_ok P n m -> P e -> entries_ok P n (peb_store m p e).
Proof.
  intros [HF HL] He. split.
  - unfold peb_store. destruct (0 <=? p); [|exact HF].
    apply Forall_insert; assumption.
  - rewrite peb_store_length. exact HL.
Qed.

Lemma free_exclusive e v l :
  is_free e = true -> Pmap.flags_exclusive (mk_pmap v l true (bad e)).
Proof.
  unfold is_free, Pmap.flags_exclusive. simpl.
  destruct (inuse e), (bad e); simpl; congruence.
Qed.

Local Abbreviation excl_ok := (entries_ok Pmap.flags_exclusive).

Lemma allocate_loop_ok n0 vol peb leb bad_arg n i m :
  excl_ok n0 m -> excl_ok n0 (Pmap.allocate_loop vol peb leb bad_arg n i m).
Proof.
  revert i m. induction n as [|n IH]; intros i m Hm; simpl; [exact Hm|].
  apply IH. apply entries_ok_store; [exact Hm|].
  destruct (bad_arg =? 0); reflexivity.
Qed.

Lemma delete_loop_ok n0 vol n p m :
  excl_ok n0 m -> excl_ok n0 (Pmap.delete_loop vol n p m).
Proof.
  revert p m. induction n as [|n IH]; intros p m Hm; simpl; [exact Hm|].
  apply IH. destruct (vol_id (peb_at m p) =? vol); [|exact Hm].
  apply entries_ok_store; [exact Hm|reflexivity].
Qed.

Lemma grow_loop_ok n0 vol rp n p ln m :
  excl_ok n0 m -> excl_ok n0 (snd (Pmap.grow_loop vol rp n p ln m)).
Proof.
  revert p ln m. induction n as [|n IH]; intros p ln m Hm; simpl; [exact Hm|].
  destruct (is_free (peb_at m p)) eqn:Hf; [|apply IH; exact Hm].
  assert (Hs : excl_ok n0
                 (peb_store m p (mk_pmap vol ln true (bad (peb_at m p))))).
  { apply entries_ok_store; [exact Hm|]. apply free_exclusive. exact Hf. }
  destruct (ln + 1 =? rp); [exact Hs|]. apply IH. exact Hs.
Qed.

Lemma shrink_loop_ok n0 vol rp fp lp fuel p ln m m' :
  excl_ok n0 m ->
  Pmap.shrink_loop vol rp fp lp fuel p ln m = Some m' -> excl_ok n0 m'.
Proof.
  revert p ln m. induction fuel as [|f IH]; intros p ln m Hm; simpl;
    [discriminate|].
  destruct ((vol_id (peb_at m p) =? vol) && (lnum (peb_at m p) =? ln - 1)
            && inuse (peb_at m p) && negb (bad (peb_at m p))).
  - assert (Hs : excl_ok n0
        (peb_store m p
           (mk_pmap (vol_id (peb_at m p)) (lnum (peb_at m p)) false
              (bad (peb_at m p))))).
    { apply entries_ok_store; [exact Hm|reflexivity]. }
    destruct (ln - 1 =? rp).
    + intros [= <-]. exact Hs.
    + apply IH. exact Hs.
  - apply IH. exact Hm.
Qed.

Lemma replace_loop_ok n0 src n p m :
  excl_ok n0 m -> excl_ok n0 (snd (Pmap.replace_loop src n p m)).
Proof.
  revert p. induction n as [|n IH]; intros p Hm; simpl; [exact Hm|].
  destruct (is_free (peb_at m p)) eqn:Hf; [|apply IH; exact Hm].
  simpl. apply entries_ok_store; [exact Hm|]. apply free_exclusive. exact Hf.
Qed.

Lemma allocate_ok n0 m vol peb leb blocks bad_arg :
  excl_ok n0 m -> excl_ok n0 (snd (allocate m vol peb leb blocks bad_arg)).
Proof.
  intros Hm. unfold Pmap.ubi_pmap_allocate_vol_pebs.
  destruct (area vol) as [fp lp].
  destruct ((peb <? fp) || (peb + blocks >? lp + 1)); [exact Hm|].
  destruct (Pmap.allocated_loop m vol peb (Z.to_nat blocks) 0); [exact Hm|].
  simpl. apply allocate_loop_ok. exact Hm.
Qed.

Lemma resize_ok n0 fuel m vol rp r m' :
  excl_ok n0 m -> resize fuel m vol rp = Some (r, m') -> excl_ok n0 m'.
Proof.
  intros Hm. unfold Pmap.ubi_pmap_resize_volume.
  destruct (area vol) as [fp lp].
  destruct (rp =? 0).
  { intros [= _ <-]. apply delete_loop_ok. exact Hm. }
  set (c := Pmap.count_loop m vol (Pmap.span fp lp) fp 0).
  destruct (c <? rp).
  - pose proof (grow_loop_ok n0 vol rp (Pmap.span fp lp) fp c m Hm) as Hg.
    destruct (Pmap.grow_loop vol rp (Pmap.span fp lp) fp c m) as [ln mg].
    simpl in Hg. destruct (ln >? rp).
    + destruct (Pmap.shrink_loop vol rp fp lp fuel lp ln mg) as [ms|] eqn:Es;
        [|discriminate].
      intros [= _ <-]. eapply shrink_loop_ok; eauto.
    + intros [= _ <-]. exact Hg.
  - destruct (c >? rp).
    + destruct (Pmap.shrink_loop vol rp fp lp fuel lp c m) as [ms|] eqn:Es;
        [|discriminate].
      intros [= _ <-]. eapply shrink_loop_ok; eauto.
    + intros [= _ <-]. exact Hm.
Qed.

Lemma markbad_ok n0 m pnum :
  excl_ok n0 m -> excl_ok n0 (snd (markbad m pnum)).
Proof.
  intros Hm. unfold Pmap.ubi_pmap_markbad_replace.
  set (m1 := peb_store m pnum _).
  assert (H1 : excl_ok n0 m1).
  { apply entries_ok_store; [exact Hm|reflexivity]. }
  destruct (area (vol_id (peb_at m1 pnum))) as [fp lp].
  destruct (inuse (peb_at m pnum) && negb (bad (peb_at m pnum))); [|exact H1].
  apply replace_loop_ok. exact H1.
Qed.

Lemma apply_op_ok n0 m op m' :
  excl_ok n0 m -> apply_op m op = Some m' -> excl_ok n0 m'.
Proof.
  intros Hm. destruct op as [vol peb leb blocks bad_arg|fuel vol rp|pnum];
    simpl.
  - intros [= <-]. apply allocate_ok. exact Hm.
  - destruct (resize fuel m vol rp) as [[r mr]|] eqn:E; [|discriminate].
    intros [= <-]. eapply resize_ok; eauto.
  - intros [= <-]. apply markbad_ok. exact Hm.
Qed.

Lemma run_ops_ok n0 ops m m' :
  excl_ok n0 m -> run_ops m ops = Some m' -> excl_ok n0 m'.
Proof.
  revert m. induction ops as [|op ops IH]; intros m Hm; simpl.
  - intros [= <-]. exact Hm.
  - destruct (apply_op m op) as [m1|] eqn:E; [|discriminate].
    apply IH. eapply apply_op_ok; eauto.
Qed.

Lemma init_ok : excl_ok (Z.to_nat peb_count) (ubi_pmap_init peb_count).
Proof.
  split.
  - unfold ubi_pmap_init. apply Forall_replicate. reflexivity.
  - unfold ubi_pmap_init. apply length_replicate.
Qed.

(** X23.  In the latest revision of the PEB map, after every sequence of
    [ubi_pmap_allocate_vol_pebs], [ubi_pmap_resize_volume] and
    [ubi_pmap_markbad_replace] calls from the freshly initialised map, no
    entry has both [bad] and [inuse] set, and the map keeps its
    [peb_count] entries. *)
Theorem latest_revision_flags_exclusive (ops : list Pmap.pmap_op)
    (m : list ubi_pmap) :
  run_ops (ubi_pmap_init peb_count) ops = Some m ->
  Forall Pmap.flags_exclusive m /\ length m = Z.to_nat peb_count.
Proof.
  intros Hrun. eapply run_ops_ok; [apply init_ok|exact Hrun].
Qed.

(** *** What the scans choose *)

Lemma lookup_loop_result m vol ln n p0 :
  let r := Pmap.lookup_loop m vol ln n p0 in
  r = -1 \/
  (p0 <= r < p0 + Z.of_nat n /\ owned_by vol (peb_at m r) = true
   /\ lnum (peb_at m r) = ln).
Proof.
  revert p0. induction n as [|n IH]; intros p0; simpl; [left; reflexivity|].
  destruct ((vol_id (peb_at m p0) =? vol) && (lnum (peb_at m p0) =? ln)
            && inuse (peb_at m p0) && negb (bad (peb_at m p0))) eqn:E.
  - right. apply andb_prop in E as [E Hb]. apply andb_prop in E as [E Hi].
    apply andb_prop in E as [Hv Hl]. split; [lia|]. split.
    + unfold owned_by. rewrite Hv, Hi, Hb. reflexivity.
    + apply Z.eqb_eq. exact Hl.
  - destruct (IH (p0 + 1)) as [H|[H1 H2]]; [left; exact H|].
    right. split; [lia|exact H2].
Qed.

Lemma owned_by_not_bad vol e : owned_by vol e = true -> bad e = false.
Proof.
  unfold owned_by. intros H. apply andb_prop in H as [_ H].
  destruct (bad e); [discriminate|reflexivity].
Qed.

Lemma owned_by_inuse vol e : owned_by vol e = true -> inuse e = true.
Proof.
  unfold owned_by. intros H. apply andb_prop in H as [H _].
  apply andb_prop in H as [_ H]. exact H.
Qed.

Lemma lookup_pnum_not_bad m vol ln :
  bad (peb_at m (lookup_pnum m vol ln)) = false.
Proof.
  unfold Pmap.ubi_pmap_lookup_pnum. destruct (area vol) as [fp lp].
  destruct (lookup_loop_result m vol ln (Pmap.span fp lp) fp) as [H|[_ [H _]]].
  - rewrite H. reflexivity.
  - eapply owned_by_not_bad. exact H.
Qed.

Lemma is_free_not_bad e : is_free e = true -> bad e = false.
Proof. unfold is_free. destruct (inuse e), (bad e); simpl; congruence. Qed.

Lemma is_free_not_inuse e : is_free e = true -> inuse e = false.
Proof. unfold is_free. destruct (inuse e), (bad e); simpl; congruence. Qed.

Lemma taken_store m p q v l :
  is_free (peb_at m p) = true ->
  taken_from (peb_at m q)
    (peb_at (peb_store m p (mk_pmap v l true (bad (peb_at m p)))) q).
Proof.
  intros Hf.
  destruct (peb_at_store_cases m p q (mk_pmap v l true (bad (peb_at m p))))
    as [H|(-> & _ & H)]; rewrite H; [left; reflexivity|].
  right. simpl. split; [exact Hf|]. split; [reflexivity|].
  apply is_free_not_bad. exact Hf.
Qed.

Lemma taken_trans e e1 e2 :
  taken_from e e1 -> taken_from e1 e2 -> taken_from e e2.
Proof.
  intros [->|(Hf & Hi & Hb)] H2; [exact H2|].
  destruct H2 as [->|(Hf2 & _)].
  - right. auto.
  - apply is_free_not_inuse in Hf2. congruence.
Qed.

Lemma grow_loop_taken vol rp n p ln m q :
  taken_from (peb_at m q) (peb_at (snd (Pmap.grow_loop vol rp n p ln m)) q).
Proof.
  revert p ln m. induction n as [|n IH]; intros p ln m; simpl;
    [left; reflexivity|].
  destruct (is_free (peb_at m p)) eqn:Hf; [|apply IH].
  destruct (ln + 1 =? rp).
  - simpl. apply taken_store. exact Hf.
  - eapply taken_trans; [apply taken_store; exact Hf|apply IH].
Qed.

Lemma replace_loop_taken src n p m q :
  taken_from (peb_at m q) (peb_at (snd (Pmap.replace_loop src n p m)) q).
Proof.
  revert p. induction n as [|n IH]; intros p; simpl; [left; reflexivity|].
  destruct (is_free (peb_at m p)) eqn:Hf; [|apply IH].
  simpl. apply taken_store. exact Hf.
Qed.

Lemma released_store m p q v l b :
  released_from (peb_at m q) (peb_at (peb_store m p (mk_pmap v l false b)) q).
Proof.
  destruct (peb_at_store_cases m p q (mk_pmap v l false b))
    as [H|(-> & _ & H)]; rewrite H; [left|right]; reflexivity.
Qed.

Lemma released_trans e e1 e2 :
  released_from e e1 -> released_from e1 e2 -> released_from e e2.
Proof.
  intros [->|H1] [->|H2]; unfold released_from; auto.
Qed.

Lemma delete_loop_released vol n p m q :
  released_from (peb_at m q) (peb_at (Pmap.delete_loop vol n p m) q).
Proof.
  revert p m. induction n as [|n IH]; intros p m; simpl;
    [left; reflexivity|].
  destruct (vol_id (peb_at m p) =? vol); [|apply IH].
  eapply released_trans; [apply (released_store m p q 0 0 false)|apply IH].
Qed.

Lemma shrink_loop_released vol rp fp lp fuel p ln m m' q :
  Pmap.shrink_loop vol rp fp lp fuel p ln m = Some m' ->
  released_from (peb_at m q) (peb_at m' q).
Proof.
  revert p ln m. induction fuel as [|f IH]; intros p ln m; simpl;
    [discriminate|].
  destruct ((vol_id (peb_at m p) =? vol) && (lnum (peb_at m p) =? ln - 1)
            && inuse (peb_at m p) && negb (bad (peb_at m p))); [|apply IH].
  destruct (ln - 1 =? rp).
  - intros [= <-]. apply released_store.
  - intros H. eapply released_trans; [apply released_store|].
    eapply IH. exact H.
Qed.

(** An entry that a resize puts in use was free and not bad before. *)
Lemma resize_newly_inuse fuel m vol rp r m' q :
  resize fuel m vol rp = Some (r, m') ->
  inuse (peb_at m' q) = true -> inuse (peb_at m q) = false ->
  is_free (peb_at m q) = true /\ bad (peb_at m' q) = false.
Proof.
  unfold Pmap.ubi_pmap_resize_volume. destruct (area vol) as [fp lp].
  assert (Hrel : forall e e' : ubi_pmap, released_from e e' ->
            inuse e' = true -> inuse e = false ->
            is_free e = true /\ bad e' = false).
  { intros e e' [->|H] H1 H2; congruence. }
  assert (Htk : forall e e' : ubi_pmap, taken_from e e' ->
            inuse e' = true -> inuse e = false ->
            is_free e = true /\ bad e' = false).
  { intros e e' [->|(H & _ & H')] H1 H2; [congruence|auto]. }
  destruct (rp =? 0).
  { intros [= _ <-]. apply Hrel, delete_loop_released. }
  set (c := Pmap.count_loop m vol (Pmap.span fp lp) fp 0).
  destruct (c <? rp).
  - pose proof (grow_loop_taken vol rp (Pmap.span fp lp) fp c m q) as Hg.
    destruct (Pmap.grow_loop vol rp (Pmap.span fp lp) fp c m) as [ln mg].
    simpl in Hg. destruct (ln >? rp).
    + destruct (Pmap.shrink_loop vol rp fp lp fuel lp ln mg) as [ms|] eqn:Es;
        [|discriminate].
      intros [= _ <-] H1 H2.
      destruct (shrink_loop_released _ _ _ _ _ _ _ _ _ q Es) as [Heq|Hn];
        [|congruence].
      rewrite Heq in *. apply Htk; assumption.
    + intros [= _ <-]. apply Htk. exact Hg.
  - destruct (c >? rp).
    + destruct (Pmap.shrink_loop vol rp fp lp fuel lp c m) as [ms|] eqn:Es;
        [|discriminate].
      intros [= _ <-]. eapply Hrel, shrink_loop_released. exact Es.
    + intros [= _ <-]. congruence.
Qed.

(** The index a replacement scan returns, when it is not the error code, is
    the only entry it changes. *)
Lemma replace_loop_index src n p m q :
  peb_at (snd (Pmap.replace_loop src n p m)) q <> peb_at m q ->
  q = fst (Pmap.replace_loop src n p m).
Proof.
  revert p. induction n as [|n IH]; intros p; simpl; [congruence|].
  destruct (is_free (peb_at m p)) eqn:Hf; [|apply IH].
  simpl. intros Hne.
  destruct (peb_at_store_cases m p q
              (mk_pmap (vol_id src) (lnum src) true (bad (peb_at m p))))
    as [H|(-> & _)]; [congruence|reflexivity].
Qed.

(** An entry that [ubi_pmap_markbad_replace] puts in use was free and not
    bad before, and its index is the returned one. *)
Lemma markbad_newly_inuse m pnum q :
  inuse (peb_at (snd (markbad m pnum)) q) = true ->
  inuse (peb_at m q) = false ->
  is_free (peb_at m q) = true /\ bad (peb_at (snd (markbad m pnum)) q) = false
  /\ q = fst (markbad m pnum) /\ q <> pnum.
Proof.
  unfold Pmap.ubi_pmap_markbad_replace.
  set (e1 := mk_pmap (vol_id (peb_at m pnum)) (lnum (peb_at m pnum)) false true).
  set (m1 := peb_store m pnum e1).
  destruct (area (vol_id (peb_at m1 pnum))) as [fp lp].
  assert (H1 : peb_at m1 q = peb_at m q \/ (q = pnum /\ peb_at m1 q = e1)).
  { destruct (peb_at_store_cases m pnum q e1) as [H|(H & _ & H')]; auto. }
  destruct (inuse (peb_at m pnum) && negb (bad (peb_at m pnum))) eqn:Hneed.
  - intros Hi Hn.
    pose proof (replace_loop_taken (peb_at m1 pnum) (Pmap.span fp lp) fp m1 q)
      as Ht.
    pose proof (replace_loop_index (peb_at m1 pnum) (Pmap.span fp lp) fp m1 q)
      as Hidx.
    destruct Ht as [Heq|(Hf & _ & Hb)].
    + rewrite Heq in Hi. destruct H1 as [H1|[-> H1]]; rewrite H1 in Hi;
        [congruence|discriminate].
    + destruct H1 as [H1|[-> H1]]; rewrite H1 in Hf; [|discriminate].
      split; [exact Hf|]. split; [exact Hb|].
      assert (Hq : q = fst (Pmap.replace_loop (peb_at m1 pnum)
                              (Pmap.span fp lp) fp m1)).
      { apply Hidx. intros Heq. rewrite Heq, H1 in Hi. congruence. }
      split; [exact Hq|].
      intros ->. apply andb_prop in Hneed as [Hneed _].
      apply is_free_not_inuse in Hf. congruence.
  - simpl. intros Hi Hn. destruct H1 as [H1|[-> H1]]; rewrite H1 in Hi;
      [congruence|discriminate].
Qed.

(** The PEB numbers of the in-use entries of a map are pairwise distinct. *)
Lemma filter_fst_NoDup {A} (f : nat * A -> bool) (l : list (nat * A)) :
  List.NoDup (List.map fst l) -> List.NoDup (List.map fst (List.filter f l)).
Proof.
  induction l as [|x l IH]; simpl; intros H; [constructor|].
  inversion H as [|? ? Hx Hl]; subst.
  destruct (f x); simpl; [|apply IH; exact Hl].
  constructor; [|apply IH; exact Hl].
  intros Hin. apply Hx. apply List.in_map_iff in Hin as [y [Hy Hin]].
  apply List.filter_In in Hin as [Hin _]. apply List.in_map_iff. eauto.
Qed.

Lemma combine_seq_fst_NoDup {A} (l : list A) s :
  List.NoDup (List.map fst (List.combine (List.seq s (length l)) l)).
Proof.
  revert s. induction l as [|x l IH]; intros s; simpl; [constructor|].
  constructor; [|apply IH].
  intros Hin. apply List.in_map_iff in Hin as [[i y] [Hy Hin]]. simpl in Hy.
  subst i. apply List.in_combine_l in Hin. apply List.in_seq in Hin. lia.
Qed.

Lemma inuse_entries_NoDup (m : list ubi_pmap) :
  List.NoDup (List.map fst (Pmap.inuse_entries m)).
Proof.
  unfold Pmap.inuse_entries. apply filter_fst_NoDup, combine_seq_fst_NoDup.
Qed.


(** C9.  After every sequence of [ubi_pmap_allocate_vol_pebs],
    [ubi_pmap_resize_volume] and [ubi_pmap_markbad_replace] calls from the
    freshly initialised map: the map still has one entry per PEB number, so
    the in-use entries have pairwise distinct PEB numbers; the PEB number
    [ubi_pmap_lookup_pnum] returns is never bad-flagged; every entry a resize
    puts in use was free and not bad; and every entry a bad-block replacement
    puts in use was free and not bad, and is the returned replacement. *)
Theorem bad_pebs_never_chosen (ops : list Pmap.pmap_op) (m : list ubi_pmap) :
  run_ops (ubi_pmap_init peb_count) ops = Some m ->
  (length m = Z.to_nat peb_count
   /\ List.NoDup (List.map fst (Pmap.inuse_entries m)))
  /\ (forall vol ln, bad (peb_at m (lookup_pnum m vol ln)) = false)
  /\ (forall fuel vol rp r m' q,
        resize fuel m vol rp = Some (r, m') ->
        inuse (peb_at m' q) = true -> inuse (peb_at m q) = false ->
        is_free (peb_at m q) = true /\ bad (peb_at m' q) = false)
  /\ (forall pnum q,
        inuse (peb_at (snd (markbad m pnum)) q) = true ->
        inuse (peb_at m q) = false ->
        is_free (peb_at m q) = true
        /\ bad (peb_at (snd (markbad m pnum)) q) = false
        /\ q = fst (markbad m pnum) /\ q <> pnum).
Proof.
  intros Hrun. split; [split|split; [|split]].
  - eapply (run_ops_ok _ ops); [apply init_ok|exact Hrun].
  - apply inuse_entries_NoDup.
  - intros vol ln. apply lookup_pnum_not_bad.
  - intros fuel vol rp r m' q. apply resize_newly_inuse.
  - intros pnum q. apply markbad_newly_inuse.
Qed.

(** *** Bad-block replacement *)

Lemma span_range fp lp q :
  fp <= q < fp + Z.of_nat (Pmap.span fp lp) <-> fp <= q <= lp.
Proof. unfold Pmap.span. lia. Qed.

Lemma area_in_map (m : list ubi_pmap) vol q :
  Pmap.areas_in_map UBI_LAYOUT_VOLUME_RESERVED_EBS peb_count m ->
  fst (area vol) <= q <= snd (area vol) -> 0 <= q < Z.of_nat (length m).
Proof.
  intros [HR Hlen]. unfold Pmap.ubi_pmap_vol_reserved_area.
  destruct (vol =? UBI_LAYOUT_VOLUME_ID); simpl; lia.
Qed.

(** The replacement scan either finds no free entry and returns [-ENOMEM]
    with the map untouched, or stops at the first free entry. *)
Lemma replace_loop_cases src n p m :
  (Pmap.replace_loop src n p m = (- ENOMEM, m)
   /\ forall q, p <= q < p + Z.of_nat n -> is_free (peb_at m q) = false)
  \/ exists r,
       p <= r < p + Z.of_nat n /\ is_free (peb_at m r) = true
       /\ (forall q, p <= q < r -> is_free (peb_at m q) = false)
       /\ Pmap.replace_loop src n p m
          = (r, peb_store m r (mk_pmap (vol_id src) (lnum src) true false)).
Proof.
  revert p. induction n as [|n IH]; intros p; simpl.
  - left. split; [reflexivity|]. intros q Hq. lia.
  - destruct (is_free (peb_at m p)) eqn:Hf.
    + right. exists p. split; [lia|]. split; [exact Hf|].
      split; [intros q Hq; lia|].
      rewrite (is_free_not_bad _ Hf). reflexivity.
    + destruct (IH (p + 1)) as [[He Hn]|(r & Hr & Hfr & Hlow & He)].
      * left. split; [exact He|]. intros q Hq.
        destruct (Z.eq_dec q p) as [->|Hne]; [exact Hf|]. apply Hn. lia.
      * right. exists r. split; [lia|]. split; [exact Hfr|].
        split; [|exact He]. intros q Hq.
        destruct (Z.eq_dec q p) as [->|Hne]; [exact Hf|]. apply Hlow. lia.
Qed.

(** C5.  [ubi_pmap_markbad_replace] always marks the entry at [pnum] bad.
    If the entry was in use and not bad, the lowest-index free, non-bad PEB
    of the area of the entry's volume is put in use with the entry's
    [(vol_id, lnum)] and its index is returned; when that area has no free,
    non-bad PEB the negative code [-ENOMEM] is returned.  If the entry was
    not in use, [pnum] itself is returned. *)
Theorem markbad_replace_spec (m : list ubi_pmap) (pnum : Z) :
  Pmap.areas_in_map UBI_LAYOUT_VOLUME_RESERVED_EBS peb_count m ->
  0 <= pnum < peb_count ->
  let e := peb_at m pnum in
  let fp := fst (area (vol_id e)) in
  let lp := snd (area (vol_id e)) in
  let r := fst (markbad m pnum) in
  let m' := snd (markbad m pnum) in
  bad (peb_at m' pnum) = true
  /\ (inuse e = true -> bad e = false ->
      ((exists q, fp <= q <= lp /\ is_free (peb_at m q) = true) ->
       fp <= r <= lp /\ is_free (peb_at m r) = true
       /\ (forall q, fp <= q < r -> is_free (peb_at m q) = false)
       /\ peb_at m' r = mk_pmap (vol_id e) (lnum e) true false
       /\ peb_at m' pnum = mk_pmap (vol_id e) (lnum e) false true
       /\ (forall q, q <> pnum -> q <> r -> peb_at m' q = peb_at m q))
      /\ ((forall q, fp <= q <= lp -> is_free (peb_at m q) = false) ->
          r = - ENOMEM /\ r < 0
          /\ m' = peb_store m pnum (mk_pmap (vol_id e) (lnum e) false true)))
  /\ (inuse e = false ->
      r = pnum
      /\ m' = peb_store m pnum (mk_pmap (vol_id e) (lnum e) false true)).
Proof.
  intros Hmap Hp e fp lp r m'.
  assert (Hlen : 0 <= pnum < Z.of_nat (length m)) by (destruct Hmap; lia).
  subst r m'. unfold Pmap.ubi_pmap_markbad_replace. fold e.
  set (e1 := mk_pmap (vol_id e) (lnum e) false true).
  set (m1 := peb_store m pnum e1).
  assert (H1 : peb_at m1 pnum = e1) by (apply peb_at_store_eq; exact Hlen).
  rewrite H1. change (vol_id e1) with (vol_id e).
  pose proof (area_in_map m (vol_id e)) as Harea.
  destruct (area (vol_id e)) as [fp' lp'] eqn:Ea. simpl in fp, lp, Harea.
  subst fp lp.
  destruct (inuse e) eqn:Hi; destruct (bad e) eqn:Hb; simpl.
  - (* in use and already bad: no replacement *)
    split; [rewrite H1; reflexivity|]. split; [intros _ [=]|intros [=]].
  - (* in use and good: replacement scan *)
    assert (Hfree : forall q, is_free (peb_at m1 q) = is_free (peb_at m q)).
    { intros q. destruct (Z.eq_dec q pnum) as [->|Hne].
      - rewrite H1. fold e. unfold is_free. rewrite Hi. reflexivity.
      - unfold m1. rewrite peb_at_store_ne by congruence. reflexivity. }
    destruct (replace_loop_cases e1 (Pmap.span fp' lp') fp' m1)
      as [[He Hn]|(r & Hr & Hfr & Hlow & He)]; rewrite He; simpl.
    + split.
      * rewrite H1. reflexivity.
      * split; [|intros [=]]. intros _ _. split.
        -- intros (q & Hq & Hfq). rewrite <- Hfree, Hn in Hfq; [discriminate|].
           apply span_range. exact Hq.
        -- intros _. split; [reflexivity|]. split; [reflexivity|reflexivity].
    + apply span_range in Hr.
      assert (Hrp : r <> pnum).
      { intros ->. rewrite H1 in Hfr. discriminate. }
      assert (Hrlen : 0 <= r < Z.of_nat (length m1)).
      { unfold m1. rewrite peb_store_length. apply Harea; assumption. }
      split.
      * rewrite peb_at_store_ne by exact Hrp. rewrite H1. reflexivity.
      * split; [|intros [=]]. intros _ _. split.
        -- intros _. split; [exact Hr|]. split; [rewrite <- Hfree; exact Hfr|].
           split; [intros q Hq; rewrite <- Hfree; apply Hlow; exact Hq|].
           split; [apply peb_at_store_eq; exact Hrlen|].
           split; [rewrite peb_at_store_ne by exact Hrp; exact H1|].
           intros q Hq1 Hq2. rewrite peb_at_store_ne by congruence.
           unfold m1. apply peb_at_store_ne. congruence.
        -- intros Hnone. rewrite Hfree, Hnone in Hfr; [discriminate|exact Hr].
  - (* not in use *)
    split; [rewrite H1; reflexivity|]. split; [intros [=]|].
    intros _. split; reflexivity.
  - split; [rewrite H1; reflexivity|]. split; [intros [=]|].
    intros _. split; reflexivity.
Qed.

(** *** Growth *)

Lemma count_free_nonneg m n p : 0 <= Pmap.count_free m n p.
Proof.
  revert p. induction n as [|n IH]; intros p; simpl; [lia|].
  specialize (IH (p + 1)). destruct (is_free (peb_at m p)); lia.
Qed.

Lemma count_free_store_before m n p p' e :
  p < p' -> Pmap.count_free (peb_store m p e) n p' = Pmap.count_free m n p'.
Proof.
  revert p'. induction n as [|n IH]; intros p' Hlt; simpl; [reflexivity|].
  rewrite peb_at_store_ne by lia. rewrite IH by lia. reflexivity.
Qed.

Lemma count_free_S m n p :
  Pmap.count_free m (S n) p
  = (if is_free (peb_at m p) then 1 else 0) + Pmap.count_free m n (p + 1).
Proof. reflexivity. Qed.

Lemma count_loop_nonneg m vol n p c :
  0 <= c -> 0 <= Pmap.count_loop m vol n p c.
Proof.
  revert p c. induction n as [|n IH]; intros p c Hc; simpl; [exact Hc|].
  apply IH. destruct (owned_by vol (peb_at m p)); lia.
Qed.

Lemma grow_loop_short vol rp n p ln m :
  (forall q, p <= q < p + Z.of_nat n -> 0 <= q < Z.of_nat (length m)) ->
  ln + Pmap.count_free m n p < rp ->
  fst (Pmap.grow_loop vol rp n p ln m) = ln + Pmap.count_free m n p
  /\ length (snd (Pmap.grow_loop vol rp n p ln m)) = length m
  /\ forall q, peb_at (snd (Pmap.grow_loop vol rp n p ln m)) q
               = grown_entry m vol p ln n q.
Proof.
  revert p ln m. induction n as [|n IH]; intros p ln m Hin Hlt.
  - simpl. split; [lia|]. split; [reflexivity|]. intros q.
    unfold grown_entry. destruct (Z.leb_spec p q), (Z.ltb_spec q (p + Z.of_nat 0));
      simpl; try reflexivity; lia.
  - rewrite count_free_S in *. cbn [Pmap.grow_loop].
    pose proof (count_free_nonneg m n (p + 1)) as Hnn.
    destruct (is_free (peb_at m p)) eqn:Hf.
    + destruct (Z.eqb_spec (ln + 1) rp) as [Heq|_]; [lia|].
      set (m1 := peb_store m p (mk_pmap vol ln true (bad (peb_at m p)))).
      assert (Hc : Pmap.count_free m1 n (p + 1) = Pmap.count_free m n (p + 1))
        by (apply count_free_store_before; lia).
      destruct (IH (p + 1) (ln + 1) m1) as (H1 & H2 & H3).
      { intros q Hq. unfold m1. rewrite peb_store_length. apply Hin. lia. }
      { rewrite Hc. lia. }
      split; [rewrite H1, Hc; lia|].
      split; [rewrite H2; apply peb_store_length|].
      intros q. rewrite H3. unfold grown_entry.
      destruct (Z.eq_dec q p) as [->|Hne].
      * destruct (Z.leb_spec (p + 1) p); [lia|]. simpl.
        destruct (Z.leb_spec p p); [|lia].
        destruct (Z.ltb_spec p (p + Z.of_nat (S n))); [|lia]. simpl. rewrite Hf.
        unfold m1. rewrite peb_at_store_eq by (apply Hin; lia).
        rewrite Z.sub_diag. simpl. rewrite (is_free_not_bad _ Hf).
        f_equal. lia.
      * unfold m1 at 1 3. rewrite peb_at_store_ne by congruence.
        destruct (Z.leb_spec (p + 1) q), (Z.leb_spec p q); try lia;
          simpl; try reflexivity.
        destruct (Z.ltb_spec q (p + 1 + Z.of_nat n)), (Z.ltb_spec q (p + Z.of_nat (S n)));
          try lia; simpl; try reflexivity.
        destruct (is_free (peb_at m q)); [|reflexivity].
        f_equal. replace (Z.to_nat (q - p)) with (S (Z.to_nat (q - (p + 1))))
          by lia.
        rewrite count_free_S, Hf. unfold m1.
        rewrite count_free_store_before by lia. lia.
    + destruct (IH (p + 1) ln m) as (H1 & H2 & H3).
      { intros q Hq. apply Hin. lia. }
      { lia. }
      split; [rewrite H1; lia|]. split; [exact H2|].
      intros q. rewrite H3. unfold grown_entry.
      destruct (Z.eq_dec q p) as [->|Hne].
      * destruct (Z.leb_spec (p + 1) p); [lia|]. simpl.
        rewrite Hf, andb_false_r. reflexivity.
      * destruct (Z.leb_spec (p + 1) q), (Z.leb_spec p q); try lia;
          simpl; try reflexivity.
        destruct (Z.ltb_spec q (p + 1 + Z.of_nat n)), (Z.ltb_spec q (p + Z.of_nat (S n)));
          try lia; simpl; try reflexivity.
        destruct (is_free (peb_at m q)); [|reflexivity].
        f_equal. replace (Z.to_nat (q - p)) with (S (Z.to_nat (q - (p + 1))))
          by lia.
        rewrite count_free_S, Hf. lia.
Qed.

(** Every call of [ubi_pmap_resize_volume] that returns, returns zero. *)
Lemma resize_returns_zero fuel m vol rp r m' :
  resize fuel m vol rp = Some (r, m') -> r = 0.
Proof.
  unfold Pmap.ubi_pmap_resize_volume. destruct (area vol) as [fp lp].
  destruct (rp =? 0); [intros [= <- _]; reflexivity|].
  destruct (if _ <? rp then _ else _) as [ln mg].
  destruct (ln >? rp).
  - destruct (Pmap.shrink_loop _ _ _ _ _ _ _ _); [|discriminate].
    intros [= <- _]. reflexivity.
  - intros [= <- _]. reflexivity.
Qed.

(** C7, as the code has it.  When [ubi_pmap_resize_volume] is asked to grow a
    volume beyond the free, non-bad PEBs of its area, it puts every one of
    them in use for the volume, numbering them in ascending PEB order from
    the volume's current count, leaves every other entry as it was, and
    returns zero: the return value is that of a complete growth and does
    not report the shortfall. *)
Theorem resize_partial_growth (fuel : nat) (m : list ubi_pmap)
    (vol rp : Z) :
  Pmap.areas_in_map UBI_LAYOUT_VOLUME_RESERVED_EBS peb_count m ->
  let fp := fst (area vol) in
  let lp := snd (area vol) in
  let c := Pmap.ubi_pmap_vol_peb_count UBI_LAYOUT_VOLUME_ID
             UBI_LAYOUT_VOLUME_RESERVED_EBS peb_count m vol in
  c + Pmap.count_free m (Pmap.span fp lp) fp < rp ->
  exists m',
    resize fuel m vol rp = Some (0, m')
    /\ length m' = length m
    /\ (forall q, fp <= q <= lp -> is_free (peb_at m q) = true ->
          peb_at m' q
          = mk_pmap vol (c + Pmap.count_free m (Z.to_nat (q - fp)) fp)
              true false)
    /\ (forall q, ~ (fp <= q <= lp /\ is_free (peb_at m q) = true) ->
          peb_at m' q = peb_at m q).
Proof.
  intros Hmap fp lp c Hlt.
  pose proof (area_in_map m vol) as Harea.
  subst fp lp c. unfold Pmap.ubi_pmap_vol_peb_count in *.
  unfold Pmap.ubi_pmap_resize_volume.
  destruct (area vol) as [fp lp]. simpl in *.
  set (c := Pmap.count_loop m vol (Pmap.span fp lp) fp 0) in *.
  pose proof (count_loop_nonneg m vol (Pmap.span fp lp) fp 0 ltac:(lia)) as Hc.
  fold c in Hc.
  pose proof (count_free_nonneg m (Pmap.span fp lp) fp) as Hf.
  destruct (Z.eqb_spec rp 0) as [Hz|_]; [lia|].
  destruct (Z.ltb_spec c rp) as [_|Hge]; [|lia].
  destruct (grow_loop_short vol rp (Pmap.span fp lp) fp c m) as (H1 & H2 & H3).
  { intros q Hq. apply Harea; [exact Hmap|]. apply span_range. exact Hq. }
  { exact Hlt. }
  destruct (Pmap.grow_loop vol rp (Pmap.span fp lp) fp c m) as [ln mg].
  simpl in H1, H2, H3.
  destruct (Z.gtb_spec ln rp) as [Hgt|_]; [lia|].
  exists mg. split; [reflexivity|]. split; [exact H2|]. split.
  - intros q Hq Hfq. rewrite H3. unfold grown_entry.
    apply span_range in Hq.
    destruct (Z.leb_spec fp q); [|lia].
    destruct (Z.ltb_spec q (fp + Z.of_nat (Pmap.span fp lp))); [|lia].
    simpl. rewrite Hfq. reflexivity.
  - intros q Hq. rewrite H3. unfold grown_entry.
    destruct (Z.leb_spec fp q); simpl; [|reflexivity].
    destruct (Z.ltb_spec q (fp + Z.of_nat (Pmap.span fp lp))); simpl; [|reflexivity].
    destruct (is_free (peb_at m q)) eqn:Hfq; [|reflexivity].
    exfalso. apply Hq. split; [|reflexivity]. apply span_range. lia.
Qed.

(** *** Shrinking and deletion *)

Lemma shrink_loop_S vol rp fp lp f p ln m :
  Pmap.shrink_loop vol rp fp lp (S f) p ln m
  = if shrink_test vol ln (peb_at m p)
    then if ln - 1 =? rp
         then Some (peb_store m p (released (peb_at m p)))
         else Pmap.shrink_loop vol rp fp lp f (circ_prev fp lp p) (ln - 1)
                (peb_store m p (released (peb_at m p)))
    else Pmap.shrink_loop vol rp fp lp f (circ_prev fp lp p) ln m.
Proof. reflexivity. Qed.

Lemma shrink_test_true vol ln e :
  shrink_test vol ln e = true <-> owned_by vol e = true /\ lnum e = ln - 1.
Proof.
  unfold shrink_test, owned_by.
  destruct (Z.eqb_spec (vol_id e) vol), (Z.eqb_spec (lnum e) (ln - 1)),
    (inuse e), (bad e); simpl; intuition congruence.
Qed.

(** Descending [n] steps over entries that fail the test. *)
Lemma shrink_miss_steps vol rp fp lp ln m n p fuel :
  fp <= p - Z.of_nat n ->
  (forall x, p - Z.of_nat n < x <= p ->
             shrink_test vol ln (peb_at m x) = false) ->
  Pmap.shrink_loop vol rp fp lp (n + fuel) p ln m
  = Pmap.shrink_loop vol rp fp lp fuel (p - Z.of_nat n) ln m.
Proof.
  revert p. induction n as [|n IH]; intros p Hfp Hmiss.
  - simpl. f_equal. lia.
  - change (S n + fuel)%nat with (S (n + fuel)). rewrite shrink_loop_S.
    rewrite Hmiss by lia. unfold circ_prev.
    destruct (Z.ltb_spec (p - 1) fp); [lia|].
    rewrite IH; [f_equal; lia|lia|]. intros x Hx. apply Hmiss. lia.
Qed.

(** From any position of the area the scan reaches the only entry that
    passes the test within one turn. *)
Lemma shrink_find vol rp fp lp ln m p q fuel :
  fp <= p <= lp -> fp <= q <= lp ->
  (forall x, fp <= x <= lp -> x <> q ->
             shrink_test vol ln (peb_at m x) = false) ->
  (Pmap.span fp lp <= fuel)%nat ->
  exists fuel',
    (fuel - Pmap.span fp lp < fuel')%nat /\
    Pmap.shrink_loop vol rp fp lp fuel p ln m
    = Pmap.shrink_loop vol rp fp lp fuel' q ln m.
Proof.
  intros Hp Hq Hmiss Hfuel. unfold Pmap.span in *.
  destruct (Z_le_gt_dec q p) as [Hle|Hgt].
  - exists (fuel - Z.to_nat (p - q))%nat. split; [lia|].
    replace fuel with (Z.to_nat (p - q) + (fuel - Z.to_nat (p - q)))%nat at 1
      by lia.
    rewrite shrink_miss_steps; [f_equal; lia|lia|].
    intros x Hx. apply Hmiss; lia.
  - exists (fuel - Z.to_nat (p - fp) - 1 - Z.to_nat (lp - q))%nat.
    split; [lia|].
    replace fuel with
      (Z.to_nat (p - fp)
       + S (Z.to_nat (lp - q)
            + (fuel - Z.to_nat (p - fp) - 1 - Z.to_nat (lp - q))))%nat at 1
      by lia.
    rewrite shrink_miss_steps; [|lia|intros x Hx; apply Hmiss; lia].
    replace (p - Z.of_nat (Z.to_nat (p - fp))) with fp by lia.
    rewrite shrink_loop_S. rewrite Hmiss by lia. unfold circ_prev.
    destruct (Z.ltb_spec (fp - 1) fp); [|lia].
    rewrite shrink_miss_steps; [f_equal; lia|lia|].
    intros x Hx. apply Hmiss; lia.
Qed.

Lemma shrink_loop_spec vol rp fp lp m kk :
  (forall x, fp <= x <= lp -> 0 <= x < Z.of_nat (length m)) ->
  0 <= rp ->
  (forall p q, fp <= p <= lp -> fp <= q <= lp ->
     owned_by vol (peb_at m p) = true -> owned_by vol (peb_at m q) = true ->
     lnum (peb_at m p) = lnum (peb_at m q) -> p = q) ->
  (forall l, rp <= l < kk ->
     exists p, fp <= p <= lp /\ owned_by vol (peb_at m p) = true
               /\ lnum (peb_at m p) = l) ->
  forall (k : nat) ln p mc fuel,
    ln = rp + Z.of_nat (S k) -> ln <= kk -> fp <= p <= lp ->
    length mc = length m ->
    (forall x, peb_at mc x = shrunk_entry m vol fp lp ln x) ->
    (S k * Pmap.span fp lp <= fuel)%nat ->
    exists m',
      Pmap.shrink_loop vol rp fp lp fuel p ln mc = Some m'
      /\ length m' = length m
      /\ forall x, peb_at m' x = shrunk_entry m vol fp lp rp x.
Proof.
  intros Hin Hrp Huniq Hex.
  induction k as [|k IH]; intros ln p mc fuel Hln Hkk Hp Hlen Hmc Hfuel.
  all: destruct (Hex (ln - 1)) as (q & Hq & Hown & Hlq); [lia|].
  all: assert (Hqc : peb_at mc q = peb_at m q)
         by (rewrite Hmc; unfold shrunk_entry;
             destruct (Z.leb_spec ln (lnum (peb_at m q))); [lia|];
             rewrite andb_false_r; reflexivity).
  all: assert (Htest : shrink_test vol ln (peb_at mc q) = true)
         by (rewrite Hqc; apply shrink_test_true; auto).
  all: assert (Hmiss : forall x, fp <= x <= lp -> x <> q ->
                 shrink_test vol ln (peb_at mc x) = false).
  1,3: intros x Hx Hne;
       destruct (shrink_test vol ln (peb_at mc x)) eqn:Et; [|reflexivity];
       exfalso; apply shrink_test_true in Et as [Eo El];
       rewrite Hmc in Eo, El; unfold shrunk_entry in Eo, El;
       destruct ((fp <=? x) && (x <=? lp) && owned_by vol (peb_at m x)
                 && (ln <=? lnum (peb_at m x)));
       [apply owned_by_inuse in Eo; discriminate|];
       apply Hne; apply Huniq; auto; congruence.
  all: assert (Hstep : forall x,
         peb_at (peb_store mc q (released (peb_at mc q))) x
         = shrunk_entry m vol fp lp (ln - 1) x).
  1,3: intros x; destruct (Z.eq_dec x q) as [->|Hne];
       [ rewrite peb_at_store_eq by (rewrite Hlen; apply Hin; exact Hq);
         rewrite Hqc; unfold shrunk_entry; rewrite Hown;
         destruct (Z.leb_spec fp q), (Z.leb_spec q lp),
           (Z.leb_spec (ln - 1) (lnum (peb_at m q))); try lia; reflexivity
       | rewrite peb_at_store_ne by congruence; rewrite Hmc;
         unfold shrunk_entry;
         destruct ((fp <=? x) && (x <=? lp) && owned_by vol (peb_at m x))
           eqn:Ex; simpl; [|reflexivity];
         destruct (Z.leb_spec ln (lnum (peb_at m x))),
           (Z.leb_spec (ln - 1) (lnum (peb_at m x))); try lia;
           try reflexivity;
         exfalso; apply Hne;
         apply andb_prop in Ex as [Ex Eo]; apply andb_prop in Ex as [E1 E2];
         apply Huniq; auto; lia ].
  all: assert (Hs1 : (Pmap.span fp lp <= fuel)%nat) by nia.
  all: destruct (shrink_find vol rp fp lp ln mc p q fuel Hp Hq Hmiss Hs1)
         as (fuel' & Hf' & ->).
  all: destruct fuel' as [|f]; [lia|].
  all: rewrite shrink_loop_S, Htest.
  - destruct (Z.eqb_spec (ln - 1) rp) as [E|E]; [|lia].
    eexists. split; [reflexivity|]. split.
    + rewrite peb_store_length. exact Hlen.
    + intros x. rewrite Hstep, E. reflexivity.
  - destruct (Z.eqb_spec (ln - 1) rp) as [E|E]; [lia|].
    apply IH.
    + lia.
    + lia.
    + unfold circ_prev. destruct (Z.ltb_spec (q - 1) fp); lia.
    + rewrite peb_store_length. exact Hlen.
    + exact Hstep.
    + nia.
Qed.

Lemma delete_loop_spec vol n p m :
  (forall x, p <= x < p + Z.of_nat n -> 0 <= x < Z.of_nat (length m)) ->
  length (Pmap.delete_loop vol n p m) = length m
  /\ forall x, peb_at (Pmap.delete_loop vol n p m) x = deleted_entry m vol p n x.
Proof.
  revert p m. induction n as [|n IH]; intros p m Hin.
  - simpl. split; [reflexivity|]. intros x. unfold deleted_entry.
    destruct (Z.leb_spec p x), (Z.ltb_spec x (p + Z.of_nat 0)); simpl;
      try reflexivity; lia.
  - cbn [Pmap.delete_loop].
    set (m1 := if vol_id (peb_at m p) =? vol then peb_store m p zero_pmap
               else m).
    assert (Hlen1 : length m1 = length m).
    { unfold m1. destruct (vol_id (peb_at m p) =? vol);
        [apply peb_store_length|reflexivity]. }
    destruct (IH (p + 1) m1) as [H1 H2].
    { intros x Hx. rewrite Hlen1. apply Hin. lia. }
    split; [rewrite H1; exact Hlen1|].
    intros x. rewrite H2. unfold deleted_entry.
    destruct (Z.eq_dec x p) as [->|Hne].
    + destruct (Z.leb_spec (p + 1) p); [lia|]. simpl.
      destruct (Z.leb_spec p p); [|lia].
      destruct (Z.ltb_spec p (p + Z.of_nat (S n))); [|lia]. simpl.
      unfold m1. destruct (vol_id (peb_at m p) =? vol); [|reflexivity].
      apply peb_at_store_eq. apply Hin. lia.
    + assert (Hx : peb_at m1 x = peb_at m x).
      { unfold m1. destruct (vol_id (peb_at m p) =? vol); [|reflexivity].
        apply peb_at_store_ne. congruence. }
      rewrite Hx.
      destruct (Z.leb_spec (p + 1) x), (Z.leb_spec p x); try lia; simpl;
        try reflexivity.
      destruct (Z.ltb_spec x (p + 1 + Z.of_nat n)),
        (Z.ltb_spec x (p + Z.of_nat (S n))); try lia; reflexivity.
Qed.

Lemma shrunk_entry_none m vol fp lp kk x :
  (forall p, fp <= p <= lp -> owned_by vol (peb_at m p) = true ->
             0 <= lnum (peb_at m p) < kk) ->
  shrunk_entry m vol fp lp kk x = peb_at m x.
Proof.
  intros Hb. unfold shrunk_entry.
  destruct (Z.leb_spec fp x), (Z.leb_spec x lp); simpl; try reflexivity.
  destruct (owned_by vol (peb_at m x)) eqn:Eo; simpl; [|reflexivity].
  destruct (Z.leb_spec kk (lnum (peb_at m x))); [|reflexivity].
  specialize (Hb x ltac:(lia) Eo). lia.
Qed.

(** C6, as the code has it.  For a volume whose in-use, non-bad entries in
    its area carry the LEB numbers [0 .. count-1] exactly once each, and a
    new size strictly between zero and that count,
    [ubi_pmap_resize_volume] returns zero once the circular scan has had
    [count - new] turns round the area, and it has released exactly the
    entries of the volume with a LEB number of at least the new size (the
    logical end), so that the entries left in use are those with a LEB
    number in [0, new).  With a new size of zero it zeroes every entry of the
    volume's area whose [vol_id] is the volume's, and no other entry. *)
Theorem resize_shrink_and_delete (fuel : nat) (m : list ubi_pmap)
    (vol rp : Z) :
  Pmap.areas_in_map UBI_LAYOUT_VOLUME_RESERVED_EBS peb_count m ->
  let fp := fst (area vol) in
  let lp := snd (area vol) in
  let count := Pmap.ubi_pmap_vol_peb_count UBI_LAYOUT_VOLUME_ID
                 UBI_LAYOUT_VOLUME_RESERVED_EBS peb_count m vol in
  (Pmap.vol_contiguous UBI_LAYOUT_VOLUME_ID UBI_LAYOUT_VOLUME_RESERVED_EBS
     peb_count m vol count ->
   0 < rp < count ->
   (count - rp) * (lp - fp + 1) <= Z.of_nat fuel ->
   exists m',
     resize fuel m vol rp = Some (0, m')
     /\ length m' = length m
     /\ (forall x, peb_at m' x = shrunk_entry m vol fp lp rp x)
     /\ (forall x, fp <= x <= lp ->
           (owned_by vol (peb_at m' x) = true <->
            owned_by vol (peb_at m x) = true
            /\ 0 <= lnum (peb_at m x) < rp)))
  /\ exists m0,
       resize fuel m vol 0 = Some (0, m0)
       /\ length m0 = length m
       /\ forall x, peb_at m0 x
                    = if (fp <=? x) && (x <=? lp)
                         && (vol_id (peb_at m x) =? vol)
                      then zero_pmap else peb_at m x.
Proof.
  intros Hmap fp lp count.
  pose proof (fun q => area_in_map m vol q Hmap) as Harea.
  subst fp lp count.
  unfold Pmap.vol_contiguous, Pmap.in_area, Pmap.ubi_pmap_vol_peb_count.
  unfold Pmap.ubi_pmap_resize_volume.
  destruct (area vol) as [fp lp]. simpl in *.
  set (c := Pmap.count_loop m vol (Pmap.span fp lp) fp 0).
  split.
  - intros (Hb & Huniq & Hex) Hrp Hfuel.
    destruct (Z.eqb_spec rp 0) as [Hz|_]; [lia|].
    destruct (Z.ltb_spec c rp) as [Hlt|_]; [lia|].
    destruct (Z.gtb_spec c rp) as [_|Hle]; [|lia].
    assert (Hne : fp <= lp).
    { destruct (Z_le_gt_dec fp lp) as [H|H]; [exact H|].
      assert (E : Pmap.span fp lp = 0%nat) by (unfold Pmap.span; lia).
      unfold c in Hrp. rewrite E in Hrp. simpl in Hrp. lia. }
    destruct (shrink_loop_spec vol rp fp lp m c Harea ltac:(lia) Huniq)
      with (k := Z.to_nat (c - rp - 1)) (ln := c) (p := lp) (mc := m)
           (fuel := fuel)
      as (m' & Hs & Hlen & Hm').
    + intros l Hl. apply Hex. lia.
    + lia.
    + lia.
    + lia.
    + reflexivity.
    + intros x. symmetry. apply shrunk_entry_none. exact Hb.
    + unfold Pmap.span. nia.
    + exists m'. rewrite Hs. split; [reflexivity|]. split; [exact Hlen|].
      split; [exact Hm'|].
      intros x Hx. rewrite Hm'. unfold shrunk_entry.
      destruct (Z.leb_spec fp x); [|lia]. destruct (Z.leb_spec x lp); [|lia].
      simpl. destruct (owned_by vol (peb_at m x)) eqn:Eo; simpl.
      * destruct (Z.leb_spec rp (lnum (peb_at m x))).
        -- unfold owned_by, released. simpl. rewrite andb_false_r. simpl.
           split; [discriminate|]. intros [_ H']. lia.
        -- rewrite Eo. split; [|reflexivity]. intros _.
           split; [reflexivity|]. specialize (Hb x Hx Eo). lia.
      * rewrite Eo. split; [discriminate|]. intros [H' _]. discriminate.
  - destruct (delete_loop_spec vol (Pmap.span fp lp) fp m) as [H1 H2].
    { intros x Hx. apply Harea. apply span_range. exact Hx. }
    eexists. split; [reflexivity|]. split; [exact H1|].
    intros x. rewrite H2. unfold deleted_entry.
    destruct (Z.leb_spec fp x); simpl; [|reflexivity].
    destruct (Z.ltb_spec x (fp + Z.of_nat (Pmap.span fp lp))),
      (Z.leb_spec x lp); unfold Pmap.span in *; try lia; reflexivity.
Qed.

(** *** The shrink scan without a matching entry *)

(** When no entry of the area passes the test of the shrink scan, the scan
    walks round the area for ever: it finishes within no amount of fuel. *)
Lemma shrink_loop_diverges vol rp fp lp ln m :
  fp <= lp ->
  (forall x, fp <= x <= lp -> shrink_test vol ln (peb_at m x) = false) ->
  forall fuel p, fp <= p <= lp ->
    Pmap.shrink_loop vol rp fp lp fuel p ln m = None.
Proof.
  intros Hne Hmiss. induction fuel as [|f IH]; intros p Hp; [reflexivity|].
  rewrite shrink_loop_S, Hmiss by exact Hp. apply IH.
  unfold circ_prev. destruct (Z.ltb_spec (p - 1) fp); lia.
Qed.

(** *** Extraction followed by re-allocation *)

Local Abbreviation extract_loop :=
  (@Pmap.extract_loop (list Pmap.peb_run) Pmap.collect_run).
Local Abbreviation allocate_runs :=
  (Pmap.allocate_runs UBI_LAYOUT_VOLUME_ID UBI_LAYOUT_VOLUME_RESERVED_EBS
     peb_count).

Lemma allocate_loop_spec vol peb leb bad_arg n i u :
  (forall j, i <= j < i + Z.of_nat n ->
             0 <= peb + j < Z.of_nat (length u)) ->
  length (Pmap.allocate_loop vol peb leb bad_arg n i u) = length u
  /\ forall p,
       peb_at (Pmap.allocate_loop vol peb leb bad_arg n i u) p
       = if (peb + i <=? p) && (p <? peb + i + Z.of_nat n)
         then allocated_entry vol leb peb bad_arg p else peb_at u p.
Proof.
  revert i u. induction n as [|n IH]; intros i u Hin.
  - simpl. split; [reflexivity|]. intros p.
    destruct (Z.leb_spec (peb + i) p),
      (Z.ltb_spec p (peb + i + Z.of_nat 0)); simpl; try reflexivity; lia.
  - cbn [Pmap.allocate_loop].
    set (e := if bad_arg =? 0 then mk_pmap vol (leb + i) true false
              else mk_pmap vol (leb + i) false true).
    destruct (IH (i + 1) (peb_store u (peb + i) e)) as [H1 H2].
    { intros j Hj. rewrite peb_store_length. apply Hin. lia. }
    split; [rewrite H1; apply peb_store_length|].
    intros p. rewrite H2.
    destruct (Z.eq_dec p (peb + i)) as [->|Hne].
    + destruct (Z.leb_spec (peb + (i + 1)) (peb + i)); [lia|]. simpl.
      destruct (Z.leb_spec (peb + i) (peb + i)); [|lia].
      destruct (Z.ltb_spec (peb + i) (peb + i + Z.of_nat (S n))); [|lia].
      simpl. rewrite peb_at_store_eq by (apply Hin; lia).
      unfold e, allocated_entry.
      replace (leb + (peb + i - peb)) with (leb + i) by lia. reflexivity.
    + rewrite peb_at_store_ne by congruence.
      destruct (Z.leb_spec (peb + (i + 1)) p), (Z.leb_spec (peb + i) p);
        try lia; simpl; try reflexivity.
      destruct (Z.ltb_spec p (peb + (i + 1) + Z.of_nat n)),
        (Z.ltb_spec p (peb + i + Z.of_nat (S n))); try lia; reflexivity.
Qed.

Lemma allocated_loop_false u vol peb n i :
  (forall j, i <= j < i + Z.of_nat n -> inuse (peb_at u (peb + j)) = false) ->
  Pmap.allocated_loop u vol peb n i = false.
Proof.
  revert i. induction n as [|n IH]; intros i Hfree; simpl; [reflexivity|].
  rewrite Hfree by lia. rewrite andb_false_r. apply IH.
  intros j Hj. apply Hfree. lia.
Qed.

Lemma allocate_runs_app runs r u0 u :
  allocate_runs runs u0 = (0, u) ->
  allocate_runs (runs ++ [r]) u0
  = let '(err, u') :=
      allocate u (Pmap.run_vol_id r) (Pmap.run_peb r) (Pmap.run_leb r)
        (Pmap.run_blocks r) (if Pmap.run_bad r then 1 else 0) in
    if err <? 0 then (err, u') else (0, u').
Proof.
  revert u0. induction runs as [|r0 runs IH]; intros u0; simpl.
  - intros [= ->]. destruct (allocate u _ _ _ _ _) as [err u'].
    destruct (err <? 0); reflexivity.
  - destruct (allocate u0 _ _ _ _ _) as [err u1].
    destruct (err <? 0) eqn:E.
    + intros [= -> _]. discriminate.
    + apply IH.
Qed.

Section RoundTrip.

Variable m : list ubi_pmap.
Hypothesis Hmap : Pmap.areas_in_map UBI_LAYOUT_VOLUME_RESERVED_EBS peb_count m.
Hypothesis Hexcl : forall p, inuse (peb_at m p) = true -> bad (peb_at m p) = false.
Hypothesis Hina : forall p, inuse (peb_at m p) = true ->
  fst (area (vol_id (peb_at m p))) <= p <= snd (area (vol_id (peb_at m p))).

(** Re-allocating the run [idx .. i-1] extends the rebuilt map by it. *)
Lemma allocate_open_run idx i u :
  i <= peb_count -> length u = length m ->
  run_open m idx i -> (forall p, peb_at u p = covered m idx p) ->
  exists u',
    allocate u (vol_id (peb_at m idx)) idx (lnum (peb_at m idx)) (i - idx)
      (if bad (peb_at m idx) then 1 else 0) = (0, u')
    /\ length u' = length m
    /\ forall p, peb_at u' p = covered m i p.
Proof.
  intros Hi Hlen [Hidx Hrun] Hu.
  destruct Hmap as [HR Hlm].
  destruct (Hrun idx ltac:(lia)) as (Hi0 & _).
  destruct (Hrun (i - 1) ltac:(lia)) as (Hi1 & Hv1 & _).
  pose proof (Hina idx Hi0) as Ha0. pose proof (Hina (i - 1) Hi1) as Ha1.
  rewrite Hv1 in Ha1. rewrite (Hexcl idx Hi0).
  unfold Pmap.ubi_pmap_allocate_vol_pebs.
  destruct (area (vol_id (peb_at m idx))) as [fp lp]. simpl in Ha0, Ha1.
  destruct (Z.ltb_spec idx fp); [lia|].
  destruct (Z.gtb_spec (idx + (i - idx)) (lp + 1)); [lia|]. simpl.
  rewrite allocated_loop_false.
  2:{ intros j Hj. rewrite Hu. unfold covered.
      destruct (Z.ltb_spec (idx + j) idx); [lia|]. reflexivity. }
  destruct (allocate_loop_spec (vol_id (peb_at m idx)) idx
              (lnum (peb_at m idx)) 0 (Z.to_nat (i - idx)) 0 u) as [H1 H2].
  { intros j Hj. rewrite Hlen. lia. }
  eexists. split; [reflexivity|]. split; [rewrite H1; exact Hlen|].
  intros p. rewrite H2. unfold covered.
  destruct (Z.leb_spec (idx + 0) p); simpl.
  - destruct (Z.ltb_spec p (idx + 0 + Z.of_nat (Z.to_nat (i - idx)))).
    + destruct (Hrun p ltac:(lia)) as (Hp1 & Hp2 & Hp3 & Hp4).
      destruct (Z.ltb_spec p i); [|lia]. rewrite Hp1. simpl.
      unfold allocated_entry. simpl.
      destruct (peb_at m p) as [v l iu b]. simpl in *.
      rewrite Hp1, Hp2, Hp3, Hp4, (Hexcl idx Hi0). f_equal. lia.
    + destruct (Z.ltb_spec p i); [lia|]. simpl. rewrite Hu. unfold covered.
      destruct (Z.ltb_spec p idx); [lia|]. reflexivity.
  - destruct (Z.ltb_spec p i); [|lia]. rewrite Hu. unfold covered.
    destruct (Z.ltb_spec p idx); [|lia]. reflexivity.
Qed.

Lemma covered_step i p :
  inuse (peb_at m i) = false -> covered m (i + 1) p = covered m i p.
Proof.
  intros Hf. unfold covered.
  destruct (Z.ltb_spec p (i + 1)), (Z.ltb_spec p i); try lia;
    try reflexivity.
  replace p with i by lia. rewrite Hf. reflexivity.
Qed.

(** The scan keeps the runs it has emitted re-allocatable, and what they
    rebuild is the in-use part of the map below the open run. *)
Lemma extract_loop_replay u0 n i first acc u :
  0 <= i -> i + Z.of_nat n = peb_count ->
  allocate_runs acc u0 = (0, u) ->
  scan_state_ok m i first u ->
  exists first' u',
    fst (extract_loop m n i first acc) = 0
    /\ allocate_runs (snd (extract_loop m n i first acc)) u0 = (0, u')
    /\ scan_state_ok m peb_count first' u'.
Proof.
  revert i first acc u. induction n as [|n IH];
    intros i first acc u Hi Hn Hacc Hok.
  - simpl. assert (Ei : i = peb_count) by lia. subst i.
    exists first, u. auto.
  - cbn [Pmap.extract_loop]. destruct first as [idx|].
    + destruct Hok as (Hlen & Hrun & Hu).
      destruct (negb (inuse (peb_at m i))
                || negb (vol_id (peb_at m i) =? vol_id (peb_at m idx))
                || negb (Bool.eqb (bad (peb_at m i)) (bad (peb_at m idx)))
                || negb (lnum (peb_at m i)
                         =? lnum (peb_at m idx) + i - idx)) eqn:Ebrk.
      * unfold Pmap.collect_run at 1. cbn [negb Z.eqb].
        destruct (allocate_open_run idx i u ltac:(lia) Hlen Hrun Hu)
          as (u1 & Ha & Hlen1 & Hu1).
        apply (IH (i + 1) _ _ u1); [lia|lia| |].
        -- rewrite (allocate_runs_app _ _ _ _ Hacc). simpl. rewrite Ha.
           reflexivity.
        -- split; [exact Hlen1|].
           destruct (inuse (peb_at m i)) eqn:Ei.
           ++ split; [|exact Hu1]. split; [lia|]. intros x Hx.
              replace x with i by lia. repeat split; auto; try lia.
           ++ intros p. rewrite covered_step by exact Ei. apply Hu1.
      * apply (IH (i + 1) _ _ u); [lia|lia|exact Hacc|].
        split; [exact Hlen|]. split; [|exact Hu].
        destruct Hrun as [Hidx Hrun]. split; [lia|]. intros x Hx.
        destruct (Z.eq_dec x i) as [->|Hne]; [|apply Hrun; lia].
        apply orb_false_elim in Ebrk as [Ebrk E4].
        apply orb_false_elim in Ebrk as [Ebrk E3].
        apply orb_false_elim in Ebrk as [E1 E2].
        apply negb_false_iff in E1, E2, E3, E4.
        apply Z.eqb_eq in E2, E4. apply Bool.eqb_prop in E3.
        repeat split; auto; try lia.
    + destruct Hok as (Hlen & Hu).
      apply (IH (i + 1) _ _ u); [lia|lia|exact Hacc|].
      split; [exact Hlen|].
      destruct (inuse (peb_at m i)) eqn:Ei.
      * split; [|exact Hu]. split; [lia|]. intros x Hx.
        replace x with i by lia. repeat split; auto; try lia.
      * intros p. rewrite covered_step by exact Ei. apply Hu.
Qed.

End RoundTrip.

Lemma peb_at_replicate n p : peb_at (replicate n zero_pmap) p = zero_pmap.
Proof.
  unfold peb_at. destruct (0 <=? p); [|reflexivity].
  destruct (replicate n zero_pmap !! Z.to_nat p) as [e|] eqn:E;
    [|reflexivity].
  apply lookup_replicate in E. destruct E as [-> _]. reflexivity.
Qed.

Lemma peb_at_outside (m : list ubi_pmap) p :
  ~ (0 <= p < Z.of_nat (length m)) -> peb_at m p = zero_pmap.
Proof.
  intros Hp. unfold peb_at. destruct (Z.leb_spec 0 p); [|reflexivity].
  rewrite (proj2 (lookup_ge_None m (Z.to_nat p))) by lia. reflexivity.
Qed.

(** C3, as the code has it.  For a PEB map whose in-use entries are not
    bad and lie in the area of their volume, and whose last PEB is not in
    use, [ubi_pmap_extract_vol_pebs] followed by
    [ubi_pmap_allocate_vol_pebs] of every emitted run into an empty map of
    the same size succeeds and reproduces the in-use entries: an entry is in
    use in the rebuilt map exactly when it is in the original, and then all
    four fields agree. *)
Theorem extract_allocate_roundtrip (m : list ubi_pmap) :
  Pmap.areas_in_map UBI_LAYOUT_VOLUME_RESERVED_EBS peb_count m ->
  (forall p, inuse (peb_at m p) = true -> bad (peb_at m p) = false) ->
  (forall p, inuse (peb_at m p) = true ->
     Pmap.in_area UBI_LAYOUT_VOLUME_ID UBI_LAYOUT_VOLUME_RESERVED_EBS
       peb_count (vol_id (peb_at m p)) p) ->
  inuse (peb_at m (peb_count - 1)) = false ->
  exists m',
    Pmap.extract_then_allocate UBI_LAYOUT_VOLUME_ID
      UBI_LAYOUT_VOLUME_RESERVED_EBS peb_count m = (0, m')
    /\ length m' = length m
    /\ forall p, inuse (peb_at m' p) = inuse (peb_at m p)
                 /\ (inuse (peb_at m p) = true -> peb_at m' p = peb_at m p).
Proof.
  intros Hmap Hexcl Hina Hlast.
  unfold Pmap.extract_then_allocate, Pmap.extracted_runs,
    Pmap.ubi_pmap_extract_vol_pebs.
  set (u0 := replicate (length m) zero_pmap).
  destruct (extract_loop_replay m Hmap Hexcl Hina u0 (Z.to_nat peb_count) 0
              None [] u0) as (first' & u' & _ & Hrun & Hlen & Hfin).
  - lia.
  - destruct Hmap. lia.
  - reflexivity.
  - split; [apply length_replicate|]. intros p. unfold u0, covered.
    rewrite peb_at_replicate.
    destruct (Z.ltb_spec p 0); simpl; [|reflexivity].
    rewrite peb_at_outside by lia. reflexivity.
  - exists u'. split; [exact Hrun|]. split; [exact Hlen|].
    destruct first' as [idx|].
    + destruct Hfin as [[Hidx Hopen] _].
      destruct (Hopen (peb_count - 1) ltac:(lia)) as [Hi _]. congruence.
    + intros p. rewrite Hfin. unfold covered.
      destruct (Z.ltb_spec p peb_count); simpl.
      * destruct (inuse (peb_at m p)) eqn:Ei; [split; auto|].
        split; [reflexivity|discriminate].
      * rewrite peb_at_outside by (destruct Hmap; lia).
        split; [reflexivity|discriminate].
Qed.

(** ** Lookups and counts *)

Lemma lookup_match_owned vol ln e :
  lookup_match vol ln e = true <-> owned_by vol e = true /\ lnum e = ln.
Proof.
  unfold lookup_match, owned_by. rewrite !andb_true_iff, !Z.eqb_eq. tauto.
Qed.

Lemma lookup_loop_unfold m vol ln n p0 :
  Pmap.lookup_loop m vol ln (S n) p0
  = if lookup_match vol ln (peb_at m p0) then p0
    else Pmap.lookup_loop m vol ln n (p0 + 1).
Proof. reflexivity. Qed.

(** The loop returns the first index of the range whose entry passes the
    test. *)
Lemma lookup_loop_first m vol ln n p0 r :
  p0 <= r < p0 + Z.of_nat n ->
  lookup_match vol ln (peb_at m r) = true ->
  (forall q, p0 <= q < r -> lookup_match vol ln (peb_at m q) = false) ->
  Pmap.lookup_loop m vol ln n p0 = r.
Proof.
  revert p0. induction n as [|n IH]; intros p0 Hr Hm Hlow; [lia|].
  rewrite lookup_loop_unfold.
  destruct (Z.eq_dec p0 r) as [->|Hne]; [rewrite Hm; reflexivity|].
  rewrite Hlow by lia. apply IH; [lia|exact Hm|].
  intros q Hq. apply Hlow. lia.
Qed.

Lemma lookup_loop_miss m vol ln n p0 :
  (forall q, p0 <= q < p0 + Z.of_nat n ->
             lookup_match vol ln (peb_at m q) = false) ->
  Pmap.lookup_loop m vol ln n p0 = -1.
Proof.
  revert p0. induction n as [|n IH]; intros p0 Hlow; [reflexivity|].
  rewrite lookup_loop_unfold, Hlow by lia. apply IH.
  intros q Hq. apply Hlow. lia.
Qed.

(** What the loop returns: [-1] when no entry of the range passes the test,
    the first index that does otherwise. *)
Lemma lookup_loop_spec m vol ln n p0 :
  (Pmap.lookup_loop m vol ln n p0 = -1
   /\ forall q, p0 <= q < p0 + Z.of_nat n ->
        lookup_match vol ln (peb_at m q) = false)
  \/ (p0 <= Pmap.lookup_loop m vol ln n p0 < p0 + Z.of_nat n
      /\ lookup_match vol ln (peb_at m (Pmap.lookup_loop m vol ln n p0)) = true
      /\ forall q, p0 <= q < Pmap.lookup_loop m vol ln n p0 ->
           lookup_match vol ln (peb_at m q) = false).
Proof.
  revert p0. induction n as [|n IH]; intros p0.
  - left. split; [reflexivity|]. intros q Hq. lia.
  - rewrite lookup_loop_unfold.
    destruct (lookup_match vol ln (peb_at m p0)) eqn:E.
    + right. split; [lia|]. split; [exact E|]. intros q Hq. lia.
    + destruct (IH (p0 + 1)) as [[H1 H2]|(H1 & H2 & H3)].
      * left. split; [exact H1|]. intros q Hq.
        destruct (Z.eq_dec q p0) as [->|Hne]; [exact E|apply H2; lia].
      * right. split; [lia|]. split; [exact H2|]. intros q Hq.
        destruct (Z.eq_dec q p0) as [->|Hne]; [exact E|apply H3; lia].
Qed.

(** Two maps whose entries pass the test at the same indices of the range
    give the same lookup. *)
Lemma lookup_loop_ext m1 m2 vol ln n p0 :
  (forall q, p0 <= q < p0 + Z.of_nat n ->
     lookup_match vol ln (peb_at m2 q) = lookup_match vol ln (peb_at m1 q)) ->
  Pmap.lookup_loop m2 vol ln n p0 = Pmap.lookup_loop m1 vol ln n p0.
Proof.
  revert p0. induction n as [|n IH]; intros p0 H; [reflexivity|].
  rewrite !lookup_loop_unfold, H by lia.
  destruct (lookup_match vol ln (peb_at m1 p0)); [reflexivity|].
  apply IH. intros q Hq. apply H. lia.
Qed.

Lemma count_loop_unfold m vol n p c :
  Pmap.count_loop m vol (S n) p c
  = Pmap.count_loop m vol n (p + 1)
      (if owned_by vol (peb_at m p) then c + 1 else c).
Proof. reflexivity. Qed.

Lemma count_loop_acc m vol n p c :
  Pmap.count_loop m vol n p c = c + Pmap.count_loop m vol n p 0.
Proof.
  revert p c. induction n as [|n IH]; intros p c; simpl; [lia|].
  rewrite (IH _ (if owned_by vol (peb_at m p) then c + 1 else c)).
  rewrite (IH _ (if owned_by vol (peb_at m p) then 0 + 1 else 0)).
  destruct (owned_by vol (peb_at m p)); lia.
Qed.

Lemma count_loop_S m vol n p :
  Pmap.count_loop m vol (S n) p 0
  = (if owned_by vol (peb_at m p) then 1 else 0)
    + Pmap.count_loop m vol n (p + 1) 0.
Proof.
  rewrite count_loop_unfold, count_loop_acc.
  destruct (owned_by vol (peb_at m p)); lia.
Qed.

Lemma count_loop_bounds m vol n p :
  0 <= Pmap.count_loop m vol n p 0 <= Z.of_nat n.
Proof.
  revert p. induction n as [|n IH]; intros p; [simpl; lia|].
  rewrite count_loop_S. specialize (IH (p + 1)).
  destruct (owned_by vol (peb_at m p)); lia.
Qed.

Lemma count_loop_ext m1 m2 vol n p :
  (forall q, p <= q < p + Z.of_nat n ->
     owned_by vol (peb_at m2 q) = owned_by vol (peb_at m1 q)) ->
  Pmap.count_loop m2 vol n p 0 = Pmap.count_loop m1 vol n p 0.
Proof.
  revert p. induction n as [|n IH]; intros p H; [reflexivity|].
  rewrite !count_loop_S, H by lia. f_equal. apply IH.
  intros q Hq. apply H. lia.
Qed.

Lemma count_loop_zero m vol n p :
  Pmap.count_loop m vol n p 0 = 0 <->
  forall q, p <= q < p + Z.of_nat n -> owned_by vol (peb_at m q) = false.
Proof.
  revert p. induction n as [|n IH]; intros p.
  - split; [intros _ q Hq; lia|reflexivity].
  - rewrite count_loop_S. pose proof (count_loop_bounds m vol n (p + 1)) as Hb.
    split.
    + intros H q Hq. destruct (owned_by vol (peb_at m p)) eqn:E; [lia|].
      destruct (Z.eq_dec q p) as [->|Hne]; [exact E|].
      apply (proj1 (IH (p + 1))); lia.
    + intros H. rewrite (H p) by lia.
      rewrite (proj2 (IH (p + 1))); [lia|]. intros q Hq. apply H. lia.
Qed.

(** The count after one store inside the counted range. *)
Lemma count_loop_store m vol n p0 p e :
  p0 <= p < p0 + Z.of_nat n -> 0 <= p < Z.of_nat (length m) ->
  Pmap.count_loop (peb_store m p e) vol n p0 0
  = Pmap.count_loop m vol n p0 0
    - (if owned_by vol (peb_at m p) then 1 else 0)
    + (if owned_by vol e then 1 else 0).
Proof.
  revert p0. induction n as [|n IH]; intros p0 Hp Hin; [lia|].
  rewrite !count_loop_S.
  destruct (Z.eq_dec p0 p) as [->|Hne].
  - rewrite peb_at_store_eq by exact Hin.
    rewrite (count_loop_ext m (peb_store m p e)).
    + destruct (owned_by vol (peb_at m p)), (owned_by vol e); lia.
    + intros q Hq. rewrite peb_at_store_ne by lia. reflexivity.
  - rewrite peb_at_store_ne by lia. rewrite IH by lia. lia.
Qed.

Local Abbreviation vol_peb_count :=
  (Pmap.ubi_pmap_vol_peb_count UBI_LAYOUT_VOLUME_ID
     UBI_LAYOUT_VOLUME_RESERVED_EBS peb_count).
Local Abbreviation in_area :=
  (Pmap.in_area UBI_LAYOUT_VOLUME_ID UBI_LAYOUT_VOLUME_RESERVED_EBS
     peb_count).

Lemma area_first_nonneg vol :
  0 <= UBI_LAYOUT_VOLUME_RESERVED_EBS -> 0 <= fst (area vol).
Proof.
  intros H. unfold Pmap.ubi_pmap_vol_reserved_area.
  destruct (vol =? UBI_LAYOUT_VOLUME_ID); simpl; lia.
Qed.

Lemma lookup_pnum_unfold m vol ln :
  lookup_pnum m vol ln
  = Pmap.lookup_loop m vol ln (Pmap.span (fst (area vol)) (snd (area vol)))
      (fst (area vol)).
Proof.
  unfold Pmap.ubi_pmap_lookup_pnum. destruct (area vol); reflexivity.
Qed.

Lemma vol_peb_count_unfold m vol :
  vol_peb_count m vol
  = Pmap.count_loop m vol (Pmap.span (fst (area vol)) (snd (area vol)))
      (fst (area vol)) 0.
Proof.
  unfold Pmap.ubi_pmap_vol_peb_count. destruct (area vol); reflexivity.
Qed.

(** X1.  [ubi_pmap_lookup_pnum] returns [-1] exactly when no entry of the
    volume's reserved area is an in-use, non-bad entry of the volume with
    the LEB number asked for; otherwise it returns the lowest PEB number of
    the area that holds such an entry. *)
Theorem lookup_pnum_first_match (m : list ubi_pmap) (vol ln : Z) :
  0 <= UBI_LAYOUT_VOLUME_RESERVED_EBS ->
  let r := lookup_pnum m vol ln in
  (r = -1
   /\ forall q, in_area vol q -> lookup_match vol ln (peb_at m q) = false)
  \/ (0 <= r /\ in_area vol r
      /\ vol_id (peb_at m r) = vol /\ lnum (peb_at m r) = ln
      /\ inuse (peb_at m r) = true /\ bad (peb_at m r) = false
      /\ forall q, in_area vol q -> q < r ->
           lookup_match vol ln (peb_at m q) = false).
Proof.
  intros Hres r. subst r. rewrite lookup_pnum_unfold.
  pose proof (area_first_nonneg vol Hres) as Hfp.
  unfold Pmap.in_area.
  set (fp := fst (area vol)) in *. set (lp := snd (area vol)) in *.
  destruct (lookup_loop_spec m vol ln (Pmap.span fp lp) fp)
    as [[H1 H2]|(H1 & H2 & H3)].
  - left. split; [exact H1|]. intros q Hq. apply H2. apply span_range. exact Hq.
  - right. set (r := Pmap.lookup_loop m vol ln (Pmap.span fp lp) fp) in *.
    apply span_range in H1.
    pose proof (proj1 (lookup_match_owned vol ln _) H2) as [Ho Hl].
    split; [lia|]. split; [exact H1|].
    split.
    { unfold owned_by in Ho. apply andb_prop in Ho as [Ho _].
      apply andb_prop in Ho as [Ho _]. apply Z.eqb_eq. exact Ho. }
    split; [exact Hl|].
    split; [eapply owned_by_inuse; exact Ho|].
    split; [eapply owned_by_not_bad; exact Ho|].
    intros q Hq Hlt. apply H3. lia.
Qed.

(** X2.  [ubi_pmap_vol_peb_count] lies between zero and the number of PEBs
    of the volume's reserved area, and it is zero exactly when
    [ubi_pmap_lookup_pnum] finds no PEB for any LEB number of the volume. *)
Theorem vol_peb_count_zero_iff_unmapped (m : list ubi_pmap) (vol : Z) :
  0 <= UBI_LAYOUT_VOLUME_RESERVED_EBS ->
  0 <= vol_peb_count m vol
       <= Z.max 0 (snd (area vol) - fst (area vol) + 1)
  /\ (vol_peb_count m vol = 0 <-> forall ln, lookup_pnum m vol ln = -1).
Proof.
  intros Hres. rewrite vol_peb_count_unfold.
  pose proof (area_first_nonneg vol Hres) as Hfp.
  set (fp := fst (area vol)) in *. set (lp := snd (area vol)) in *.
  split.
  - pose proof (count_loop_bounds m vol (Pmap.span fp lp) fp) as Hb.
    unfold Pmap.span in *. lia.
  - rewrite count_loop_zero. split.
    + intros H ln. rewrite lookup_pnum_unfold. apply lookup_loop_miss.
      intros q Hq. destruct (lookup_match vol ln (peb_at m q)) eqn:E;
        [|reflexivity].
      apply lookup_match_owned in E as [E _]. rewrite (H q Hq) in E.
      discriminate.
    + intros H q Hq. destruct (owned_by vol (peb_at m q)) eqn:E; [|reflexivity].
      specialize (H (lnum (peb_at m q))). rewrite lookup_pnum_unfold in H.
      fold fp lp in H.
      destruct (lookup_loop_spec m vol (lnum (peb_at m q)) (Pmap.span fp lp) fp)
        as [[_ H2]|(H1 & _)].
      * specialize (H2 q Hq).
        assert (Hm : lookup_match vol (lnum (peb_at m q)) (peb_at m q) = true)
          by (apply lookup_match_owned; auto).
        congruence.
      * lia.
Qed.

Lemma extract_loop_idle {U} (cb : U -> Z -> Z -> Z -> Z -> bool -> Z * U)
    (m : list ubi_pmap) n i usr :
  (forall q, i <= q < i + Z.of_nat n -> inuse (peb_at m q) = false) ->
  Pmap.extract_loop cb m n i None usr = (0, usr).
Proof.
  revert i. induction n as [|n IH]; intros i H; [reflexivity|].
  simpl. rewrite (H i) by lia. apply IH. intros q Hq. apply H. lia.
Qed.

Lemma next_vol_loop_keeps m vol n i next :
  Pmap.next_vol_loop m vol n i next = next.
Proof.
  revert i next. induction n as [|n IH]; intros i next; simpl; [reflexivity|].
  rewrite IH. destruct (_ && _); reflexivity.
Qed.

(** X3.  A freshly initialised PEB map is empty for every volume: no LEB
    resolves, every volume has zero PEBs, and the range extraction calls
    its callback for no run and returns zero. *)
Theorem fresh_map_is_empty (vol ln : Z) {U : Type}
    (cb : U -> Z -> Z -> Z -> Z -> bool -> Z * U) (usr : U) :
  lookup_pnum (ubi_pmap_init peb_count) vol ln = -1
  /\ vol_peb_count (ubi_pmap_init peb_count) vol = 0
  /\ Pmap.ubi_pmap_extract_vol_pebs peb_count cb (ubi_pmap_init peb_count) usr
     = (0, usr).
Proof.
  unfold ubi_pmap_init. split; [|split].
  - rewrite lookup_pnum_unfold. apply lookup_loop_miss. intros q _.
    rewrite peb_at_replicate. unfold lookup_match. simpl.
    rewrite andb_false_r. reflexivity.
  - rewrite vol_peb_count_unfold. apply count_loop_zero. intros q _.
    rewrite peb_at_replicate. unfold owned_by. simpl.
    rewrite andb_false_r. reflexivity.
  - unfold Pmap.ubi_pmap_extract_vol_pebs. apply extract_loop_idle.
    intros q _. rewrite peb_at_replicate. reflexivity.
Qed.

(** X4.  [ubi_pmap_number_vols] returns zero for every map: the statement
    under the test of its scan, [next_vol_id < peb_map[i].vol_id;], assigns
    nothing, so [next_vol_id] is still [INT_MAX] after the first pass and
    the loop is left before [number] is incremented. *)
Theorem number_vols_is_zero (fuel : nat) (m : list ubi_pmap) :
  Pmap.ubi_pmap_number_vols peb_count (S fuel) m = Some 0.
Proof.
  unfold Pmap.ubi_pmap_number_vols. simpl.
  rewrite next_vol_loop_keeps. reflexivity.
Qed.

(** ** Range allocation *)

Lemma allocated_loop_unfold m vol peb n i :
  Pmap.allocated_loop m vol peb (S n) i
  = if allocated_to vol (peb_at m (peb + i)) then true
    else Pmap.allocated_loop m vol peb n (i + 1).
Proof. reflexivity. Qed.

Lemma allocated_loop_spec m vol peb n i :
  Pmap.allocated_loop m vol peb n i = true <->
  exists j, i <= j < i + Z.of_nat n
            /\ allocated_to vol (peb_at m (peb + j)) = true.
Proof.
  revert i. induction n as [|n IH]; intros i.
  - simpl. split; [discriminate|]. intros (j & Hj & _). lia.
  - rewrite allocated_loop_unfold.
    destruct (allocated_to vol (peb_at m (peb + i))) eqn:E.
    + split; [|reflexivity]. intros _. exists i. split; [lia|exact E].
    + rewrite IH. split.
      * intros (j & Hj & H). exists j. split; [lia|exact H].
      * intros (j & Hj & H). exists j. split; [|exact H].
        destruct (Z.eq_dec j i) as [->|Hne]; [congruence|lia].
Qed.

Lemma allocate_range_in_map (m : list ubi_pmap) vol peb blocks :
  Pmap.areas_in_map UBI_LAYOUT_VOLUME_RESERVED_EBS peb_count m ->
  fst (area vol) <= peb -> peb + blocks <= snd (area vol) + 1 ->
  forall j, 0 <= j < 0 + Z.of_nat (Z.to_nat blocks) ->
            0 <= peb + j < Z.of_nat (length m).
Proof.
  intros Hmap H1 H2 j Hj. apply (area_in_map m vol); [exact Hmap|lia].
Qed.

(** X5.  [ubi_pmap_allocate_vol_pebs] is all or nothing.  It returns
    [-EINVAL] and leaves the map as it was when the range reaches outside
    the reserved area of the volume or holds an entry that is in use by the
    volume itself; otherwise it returns zero, every entry of the range
    carries the volume, the consecutive LEB numbers and the flags asked for
    (in use, or bad when [bad] is not zero), whoever owned it before, and no
    other entry changes. *)
Theorem allocate_all_or_nothing (m : list ubi_pmap)
    (vol peb leb blocks bad_arg : Z) :
  Pmap.areas_in_map UBI_LAYOUT_VOLUME_RESERVED_EBS peb_count m ->
  let fp := fst (area vol) in
  let lp := snd (area vol) in
  let clash := exists i, 0 <= i < blocks
                         /\ allocated_to vol (peb_at m (peb + i)) = true in
  (peb < fp \/ peb + blocks > lp + 1 \/ clash ->
   allocate m vol peb leb blocks bad_arg = (- EINVAL, m))
  /\ (fp <= peb -> peb + blocks <= lp + 1 -> ~ clash ->
      exists m',
        allocate m vol peb leb blocks bad_arg = (0, m')
        /\ length m' = length m
        /\ forall p, peb_at m' p
                     = if (peb <=? p) && (p <? peb + blocks)
                       then allocated_entry vol leb peb bad_arg p
                       else peb_at m p).
Proof.
  intros Hmap fp lp clash. unfold Pmap.ubi_pmap_allocate_vol_pebs.
  subst fp lp. destruct (area vol) as [fp lp] eqn:Ea. simpl.
  split.
  - intros [H|[H|H]].
    + destruct (Z.ltb_spec peb fp); [reflexivity|lia].
    + destruct (Z.ltb_spec peb fp); [reflexivity|]. simpl.
      destruct (Z.gtb_spec (peb + blocks) (lp + 1)); [reflexivity|lia].
    + destruct ((peb <? fp) || (peb + blocks >? lp + 1)); [reflexivity|].
      destruct H as (i & Hi & H).
      rewrite (proj2 (allocated_loop_spec m vol peb (Z.to_nat blocks) 0));
        [reflexivity|].
      exists i. split; [lia|exact H].
  - intros H1 H2 Hclash.
    destruct (Z.ltb_spec peb fp); [lia|]. simpl.
    destruct (Z.gtb_spec (peb + blocks) (lp + 1)); [lia|].
    destruct (Pmap.allocated_loop m vol peb (Z.to_nat blocks) 0) eqn:E.
    { apply allocated_loop_spec in E as (j & Hj & E). exfalso. apply Hclash.
      exists j. split; [lia|exact E]. }
    destruct (allocate_loop_spec vol peb leb bad_arg (Z.to_nat blocks) 0 m)
      as [Hlen Hent].
    { apply (allocate_range_in_map m vol); [exact Hmap|rewrite Ea; simpl; lia..]. }
    eexists. split; [reflexivity|]. split; [exact Hlen|].
    intros p. rewrite Hent.
    replace (peb + 0 + Z.of_nat (Z.to_nat blocks)) with (peb + Z.max 0 blocks)
      by lia.
    replace (peb + 0) with peb by lia.
    destruct (Z.leb_spec peb p), (Z.ltb_spec p (peb + Z.max 0 blocks)),
      (Z.ltb_spec p (peb + blocks)); simpl; try reflexivity; lia.
Qed.

Lemma allocate_loop_count vol peb leb n i (u : list ubi_pmap) fp sp :
  (forall j, i <= j < i + Z.of_nat n ->
     0 <= peb + j < Z.of_nat (length u)
     /\ fp <= peb + j < fp + Z.of_nat sp
     /\ owned_by vol (peb_at u (peb + j)) = false) ->
  Pmap.count_loop (Pmap.allocate_loop vol peb leb 0 n i u) vol sp fp 0
  = Pmap.count_loop u vol sp fp 0 + Z.of_nat n.
Proof.
  revert i u. induction n as [|n IH]; intros i u H; [simpl; lia|].
  simpl Pmap.allocate_loop.
  destruct (H i) as (Hin & Hr & Ho); [lia|].
  rewrite IH.
  - rewrite count_loop_store by assumption. rewrite Ho.
    unfold owned_by. simpl. rewrite Z.eqb_refl. simpl. lia.
  - intros j Hj. destruct (H j) as (Hin' & Hr' & Ho'); [lia|].
    rewrite peb_store_length, peb_at_store_ne by lia. auto.
Qed.

(** X6.  After [ubi_pmap_allocate_vol_pebs] has given a range to a volume
    ([bad] zero, return value zero), the volume has [blocks] PEBs more, and
    every LEB of the range that did not resolve before resolves to its PEB:
    [leb + i] to [peb + i]. *)
Theorem allocate_then_lookup (m m' : list ubi_pmap)
    (vol peb leb blocks : Z) :
  Pmap.areas_in_map UBI_LAYOUT_VOLUME_RESERVED_EBS peb_count m ->
  0 <= blocks ->
  allocate m vol peb leb blocks 0 = (0, m') ->
  vol_peb_count m' vol = vol_peb_count m vol + blocks
  /\ forall i, 0 <= i < blocks ->
       lookup_pnum m vol (leb + i) = -1 ->
       lookup_pnum m' vol (leb + i) = peb + i.
Proof.
  intros Hmap Hblocks Halloc.
  assert (Hres : 0 <= UBI_LAYOUT_VOLUME_RESERVED_EBS) by (destruct Hmap; lia).
  pose proof (area_first_nonneg vol Hres) as Hfp0.
  rewrite !vol_peb_count_unfold.
  assert (Hlk : forall mm l, lookup_pnum mm vol l
            = Pmap.lookup_loop mm vol l
                (Pmap.span (fst (area vol)) (snd (area vol))) (fst (area vol)))
    by (intros; apply lookup_pnum_unfold).
  pose proof (fun q => area_in_map m vol q Hmap) as Hin.
  unfold Pmap.ubi_pmap_allocate_vol_pebs in Halloc.
  destruct (area vol) as [fp lp] eqn:Ea. simpl in *.
  destruct (Z.ltb_spec peb fp); [discriminate|]. simpl in Halloc.
  destruct (Z.gtb_spec (peb + blocks) (lp + 1)); [discriminate|].
  destruct (Pmap.allocated_loop m vol peb (Z.to_nat blocks) 0) eqn:E;
    [discriminate|].
  injection Halloc as <-.
  assert (Hfree : forall j, 0 <= j < blocks ->
            allocated_to vol (peb_at m (peb + j)) = false).
  { intros j Hj. destruct (allocated_to vol (peb_at m (peb + j))) eqn:E';
      [|reflexivity].
    rewrite (proj2 (allocated_loop_spec m vol peb (Z.to_nat blocks) 0)) in E;
      [discriminate|].
    exists j. split; [lia|exact E']. }
  assert (Hnot : forall j, 0 <= j < blocks ->
            owned_by vol (peb_at m (peb + j)) = false).
  { intros j Hj. specialize (Hfree j Hj). unfold allocated_to in Hfree.
    unfold owned_by. rewrite Hfree. reflexivity. }
  destruct (allocate_loop_spec vol peb leb 0 (Z.to_nat blocks) 0 m)
    as [Hlen Hent].
  { intros j Hj. apply Hin. lia. }
  split.
  - rewrite allocate_loop_count; [lia|].
    intros j Hj. split; [apply Hin; lia|]. split.
    + apply span_range. lia.
    + apply Hnot. lia.
  - intros i Hi Hmiss. rewrite Hlk in *.
    destruct (lookup_loop_spec m vol (leb + i) (Pmap.span fp lp) fp)
      as [[_ Hno]|(Hr & _)]; [|lia].
    apply lookup_loop_first.
    + apply span_range. lia.
    + rewrite Hent.
      destruct (Z.leb_spec (peb + 0) (peb + i)); [|lia].
      destruct (Z.ltb_spec (peb + i) (peb + 0 + Z.of_nat (Z.to_nat blocks)));
        [|lia].
      simpl. unfold allocated_entry, lookup_match. simpl.
      rewrite Z.eqb_refl. simpl. apply andb_true_iff. split; [|reflexivity].
      apply andb_true_iff. split; [|reflexivity]. apply Z.eqb_eq. lia.
    + intros q Hq. rewrite Hent.
      destruct ((peb + 0 <=? q) && (q <? peb + 0 + Z.of_nat (Z.to_nat blocks)))
        eqn:Er.
      * apply andb_prop in Er as [Er1 Er2].
        apply Z.leb_le in Er1. apply Z.ltb_lt in Er2.
        unfold allocated_entry, lookup_match. simpl.
        destruct (Z.eqb_spec (leb + (q - peb)) (leb + i)); [lia|].
        rewrite andb_false_r. reflexivity.
      * apply Hno. apply span_range. lia.
Qed.

(** ** Bad-block marks *)

Lemma peb_store_outside (m : list ubi_pmap) p e :
  ~ (0 <= p < Z.of_nat (length m)) -> peb_store m p e = m.
Proof.
  intros H. unfold peb_store. destruct (Z.leb_spec 0 p); [|reflexivity].
  apply list_insert_ge. lia.
Qed.

Lemma peb_store_same (m : list ubi_pmap) p :
  peb_store m p (peb_at m p) = m.
Proof.
  destruct (Z_lt_ge_dec p 0) as [Hneg|Hpos];
    [apply peb_store_outside; lia|].
  destruct (Z_lt_ge_dec p (Z.of_nat (length m))) as [Hin|Hout];
    [|apply peb_store_outside; lia].
  unfold peb_store, peb_at. destruct (Z.leb_spec 0 p); [|lia].
  destruct (lookup_lt_is_Some_2 m (Z.to_nat p)) as [x Hx]; [lia|].
  rewrite Hx. simpl. apply list_insert_id. exact Hx.
Qed.

(** The result of [ubi_pmap_markbad_replace] on an entry of the map: the
    entry is marked, and either nothing else happens, or the replacement
    scan of the area of the entry's volume fails, or it takes the first free
    entry of that area. *)
Lemma markbad_shape (m : list ubi_pmap) pnum :
  0 <= pnum < Z.of_nat (length m) ->
  let e := peb_at m pnum in
  let e1 := mk_pmap (vol_id e) (lnum e) false true in
  let m1 := peb_store m pnum e1 in
  (inuse e && negb (bad e) = false /\ markbad m pnum = (pnum, m1))
  \/ (inuse e = true /\ bad e = false
      /\ ((markbad m pnum = (- ENOMEM, m1)
           /\ forall q, in_area (vol_id e) q -> is_free (peb_at m1 q) = false)
          \/ exists r,
               in_area (vol_id e) r /\ r <> pnum
               /\ is_free (peb_at m r) = true
               /\ (forall q, in_area (vol_id e) q -> q < r ->
                     is_free (peb_at m1 q) = false)
               /\ markbad m pnum
                  = (r, peb_store m1 r
                          (mk_pmap (vol_id e) (lnum e) true false)))).
Proof.
  intros Hlen e e1 m1. unfold Pmap.ubi_pmap_markbad_replace, Pmap.in_area.
  fold e. fold e1. fold m1.
  assert (H1 : peb_at m1 pnum = e1) by (apply peb_at_store_eq; exact Hlen).
  rewrite H1. change (vol_id e1) with (vol_id e).
  destruct (area (vol_id e)) as [fp lp]. simpl.
  destruct (inuse e && negb (bad e)) eqn:Hneed; [|left; auto].
  right. apply andb_prop in Hneed as [Hi Hb].
  split; [exact Hi|]. split; [destruct (bad e); [discriminate|reflexivity]|].
  destruct (replace_loop_cases e1 (Pmap.span fp lp) fp m1)
    as [[He Hn]|(r & Hr & Hfr & Hlow & He)].
  - left. split; [exact He|]. intros q Hq. apply Hn. apply span_range. exact Hq.
  - right. exists r. apply span_range in Hr.
    assert (Hrp : r <> pnum) by (intros ->; rewrite H1 in Hfr; discriminate).
    split; [exact Hr|]. split; [exact Hrp|].
    split; [unfold m1 in Hfr; rewrite peb_at_store_ne in Hfr by congruence;
            exact Hfr|].
    split; [intros q Hq Hlt; apply Hlow; lia|exact He].
Qed.

Lemma markbad_outside (m : list ubi_pmap) pnum :
  ~ (0 <= pnum < Z.of_nat (length m)) -> markbad m pnum = (pnum, m).
Proof.
  intros H. unfold Pmap.ubi_pmap_markbad_replace.
  rewrite peb_store_outside by exact H.
  rewrite (peb_at_outside m pnum H). simpl. destruct (area 0); reflexivity.
Qed.

(** X7.  Marking the same PEB bad a second time changes nothing: the second
    call of [ubi_pmap_markbad_replace] returns [pnum] itself, looks for no
    replacement and leaves the map exactly as the first call left it. *)
Theorem markbad_twice_is_markbad_once (m : list ubi_pmap) (pnum : Z) :
  markbad (snd (markbad m pnum)) pnum = (pnum, snd (markbad m pnum)).
Proof.
  destruct (Z_lt_ge_dec pnum 0) as [Hneg|Hpos];
    [rewrite (markbad_outside m pnum) by lia; simpl;
     rewrite (markbad_outside m pnum) by lia; reflexivity|].
  destruct (Z_lt_ge_dec pnum (Z.of_nat (length m))) as [Hin|Hout];
    [|rewrite (markbad_outside m pnum) by lia; simpl;
      rewrite (markbad_outside m pnum) by lia; reflexivity].
  assert (Hlen : 0 <= pnum < Z.of_nat (length m)) by lia.
  pose proof (markbad_shape m pnum Hlen) as Hshape. cbv zeta in Hshape.
  set (e := peb_at m pnum) in *.
  set (e1 := mk_pmap (vol_id e) (lnum e) false true) in *.
  set (m1 := peb_store m pnum e1) in *.
  assert (H1 : peb_at m1 pnum = e1) by (apply peb_at_store_eq; exact Hlen).
  assert (Hgoal : forall m', peb_at m' pnum = e1 ->
            markbad m' pnum = (pnum, m')).
  { intros m' Hm'.
    assert (Hs : peb_store m' pnum e1 = m')
      by (rewrite <- Hm'; apply peb_store_same).
    unfold Pmap.ubi_pmap_markbad_replace. rewrite Hm'.
    change (mk_pmap (vol_id e1) (lnum e1) false true) with e1.
    rewrite Hs, Hm'. simpl. destruct (area (vol_id e)); reflexivity. }
  destruct Hshape as [[_ He]|(_ & _ & [[He _]|(r & _ & Hrp & _ & _ & He)])];
    rewrite He; simpl; apply Hgoal; [exact H1|exact H1|].
  rewrite peb_at_store_ne by exact Hrp. exact H1.
Qed.

(** X8.  When the PEB of a LEB goes bad, the LEB follows its replacement:
    for an in-use entry that lies in the area of its volume and is the only
    one of the volume with its LEB number, [ubi_pmap_lookup_pnum] returns
    [pnum] before the call and the returned replacement after it, and the
    volume keeps its number of PEBs; when no replacement is found
    ([-ENOMEM]) the LEB resolves to nothing and the volume has one PEB
    less. *)
Theorem markbad_lookup_follows (m : list ubi_pmap) (pnum : Z) :
  Pmap.areas_in_map UBI_LAYOUT_VOLUME_RESERVED_EBS peb_count m ->
  let e := peb_at m pnum in
  let r := fst (markbad m pnum) in
  let m' := snd (markbad m pnum) in
  inuse e = true -> bad e = false ->
  in_area (vol_id e) pnum ->
  (forall q, in_area (vol_id e) q -> q <> pnum ->
     lookup_match (vol_id e) (lnum e) (peb_at m q) = false) ->
  lookup_pnum m (vol_id e) (lnum e) = pnum
  /\ (r = - ENOMEM ->
      lookup_pnum m' (vol_id e) (lnum e) = -1
      /\ vol_peb_count m' (vol_id e) = vol_peb_count m (vol_id e) - 1)
  /\ (r <> - ENOMEM ->
      0 <= r /\ r <> pnum
      /\ lookup_pnum m' (vol_id e) (lnum e) = r
      /\ vol_peb_count m' (vol_id e) = vol_peb_count m (vol_id e)).
Proof.
  intros Hmap e r m' Hi Hb Hp Huniq. subst r m'.
  assert (Hres : 0 <= UBI_LAYOUT_VOLUME_RESERVED_EBS) by (destruct Hmap; lia).
  pose proof (area_first_nonneg (vol_id e) Hres) as Hfp0.
  pose proof (fun q => area_in_map m (vol_id e) q Hmap) as Hin.
  assert (Hlen : 0 <= pnum < Z.of_nat (length m)) by (apply Hin; exact Hp).
  pose proof (markbad_shape m pnum Hlen) as Hshape.
  cbv zeta in Hshape. fold e in Hshape.
  set (e1 := mk_pmap (vol_id e) (lnum e) false true) in *.
  set (m1 := peb_store m pnum e1) in *.
  rewrite !lookup_pnum_unfold, !vol_peb_count_unfold.
  unfold Pmap.in_area in *.
  set (fp := fst (area (vol_id e))) in *.
  set (lp := snd (area (vol_id e))) in *.
  assert (Hown : owned_by (vol_id e) e = true).
  { unfold owned_by. rewrite Z.eqb_refl, Hi, Hb. reflexivity. }
  assert (Hme : lookup_match (vol_id e) (lnum e) e = true)
    by (apply lookup_match_owned; auto).
  assert (H1 : peb_at m1 pnum = e1) by (apply peb_at_store_eq; exact Hlen).
  assert (Hc1 : Pmap.count_loop m1 (vol_id e) (Pmap.span fp lp) fp 0
                = Pmap.count_loop m (vol_id e) (Pmap.span fp lp) fp 0 - 1).
  { unfold m1. rewrite count_loop_store; [|apply span_range; exact Hp|exact Hlen].
    fold e. rewrite Hown. unfold owned_by, e1. simpl.
    rewrite andb_false_r. simpl. lia. }
  assert (Hno1 : forall q, fp <= q <= lp ->
            lookup_match (vol_id e) (lnum e) (peb_at m1 q) = false).
  { intros q Hq. destruct (Z.eq_dec q pnum) as [->|Hne].
    - rewrite H1. unfold lookup_match, e1. simpl.
      rewrite andb_false_r. reflexivity.
    - unfold m1. rewrite peb_at_store_ne by congruence. apply Huniq; assumption. }
  split.
  { apply lookup_loop_first; [apply span_range; exact Hp|exact Hme|].
    intros q Hq. apply Huniq; lia. }
  destruct Hshape as [[Hneed _]|(_ & _ & [[He _]|(r & Hr & Hrp & Hfr & _ & He)])].
  - rewrite Hi, Hb in Hneed. discriminate.
  - rewrite He. cbn [fst snd]. split; [|intros H; congruence]. intros _.
    split; [|exact Hc1].
    apply lookup_loop_miss. intros q Hq. apply Hno1, span_range. exact Hq.
  - rewrite He. cbn [fst snd].
    split; [intros ->; unfold ENOMEM in Hr; lia|]. intros _.
    assert (Hrlen : 0 <= r < Z.of_nat (length m1)).
    { unfold m1. rewrite peb_store_length. apply Hin. exact Hr. }
    split; [lia|]. split; [exact Hrp|]. split.
    + apply lookup_loop_first; [apply span_range; exact Hr| |].
      * rewrite peb_at_store_eq by exact Hrlen.
        unfold lookup_match. simpl. rewrite !Z.eqb_refl. reflexivity.
      * intros q Hq. rewrite peb_at_store_ne by lia. apply Hno1. lia.
    + rewrite count_loop_store; [|apply span_range; exact Hr|exact Hrlen].
      rewrite Hc1.
      assert (Hf1 : is_free (peb_at m1 r) = true).
      { unfold m1. rewrite peb_at_store_ne by congruence. exact Hfr. }
      unfold owned_by at 1. rewrite (is_free_not_inuse _ Hf1).
      rewrite andb_false_r. simpl.
      unfold owned_by. simpl. rewrite Z.eqb_refl. simpl. lia.
Qed.

(** ** What an operation leaves alone *)

(** A relation between the old and the new value of an entry that holds
    across every store of a scan holds across the scan. *)
Section Pointwise.

Variable R : ubi_pmap -> ubi_pmap -> Prop.
Hypothesis R_refl : forall e, R e e.
Hypothesis R_trans : forall a b c, R a b -> R b c -> R a c.

Lemma store_pointwise (m : list ubi_pmap) p e q :
  R (peb_at m p) e -> R (peb_at m q) (peb_at (peb_store m p e) q).
Proof.
  intros H. destruct (peb_at_store_cases m p q e) as [E|(-> & _ & E)];
    rewrite E; [apply R_refl|exact H].
Qed.

Lemma grow_loop_pointwise vol rp n p ln m q :
  (forall e l, is_free e = true -> R e (mk_pmap vol l true (bad e))) ->
  R (peb_at m q) (peb_at (snd (Pmap.grow_loop vol rp n p ln m)) q).
Proof.
  intros Hstep. revert p ln m.
  induction n as [|n IH]; intros p ln m; simpl; [apply R_refl|].
  destruct (is_free (peb_at m p)) eqn:Hf; [|apply IH].
  assert (Hs : R (peb_at m q)
                 (peb_at (peb_store m p (mk_pmap vol ln true (bad (peb_at m p))))
                    q))
    by (apply store_pointwise, Hstep, Hf).
  destruct (ln + 1 =? rp); [exact Hs|].
  eapply R_trans; [exact Hs|apply IH].
Qed.

Lemma shrink_loop_pointwise vol rp fp lp fuel p ln m m' q :
  (forall e l, shrink_test vol l e = true -> R e (released e)) ->
  Pmap.shrink_loop vol rp fp lp fuel p ln m = Some m' ->
  R (peb_at m q) (peb_at m' q).
Proof.
  intros Hstep. revert p ln m.
  induction fuel as [|f IH]; intros p ln m; [discriminate|].
  rewrite shrink_loop_S.
  destruct (shrink_test vol ln (peb_at m p)) eqn:Ht; [|apply IH].
  assert (Hs : R (peb_at m q)
                 (peb_at (peb_store m p (released (peb_at m p))) q))
    by (eapply store_pointwise, Hstep, Ht).
  destruct (ln - 1 =? rp).
  - intros [= <-]. exact Hs.
  - intros H. eapply R_trans; [exact Hs|]. eapply IH. exact H.
Qed.

Lemma delete_loop_pointwise vol n p m q :
  (forall e, vol_id e = vol -> R e zero_pmap) ->
  R (peb_at m q) (peb_at (Pmap.delete_loop vol n p m) q).
Proof.
  intros Hstep. revert p m.
  induction n as [|n IH]; intros p m; simpl; [apply R_refl|].
  destruct (Z.eqb_spec (vol_id (peb_at m p)) vol) as [Hv|Hv]; [|apply IH].
  eapply R_trans; [apply store_pointwise, Hstep, Hv|apply IH].
Qed.

Lemma replace_loop_pointwise src n p m q :
  (forall e, is_free e = true ->
             R e (mk_pmap (vol_id src) (lnum src) true (bad e))) ->
  R (peb_at m q) (peb_at (snd (Pmap.replace_loop src n p m)) q).
Proof.
  intros Hstep. revert p.
  induction n as [|n IH]; intros p; simpl; [apply R_refl|].
  destruct (is_free (peb_at m p)) eqn:Hf; [|apply IH].
  simpl. apply store_pointwise, Hstep, Hf.
Qed.

Lemma resize_pointwise fuel m vol rp r m' q :
  (forall e l, is_free e = true -> R e (mk_pmap vol l true (bad e))) ->
  (forall e l, shrink_test vol l e = true -> R e (released e)) ->
  (rp = 0 -> forall e, vol_id e = vol -> R e zero_pmap) ->
  resize fuel m vol rp = Some (r, m') ->
  R (peb_at m q) (peb_at m' q).
Proof.
  intros Hgrow Hshrink Hdel. unfold Pmap.ubi_pmap_resize_volume.
  destruct (area vol) as [fp lp].
  destruct (Z.eqb_spec rp 0) as [Hz|Hz].
  { intros [= _ <-]. apply delete_loop_pointwise. apply Hdel. exact Hz. }
  set (c := Pmap.count_loop m vol (Pmap.span fp lp) fp 0).
  destruct (c <? rp).
  - pose proof (grow_loop_pointwise vol rp (Pmap.span fp lp) fp c m q Hgrow)
      as Hg.
    destruct (Pmap.grow_loop vol rp (Pmap.span fp lp) fp c m) as [ln mg].
    simpl in Hg. destruct (ln >? rp).
    + destruct (Pmap.shrink_loop vol rp fp lp fuel lp ln mg) as [ms|] eqn:Es;
        [|discriminate].
      intros [= _ <-]. eapply R_trans; [exact Hg|].
      eapply shrink_loop_pointwise; eauto.
    + intros [= _ <-]. exact Hg.
  - destruct (c >? rp).
    + destruct (Pmap.shrink_loop vol rp fp lp fuel lp c m) as [ms|] eqn:Es;
        [|discriminate].
      intros [= _ <-]. eapply shrink_loop_pointwise; eauto.
    + intros [= _ <-]. apply R_refl.
Qed.

End Pointwise.

Lemma touched_refl vol e : touched_for vol e e.
Proof. left. reflexivity. Qed.

Lemma touched_trans vol a b c :
  touched_for vol a b -> touched_for vol b c -> touched_for vol a c.
Proof.
  intros [->|[H1 H2]] [->|[H3 H4]]; unfold touched_for; auto.
Qed.

Lemma not_of_other_volume vol vol' e :
  vol' <> vol -> inuse e = false \/ vol_id e = vol ->
  (vol_id e =? vol') && inuse e = false.
Proof.
  intros Hne [H|H]; [rewrite H; apply andb_false_r|].
  rewrite H. destruct (Z.eqb_spec vol vol'); [congruence|reflexivity].
Qed.

Lemma touched_owned vol vol' e e' :
  vol' <> vol -> touched_for vol e e' ->
  owned_by vol' e' = owned_by vol' e.
Proof.
  intros Hne [->|[H1 H2]]; [reflexivity|]. unfold owned_by.
  rewrite (not_of_other_volume vol vol' e Hne H1).
  rewrite (not_of_other_volume vol vol' e' Hne H2). reflexivity.
Qed.

Lemma touched_match vol vol' ln e e' :
  vol' <> vol -> touched_for vol e e' ->
  lookup_match vol' ln e' = lookup_match vol' ln e.
Proof.
  intros Hne [->|[H1 H2]]; [reflexivity|]. unfold lookup_match.
  pose proof (not_of_other_volume vol vol' e Hne H1) as He.
  pose proof (not_of_other_volume vol vol' e' Hne H2) as He'.
  destruct (vol_id e =? vol'), (inuse e), (vol_id e' =? vol'), (inuse e');
    simpl in *; try discriminate; rewrite ?andb_false_r; reflexivity.
Qed.

Lemma resize_touched fuel m vol rp r m' q :
  resize fuel m vol rp = Some (r, m') ->
  touched_for vol (peb_at m q) (peb_at m' q).
Proof.
  apply (resize_pointwise (touched_for vol) (touched_refl vol)
           (touched_trans vol)).
  - intros e l Hf. right. split; [left; apply is_free_not_inuse, Hf|].
    right. reflexivity.
  - intros e l Ht. apply shrink_test_true in Ht as [Ho _]. right. split.
    + right. unfold owned_by in Ho. apply andb_prop in Ho as [Ho _].
      apply andb_prop in Ho as [Ho _]. apply Z.eqb_eq. exact Ho.
    + left. reflexivity.
  - intros _ e Hv. right. split; [right; exact Hv|left; reflexivity].
Qed.

Lemma markbad_touched m pnum q vol :
  vol = vol_id (peb_at m pnum) \/ inuse (peb_at m pnum) = false ->
  touched_for vol (peb_at m q) (peb_at (snd (markbad m pnum)) q).
Proof.
  intros Hvol.
  destruct (Z_lt_ge_dec pnum 0) as [Hneg|Hpos];
    [rewrite markbad_outside by lia; apply touched_refl|].
  destruct (Z_lt_ge_dec pnum (Z.of_nat (length m))) as [Hin|Hout];
    [|rewrite markbad_outside by lia; apply touched_refl].
  assert (Hlen : 0 <= pnum < Z.of_nat (length m)) by lia.
  pose proof (markbad_shape m pnum Hlen) as Hshape. cbv zeta in Hshape.
  set (e := peb_at m pnum) in *.
  set (e1 := mk_pmap (vol_id e) (lnum e) false true) in *.
  set (m1 := peb_store m pnum e1) in *.
  assert (H1 : touched_for vol (peb_at m q) (peb_at m1 q)).
  { apply (store_pointwise (touched_for vol) (touched_refl vol)). fold e.
    right. split; [|left; reflexivity].
    destruct Hvol as [->|Hi]; [right; reflexivity|left; exact Hi]. }
  destruct Hshape as [[_ He]|(Hi & _ & [[He _]|(r & _ & Hrp & Hfr & _ & He)])];
    rewrite He; cbn [snd]; try exact H1.
  eapply touched_trans; [exact H1|].
  apply (store_pointwise (touched_for vol) (touched_refl vol)).
  right. split.
  - left. unfold m1. rewrite peb_at_store_ne by congruence.
    apply is_free_not_inuse, Hfr.
  - destruct Hvol as [->|Hn]; [right; reflexivity|congruence].
Qed.

Lemma touched_same_lookups (m m' : list ubi_pmap) vol vol' :
  vol' <> vol ->
  (forall q, touched_for vol (peb_at m q) (peb_at m' q)) ->
  vol_peb_count m' vol' = vol_peb_count m vol'
  /\ forall ln, lookup_pnum m' vol' ln = lookup_pnum m vol' ln.
Proof.
  intros Hne Ht. split.
  - rewrite !vol_peb_count_unfold. apply count_loop_ext.
    intros q _. apply (touched_owned vol); auto.
  - intros ln. rewrite !lookup_pnum_unfold. apply lookup_loop_ext.
    intros q _. apply (touched_match vol); auto.
Qed.

(** X9.  Volumes are isolated from each other's resizes and bad blocks:
    [ubi_pmap_resize_volume] on one volume, and
    [ubi_pmap_markbad_replace] on a PEB of one volume (or on a PEB that is
    not in use), change neither the number of PEBs of any other volume nor
    the PEB any of its LEBs resolves to. *)
Theorem other_volumes_keep_their_pebs (m : list ubi_pmap) (vol' : Z) :
  (forall fuel vol rp r m',
     resize fuel m vol rp = Some (r, m') -> vol' <> vol ->
     vol_peb_count m' vol' = vol_peb_count m vol'
     /\ forall ln, lookup_pnum m' vol' ln = lookup_pnum m vol' ln)
  /\ (forall pnum,
        vol' <> vol_id (peb_at m pnum) \/ inuse (peb_at m pnum) = false ->
        vol_peb_count (snd (markbad m pnum)) vol' = vol_peb_count m vol'
        /\ forall ln, lookup_pnum (snd (markbad m pnum)) vol' ln
                      = lookup_pnum m vol' ln).
Proof.
  split.
  - intros fuel vol rp r m' Hres Hne.
    apply (touched_same_lookups m m' vol vol' Hne).
    intros q. eapply resize_touched. exact Hres.
  - intros pnum [Hne|Hfree].
    + apply (touched_same_lookups m _ (vol_id (peb_at m pnum)) vol' Hne).
      intros q. apply markbad_touched. left. reflexivity.
    + apply (touched_same_lookups m _ (vol' + 1) vol'); [lia|].
      intros q. apply markbad_touched. right. exact Hfree.
Qed.

(** X10.  A bad-block mark stays: a resize to a size other than zero leaves
    the [bad] flag of every entry as it was, and
    [ubi_pmap_markbad_replace] sets the flag of the entry at [pnum] and
    changes no other. *)
Theorem bad_marks_are_kept (m : list ubi_pmap) (q : Z) :
  (forall fuel vol rp r m',
     rp <> 0 -> resize fuel m vol rp = Some (r, m') ->
     bad (peb_at m' q) = bad (peb_at m q))
  /\ (forall pnum,
        0 <= pnum < Z.of_nat (length m) ->
        bad (peb_at (snd (markbad m pnum)) q)
        = bad (peb_at m q) || (q =? pnum)).
Proof.
  split.
  - intros fuel vol rp r m' Hrp Hres.
    apply (resize_pointwise (fun e e' => bad e' = bad e)
             (fun e => eq_refl)
             (fun a b c H1 H2 => eq_trans H2 H1)
             fuel m vol rp r m' q); auto.
    intros Hz. contradiction.
  - intros pnum Hlen.
    pose proof (markbad_shape m pnum Hlen) as Hshape. cbv zeta in Hshape.
    set (e := peb_at m pnum) in *.
    set (e1 := mk_pmap (vol_id e) (lnum e) false true) in *.
    set (m1 := peb_store m pnum e1) in *.
    assert (H1 : bad (peb_at m1 q) = bad (peb_at m q) || (q =? pnum)).
    { destruct (Z.eqb_spec q pnum) as [->|Hne].
      - unfold m1. rewrite peb_at_store_eq by exact Hlen.
        rewrite orb_true_r. reflexivity.
      - unfold m1. rewrite peb_at_store_ne by congruence.
        rewrite orb_false_r. reflexivity. }
    destruct Hshape as [[_ He]|(_ & _ & [[He _]|(r & _ & Hrp & Hfr & _ & He)])];
      rewrite He; cbn [snd]; try exact H1.
    rewrite <- H1.
    destruct (peb_at_store_cases m1 r q
                (mk_pmap (vol_id e) (lnum e) true false)) as [E|(-> & _ & E)];
      rewrite E; [reflexivity|]. simpl.
    unfold m1. rewrite peb_at_store_ne by congruence.
    symmetry. apply is_free_not_bad, Hfr.
Qed.

(** ** Growth to the requested size *)

Lemma count_free_step m p q :
  p < q ->
  Pmap.count_free m (Z.to_nat (q - p)) p
  = (if is_free (peb_at m p) then 1 else 0)
    + Pmap.count_free m (Z.to_nat (q - (p + 1))) (p + 1).
Proof.
  intros Hlt. replace (Z.to_nat (q - p)) with (S (Z.to_nat (q - (p + 1))))
    by lia.
  apply count_free_S.
Qed.

Lemma count_free_split m a b p :
  Pmap.count_free m (a + b) p
  = Pmap.count_free m a p + Pmap.count_free m b (p + Z.of_nat a).
Proof.
  revert p. induction a as [|a IH]; intros p.
  - change (Z.of_nat 0) with 0. rewrite Z.add_0_r. reflexivity.
  - change (S a + b)%nat with (S (a + b)). rewrite !count_free_S, IH.
    replace (p + 1 + Z.of_nat a) with (p + Z.of_nat (S a)) by lia. lia.
Qed.

(** The counter is strictly larger after a free entry. *)
Lemma count_free_lt m p q1 q2 :
  p <= q1 < q2 -> is_free (peb_at m q1) = true ->
  Pmap.count_free m (Z.to_nat (q1 - p)) p
  < Pmap.count_free m (Z.to_nat (q2 - p)) p.
Proof.
  intros Hq Hf.
  replace (Z.to_nat (q2 - p))
    with (Z.to_nat (q1 - p) + S (Z.to_nat (q2 - q1 - 1)))%nat by lia.
  rewrite count_free_split, count_free_S.
  replace (p + Z.of_nat (Z.to_nat (q1 - p))) with q1 by lia.
  rewrite Hf.
  pose proof (count_free_nonneg m (Z.to_nat (q2 - q1 - 1)) (q1 + 1)). lia.
Qed.

(** Every value below the number of free entries of a range is the value
    of the counter at some free entry of the range. *)
Lemma count_free_hits m n p k :
  0 <= k < Pmap.count_free m n p ->
  exists q, p <= q < p + Z.of_nat n /\ is_free (peb_at m q) = true
            /\ Pmap.count_free m (Z.to_nat (q - p)) p = k.
Proof.
  revert p k. induction n as [|n IH]; intros p k Hk; [simpl in Hk; lia|].
  rewrite count_free_S in Hk.
  destruct (is_free (peb_at m p)) eqn:Hf.
  - destruct (Z.eq_dec k 0) as [->|Hne].
    + exists p. split; [lia|]. split; [exact Hf|].
      rewrite Z.sub_diag. reflexivity.
    + destruct (IH (p + 1) (k - 1)) as (q & Hq & Hfq & Hc); [lia|].
      exists q. split; [lia|]. split; [exact Hfq|].
      rewrite count_free_step by lia. rewrite Hf. lia.
  - destruct (IH (p + 1) k) as (q & Hq & Hfq & Hc); [lia|].
    exists q. split; [lia|]. split; [exact Hfq|].
    rewrite count_free_step by lia. rewrite Hf. lia.
Qed.

(** What the growth scan does: it takes the free entries of the range in
    ascending order, numbering them from [ln], until the counter reaches
    [rp] or the range ends. *)
Lemma grow_loop_spec vol rp n p ln m :
  (forall q, p <= q < p + Z.of_nat n -> 0 <= q < Z.of_nat (length m)) ->
  ln < rp ->
  fst (Pmap.grow_loop vol rp n p ln m)
  = Z.min rp (ln + Pmap.count_free m n p)
  /\ length (snd (Pmap.grow_loop vol rp n p ln m)) = length m
  /\ forall q,
       (growth_takes m rp p ln n q
        /\ peb_at (snd (Pmap.grow_loop vol rp n p ln m)) q
           = mk_pmap vol (ln + Pmap.count_free m (Z.to_nat (q - p)) p)
               true false)
       \/ (~ growth_takes m rp p ln n q
           /\ peb_at (snd (Pmap.grow_loop vol rp n p ln m)) q = peb_at m q).
Proof.
  unfold growth_takes.
  revert p ln m. induction n as [|n IH]; intros p ln m Hin Hlt.
  - simpl. split; [lia|]. split; [reflexivity|]. intros q. right.
    split; [lia|reflexivity].
  - rewrite count_free_S. cbn [Pmap.grow_loop].
    pose proof (count_free_nonneg m n (p + 1)) as Hnn.
    destruct (is_free (peb_at m p)) eqn:Hf.
    + set (m1 := peb_store m p (mk_pmap vol ln true (bad (peb_at m p)))).
      assert (Hp1 : peb_at m1 p = mk_pmap vol ln true false).
      { unfold m1. rewrite peb_at_store_eq by (apply Hin; lia).
        rewrite (is_free_not_bad _ Hf). reflexivity. }
      assert (Hq1 : forall q, q <> p -> peb_at m1 q = peb_at m q)
        by (intros q Hq; apply peb_at_store_ne; congruence).
      assert (Hc1 : forall k p', p < p' ->
                Pmap.count_free m1 k p' = Pmap.count_free m k p')
        by (intros k p' Hp'; apply count_free_store_before; exact Hp').
      assert (Hat : p <= p < p + Z.of_nat (S n)
                    /\ is_free (peb_at m p) = true
                    /\ ln + Pmap.count_free m (Z.to_nat (p - p)) p < rp).
      { split; [lia|]. split; [exact Hf|]. rewrite Z.sub_diag. simpl. lia. }
      destruct (Z.eqb_spec (ln + 1) rp) as [Heq|Hne].
      * cbn [fst snd]. split; [lia|]. split; [apply peb_store_length|].
        intros q. destruct (Z.eq_dec q p) as [->|Hqp].
        -- left. split; [exact Hat|]. rewrite Hp1, Z.sub_diag. simpl.
           f_equal. lia.
        -- right. split; [|apply Hq1; exact Hqp].
           intros (Hr & _ & Hc). rewrite count_free_step, Hf in Hc by lia.
           pose proof (count_free_nonneg m (Z.to_nat (q - (p + 1))) (p + 1)).
           lia.
      * destruct (IH (p + 1) (ln + 1) m1) as (H1 & H2 & H3).
        { intros q Hq. unfold m1. rewrite peb_store_length. apply Hin. lia. }
        { lia. }
        split; [rewrite H1, Hc1 by lia; lia|].
        split; [rewrite H2; apply peb_store_length|].
        intros q. destruct (Z.eq_dec q p) as [->|Hqp].
        -- left. split; [exact Hat|].
           destruct (H3 p) as [[[Hr _] _]|[_ Hs]]; [lia|].
           rewrite Hs, Hp1, Z.sub_diag. simpl. f_equal. lia.
        -- destruct (H3 q) as [[(Hr & Hfq & Hc) Hs]|[Hn Hs]].
           ++ left. rewrite Hq1 in Hfq by exact Hqp.
              rewrite Hc1 in Hc, Hs by lia.
              rewrite count_free_step, Hf by lia.
              split; [split; [lia|split; [exact Hfq|lia]]|].
              rewrite Hs. f_equal. lia.
           ++ right. rewrite Hs, Hq1 by exact Hqp. split; [|reflexivity].
              intros (Hr & Hfq & Hc). apply Hn.
              rewrite Hq1 by exact Hqp. rewrite Hc1 by lia.
              rewrite count_free_step, Hf in Hc by lia.
              split; [lia|]. split; [exact Hfq|lia].
    + destruct (IH (p + 1) ln m) as (H1 & H2 & H3).
      { intros q Hq. apply Hin. lia. }
      { exact Hlt. }
      split; [rewrite H1; lia|]. split; [exact H2|].
      intros q. destruct (Z.eq_dec q p) as [->|Hqp].
      * right. split; [intros (_ & Hfq & _); congruence|].
        destruct (H3 p) as [[[Hr _] _]|[_ Hs]]; [lia|exact Hs].
      * destruct (H3 q) as [[(Hr & Hfq & Hc) Hs]|[Hn Hs]].
        -- left. rewrite count_free_step, Hf by lia.
           split; [split; [lia|split; [exact Hfq|lia]]|].
           rewrite Hs. f_equal.
        -- right. split; [|exact Hs].
           intros (Hr & Hfq & Hc). apply Hn.
           rewrite count_free_step, Hf in Hc by lia.
           split; [lia|]. split; [exact Hfq|lia].
Qed.

(** The LEB counter of the growth scan and the number of PEBs of the volume
    advance together. *)
Lemma grow_loop_count vol rp n p ln (m : list ubi_pmap) fp sp :
  (forall q, p <= q < p + Z.of_nat n ->
     0 <= q < Z.of_nat (length m) /\ fp <= q < fp + Z.of_nat sp) ->
  Pmap.count_loop (snd (Pmap.grow_loop vol rp n p ln m)) vol sp fp 0
  - fst (Pmap.grow_loop vol rp n p ln m)
  = Pmap.count_loop m vol sp fp 0 - ln.
Proof.
  revert p ln m. induction n as [|n IH]; intros p ln m Hin; [simpl; lia|].
  cbn [Pmap.grow_loop].
  destruct (is_free (peb_at m p)) eqn:Hf.
  - set (m1 := peb_store m p (mk_pmap vol ln true (bad (peb_at m p)))).
    assert (Hc : Pmap.count_loop m1 vol sp fp 0
                 = Pmap.count_loop m vol sp fp 0 + 1).
    { unfold m1. destruct (Hin p) as [H1 H2]; [lia|].
      rewrite count_loop_store by assumption.
      unfold owned_by at 1. rewrite (is_free_not_inuse _ Hf).
      rewrite andb_false_r. simpl.
      unfold owned_by. simpl. rewrite Z.eqb_refl, (is_free_not_bad _ Hf).
      simpl. lia. }
    destruct (ln + 1 =? rp); [cbn [fst snd]; lia|].
    rewrite IH; [lia|].
    intros q Hq. unfold m1. rewrite peb_store_length. apply Hin. lia.
  - apply IH. intros q Hq. apply Hin. lia.
Qed.

(** Each release of the shrink scan takes one PEB from the volume. *)
Lemma shrink_loop_count vol rp fp lp fuel p ln (m m' : list ubi_pmap) :
  fp <= lp -> fp <= p <= lp ->
  (forall q, fp <= q <= lp -> 0 <= q < Z.of_nat (length m)) ->
  Pmap.shrink_loop vol rp fp lp fuel p ln m = Some m' ->
  Pmap.count_loop m' vol (Pmap.span fp lp) fp 0
  = Pmap.count_loop m vol (Pmap.span fp lp) fp 0 - (ln - rp).
Proof.
  intros Hne. revert p ln m.
  induction fuel as [|f IH]; intros p ln m Hp Hin; [discriminate|].
  rewrite shrink_loop_S.
  assert (Hprev : fp <= circ_prev fp lp p <= lp).
  { unfold circ_prev. destruct (Z.ltb_spec (p - 1) fp); lia. }
  destruct (shrink_test vol ln (peb_at m p)) eqn:Ht; [|apply IH; assumption].
  apply shrink_test_true in Ht as [Ho Hl].
  set (m1 := peb_store m p (released (peb_at m p))).
  assert (Hc : Pmap.count_loop m1 vol (Pmap.span fp lp) fp 0
               = Pmap.count_loop m vol (Pmap.span fp lp) fp 0 - 1).
  { unfold m1. rewrite count_loop_store;
      [|apply span_range; exact Hp|apply Hin; exact Hp].
    rewrite Ho. unfold owned_by, released. simpl.
    rewrite andb_false_r. simpl. lia. }
  destruct (Z.eqb_spec (ln - 1) rp) as [Heq|Hneq].
  - intros [= <-]. rewrite Hc. lia.
  - intros Hs. rewrite (IH _ _ _ Hprev) with (2 := Hs); [rewrite Hc; lia|].
    intros q Hq. unfold m1. rewrite peb_store_length. apply Hin. exact Hq.
Qed.

(** Growth within the free entries of the area. *)
Lemma resize_growth_spec (fuel : nat) (m : list ubi_pmap)
    (vol rp : Z) :
  Pmap.areas_in_map UBI_LAYOUT_VOLUME_RESERVED_EBS peb_count m ->
  let fp := fst (area vol) in
  let lp := snd (area vol) in
  let c := vol_peb_count m vol in
  let lnum_at q := c + Pmap.count_free m (Z.to_nat (q - fp)) fp in
  0 < rp -> c <= rp <= c + Pmap.count_free m (Pmap.span fp lp) fp ->
  exists m',
    resize fuel m vol rp = Some (0, m')
    /\ length m' = length m
    /\ vol_peb_count m' vol = rp
    /\ (forall q, fp <= q <= lp -> is_free (peb_at m q) = true ->
          lnum_at q < rp ->
          peb_at m' q = mk_pmap vol (lnum_at q) true false)
    /\ (forall q, ~ (fp <= q <= lp /\ is_free (peb_at m q) = true
                     /\ lnum_at q < rp) ->
          peb_at m' q = peb_at m q).
Proof.
  intros Hmap fp lp c lnum_at Hrp Hfit.
  pose proof (fun q => area_in_map m vol q Hmap) as Harea.
  subst lnum_at c fp lp. rewrite vol_peb_count_unfold in *.
  assert (Hcnt : forall mm, vol_peb_count mm vol
            = Pmap.count_loop mm vol
                (Pmap.span (fst (area vol)) (snd (area vol)))
                (fst (area vol)) 0)
    by (intros; apply vol_peb_count_unfold).
  unfold Pmap.ubi_pmap_resize_volume.
  destruct (area vol) as [fp lp]. simpl in *.
  set (c := Pmap.count_loop m vol (Pmap.span fp lp) fp 0) in *.
  destruct (Z.eqb_spec rp 0) as [Hz|_]; [lia|].
  destruct (Z.ltb_spec c rp) as [Hlt|Hge].
  - destruct (grow_loop_spec vol rp (Pmap.span fp lp) fp c m)
      as (H1 & H2 & H3).
    { intros q Hq. apply Harea, span_range, Hq. }
    { exact Hlt. }
    pose proof (grow_loop_count vol rp (Pmap.span fp lp) fp c m fp
                  (Pmap.span fp lp)) as Hc.
    destruct (Pmap.grow_loop vol rp (Pmap.span fp lp) fp c m) as [ln mg].
    cbn [fst snd] in *.
    assert (Hln : ln = rp) by lia. clear H1. subst ln.
    destruct (Z.gtb_spec rp rp) as [Hgt|_]; [lia|].
    exists mg. split; [reflexivity|]. split; [exact H2|].
    split.
    { rewrite Hcnt.
      assert (Hc' : Pmap.count_loop mg vol (Pmap.span fp lp) fp 0 - rp
                    = c - c).
      { apply Hc. intros q Hq.
        split; [apply Harea, span_range, Hq|exact Hq]. }
      lia. }
    split.
    + intros q Hq Hf Hl. destruct (H3 q) as [[_ Hs]|[Hn _]]; [exact Hs|].
      exfalso. apply Hn. split; [apply span_range; exact Hq|]. auto.
    + intros q Hn. destruct (H3 q) as [[(Hr & Hf & Hl) _]|[_ Hs]]; [|exact Hs].
      exfalso. apply Hn. apply span_range in Hr. auto.
  - assert (Hc : c = rp) by lia.
    destruct (Z.gtb_spec c rp) as [Hgt|_]; [lia|].
    exists m. split; [reflexivity|]. split; [reflexivity|].
    split; [rewrite Hcnt; exact Hc|].
    split.
    + intros q Hq Hf Hl.
      pose proof (count_free_nonneg m (Z.to_nat (q - fp)) fp). lia.
    + intros q _. reflexivity.
Qed.

(** X11.  When the reserved area of the volume has enough free, non-bad
    PEBs, [ubi_pmap_resize_volume] grows the volume to exactly the
    requested size: it returns zero, the volume has [reserved_pebs] PEBs,
    the free entries of the area are taken in ascending PEB order and
    numbered from the old size of the volume until the requested size is
    reached, and no other entry changes. *)
Theorem resize_growth_reaches_size (fuel : nat) (m : list ubi_pmap)
    (vol rp : Z) :
  Pmap.areas_in_map UBI_LAYOUT_VOLUME_RESERVED_EBS peb_count m ->
  let fp := fst (area vol) in
  let lp := snd (area vol) in
  let c := vol_peb_count m vol in
  let lnum_at q := c + Pmap.count_free m (Z.to_nat (q - fp)) fp in
  0 < rp -> c <= rp <= c + Pmap.count_free m (Pmap.span fp lp) fp ->
  exists m',
    resize fuel m vol rp = Some (0, m')
    /\ length m' = length m
    /\ vol_peb_count m' vol = rp
    /\ (forall q, fp <= q <= lp -> is_free (peb_at m q) = true ->
          lnum_at q < rp ->
          peb_at m' q = mk_pmap vol (lnum_at q) true false)
    /\ (forall q, ~ (fp <= q <= lp /\ is_free (peb_at m q) = true
                     /\ lnum_at q < rp) ->
          peb_at m' q = peb_at m q).
Proof. exact (resize_growth_spec fuel m vol rp). Qed.

(** ** The LEB numbers of a volume stay [0 .. size-1] *)

Lemma vol_contiguous_in (m : list ubi_pmap) vol k :
  Pmap.vol_contiguous UBI_LAYOUT_VOLUME_ID UBI_LAYOUT_VOLUME_RESERVED_EBS
    peb_count m vol k
  <-> contiguous_in m vol (fst (area vol)) (snd (area vol)) k.
Proof. reflexivity. Qed.

Lemma growth_contiguous (m mg : list ubi_pmap) vol c rp fp lp :
  0 <= c <= rp ->
  rp <= c + Pmap.count_free m (Pmap.span fp lp) fp ->
  (forall q,
     (growth_takes m rp fp c (Pmap.span fp lp) q
      /\ peb_at mg q
         = mk_pmap vol (c + Pmap.count_free m (Z.to_nat (q - fp)) fp)
             true false)
     \/ (~ growth_takes m rp fp c (Pmap.span fp lp) q
         /\ peb_at mg q = peb_at m q)) ->
  contiguous_in m vol fp lp c -> contiguous_in mg vol fp lp rp.
Proof.
  intros Hc Hfit Hspec (Hb & Huniq & Hex).
  assert (Hnew : forall q, growth_takes m rp fp c (Pmap.span fp lp) q ->
            owned_by vol (peb_at m q) = false).
  { intros q (_ & Hf & _). unfold owned_by.
    rewrite (is_free_not_inuse _ Hf), andb_false_r. reflexivity. }
  split; [|split].
  - intros p Hp Ho. destruct (Hspec p) as [[(Hr & Hf & Hl) Hs]|[_ Hs]];
      rewrite Hs in *.
    + simpl. pose proof (count_free_nonneg m (Z.to_nat (p - fp)) fp). lia.
    + specialize (Hb p Hp Ho). lia.
  - intros p q Hp Hq Hop Hoq Hl.
    destruct (Hspec p) as [[Htp Hsp]|[_ Hsp]],
             (Hspec q) as [[Htq Hsq]|[_ Hsq]]; rewrite Hsp, Hsq in *.
    + simpl in Hl. destruct Htp as (Hrp & Hfp & _), Htq as (Hrq & Hfq & _).
      destruct (Z.lt_trichotomy p q) as [Hlt|[Heq|Hgt]]; [|exact Heq|].
      * pose proof (count_free_lt m fp p q ltac:(lia) Hfp). lia.
      * pose proof (count_free_lt m fp q p ltac:(lia) Hfq). lia.
    + simpl in Hl. specialize (Hb q Hq Hoq).
      pose proof (count_free_nonneg m (Z.to_nat (p - fp)) fp). lia.
    + simpl in Hl. specialize (Hb p Hp Hop).
      pose proof (count_free_nonneg m (Z.to_nat (q - fp)) fp). lia.
    + apply Huniq; assumption.
  - intros l Hl. destruct (Z_lt_ge_dec l c) as [Hold|Hnw].
    + destruct (Hex l ltac:(lia)) as (p & Hp & Ho & Hlp).
      exists p. split; [exact Hp|].
      destruct (Hspec p) as [[Htp _]|[_ Hs]].
      * rewrite (Hnew p Htp) in Ho. discriminate.
      * rewrite Hs. auto.
    + destruct (count_free_hits m (Pmap.span fp lp) fp (l - c))
        as (q & Hq & Hf & Hk); [lia|].
      exists q. split; [apply span_range; exact Hq|].
      destruct (Hspec q) as [[_ Hs]|[Hn _]].
      * rewrite Hs. unfold owned_by. simpl. rewrite Z.eqb_refl.
        split; [reflexivity|lia].
      * exfalso. apply Hn. split; [exact Hq|]. split; [exact Hf|lia].
Qed.

Lemma shrunk_owned (m : list ubi_pmap) vol fp lp rp x :
  fp <= x <= lp ->
  owned_by vol (shrunk_entry m vol fp lp rp x) = true ->
  shrunk_entry m vol fp lp rp x = peb_at m x
  /\ owned_by vol (peb_at m x) = true /\ lnum (peb_at m x) < rp.
Proof.
  intros Hx. unfold shrunk_entry.
  destruct (Z.leb_spec fp x); [|lia]. destruct (Z.leb_spec x lp); [|lia].
  simpl. destruct (owned_by vol (peb_at m x)) eqn:Eo; simpl.
  - destruct (Z.leb_spec rp (lnum (peb_at m x))).
    + unfold owned_by, released. simpl. rewrite andb_false_r. discriminate.
    + intros _. split; [reflexivity|]. split; [reflexivity|lia].
  - rewrite Eo. discriminate.
Qed.

Lemma shrink_contiguous (m m' : list ubi_pmap) vol fp lp c rp :
  0 <= rp <= c ->
  (forall x, peb_at m' x = shrunk_entry m vol fp lp rp x) ->
  contiguous_in m vol fp lp c -> contiguous_in m' vol fp lp rp.
Proof.
  intros Hrp Hspec (Hb & Huniq & Hex).
  split; [|split].
  - intros p Hp Ho. rewrite Hspec in *.
    destruct (shrunk_owned m vol fp lp rp p Hp Ho) as (E & Ho' & Hl).
    rewrite E. specialize (Hb p Hp Ho'). lia.
  - intros p q Hp Hq Hop Hoq Hl. rewrite !Hspec in *.
    destruct (shrunk_owned m vol fp lp rp p Hp Hop) as (Ep & Hop' & _).
    destruct (shrunk_owned m vol fp lp rp q Hq Hoq) as (Eq & Hoq' & _).
    rewrite Ep, Eq in Hl. apply Huniq; assumption.
  - intros l Hl. destruct (Hex l ltac:(lia)) as (p & Hp & Ho & Hlp).
    exists p. split; [exact Hp|]. rewrite Hspec. unfold shrunk_entry.
    destruct (Z.leb_spec fp p); [|lia]. destruct (Z.leb_spec p lp); [|lia].
    rewrite Ho. simpl.
    destruct (Z.leb_spec rp (lnum (peb_at m p))); [lia|]. auto.
Qed.

(** On a volume whose LEB numbers are [0 .. size-1], a resize that fits
    the free PEBs of the area returns, and leaves a volume of the new size
    whose LEB numbers are [0 .. size-1] again. *)
Lemma resize_contiguous (fuel : nat) (m : list ubi_pmap) (vol rp : Z) :
  Pmap.areas_in_map UBI_LAYOUT_VOLUME_RESERVED_EBS peb_count m ->
  let fp := fst (area vol) in
  let lp := snd (area vol) in
  let c := vol_peb_count m vol in
  contiguous_in m vol fp lp c ->
  0 <= rp <= c + Pmap.count_free m (Pmap.span fp lp) fp ->
  (rp < c -> (c - rp) * (lp - fp + 1) <= Z.of_nat fuel) ->
  exists m',
    resize fuel m vol rp = Some (0, m')
    /\ length m' = length m
    /\ vol_peb_count m' vol = rp
    /\ contiguous_in m' vol fp lp rp.
Proof.
  intros Hmap fp lp c.
  pose proof (fun q => area_in_map m vol q Hmap) as Harea.
  subst c fp lp. rewrite vol_peb_count_unfold in *.
  assert (Hcnt : forall mm, vol_peb_count mm vol
            = Pmap.count_loop mm vol
                (Pmap.span (fst (area vol)) (snd (area vol)))
                (fst (area vol)) 0)
    by (intros; apply vol_peb_count_unfold).
  unfold Pmap.ubi_pmap_resize_volume.
  destruct (area vol) as [fp lp]. simpl in *.
  set (c := Pmap.count_loop m vol (Pmap.span fp lp) fp 0) in *.
  intros Hcont Hfit Hfuel.
  pose proof (count_loop_bounds m vol (Pmap.span fp lp) fp) as Hcb.
  fold c in Hcb.
  destruct (Z.eqb_spec rp 0) as [Hz|Hnz].
  { (* deletion *)
    subst rp.
    destruct (delete_loop_spec vol (Pmap.span fp lp) fp m) as [H1 H2].
    { intros x Hx. apply Harea, span_range, Hx. }
    assert (Hnone : forall q, fp <= q <= lp ->
              owned_by vol (peb_at (Pmap.delete_loop vol (Pmap.span fp lp) fp m)
                              q) = false).
    { intros q Hq. rewrite H2. unfold deleted_entry.
      destruct (Z.leb_spec fp q); [|lia].
      destruct (Z.ltb_spec q (fp + Z.of_nat (Pmap.span fp lp)));
        [|unfold Pmap.span in *; lia].
      simpl. destruct (Z.eqb_spec (vol_id (peb_at m q)) vol) as [Hv|Hv].
      - unfold owned_by. simpl. rewrite andb_false_r. reflexivity.
      - unfold owned_by. destruct (Z.eqb_spec (vol_id (peb_at m q)) vol);
          [contradiction|reflexivity]. }
    eexists. split; [reflexivity|]. split; [exact H1|].
    split.
    - rewrite Hcnt. apply count_loop_zero. intros q Hq.
      apply Hnone, span_range, Hq.
    - split; [|split].
      + intros p Hp Ho. rewrite Hnone in Ho by exact Hp. discriminate.
      + intros p q Hp _ Ho. rewrite Hnone in Ho by exact Hp. discriminate.
      + intros l Hl. lia. }
  destruct (Z.ltb_spec c rp) as [Hlt|Hge].
  - (* growth *)
    destruct (grow_loop_spec vol rp (Pmap.span fp lp) fp c m)
      as (H1 & H2 & H3).
    { intros q Hq. apply Harea, span_range, Hq. }
    { exact Hlt. }
    pose proof (grow_loop_count vol rp (Pmap.span fp lp) fp c m fp
                  (Pmap.span fp lp)) as Hc.
    destruct (Pmap.grow_loop vol rp (Pmap.span fp lp) fp c m) as [ln mg].
    cbn [fst snd] in *.
    assert (Hln : ln = rp) by lia. clear H1. subst ln.
    destruct (Z.gtb_spec rp rp) as [Hgt|_]; [lia|].
    exists mg. split; [reflexivity|]. split; [exact H2|].
    split.
    { rewrite Hcnt.
      assert (Hc' : Pmap.count_loop mg vol (Pmap.span fp lp) fp 0 - rp
                    = c - c).
      { apply Hc. intros q Hq.
        split; [apply Harea, span_range, Hq|exact Hq]. }
      lia. }
    apply (growth_contiguous m mg vol c rp fp lp); try assumption; lia.
  - destruct (Z.gtb_spec c rp) as [Hgt|Hle].
    + (* shrink *)
      destruct Hcont as (Hb & Huniq & Hex).
      assert (Hne : fp <= lp).
      { destruct (Z_le_gt_dec fp lp) as [H|H]; [exact H|].
        assert (E : Pmap.span fp lp = 0%nat) by (unfold Pmap.span; lia).
        unfold c in Hgt. rewrite E in Hgt. simpl in Hgt. lia. }
      destruct (shrink_loop_spec vol rp fp lp m c Harea ltac:(lia) Huniq)
        with (k := Z.to_nat (c - rp - 1)) (ln := c) (p := lp) (mc := m)
             (fuel := fuel)
        as (m' & Hs & Hlen & Hm').
      * intros l Hl. apply Hex. lia.
      * lia.
      * lia.
      * lia.
      * reflexivity.
      * intros x. symmetry. apply shrunk_entry_none. exact Hb.
      * specialize (Hfuel ltac:(lia)). unfold Pmap.span. nia.
      * exists m'. rewrite Hs. split; [reflexivity|]. split; [exact Hlen|].
        split.
        -- rewrite Hcnt.
           rewrite (shrink_loop_count vol rp fp lp fuel lp c m m' Hne
                      ltac:(lia) Harea Hs).
           fold c. lia.
        -- apply (shrink_contiguous m m' vol fp lp c rp);
             [lia|exact Hm'|]. split; [exact Hb|]. split; assumption.
    + (* same size *)
      assert (Hc : c = rp) by lia. exists m.
      split; [reflexivity|]. split; [reflexivity|].
      split; [rewrite Hcnt; exact Hc|]. rewrite <- Hc. exact Hcont.
Qed.

(** X12.  Resizes keep a volume well formed.  If the in-use, non-bad
    entries of a volume carry the LEB numbers [0 .. size-1] once each, a
    call of [ubi_pmap_resize_volume] with a new size that the free PEBs of
    the area can serve (and, for a shrink, with the circular scan given its
    turns) returns zero, and afterwards the volume has exactly the new
    number of PEBs and its entries carry the LEB numbers [0 .. new-1] once
    each; a new size of zero leaves no entry of the volume. *)
Theorem resize_keeps_volume_contiguous (fuel : nat) (m : list ubi_pmap)
    (vol rp : Z) :
  Pmap.areas_in_map UBI_LAYOUT_VOLUME_RESERVED_EBS peb_count m ->
  let fp := fst (area vol) in
  let lp := snd (area vol) in
  let c := vol_peb_count m vol in
  Pmap.vol_contiguous UBI_LAYOUT_VOLUME_ID UBI_LAYOUT_VOLUME_RESERVED_EBS
    peb_count m vol c ->
  0 <= rp <= c + Pmap.count_free m (Pmap.span fp lp) fp ->
  (rp < c -> (c - rp) * (lp - fp + 1) <= Z.of_nat fuel) ->
  exists m',
    resize fuel m vol rp = Some (0, m')
    /\ length m' = length m
    /\ vol_peb_count m' vol = rp
    /\ Pmap.vol_contiguous UBI_LAYOUT_VOLUME_ID
         UBI_LAYOUT_VOLUME_RESERVED_EBS peb_count m' vol rp.
Proof.
  intros Hmap fp lp c Hcont Hfit Hfuel.
  exact (resize_contiguous fuel m vol rp Hmap Hcont Hfit Hfuel).
Qed.

(** A resize to zero returns at once and leaves the volume no PEB. *)
Lemma resize_zero_empties (fuel : nat) (m : list ubi_pmap) (vol : Z) :
  Pmap.areas_in_map UBI_LAYOUT_VOLUME_RESERVED_EBS peb_count m ->
  exists m0,
    resize fuel m vol 0 = Some (0, m0)
    /\ length m0 = length m
    /\ vol_peb_count m0 vol = 0.
Proof.
  intros Hmap.
  pose proof (fun q => area_in_map m vol q Hmap) as Harea.
  assert (Hcnt : forall mm, vol_peb_count mm vol
            = Pmap.count_loop mm vol
                (Pmap.span (fst (area vol)) (snd (area vol)))
                (fst (area vol)) 0)
    by (intros; apply vol_peb_count_unfold).
  unfold Pmap.ubi_pmap_resize_volume.
  destruct (area vol) as [fp lp]. simpl in *.
  destruct (delete_loop_spec vol (Pmap.span fp lp) fp m) as [H1 H2].
  { intros x Hx. apply Harea, span_range, Hx. }
  eexists. split; [reflexivity|]. split; [exact H1|].
  rewrite Hcnt. apply count_loop_zero. intros q Hq.
  rewrite H2. unfold deleted_entry.
  destruct (Z.leb_spec fp q); [|lia].
  destruct (Z.ltb_spec q (fp + Z.of_nat (Pmap.span fp lp))); [|lia].
  simpl. destruct (Z.eqb_spec (vol_id (peb_at m q)) vol) as [Hv|Hv].
  - unfold owned_by. simpl. rewrite andb_false_r. reflexivity.
  - unfold owned_by. destruct (Z.eqb_spec (vol_id (peb_at m q)) vol);
      [contradiction|reflexivity].
Qed.

(** ** The range extraction and its callback *)

Lemma extract_loop_collect_app (m : list ubi_pmap) n i first acc :
  snd (extract_loop m n i first acc)
  = acc ++ snd (extract_loop m n i first []).
Proof.
  revert i first acc. induction n as [|n IH]; intros i first acc.
  - simpl. rewrite app_nil_r. reflexivity.
  - cbn [Pmap.extract_loop]. destruct first as [idx|]; [|apply IH].
    destruct (_ || _); [|apply IH].
    unfold Pmap.collect_run. cbn [Z.eqb negb].
    rewrite (IH _ _ (acc ++ _)), (IH _ _ ([] ++ _)).
    rewrite app_assoc. reflexivity.
Qed.

(** The scan hands the runs it finds to the callback one by one, and
    stops at the first call that returns an error. *)
Lemma extract_loop_feed {U : Type}
    (cb : U -> Z -> Z -> Z -> Z -> bool -> Z * U)
    (m : list ubi_pmap) n i first usr :
  Pmap.extract_loop cb m n i first usr
  = feed_runs cb (snd (extract_loop m n i first [])) usr.
Proof.
  revert i first usr. induction n as [|n IH]; intros i first usr;
    [reflexivity|].
  cbn [Pmap.extract_loop]. destruct first as [idx|]; [|apply IH].
  destruct (_ || _); [|apply IH].
  unfold Pmap.collect_run at 1. cbn [Z.eqb negb].
  rewrite extract_loop_collect_app. cbn [app feed_runs].
  unfold call_cb at 1. cbn [Pmap.run_vol_id Pmap.run_peb Pmap.run_leb
                             Pmap.run_blocks Pmap.run_bad].
  destruct (cb usr _ _ _ _ _) as [err usr'].
  destruct (negb (err =? 0)); [reflexivity|]. apply IH.
Qed.


Lemma StronglySorted_snoc {A} (R : A -> A -> Prop) (l : list A) (x : A) :
  StronglySorted R l -> Forall (fun y => R y x) l ->
  StronglySorted R (l ++ [x]).
Proof.
  induction 1 as [|y l Hs IH Hy]; intros Hall; simpl.
  - constructor; constructor.
  - inversion Hall as [|? ? Hyx Hl]; subst. constructor; [apply IH, Hl|].
    apply Forall_app. split; [exact Hy|]. constructor; [exact Hyx|constructor].
Qed.

Lemma extract_loop_sound (m : list ubi_pmap) n i first acc :
  0 <= i -> i + Z.of_nat n <= peb_count ->
  extract_state_ok m i first acc ->
  Forall (run_sound peb_count m) acc -> StronglySorted run_before acc ->
  Forall (run_sound peb_count m) (snd (extract_loop m n i first acc))
  /\ StronglySorted run_before (snd (extract_loop m n i first acc)).
Proof.
  revert i first acc.
  induction n as [|n IH]; intros i first acc Hi Hn Hst Hsound Hsorted;
    [simpl; auto|].
  assert (Hstart : forall acc',
            Forall (fun r => Pmap.run_peb r + Pmap.run_blocks r <= i) acc' ->
            extract_state_ok m (i + 1)
              (if inuse (peb_at m i) then Some i else None) acc').
  { intros acc' Hends. destruct (inuse (peb_at m i)) eqn:Eu; simpl.
    - split; [|exact Hends]. split; [lia|]. intros x Hx.
      assert (x = i) by lia. subst x. rewrite Eu.
      repeat split; try reflexivity. lia.
    - eapply Forall_impl; [exact Hends|]. simpl. intros r Hr. lia. }
  cbn [Pmap.extract_loop]. destruct first as [idx|].
  - destruct Hst as [Hopen Hends]. destruct Hopen as [Hidx Hrun].
    destruct (negb (inuse (peb_at m i))
              || negb (vol_id (peb_at m i) =? vol_id (peb_at m idx))
              || negb (Bool.eqb (bad (peb_at m i)) (bad (peb_at m idx)))
              || negb (lnum (peb_at m i) =? lnum (peb_at m idx) + i - idx))
      eqn:Eclose.
    + unfold Pmap.collect_run. cbn [Z.eqb negb].
      set (r := Pmap.mk_run (vol_id (peb_at m idx)) idx (lnum (peb_at m idx))
                  (i - idx) (bad (peb_at m idx))).
      apply IH; [lia|lia| | |].
      * apply Hstart. apply Forall_app. split.
        -- eapply Forall_impl; [exact Hends|]. simpl. intros r' Hr'. lia.
        -- constructor; [simpl; lia|constructor].
      * apply Forall_app. split; [exact Hsound|].
        constructor; [|constructor]. unfold run_sound. simpl.
        split; [lia|]. split; [lia|]. split; [lia|].
        intros x Hx. destruct (Hrun x ltac:(lia)) as (H1 & H2 & H3 & H4).
        repeat split; try assumption. lia.
      * apply StronglySorted_snoc; [exact Hsorted|].
        eapply Forall_impl; [exact Hends|]. intros r' Hr'.
        unfold run_before. simpl. exact Hr'.
    + apply orb_false_elim in Eclose as [Eclose E4].
      apply orb_false_elim in Eclose as [Eclose E3].
      apply orb_false_elim in Eclose as [E1 E2].
      apply negb_false_iff in E1, E2, E3, E4.
      apply Z.eqb_eq in E2, E4. apply Bool.eqb_prop in E3.
      apply IH; [lia|lia| |exact Hsound|exact Hsorted].
      simpl. split; [|exact Hends]. split; [lia|]. intros x Hx.
      destruct (Z.eq_dec x i) as [->|Hne]; [|apply Hrun; lia].
      repeat split; try assumption.
  - apply IH; [lia|lia| |exact Hsound|exact Hsorted].
    apply Hstart. exact Hst.
Qed.

(** X14.  The runs [ubi_pmap_extract_vol_pebs] hands to its callback
    describe the map and do not overlap: each run lies inside the map and
    ends before the last PEB, all its entries are in use, belong to the
    run's volume, have the run's bad flag and carry consecutive LEB numbers
    from the run's first one; and each run ends before the next one
    starts. *)
Theorem extracted_runs_describe_map (m : list ubi_pmap) :
  Forall (run_sound peb_count m) (Pmap.extracted_runs peb_count m)
  /\ StronglySorted run_before (Pmap.extracted_runs peb_count m).
Proof.
  unfold Pmap.extracted_runs, Pmap.ubi_pmap_extract_vol_pebs.
  destruct (Z_le_gt_dec 0 peb_count) as [Hpos|Hneg].
  - apply extract_loop_sound; [lia|lia| |constructor|constructor].
    simpl. constructor.
  - replace (Z.to_nat peb_count) with 0%nat by lia. simpl.
    split; constructor.
Qed.

(** ** Bad-block replacement and the LEB numbers of a volume *)

(** A replaced entry hands its LEB number to the replacement: the LEB
    numbers of the volume stay what they were. *)
Lemma replace_contiguous (m : list ubi_pmap) pnum r fp lp k :
  let e := peb_at m pnum in
  let m' := peb_store (peb_store m pnum (mk_pmap (vol_id e) (lnum e) false true))
              r (mk_pmap (vol_id e) (lnum e) true false) in
  0 <= pnum < Z.of_nat (length m) -> 0 <= r < Z.of_nat (length m) ->
  fp <= pnum <= lp -> fp <= r <= lp ->
  owned_by (vol_id e) e = true -> is_free (peb_at m r) = true ->
  contiguous_in m (vol_id e) fp lp k -> contiguous_in m' (vol_id e) fp lp k.
Proof.
  intros e m' Hp Hr Hpa Hra Ho Hf (Hb & Huniq & Hex).
  assert (Hne : r <> pnum).
  { intros ->. fold e in Hf. apply owned_by_inuse in Ho.
    apply is_free_not_inuse in Hf. congruence. }
  assert (Hat_r : peb_at m' r = mk_pmap (vol_id e) (lnum e) true false).
  { unfold m'. apply peb_at_store_eq. rewrite peb_store_length. exact Hr. }
  assert (Hat_p : peb_at m' pnum = mk_pmap (vol_id e) (lnum e) false true).
  { unfold m'. rewrite peb_at_store_ne by exact Hne.
    apply peb_at_store_eq. exact Hp. }
  assert (Hat : forall q, q <> r -> q <> pnum -> peb_at m' q = peb_at m q).
  { intros q H1 H2. unfold m'. rewrite !peb_at_store_ne by congruence.
    reflexivity. }
  assert (Hnot_p : owned_by (vol_id e) (peb_at m' pnum) = false).
  { rewrite Hat_p. unfold owned_by. simpl. rewrite andb_false_r. reflexivity. }
  assert (Hnot_r : owned_by (vol_id e) (peb_at m r) = false).
  { unfold owned_by. rewrite (is_free_not_inuse _ Hf), andb_false_r.
    reflexivity. }
  assert (Hown_r : owned_by (vol_id e) (peb_at m' r) = true).
  { rewrite Hat_r. unfold owned_by. simpl. rewrite Z.eqb_refl. reflexivity. }
  assert (Hcase : forall q, owned_by (vol_id e) (peb_at m' q) = true ->
            (q = r /\ lnum (peb_at m' q) = lnum e)
            \/ (q <> r /\ q <> pnum /\ peb_at m' q = peb_at m q
                /\ owned_by (vol_id e) (peb_at m q) = true)).
  { intros q Hq. destruct (Z.eq_dec q r) as [->|H1].
    - left. rewrite Hat_r. auto.
    - destruct (Z.eq_dec q pnum) as [->|H2]; [congruence|].
      right. rewrite (Hat q H1 H2) in *. auto. }
  split; [|split].
  - intros q Hq Hoq. destruct (Hcase q Hoq) as [[-> Hl]|(_ & _ & E & Ho')].
    + rewrite Hl. apply (Hb pnum Hpa Ho).
    + rewrite E. apply (Hb q Hq Ho').
  - intros p q Hpq Hq Hop Hoq Hl.
    destruct (Hcase p Hop) as [[-> Hlp]|(Hp1 & Hp2 & Ep & Hop')],
             (Hcase q Hoq) as [[-> Hlq]|(Hq1 & Hq2 & Eq & Hoq')].
    + reflexivity.
    + exfalso. apply Hq2. rewrite Hlp, Eq in Hl.
      apply (Huniq q pnum Hq Hpa Hoq' Ho). symmetry. exact Hl.
    + exfalso. apply Hp2. rewrite Hlq, Ep in Hl.
      apply (Huniq p pnum Hpq Hpa Hop' Ho). exact Hl.
    + rewrite Ep, Eq in Hl. apply Huniq; assumption.
  - intros l Hl. destruct (Hex l Hl) as (p & Hpp & Hop & Hlp).
    destruct (Z.eq_dec p pnum) as [->|Hnp].
    + exists r. split; [exact Hra|]. split; [exact Hown_r|].
      rewrite Hat_r. simpl. exact Hlp.
    + assert (Hpr : p <> r) by (intros ->; congruence).
      exists p. split; [exact Hpp|]. rewrite (Hat p Hpr Hnp). auto.
Qed.

(** X20.  A bad-block replacement keeps a volume well formed: when
    [ubi_pmap_markbad_replace] finds a replacement for an in-use PEB of a
    volume whose entries carry the LEB numbers [0 .. size-1] once each, the
    entries of the volume carry the same LEB numbers once each after the
    call, the replacement carrying the LEB number of the PEB that went
    bad. *)
Theorem markbad_keeps_volume_contiguous (m : list ubi_pmap) (pnum k : Z) :
  Pmap.areas_in_map UBI_LAYOUT_VOLUME_RESERVED_EBS peb_count m ->
  let e := peb_at m pnum in
  let r := fst (markbad m pnum) in
  let m' := snd (markbad m pnum) in
  inuse e = true -> bad e = false -> in_area (vol_id e) pnum ->
  Pmap.vol_contiguous UBI_LAYOUT_VOLUME_ID UBI_LAYOUT_VOLUME_RESERVED_EBS
    peb_count m (vol_id e) k ->
  r <> - ENOMEM ->
  in_area (vol_id e) r
  /\ peb_at m' r = mk_pmap (vol_id e) (lnum e) true false
  /\ Pmap.vol_contiguous UBI_LAYOUT_VOLUME_ID UBI_LAYOUT_VOLUME_RESERVED_EBS
       peb_count m' (vol_id e) k.
Proof.
  intros Hmap e r m' Hi Hb Hp Hcont Hr. subst r m'.
  pose proof (fun q => area_in_map m (vol_id e) q Hmap) as Hin.
  assert (Hlen : 0 <= pnum < Z.of_nat (length m)) by (apply Hin; exact Hp).
  pose proof (markbad_shape m pnum Hlen) as Hshape.
  cbv zeta in Hshape. fold e in Hshape.
  assert (Hown : owned_by (vol_id e) e = true).
  { unfold owned_by. rewrite Z.eqb_refl, Hi, Hb. reflexivity. }
  destruct Hshape as [[Hneed _]|(_ & _ & [[He _]|(r & Hra & Hrp & Hfr & _ & He)])].
  - rewrite Hi, Hb in Hneed. discriminate.
  - rewrite He in Hr. simpl in Hr. contradiction.
  - rewrite He. cbn [fst snd]. split; [exact Hra|].
    assert (Hrl : 0 <= r < Z.of_nat (length m)) by (apply Hin; exact Hra).
    split.
    + apply peb_at_store_eq. rewrite peb_store_length. exact Hrl.
    + apply vol_contiguous_in.
      apply (replace_contiguous m pnum r _ _ k); try assumption.
Qed.

(** ** The layout volume on the first good PEBs *)

Lemma area_layout :
  area UBI_LAYOUT_VOLUME_ID = (0, UBI_LAYOUT_VOLUME_RESERVED_EBS - 1).
Proof.
  unfold Pmap.ubi_pmap_vol_reserved_area. rewrite Z.eqb_refl. reflexivity.
Qed.

Lemma count_loop_pos m vol n p :
  0 < Pmap.count_loop m vol n p 0 ->
  exists q, p <= q < p + Z.of_nat n /\ owned_by vol (peb_at m q) = true.
Proof.
  revert p. induction n as [|n IH]; intros p H; [simpl in H; lia|].
  rewrite count_loop_S in H.
  destruct (owned_by vol (peb_at m p)) eqn:E.
  - exists p. split; [lia|exact E].
  - destruct (IH (p + 1)) as (q & Hq & Ho); [lia|].
    exists q. split; [lia|exact Ho].
Qed.

(** Contiguity looks at the owned entries only. *)
Lemma contiguous_ext (m m' : list ubi_pmap) vol fp lp k :
  (forall q, fp <= q <= lp ->
     owned_by vol (peb_at m' q) = owned_by vol (peb_at m q)
     /\ (owned_by vol (peb_at m q) = true ->
         lnum (peb_at m' q) = lnum (peb_at m q))) ->
  contiguous_in m vol fp lp k -> contiguous_in m' vol fp lp k.
Proof.
  intros Hext (Hb & Huniq & Hex). split; [|split].
  - intros p Hp Ho. destruct (Hext p Hp) as [E1 E2]. rewrite E1 in Ho.
    rewrite (E2 Ho). apply Hb; assumption.
  - intros p q Hp Hq Hop Hoq Hl.
    destruct (Hext p Hp) as [Ep1 Ep2], (Hext q Hq) as [Eq1 Eq2].
    rewrite Ep1 in Hop. rewrite Eq1 in Hoq.
    rewrite (Ep2 Hop), (Eq2 Hoq) in Hl. apply Huniq; assumption.
  - intros l Hl. destruct (Hex l Hl) as (p & Hp & Ho & Hlp).
    destruct (Hext p Hp) as [E1 E2].
    exists p. split; [exact Hp|]. rewrite E1, (E2 Ho). auto.
Qed.

Section LayoutScan.

Variable ebs : Z.
Variable isbad : Z -> Z.

Local Abbreviation scan_ok :=
  (layout_scan_ok UBI_LAYOUT_VOLUME_ID UBI_LAYOUT_VOLUME_RESERVED_EBS ebs
     isbad).
Local Abbreviation lv := UBI_LAYOUT_VOLUME_ID.
Local Abbreviation res := UBI_LAYOUT_VOLUME_RESERVED_EBS.

Lemma scan_in_area m p ln : scan_ok m p ln -> p < res.
Proof.
  intros (Hp & Hln & Hcnt & _).
  pose proof (count_loop_bounds m lv (Z.to_nat (res - p)) p). lia.
Qed.

Lemma scan_count_step m p :
  p < res ->
  Pmap.count_loop m lv (Z.to_nat (res - p)) p 0
  = (if owned_by lv (peb_at m p) then 1 else 0)
    + Pmap.count_loop m lv (Z.to_nat (res - (p + 1))) (p + 1) 0.
Proof.
  intros H. replace (Z.to_nat (res - p)) with (S (Z.to_nat (res - (p + 1))))
    by lia.
  apply count_loop_S.
Qed.

(** A good PEB met by the scan belongs to the layout volume. *)
Lemma scan_good_owned m p ln :
  scan_ok m p ln -> isbad p = 0 -> owned_by lv (peb_at m p) = true.
Proof.
  intros Hok Hgood. pose proof (scan_in_area m p ln Hok) as Hlt.
  destruct Hok as (Hp & Hln & Hcnt & Hdone & Hord & Hcont & Huse & Hbad).
  destruct (inuse (peb_at m p)) eqn:Ei; [apply Huse; [lia|exact Ei]|].
  destruct (bad (peb_at m p)) eqn:Eb.
  { exfalso. apply (Hbad p); [lia|exact Eb|exact Hgood]. }
  assert (Hf : is_free (peb_at m p) = true)
    by (unfold is_free; rewrite Ei, Eb; reflexivity).
  destruct (count_loop_pos m lv (Z.to_nat (res - p)) p) as (q & Hq & Ho);
    [lia|].
  destruct (Z.eq_dec q p) as [->|Hne]; [exact Ho|].
  specialize (Hord q p ltac:(lia) ltac:(lia) Ho Hf). lia.
Qed.

(** The scan at a good PEB: it is done when this is the last good PEB
    wanted, and goes on otherwise. *)
Lemma scan_good m p ln :
  scan_ok m p ln -> isbad p = 0 ->
  (ln + 1 = ebs -> on_first_good lv res isbad m)
  /\ (ln + 1 <> ebs -> scan_ok m (p + 1) (ln + 1)).
Proof.
  intros Hok Hgood. pose proof (scan_in_area m p ln Hok) as Hlt.
  pose proof (scan_good_owned m p ln Hok Hgood) as Ho.
  destruct Hok as (Hp & Hln & Hcnt & Hdone & Hord & Hcont & Huse & Hbad).
  rewrite scan_count_step, Ho in Hcnt by exact Hlt.
  split.
  - intros Hlast. exists p. split; [lia|]. intros q Hq.
    destruct (Z_lt_ge_dec q p) as [Hqp|Hqp].
    + rewrite (Hdone q) by lia. split; [intros H; split; [lia|exact H]|].
      intros [_ H]. exact H.
    + destruct (Z.eq_dec q p) as [->|Hne].
      * split; [intros _; split; [lia|exact Hgood]|intros _; exact Ho].
      * assert (Hz : Pmap.count_loop m lv (Z.to_nat (res - (p + 1))) (p + 1) 0
                     = 0) by lia.
        rewrite count_loop_zero in Hz. rewrite (Hz q) by lia.
        split; [discriminate|]. intros [H _]. lia.
  - intros Hmore. split; [lia|]. split; [lia|]. split; [lia|].
    split; [|auto].
    intros q Hq. destruct (Z.eq_dec q p) as [->|Hne].
    + split; [intros _; exact Hgood|intros _; exact Ho].
    + apply Hdone. lia.
Qed.

(** The scan at a bad PEB: either no replacement is left, or the scan goes
    on with the bad PEB out of the layout volume. *)
Lemma scan_bad (m : list ubi_pmap) p ln :
  Pmap.areas_in_map res peb_count m ->
  scan_ok m p ln -> isbad p <> 0 ->
  length (snd (markbad m p)) = length m
  /\ (fst (markbad m p) = - ENOMEM
      \/ (0 <= fst (markbad m p) /\ scan_ok (snd (markbad m p)) (p + 1) ln)).
Proof.
  intros Hmap Hok Hisbad. pose proof (scan_in_area m p ln Hok) as Hlt.
  destruct Hok as (Hp & Hln & Hcnt & Hdone & Hord & Hcont & Huse & Hbad).
  assert (Hlen : 0 <= p < Z.of_nat (length m)) by (destruct Hmap; lia).
  assert (Hin : forall q, 0 <= q < res -> 0 <= q < Z.of_nat (length m))
    by (destruct Hmap; intros; lia).
  pose proof (markbad_shape m p Hlen) as Hshape. cbv zeta in Hshape.
  set (e := peb_at m p) in *.
  set (e1 := mk_pmap (vol_id e) (lnum e) false true) in *.
  set (m1 := peb_store m p e1) in *.
  assert (H1 : peb_at m1 p = e1) by (apply peb_at_store_eq; exact Hlen).
  assert (Hq1 : forall q, q <> p -> peb_at m1 q = peb_at m q)
    by (intros q Hq; apply peb_at_store_ne; congruence).
  assert (Hno1 : owned_by lv e1 = false)
    by (unfold owned_by, e1; simpl; rewrite andb_false_r; reflexivity).
  assert (Hc1 : Pmap.count_loop m1 lv (Z.to_nat (res - (p + 1))) (p + 1) 0
                = Pmap.count_loop m lv (Z.to_nat (res - (p + 1))) (p + 1) 0).
  { apply count_loop_ext. intros q Hq. rewrite Hq1 by lia. reflexivity. }
  rewrite scan_count_step in Hcnt by exact Hlt. fold e in Hcnt.
  destruct Hshape as [[Hneed He]|(Hi & Hb & [[He _]|(r & Hra & Hrp & Hfr & Hlow & He)])].
  - (* the entry is not in use: it is marked and nothing else changes *)
    rewrite He. cbn [fst snd]. split; [apply peb_store_length|].
    right. split; [lia|].
    assert (Hnot : owned_by lv e = false).
    { unfold owned_by. rewrite <- andb_assoc, Hneed. apply andb_false_r. }
    rewrite Hnot in Hcnt.
    split; [lia|]. split; [lia|]. split; [rewrite Hc1; lia|].
    split; [|split; [|split; [|split]]].
    + intros q Hq. destruct (Z.eq_dec q p) as [->|Hne].
      * rewrite H1, Hno1. split; [discriminate|]. intros H. contradiction.
      * rewrite Hq1 by exact Hne. apply Hdone. lia.
    + intros q q' Hq Hq' Hoq Hfq'.
      assert (q <> p) by (intros ->; rewrite H1, Hno1 in Hoq; discriminate).
      assert (q' <> p) by (intros ->; rewrite H1 in Hfq'; discriminate).
      rewrite Hq1 in Hoq, Hfq' by assumption. apply Hord; assumption.
    + apply (contiguous_ext m); [|exact Hcont]. intros q Hq.
      destruct (Z.eq_dec q p) as [->|Hne].
      * rewrite H1, Hno1. fold e. rewrite Hnot. split; [reflexivity|].
        discriminate.
      * rewrite Hq1 by exact Hne. auto.
    + intros q Hq. destruct (Z.eq_dec q p) as [->|Hne].
      * rewrite H1. discriminate.
      * rewrite Hq1 by exact Hne. apply Huse. exact Hq.
    + intros q Hq. destruct (Z.eq_dec q p) as [->|Hne].
      * intros _. exact Hisbad.
      * rewrite Hq1 by exact Hne. apply Hbad. exact Hq.
  - (* no replacement *)
    rewrite He. cbn [fst snd]. split; [apply peb_store_length|]. left.
    reflexivity.
  - (* the entry is replaced by the first free entry of the area *)
    assert (Hown : owned_by lv e = true) by (apply Huse; [lia|exact Hi]).
    assert (Hv : vol_id e = lv).
    { unfold owned_by in Hown. apply andb_prop in Hown as [Hown _].
      apply andb_prop in Hown as [Hown _]. apply Z.eqb_eq. exact Hown. }
    rewrite Hown in Hcnt.
    unfold Pmap.in_area in Hra, Hlow. rewrite Hv, area_layout in Hra, Hlow.
    cbn [fst snd] in Hra, Hlow.
    assert (Hpr : p < r) by (apply (Hord p r); [lia|lia|exact Hown|exact Hfr]).
    rewrite He. cbn [fst snd].
    set (e2 := mk_pmap (vol_id e) (lnum e) true false) in *.
    set (m2 := peb_store m1 r e2) in *.
    assert (Hrl : 0 <= r < Z.of_nat (length m1)).
    { unfold m1. rewrite peb_store_length. apply Hin. lia. }
    assert (H2 : peb_at m2 r = e2) by (apply peb_at_store_eq; exact Hrl).
    assert (Hq2 : forall q, q <> r -> peb_at m2 q = peb_at m1 q)
      by (intros q Hq; apply peb_at_store_ne; congruence).
    assert (Ho2 : owned_by lv e2 = true).
    { unfold owned_by, e2. simpl. rewrite Hv, Z.eqb_refl. reflexivity. }
    split; [unfold m2, m1; rewrite !peb_store_length; reflexivity|].
    right. split; [lia|].
    split; [lia|]. split; [lia|]. split.
    { unfold m2. rewrite count_loop_store; [|lia|exact Hrl].
      rewrite Hc1, Hq1, Ho2 by lia.
      unfold owned_by. rewrite (is_free_not_inuse _ Hfr).
      rewrite andb_false_r. simpl. lia. }
    split; [|split; [|split; [|split]]].
    + intros q Hq. rewrite Hq2 by lia.
      destruct (Z.eq_dec q p) as [->|Hne].
      * rewrite H1, Hno1. split; [discriminate|]. intros H. contradiction.
      * rewrite Hq1 by exact Hne. apply Hdone. lia.
    + intros q q' Hq Hq' Hoq Hfq'.
      assert (Hq'r : q' <> r).
      { intros ->. rewrite H2 in Hfq'. discriminate. }
      rewrite Hq2 in Hfq' by exact Hq'r.
      assert (Hq'p : q' <> p).
      { intros ->. rewrite H1 in Hfq'. discriminate. }
      destruct (Z.eq_dec q r) as [->|Hqr].
      * destruct (Z_lt_ge_dec q' r) as [Hl|Hg]; [|lia].
        rewrite (Hlow q') in Hfq' by lia. discriminate.
      * rewrite Hq2 in Hoq by exact Hqr.
        assert (Hqp : q <> p).
        { intros ->. rewrite H1, Hno1 in Hoq. discriminate. }
        rewrite Hq1 in Hoq, Hfq' by assumption. apply Hord; assumption.
    + rewrite <- Hv.
      apply (replace_contiguous m p r 0 (res - 1) ebs);
        try assumption; try lia.
      * apply Hin. lia.
      * fold e. rewrite Hv. exact Hown.
      * fold e. rewrite Hv. exact Hcont.
    + intros q Hq. destruct (Z.eq_dec q r) as [->|Hqr].
      * rewrite H2. intros _. exact Ho2.
      * rewrite Hq2 by exact Hqr. destruct (Z.eq_dec q p) as [->|Hqp].
        -- rewrite H1. discriminate.
        -- rewrite Hq1 by exact Hqp. apply Huse. exact Hq.
    + intros q Hq. destruct (Z.eq_dec q r) as [->|Hqr].
      * rewrite H2. discriminate.
      * rewrite Hq2 by exact Hqr. destruct (Z.eq_dec q p) as [->|Hqp].
        -- intros _. exact Hisbad.
        -- rewrite Hq1 by exact Hqp. apply Hbad. exact Hq.
Qed.

(** The growth that precedes the scan, on an area no volume has an entry
    in: the layout volume takes the first [ebs] free entries. *)
Lemma scan_start (fuel : nat) (m : list ubi_pmap) :
  Pmap.areas_in_map res peb_count m ->
  0 < ebs ->
  (forall q, 0 <= q < res -> inuse (peb_at m q) = false) ->
  (forall q, 0 <= q < res -> bad (peb_at m q) = true -> isbad q <> 0) ->
  ebs <= Pmap.count_free m (Z.to_nat res) 0 ->
  exists m1,
    resize fuel m lv ebs = Some (0, m1)
    /\ length m1 = length m
    /\ scan_ok m1 0 0.
Proof.
  intros Hmap Hebs Hidle Hmarks Hfree.
  assert (Hspan : Pmap.span 0 (res - 1) = Z.to_nat res)
    by (unfold Pmap.span; f_equal; lia).
  assert (Hc0 : vol_peb_count m lv = 0).
  { rewrite vol_peb_count_unfold, area_layout. cbn [fst snd].
    apply count_loop_zero. intros q Hq. unfold owned_by.
    rewrite Hidle by (rewrite Hspan in Hq; lia).
    rewrite andb_false_r. reflexivity. }
  pose proof (resize_growth_spec fuel m lv ebs Hmap) as Hg.
  pose proof (resize_contiguous fuel m lv ebs Hmap) as Hc.
  cbv zeta in Hg, Hc. rewrite Hc0, area_layout in Hg, Hc.
  cbn [fst snd] in Hg, Hc. rewrite Hspan in Hg, Hc.
  destruct Hg as (m1 & Hres & Hlen & Hcnt & Htake & Hkeep); [lia|lia|].
  destruct Hc as (m1' & Hres' & _ & _ & Hcont).
  { split; [|split].
    - intros q Hq Ho. apply owned_by_inuse in Ho.
      rewrite Hidle in Ho by lia. discriminate.
    - intros x y Hx _ Ho. apply owned_by_inuse in Ho.
      rewrite Hidle in Ho by lia. discriminate.
    - intros l Hl. lia. }
  { lia. }
  { lia. }
  rewrite Hres in Hres'. injection Hres' as E. subst m1'.
  exists m1. split; [exact Hres|]. split; [exact Hlen|].
  (* an entry of the area after the growth *)
  assert (Hcase : forall q, 0 <= q < res ->
            (is_free (peb_at m q) = true
             /\ Pmap.count_free m (Z.to_nat (q - 0)) 0 < ebs
             /\ owned_by lv (peb_at m1 q) = true
             /\ inuse (peb_at m1 q) = true /\ bad (peb_at m1 q) = false)
            \/ (~ (is_free (peb_at m q) = true
                   /\ Pmap.count_free m (Z.to_nat (q - 0)) 0 < ebs)
                /\ peb_at m1 q = peb_at m q)).
  { intros q Hq.
    destruct (is_free (peb_at m q)) eqn:Ef;
      [destruct (Z_lt_ge_dec (Pmap.count_free m (Z.to_nat (q - 0)) 0) ebs)
         as [Hl|Hl]|].
    - left. rewrite (Htake q) by (try assumption; lia).
      unfold owned_by. simpl. rewrite Z.eqb_refl. auto.
    - right. split; [intros [_ H]; lia|]. apply Hkeep. intros (_ & _ & H). lia.
    - right. split; [intros [H _]; discriminate|]. apply Hkeep.
      intros (_ & H & _). congruence. }
  split; [lia|]. split; [lia|]. split.
  { rewrite vol_peb_count_unfold, area_layout in Hcnt. cbn [fst snd] in Hcnt.
    rewrite Hspan in Hcnt. rewrite Z.sub_0_r. lia. }
  split; [intros q Hq; lia|]. split; [|split; [exact Hcont|split]].
  - intros q q' Hq Hq' Ho Hf.
    destruct (Hcase q Hq) as [(Hfq & Hlq & _)|[_ Es]].
    2:{ rewrite Es in Ho. apply owned_by_inuse in Ho.
        rewrite Hidle in Ho by lia. discriminate. }
    destruct (Hcase q' Hq') as [(_ & _ & _ & Hi' & _)|[Hn' Es']].
    { apply is_free_not_inuse in Hf. congruence. }
    rewrite Es' in Hf.
    destruct (Z_lt_ge_dec q q') as [Hlt|Hge]; [exact Hlt|].
    exfalso. apply Hn'. split; [exact Hf|].
    destruct (Z.eq_dec q' q) as [->|Hne]; [exact Hlq|].
    pose proof (count_free_lt m 0 q' q ltac:(lia) Hf). lia.
  - intros q Hq Hi. destruct (Hcase q Hq) as [(_ & _ & Ho & _)|[_ Es]];
      [exact Ho|].
    rewrite Es, Hidle in Hi by lia. discriminate.
  - intros q Hq Hb. destruct (Hcase q Hq) as [(_ & _ & _ & _ & Hb')|[_ Es]];
      [congruence|].
    rewrite Es in Hb. apply Hmarks; assumption.
Qed.

End LayoutScan.

End PmapProofs.

(** ** The PEB map on a concrete device *)

Example two_pebs_reached :
  Dev.run_ops 8 (ubi_pmap_init 8) [Pmap.OpResize 0 0 2]
  = Some Dev.two_pebs.
Proof. reflexivity. Qed.

Example three_pebs_reached :
  Dev.run_ops 8 (ubi_pmap_init 8) [Pmap.OpResize 0 0 3]
  = Some Dev.three_pebs.
Proof. reflexivity. Qed.

Example grown_then_shrunk_reached :
  Dev.run_ops 8 (ubi_pmap_init 8)
    [Pmap.OpResize 0 0 2; Pmap.OpResize 8 0 1]
  = Some Dev.grown_then_shrunk.
Proof. reflexivity. Qed.

Example lost_leb0_reached :
  Dev.run_ops 7 (ubi_pmap_init 7) [Pmap.OpResize 0 0 3; Pmap.OpMarkbad 4]
  = Some Dev.lost_leb0
  /\ fst (Dev.markbad 7
            [zero_pmap; zero_pmap; zero_pmap; zero_pmap; Dev.used 0 0;
             Dev.used 0 1; Dev.used 0 2] 4) = - ENOMEM.
Proof. split; reflexivity. Qed.

Example lost_leb1_reached :
  Dev.run_ops 7 (ubi_pmap_init 7) [Pmap.OpResize 0 0 3; Pmap.OpMarkbad 5]
  = Some Dev.lost_leb1.
Proof. reflexivity. Qed.

(** Case analysis on a PEB number of a concrete map of [n] entries. *)
Ltac outside_map p :=
  rewrite (peb_at_outside _ p) by (simpl; lia); simpl.

Ltac map_cases p n :=
  destruct (Z_lt_ge_dec p 0);
  [outside_map p
  |destruct (Z_lt_ge_dec p n);
   [assert (Hcases : p = 0 \/ p = 1 \/ p = 2 \/ p = 3 \/ p = 4 \/ p = 5
                     \/ p = 6 \/ p = 7 \/ 8 <= p) by lia;
    repeat (destruct Hcases as [->|Hcases]); [..|lia]
   |outside_map p]].

Ltac dev_area :=
  unfold Pmap.in_area, Pmap.ubi_pmap_vol_reserved_area, Dev.layout_volume_id,
    Dev.reserved_ebs; simpl.

Lemma example_areas_in_map (m : list ubi_pmap) n :
  Z.of_nat (length m) = n -> 4 <= n ->
  Pmap.areas_in_map Dev.reserved_ebs n m.
Proof. intros H1 H2. split; [unfold Dev.reserved_ebs; lia|exact H1]. Qed.

(** C9 at a concrete sequence of operations. *)
Lemma bad_pebs_never_chosen_witness :
  Dev.run_ops 7 (ubi_pmap_init 7) [Pmap.OpResize 0 0 3; Pmap.OpMarkbad 5]
  = Some Dev.lost_leb1
  /\ length Dev.lost_leb1 = Z.to_nat 7
  /\ bad (peb_at Dev.lost_leb1
            (Pmap.ubi_pmap_lookup_pnum Dev.layout_volume_id Dev.reserved_ebs 7
               Dev.lost_leb1 0 1)) = false.
Proof.
  pose proof (bad_pebs_never_chosen Dev.layout_volume_id Dev.reserved_ebs 7
                [Pmap.OpResize 0 0 3; Pmap.OpMarkbad 5] Dev.lost_leb1
                eq_refl) as [[Hlen _] [Hlook _]].
  split; [reflexivity|]. split; [exact Hlen|]. apply Hlook.
Defined.

(** C5 at a concrete map: PEB 4 of [two_pebs] goes bad and PEB 6, the
    lowest free PEB of the area of volume 0, replaces it. *)
Lemma markbad_replace_spec_witness :
  Pmap.areas_in_map Dev.reserved_ebs 8 Dev.two_pebs
  /\ 0 <= 4 < 8
  /\ bad (peb_at (snd (Dev.markbad 8 Dev.two_pebs 4)) 4) = true
  /\ fst (Dev.markbad 8 Dev.two_pebs 4) = 6
  /\ peb_at (snd (Dev.markbad 8 Dev.two_pebs 4)) 6 = Dev.used 0 0.
Proof.
  assert (Hmap : Pmap.areas_in_map Dev.reserved_ebs 8 Dev.two_pebs)
    by (apply example_areas_in_map; [reflexivity|lia]).
  assert (Hp : 0 <= 4 < 8) by lia.
  split; [exact Hmap|]. split; [exact Hp|].
  destruct (markbad_replace_spec Dev.layout_volume_id Dev.reserved_ebs 8
              Dev.two_pebs 4 Hmap Hp) as (Hbad & Hrep & _).
  split; [exact Hbad|].
  destruct (Hrep eq_refl eq_refl) as [Hfound _].
  destruct Hfound as (Hr & Hfree & Hlow & Hnew & _).
  { exists 6. split; [dev_area; lia|reflexivity]. }
  split; [reflexivity|]. reflexivity.
Defined.

(** C7 at a concrete call: volume 0 asks for nine PEBs on a fresh device
    that has four for it. *)
Lemma resize_partial_growth_witness :
  Pmap.areas_in_map Dev.reserved_ebs 8 (ubi_pmap_init 8)
  /\ exists m', Dev.resize 8 0 (ubi_pmap_init 8) 0 9 = Some (0, m')
                /\ peb_at m' 7 = Dev.used 0 3.
Proof.
  assert (Hmap : Pmap.areas_in_map Dev.reserved_ebs 8 (ubi_pmap_init 8))
    by (apply example_areas_in_map; [reflexivity|lia]).
  split; [exact Hmap|].
  destruct (resize_partial_growth Dev.layout_volume_id Dev.reserved_ebs 8 0
              (ubi_pmap_init 8) 0 9 Hmap) as (m' & Hres & _ & Hnew & _).
  { vm_compute. reflexivity. }
  exists m'. split; [exact Hres|].
  rewrite (Hnew 7); [reflexivity|dev_area; lia|reflexivity].
Defined.

(** C7 as stated fails: a growth that falls five PEBs short returns what
    the growth that is fully served returns, zero, with the same map. *)
Lemma resize_shortfall_returns_success :
  Dev.resize 8 0 (ubi_pmap_init 8) 0 9
  = Some (0, [zero_pmap; zero_pmap; zero_pmap; zero_pmap; Dev.used 0 0;
              Dev.used 0 1; Dev.used 0 2; Dev.used 0 3])
  /\ Dev.resize 8 0 (ubi_pmap_init 8) 0 4 = Dev.resize 8 0 (ubi_pmap_init 8) 0 9.
Proof. split; reflexivity. Qed.

(** C3 at a concrete map. *)
Lemma extract_allocate_roundtrip_witness :
  Pmap.areas_in_map Dev.reserved_ebs 8 Dev.two_pebs
  /\ inuse (peb_at Dev.two_pebs (8 - 1)) = false
  /\ exists m', Dev.extract_then_allocate 8 Dev.two_pebs = (0, m')
                /\ peb_at m' 5 = Dev.used 0 1.
Proof.
  assert (Hmap : Pmap.areas_in_map Dev.reserved_ebs 8 Dev.two_pebs)
    by (apply example_areas_in_map; [reflexivity|lia]).
  split; [exact Hmap|]. split; [reflexivity|].
  destruct (extract_allocate_roundtrip Dev.layout_volume_id Dev.reserved_ebs 8
              Dev.two_pebs Hmap) as (m' & Hres & _ & Hent).
  - intros p. map_cases p 8; simpl; congruence.
  - intros p.
    map_cases p 8; simpl; try discriminate; intros _; dev_area; lia.
  - reflexivity.
  - exists m'. split; [exact Hres|]. apply (Hent 5). reflexivity.
Defined.

(** C3 as stated fails: PEB 5 of [grown_then_shrunk] is free and carries
    LEB number 1; in the map rebuilt from the extracted runs it carries
    LEB number 0. *)
Lemma extract_allocate_loses_free_entry :
  Dev.run_ops 8 (ubi_pmap_init 8) [Pmap.OpResize 0 0 2; Pmap.OpResize 8 0 1]
  = Some Dev.grown_then_shrunk
  /\ fst (Dev.extract_then_allocate 8 Dev.grown_then_shrunk) = 0
  /\ lnum (peb_at Dev.grown_then_shrunk 5) = 1
  /\ lnum (peb_at (snd (Dev.extract_then_allocate 8 Dev.grown_then_shrunk)) 5)
     = 0
  /\ snd (Dev.extract_then_allocate 8 Dev.grown_then_shrunk)
     <> Dev.grown_then_shrunk.
Proof. repeat split; try reflexivity. discriminate. Qed.

(** The run that reaches the last PEB is not emitted: a volume on PEBs 4 to
    7 of an eight-PEB device extracts to no run at all. *)
Lemma extract_drops_trailing_run :
  Dev.run_ops 8 (ubi_pmap_init 8) [Pmap.OpResize 0 0 4]
  = Some [zero_pmap; zero_pmap; zero_pmap; zero_pmap; Dev.used 0 0;
          Dev.used 0 1; Dev.used 0 2; Dev.used 0 3]
  /\ Pmap.extracted_runs 8
       [zero_pmap; zero_pmap; zero_pmap; zero_pmap; Dev.used 0 0;
        Dev.used 0 1; Dev.used 0 2; Dev.used 0 3] = [].
Proof. split; reflexivity. Qed.

Ltac area_cases p Hp :=
  unfold Pmap.in_area, Pmap.ubi_pmap_vol_reserved_area, Dev.layout_volume_id,
    Dev.reserved_ebs in Hp;
  simpl in Hp;
  let H := fresh "Hcases" in
  assert (H : p = 4 \/ p = 5 \/ p = 6 \/ p = 7) by lia;
  destruct H as [ -> | [ -> | [ -> | -> ] ] ].

Lemma three_pebs_contiguous :
  Pmap.vol_contiguous Dev.layout_volume_id Dev.reserved_ebs 8
    Dev.three_pebs 0 3.
Proof.
  split; [|split].
  - intros p Hp. area_cases p Hp; simpl; intros Ho; try discriminate; lia.
  - intros p q Hp Hq.
    area_cases p Hp; area_cases q Hq; simpl; intros Ho1 Ho2 Hl;
      try discriminate; try reflexivity.
  - intros l Hl. exists (4 + l).
    assert (Hc : l = 0 \/ l = 1 \/ l = 2) by lia.
    destruct Hc as [ -> | [ -> | -> ] ]; (split; [dev_area; lia|split; reflexivity]).
Qed.

(** C6 at a concrete call: volume 0 on PEBs 4, 5, 6 is shrunk to one PEB. *)
Lemma resize_shrink_and_delete_witness :
  Pmap.areas_in_map Dev.reserved_ebs 8 Dev.three_pebs
  /\ (exists m', Dev.resize 8 8 Dev.three_pebs 0 1 = Some (0, m')
                 /\ owned_by 0 (peb_at m' 4) = true
                 /\ owned_by 0 (peb_at m' 5) = false)
  /\ (exists m0, Dev.resize 8 8 Dev.three_pebs 0 0 = Some (0, m0)
                 /\ peb_at m0 4 = zero_pmap).
Proof.
  assert (Hmap : Pmap.areas_in_map Dev.reserved_ebs 8 Dev.three_pebs)
    by (apply example_areas_in_map; [reflexivity|lia]).
  split; [exact Hmap|].
  destruct (resize_shrink_and_delete Dev.layout_volume_id Dev.reserved_ebs 8
              8%nat Dev.three_pebs 0 1 Hmap) as [Hshrink Hdel].
  split.
  - destruct Hshrink as (m' & Hres & _ & Hent & _).
    + exact three_pebs_contiguous.
    + vm_compute. split; reflexivity.
    + vm_compute. discriminate.
    + exists m'. split; [exact Hres|]. rewrite !Hent. split; reflexivity.
  - destruct Hdel as (m0 & Hres & _ & Hent).
    exists m0. split; [exact Hres|]. rewrite Hent. reflexivity.
Defined.

(** C6 as stated fails on a volume that has lost a LEB: volume 0 holds
    LEBs 1 and 2; shrinking it to one PEB releases LEB 1 and keeps LEB 2,
    which is not in [0, 1). *)
Lemma resize_shrink_keeps_high_leb :
  Dev.run_ops 7 (ubi_pmap_init 7) [Pmap.OpResize 0 0 3; Pmap.OpMarkbad 4]
  = Some Dev.lost_leb0
  /\ Pmap.ubi_pmap_vol_peb_count Dev.layout_volume_id Dev.reserved_ebs 7
       Dev.lost_leb0 0 = 2
  /\ exists m',
       Dev.resize 7 3 Dev.lost_leb0 0 1 = Some (0, m')
       /\ owned_by 0 (peb_at m' 6) = true
       /\ lnum (peb_at m' 6) = 2
       /\ ~ (0 <= lnum (peb_at m' 6) < 1).
Proof.
  split; [reflexivity|]. split; [reflexivity|].
  eexists. split; [reflexivity|]. split; [reflexivity|].
  split; [reflexivity|]. simpl. lia.
Qed.

(** A resize to zero leaves the entries outside the volume's area alone:
    PEB 0 of a fresh device, marked bad, carries [vol_id] 0 and is not
    zeroed when volume 0 is deleted. *)
Lemma resize_zero_skips_other_area :
  let m := snd (Dev.markbad 8 (ubi_pmap_init 8) 0) in
  vol_id (peb_at m 0) = 0
  /\ exists m0, Dev.resize 8 0 m 0 0 = Some (0, m0)
                /\ peb_at m0 0 = mk_pmap 0 0 false true.
Proof. split; [reflexivity|]. eexists. split; reflexivity. Qed.

(** C8 on the revision kept at drivers/mtd/ubi2/pmap.c: volume 0 takes
    PEB 0 of a fresh eight-PEB device, PEB 0 is marked bad, and its entry
    is left with [inuse] and [bad] both set. *)
Theorem draft_markbad_leaves_inuse_and_bad :
  let m1 := snd (PmapDraft.ubi_pmap_resize_volume 8 (ubi_pmap_init 8) 0 1) in
  let m2 := snd (PmapDraft.ubi_pmap_markbad_replace 8 m1 0) in
  peb_at m1 0 = Dev.used 0 0
  /\ fst (PmapDraft.ubi_pmap_markbad_replace 8 m1 0) = 1
  /\ peb_at m2 0 = mk_pmap 0 0 true true
  /\ ~ Forall Pmap.flags_exclusive m2.
Proof.
  split; [reflexivity|]. split; [reflexivity|]. split; [reflexivity|].
  intros H. apply Forall_inv in H. discriminate H.
Qed.

(** C10 at a reachable map: volume 0 has lost LEB 1 to a bad block that
    found no replacement, and holds LEBs 0 and 2.  Asked to shrink to one
    PEB, the scan looks for LEB 1 and no amount of fuel lets
    [ubi_pmap_resize_volume] return. *)
Theorem resize_shrink_never_returns :
  Dev.run_ops 7 (ubi_pmap_init 7) [Pmap.OpResize 0 0 3; Pmap.OpMarkbad 5]
  = Some Dev.lost_leb1
  /\ Pmap.ubi_pmap_vol_peb_count Dev.layout_volume_id Dev.reserved_ebs 7
       Dev.lost_leb1 0 = 2
  /\ forall fuel, Dev.resize 7 fuel Dev.lost_leb1 0 1 = None.
Proof.
  split; [reflexivity|]. split; [reflexivity|]. intros fuel.
  change (match Pmap.shrink_loop 0 1 4 6 fuel 6 2 Dev.lost_leb1 with
          | Some m' => Some (0, m')
          | None => None
          end = None).
  rewrite shrink_loop_diverges; [reflexivity|lia| |lia].
  intros x Hx. assert (Hc : x = 4 \/ x = 5 \/ x = 6) by lia.
  destruct Hc as [ -> | [ -> | -> ] ]; reflexivity.
Qed.

(** The end-to-end scenario of the design: volume 1 gets ten PEBs on a
    fresh 64-PEB device, is shrunk to five, and loses PEB 6 (LEB 2) to a
    bad block. *)
Example end_to_end :
  let lookup := Pmap.ubi_pmap_lookup_pnum Dev.layout_volume_id
                  Dev.reserved_ebs 64 in
  exists m1 m2 m3,
    Dev.resize 64 0 (ubi_pmap_init 64) 1 10 = Some (0, m1)
    /\ List.map (lookup m1 1) [0; 1; 2; 3; 4; 5; 6; 7; 8; 9; 10]
       = [4; 5; 6; 7; 8; 9; 10; 11; 12; 13; -1]
    /\ Dev.resize 64 640 m1 1 5 = Some (0, m2)
    /\ List.map (lookup m2 1) [0; 1; 2; 3; 4; 5; 6; 7; 8; 9]
       = [4; 5; 6; 7; 8; -1; -1; -1; -1; -1]
    /\ Dev.markbad 64 m2 6 = (9, m3)
    /\ lookup m3 1 2 = 9
    /\ peb_at m3 6 = mk_pmap 1 2 false true.
Proof.
  eexists. eexists. eexists.
  split; [vm_compute; reflexivity|]. split; [vm_compute; reflexivity|].
  split; [vm_compute; reflexivity|]. split; [vm_compute; reflexivity|].
  split; [vm_compute; reflexivity|]. split; vm_compute; reflexivity.
Qed.

(** ** The PEB map operations at concrete maps *)

(** X1 at a concrete map: LEB 1 of volume 0 is found on PEB 5 of
    [two_pebs]. *)
Lemma lookup_pnum_first_match_witness :
  0 <= Dev.reserved_ebs
  /\ Pmap.ubi_pmap_lookup_pnum Dev.layout_volume_id Dev.reserved_ebs 8
       Dev.two_pebs 0 1 = 5
  /\ forall q,
       Pmap.in_area Dev.layout_volume_id Dev.reserved_ebs 8 0 q -> q < 5 ->
       lookup_match 0 1 (peb_at Dev.two_pebs q) = false.
Proof.
  assert (Hres : 0 <= Dev.reserved_ebs) by (unfold Dev.reserved_ebs; lia).
  split; [exact Hres|]. split; [reflexivity|].
  pose proof (lookup_pnum_first_match Dev.layout_volume_id Dev.reserved_ebs 8
                Dev.two_pebs 0 1 Hres) as H.
  cbv zeta in H.
  destruct H as [[Hr _]|(_ & _ & _ & _ & _ & _ & Hlow)];
    [vm_compute in Hr; discriminate|exact Hlow].
Defined.

(** X2 at a fresh map: volume 0 has no PEB, and no LEB of it resolves. *)
Lemma vol_peb_count_zero_iff_unmapped_witness :
  0 <= Dev.reserved_ebs
  /\ forall ln,
       Pmap.ubi_pmap_lookup_pnum Dev.layout_volume_id Dev.reserved_ebs 8
         (ubi_pmap_init 8) 0 ln = -1.
Proof.
  assert (Hres : 0 <= Dev.reserved_ebs) by (unfold Dev.reserved_ebs; lia).
  split; [exact Hres|].
  destruct (vol_peb_count_zero_iff_unmapped Dev.layout_volume_id
              Dev.reserved_ebs 8 (ubi_pmap_init 8) 0 Hres) as [_ [Hzero _]].
  apply Hzero. reflexivity.
Defined.

(** X5 at a fresh map: PEBs 4 and 5 are given to volume 0, and a range
    that starts in the layout area is refused. *)
Lemma allocate_all_or_nothing_witness :
  Pmap.areas_in_map Dev.reserved_ebs 8 (ubi_pmap_init 8)
  /\ Pmap.ubi_pmap_allocate_vol_pebs Dev.layout_volume_id Dev.reserved_ebs 8
       (ubi_pmap_init 8) 0 3 0 2 0 = (- EINVAL, ubi_pmap_init 8)
  /\ exists m',
       Pmap.ubi_pmap_allocate_vol_pebs Dev.layout_volume_id Dev.reserved_ebs
         8 (ubi_pmap_init 8) 0 4 0 2 0 = (0, m')
       /\ peb_at m' 5 = Dev.used 0 1.
Proof.
  assert (Hmap : Pmap.areas_in_map Dev.reserved_ebs 8 (ubi_pmap_init 8))
    by (apply example_areas_in_map; [reflexivity|lia]).
  split; [exact Hmap|]. split.
  - pose proof (allocate_all_or_nothing Dev.layout_volume_id Dev.reserved_ebs
                  8 (ubi_pmap_init 8) 0 3 0 2 0 Hmap) as H.
    cbv zeta in H. destruct H as [Hfail _]. apply Hfail. left. dev_area. lia.
  - pose proof (allocate_all_or_nothing Dev.layout_volume_id Dev.reserved_ebs
                  8 (ubi_pmap_init 8) 0 4 0 2 0 Hmap) as H.
    cbv zeta in H. destruct H as [_ Hok].
    destruct Hok as (m' & Halloc & _ & Hent).
    + dev_area. lia.
    + dev_area. lia.
    + intros (i & Hi & Hc).
      assert (Hcases : i = 0 \/ i = 1) by lia.
      destruct Hcases as [ -> | -> ]; discriminate Hc.
    + exists m'. split; [exact Halloc|]. rewrite Hent. reflexivity.
Defined.

(** X6 at a fresh map: after PEBs 4 and 5 are given to volume 0, the volume
    has two PEBs and its LEB 1 is on PEB 5. *)
Lemma allocate_then_lookup_witness :
  Pmap.areas_in_map Dev.reserved_ebs 8 (ubi_pmap_init 8)
  /\ 0 <= 2
  /\ Pmap.ubi_pmap_allocate_vol_pebs Dev.layout_volume_id Dev.reserved_ebs 8
       (ubi_pmap_init 8) 0 4 0 2 0 = (0, Dev.two_pebs)
  /\ Pmap.ubi_pmap_vol_peb_count Dev.layout_volume_id Dev.reserved_ebs 8
       Dev.two_pebs 0 = 2
  /\ Pmap.ubi_pmap_lookup_pnum Dev.layout_volume_id Dev.reserved_ebs 8
       Dev.two_pebs 0 1 = 5.
Proof.
  assert (Hmap : Pmap.areas_in_map Dev.reserved_ebs 8 (ubi_pmap_init 8))
    by (apply example_areas_in_map; [reflexivity|lia]).
  assert (Hblocks : 0 <= 2) by lia.
  split; [exact Hmap|]. split; [exact Hblocks|]. split; [reflexivity|].
  destruct (allocate_then_lookup Dev.layout_volume_id Dev.reserved_ebs 8
              (ubi_pmap_init 8) Dev.two_pebs 0 4 0 2 Hmap Hblocks eq_refl)
    as [Hcount Hlook].
  split; [exact Hcount|]. apply (Hlook 1); [lia|reflexivity].
Defined.

(** X8 at a concrete map: PEB 4 of [two_pebs] goes bad and LEB 0 of
    volume 0 moves to PEB 6. *)
Lemma markbad_lookup_follows_witness :
  Pmap.areas_in_map Dev.reserved_ebs 8 Dev.two_pebs
  /\ Pmap.ubi_pmap_lookup_pnum Dev.layout_volume_id Dev.reserved_ebs 8
       Dev.two_pebs 0 0 = 4
  /\ Pmap.ubi_pmap_lookup_pnum Dev.layout_volume_id Dev.reserved_ebs 8
       (snd (Dev.markbad 8 Dev.two_pebs 4)) 0 0 = 6
  /\ Pmap.ubi_pmap_vol_peb_count Dev.layout_volume_id Dev.reserved_ebs 8
       (snd (Dev.markbad 8 Dev.two_pebs 4)) 0 = 2.
Proof.
  assert (Hmap : Pmap.areas_in_map Dev.reserved_ebs 8 Dev.two_pebs)
    by (apply example_areas_in_map; [reflexivity|lia]).
  split; [exact Hmap|].
  pose proof (markbad_lookup_follows Dev.layout_volume_id Dev.reserved_ebs 8
                Dev.two_pebs 4 Hmap) as H.
  cbv zeta in H. destruct H as (Hbefore & _ & Hafter).
  - reflexivity.
  - reflexivity.
  - dev_area. lia.
  - intros q Hq Hne. area_cases q Hq; try reflexivity. contradiction.
  - split; [exact Hbefore|].
    destruct Hafter as (_ & _ & Hlook & Hcount);
      [vm_compute; discriminate|].
    split; [exact Hlook|exact Hcount].
Defined.

(** X11 at a concrete map: volume 0 of [two_pebs] is grown to three
    PEBs. *)
Lemma resize_growth_reaches_size_witness :
  Pmap.areas_in_map Dev.reserved_ebs 8 Dev.two_pebs
  /\ exists m',
       Dev.resize 8 0 Dev.two_pebs 0 3 = Some (0, m')
       /\ Pmap.ubi_pmap_vol_peb_count Dev.layout_volume_id Dev.reserved_ebs 8
            m' 0 = 3
       /\ peb_at m' 6 = Dev.used 0 2.
Proof.
  assert (Hmap : Pmap.areas_in_map Dev.reserved_ebs 8 Dev.two_pebs)
    by (apply example_areas_in_map; [reflexivity|lia]).
  split; [exact Hmap|].
  pose proof (resize_growth_reaches_size Dev.layout_volume_id
                Dev.reserved_ebs 8 0 Dev.two_pebs 0 3 Hmap) as H.
  cbv zeta in H.
  destruct H as (m' & Hres & _ & Hcount & Htake & _).
  - lia.
  - vm_compute. split; discriminate.
  - exists m'. split; [exact Hres|]. split; [exact Hcount|].
    rewrite (Htake 6); [reflexivity|dev_area; lia|reflexivity|].
    vm_compute. reflexivity.
Defined.

(** X12 at a concrete map: volume 0 of [three_pebs] is shrunk to one
    PEB. *)
Lemma resize_keeps_volume_contiguous_witness :
  Pmap.areas_in_map Dev.reserved_ebs 8 Dev.three_pebs
  /\ exists m',
       Dev.resize 8 8 Dev.three_pebs 0 1 = Some (0, m')
       /\ Pmap.vol_contiguous Dev.layout_volume_id Dev.reserved_ebs 8 m' 0 1.
Proof.
  assert (Hmap : Pmap.areas_in_map Dev.reserved_ebs 8 Dev.three_pebs)
    by (apply example_areas_in_map; [reflexivity|lia]).
  split; [exact Hmap|].
  pose proof (resize_keeps_volume_contiguous Dev.layout_volume_id
                Dev.reserved_ebs 8 8%nat Dev.three_pebs 0 1 Hmap) as H.
  cbv zeta in H.
  destruct H as (m' & Hres & _ & _ & Hcont).
  - exact three_pebs_contiguous.
  - vm_compute. split; discriminate.
  - intros _. vm_compute. discriminate.
  - exists m'. split; [exact Hres|exact Hcont].
Defined.

(** X20 at a concrete map: PEB 4 of [three_pebs] goes bad, PEB 7 takes its
    LEB number, and volume 0 still has LEBs 0, 1 and 2. *)
Lemma markbad_keeps_volume_contiguous_witness :
  Pmap.areas_in_map Dev.reserved_ebs 8 Dev.three_pebs
  /\ fst (Dev.markbad 8 Dev.three_pebs 4) = 7
  /\ peb_at (snd (Dev.markbad 8 Dev.three_pebs 4)) 7 = Dev.used 0 0
  /\ Pmap.vol_contiguous Dev.layout_volume_id Dev.reserved_ebs 8
       (snd (Dev.markbad 8 Dev.three_pebs 4)) 0 3.
Proof.
  assert (Hmap : Pmap.areas_in_map Dev.reserved_ebs 8 Dev.three_pebs)
    by (apply example_areas_in_map; [reflexivity|lia]).
  split; [exact Hmap|]. split; [reflexivity|].
  pose proof (markbad_keeps_volume_contiguous Dev.layout_volume_id
                Dev.reserved_ebs 8 Dev.three_pebs 4 3 Hmap) as H.
  cbv zeta in H. destruct H as (_ & Hent & Hcont).
  - reflexivity.
  - reflexivity.
  - dev_area. lia.
  - exact three_pebs_contiguous.
  - vm_compute. discriminate.
  - split; [exact Hent|exact Hcont].
Defined.

(** X23 at a concrete sequence of operations: after a growth and a bad
    block without replacement, no entry is both in use and bad. *)
Lemma latest_revision_flags_exclusive_witness :
  Dev.run_ops 7 (ubi_pmap_init 7) [Pmap.OpResize 0 0 3; Pmap.OpMarkbad 5]
  = Some Dev.lost_leb1
  /\ Forall Pmap.flags_exclusive Dev.lost_leb1.
Proof.
  split; [reflexivity|].
  apply (latest_revision_flags_exclusive Dev.layout_volume_id
           Dev.reserved_ebs 7 [Pmap.OpResize 0 0 3; Pmap.OpMarkbad 5]
           Dev.lost_leb1 eq_refl).
Defined.

(** ** The layout volume at attach time *)

Section LayoutProofs.
Import Layout.

Variable P : platform.

(** The read loop of [process_lvol] runs once: it steps by
    [UBI_LAYOUT_VOLUME_EBS_PER_COPY] up to [UBI_LAYOUT_VOLUME_COPIES], so
    [leb[1]] and [pmap_leb[1]] stay [NULL]. *)
Lemma read_copies_once ubi f :
  read_copies P ubi f (Z.to_nat UBI_LAYOUT_VOLUME_COPIES) 0
    [None; None] [None; None]
  = ([Some (copy_vtbl P ubi f 0); None], [Some (copy_ptbl P ubi f 0); None]).
Proof. reflexivity. Qed.

(** [process_lvol] is decided by copy 0 alone. *)
Lemma process_lvol_unfold ubi f :
  process_lvol P ubi f
  = let vt0 := copy_vtbl P ubi f 0 in
    let pt0 := copy_ptbl P ubi f 0 in
    let c0 := vtbl_check P ubi vt0 pt0 in
    if c0 <? 0 then (- EINVAL, ubi, f)
    else if c0 =? 0 then
      let '(err, f') := create_vtbl P ubi f 1 vt0 pt0 in
      if negb (err =? 0) then (err, ubi, f')
      else (0, set_tables ubi vt0 pt0, f')
    else (- EINVAL, ubi, f).
Proof.
  unfold process_lvol. rewrite read_copies_once. cbn [lookup list_lookup
    default id].
  cbv zeta.
  destruct (vtbl_check P ubi (copy_vtbl P ubi f 0) (copy_ptbl P ubi f 0) <? 0);
    [reflexivity|].
  destruct (vtbl_check P ubi (copy_vtbl P ubi f 0) (copy_ptbl P ubi f 0) =? 0);
    reflexivity.
Qed.

(** When copy 0 passes [vtbl_check], [process_lvol] rewrites copy 1 from
    copy 0 whatever copy 1 holds, and adopts copy 0 if the rewrite
    succeeds. *)
Lemma process_lvol_copy0_valid ubi f :
  vtbl_check P ubi (copy_vtbl P ubi f 0) (copy_ptbl P ubi f 0) = 0 ->
  process_lvol P ubi f
  = let '(err, f') :=
      create_vtbl P ubi f 1 (copy_vtbl P ubi f 0) (copy_ptbl P ubi f 0) in
    if negb (err =? 0) then (err, ubi, f')
    else (0, set_tables ubi (copy_vtbl P ubi f 0) (copy_ptbl P ubi f 0), f').
Proof.
  intros H. rewrite process_lvol_unfold. cbv zeta. rewrite H. reflexivity.
Qed.

(** When copy 0 fails [vtbl_check], [process_lvol] returns [-EINVAL] and
    leaves the device and the flash as they were. *)
Lemma process_lvol_copy0_invalid ubi f :
  vtbl_check P ubi (copy_vtbl P ubi f 0) (copy_ptbl P ubi f 0) <> 0 ->
  process_lvol P ubi f = (- EINVAL, ubi, f).
Proof.
  intros H. rewrite process_lvol_unfold. cbv zeta.
  destruct (vtbl_check P ubi (copy_vtbl P ubi f 0) (copy_ptbl P ubi f 0) <? 0);
    [reflexivity|].
  destruct (Z.eqb_spec (vtbl_check P ubi (copy_vtbl P ubi f 0)
                          (copy_ptbl P ubi f 0)) 0); [contradiction|reflexivity].
Qed.

(** *** The tables [create_empty_lvol] makes *)

Lemma reserve_layout_records_spec ubi n (j : nat) pt :
  (forall k r, (j <= k)%nat -> pt !! k = Some r -> r = empty_pmap_record) ->
  forall k,
    reserve_layout_records P ubi n (Z.of_nat j) pt !! k
    = if bool_decide (j <= k < j + n /\ k < length pt)%nat
      then Some (layout_pmap_record P ubi (Z.of_nat k))
      else pt !! k.
Proof.
  revert j pt. induction n as [|n IH]; intros j pt Hpt k.
  - cbn [reserve_layout_records]. rewrite bool_decide_eq_false_2 by lia.
    reflexivity.
  - cbn [reserve_layout_records]. cbv zeta. rewrite Nat2Z.id.
    set (r0 := default empty_pmap_record (pt !! j)).
    assert (Hr0 : r0 = empty_pmap_record).
    { unfold r0. destruct (pt !! j) as [r|] eqn:E; [|reflexivity].
      apply (Hpt j r); [lia|exact E]. }
    rewrite Hr0. cbn [pr_num pr_crc pr_peb pr_leb pr_vol_id pr_flags
      empty_pmap_record].
    change (mk_pmap_record _ (Z.of_nat j) 0 _ _ _)
      with (layout_pmap_record P ubi (Z.of_nat j)).
    replace (Z.of_nat j + 1) with (Z.of_nat (S j)) by lia.
    rewrite IH.
    + rewrite length_insert.
      destruct (decide (k = j)) as [->|Hne].
      * rewrite bool_decide_eq_false_2 by lia.
        destruct (decide (j < length pt)%nat) as [Hlt|Hge].
        -- rewrite list_lookup_insert_eq by exact Hlt.
           rewrite bool_decide_eq_true_2 by lia. reflexivity.
        -- rewrite list_insert_ge by lia.
           rewrite bool_decide_eq_false_2 by lia. reflexivity.
      * rewrite list_lookup_insert_ne by congruence.
        destruct (decide (S j <= k < S j + n /\ k < length pt)%nat).
        -- rewrite !bool_decide_eq_true_2 by lia. reflexivity.
        -- rewrite !bool_decide_eq_false_2 by lia. reflexivity.
    + intros k' r Hk' E. rewrite list_lookup_insert_ne in E by lia.
      apply (Hpt k' r); [lia|exact E].
Qed.

(** Two records of the layout volume for different LEBs are not merged:
    their [num] is zero, so they would have to name the same LEB. *)
Lemma concat_layout_records ubi i j :
  be32_to_cpu P 0 = 0 ->
  to_int (be32_to_cpu P i) <> to_int (be32_to_cpu P j) ->
  concat_pmap_record P (layout_pmap_record P ubi i)
    (layout_pmap_record P ubi j)
  = (layout_pmap_record P ubi i, layout_pmap_record P ubi j).
Proof.
  intros Hbe Hne. unfold concat_pmap_record, layout_pmap_record.
  cbv zeta. cbn [pr_peb pr_leb pr_num pr_vol_id pr_flags pr_crc].
  rewrite Hbe. change (to_int 0) with 0. rewrite !Z.add_0_r.
  destruct (_ && _); [|reflexivity].
  destruct (Z.eqb_spec (to_int (be32_to_cpu P j)) (to_int (be32_to_cpu P i)))
    as [E|_]; [congruence|].
  destruct (Z.eqb_spec (to_int (be32_to_cpu P i)) (to_int (be32_to_cpu P j)))
    as [E|_]; [congruence|].
  rewrite !andb_false_r. reflexivity.
Qed.

Lemma empty_pmap_record_not_inuse : inuse_not_bad P empty_pmap_record = false.
Proof. unfold inuse_not_bad. cbn [pr_flags empty_pmap_record]. reflexivity. Qed.

Section LayoutOnly.

Variable ubi : ubi_device.
Hypothesis Hbe : be32_to_cpu P 0 = 0.
Hypothesis Hinj :
  forall i j, 0 <= i < UBI_LAYOUT_VOLUME_SIZE P ->
              0 <= j < UBI_LAYOUT_VOLUME_SIZE P ->
              to_int (be32_to_cpu P i) = to_int (be32_to_cpu P j) -> i = j.

Local Abbreviation slot_ok pt :=
  (forall k r, pt !! k = Some r -> r = layout_only_slot P ubi k).

Lemma normalise_inner_layout_only n i j pt :
  slot_ok pt -> (i < j)%nat -> normalise_inner P n i j pt = pt.
Proof.
  revert j pt. induction n as [|n IH]; intros j pt Hpt Hij; [reflexivity|].
  cbn [normalise_inner].
  destruct (pt !! i) as [p1|] eqn:E1; [|reflexivity].
  destruct (pt !! j) as [p2|] eqn:E2; [|reflexivity].
  pose proof (Hpt i p1 E1) as H1. pose proof (Hpt j p2 E2) as H2.
  unfold layout_only_slot in H1, H2.
  destruct (Z.ltb_spec (Z.of_nat j) (UBI_LAYOUT_VOLUME_SIZE P)) as [Hj|Hj].
  - destruct (Z.ltb_spec (Z.of_nat i) (UBI_LAYOUT_VOLUME_SIZE P)); [|lia].
    subst p1 p2. rewrite concat_layout_records.
    + destruct (inuse_not_bad P _); [|apply IH; [exact Hpt|lia]].
      rewrite (list_insert_id pt i) by exact E1.
      rewrite (list_insert_id pt j) by exact E2.
      apply IH; [exact Hpt|lia].
    + exact Hbe.
    + intros E. apply Hinj in E; lia.
  - subst p2. rewrite empty_pmap_record_not_inuse. apply IH; [exact Hpt|lia].
Qed.

Lemma normalise_outer_layout_only n i slots pt :
  slot_ok pt -> normalise_outer P n i slots pt = pt.
Proof.
  revert i. induction n as [|n IH]; intros i Hpt; [reflexivity|].
  cbn [normalise_outer].
  destruct (pt !! i) as [p1|]; [|reflexivity].
  destruct (inuse_not_bad P p1); [|apply IH; exact Hpt].
  rewrite normalise_inner_layout_only by (try exact Hpt; lia).
  apply IH. exact Hpt.
Qed.

(** The PEB table of [create_empty_lvol], before it is written. *)
Lemma created_ptbl_layout_only :
  normalise_ptbl P ubi
    (reserve_layout_records P ubi (Z.to_nat (UBI_LAYOUT_VOLUME_SIZE P)) 0
       (replicate (Z.to_nat (ptbl_slots ubi)) empty_pmap_record))
  = layout_only_ptbl P ubi.
Proof.
  set (pt0 := replicate (Z.to_nat (ptbl_slots ubi)) empty_pmap_record).
  assert (Hres : forall k,
            reserve_layout_records P ubi
              (Z.to_nat (UBI_LAYOUT_VOLUME_SIZE P)) 0 pt0 !! k
            = layout_only_ptbl P ubi !! k).
  { intros k. change 0 with (Z.of_nat 0).
    rewrite reserve_layout_records_spec.
    2:{ intros k' r _ E. unfold pt0 in E. apply lookup_replicate in E.
        tauto. }
    unfold pt0, layout_only_ptbl. rewrite length_replicate.
    rewrite list_lookup_fmap.
    destruct (decide (k < Z.to_nat (ptbl_slots ubi))%nat) as [Hk|Hk].
    - rewrite lookup_seq_lt by exact Hk. cbn [fmap option_fmap option_map].
      change (0 + k)%nat with k. unfold layout_only_slot.
      destruct (Z.ltb_spec (Z.of_nat k) (UBI_LAYOUT_VOLUME_SIZE P)).
      + rewrite bool_decide_eq_true_2 by lia. reflexivity.
      + rewrite bool_decide_eq_false_2 by lia.
        rewrite lookup_replicate_2 by exact Hk. reflexivity.
    - rewrite lookup_seq_ge by lia. cbn [fmap option_fmap option_map].
      rewrite bool_decide_eq_false_2 by lia.
      apply lookup_replicate_None. lia. }
  apply list_eq in Hres. rewrite Hres. unfold normalise_ptbl.
  apply normalise_outer_layout_only.
  intros k r E. unfold layout_only_ptbl in E.
  rewrite list_lookup_fmap in E.
  destruct (seq 0 (Z.to_nat (ptbl_slots ubi)) !! k) as [k'|] eqn:Es;
    [|discriminate].
  apply lookup_seq in Es as [-> _]. cbn in E. congruence.
Qed.

End LayoutOnly.


(** *** The geometry of the tables *)

Lemma ALIGN_pow2 x k :
  0 <= k -> ALIGN x (2 ^ k) = (x + 2 ^ k - 1) / 2 ^ k * 2 ^ k.
Proof.
  intros Hk. unfold ALIGN.
  replace (Z.lnot (2 ^ k - 1)) with (Z.lnot (Z.ones k))
    by (rewrite Z.ones_equiv; f_equal; lia).
  rewrite <- Z.ldiff_land, Z.ldiff_ones_r by lia.
  rewrite Z.shiftl_mul_pow2, Z.shiftr_div_pow2 by lia. reflexivity.
Qed.

(** [ALIGN(x, a)] for a power of two [a] is the least multiple of [a] that
    is at least [x]. *)
Lemma ALIGN_fits x k L :
  0 <= k -> x <= L -> L mod 2 ^ k = 0 ->
  x <= ALIGN x (2 ^ k) <= L /\ ALIGN x (2 ^ k) mod 2 ^ k = 0.
Proof.
  intros Hk Hx HL. rewrite ALIGN_pow2 by exact Hk.
  assert (Ha : 0 < 2 ^ k) by (apply Z.pow_pos_nonneg; lia).
  set (a := 2 ^ k) in *.
  pose proof (Z.div_mod (x + a - 1) a ltac:(lia)) as Hd.
  pose proof (Z.mod_pos_bound (x + a - 1) a Ha) as Hr.
  pose proof (Z.div_mod L a ltac:(lia)) as HdL. rewrite HL in HdL.
  set (d := (x + a - 1) / a) in *. set (j := L / a) in *.
  split; [|apply Z_mod_mult].
  split; [nia|].
  assert (Hdj : d <= j) by nia. nia.
Qed.

(** X15.  The table geometry [ubi_read_volume_table] derives from the LEB
    size: the slot counts do not exceed [UBI_MAX_VOLUMES] and
    [UBI_MAX_PMAP]; each table size is a multiple of the minimal I/O unit
    (a power of two), large enough for all the slots of the table, and, on
    a device whose LEB size is a multiple of the minimal I/O unit, no
    larger than one LEB. *)
Theorem table_geometry_fits (ubi : ubi_device) (k : Z) :
  0 <= k -> min_io_size ubi = 2 ^ k ->
  0 <= leb_size ubi -> leb_size ubi mod min_io_size ubi = 0 ->
  0 < UBI_VTBL_RECORD_SIZE P -> 0 < UBI_PTBL_RECORD_SIZE P ->
  let g := table_geometry P ubi in
  vtbl_slots g <= UBI_MAX_VOLUMES P
  /\ ptbl_slots g <= UBI_MAX_PMAP P
  /\ vtbl_slots g * UBI_VTBL_RECORD_SIZE P <= vtbl_size g <= leb_size ubi
  /\ ptbl_slots g * UBI_PTBL_RECORD_SIZE P <= ptbl_size g <= leb_size ubi
  /\ vtbl_size g mod min_io_size ubi = 0
  /\ ptbl_size g mod min_io_size ubi = 0.
Proof.
  intros Hk Hio Hleb Hmod Hvr Hpr g. subst g.
  unfold table_geometry, set_slots. cbn [vtbl_slots ptbl_slots vtbl_size
    ptbl_size]. rewrite Hio in *.
  assert (Hslots : forall rec cap,
            0 < rec ->
            let s0 := Z.quot (leb_size ubi) rec in
            let s := if s0 >? cap then cap else s0 in
            s <= cap /\ s * rec <= leb_size ubi).
  { intros rec cap Hrec s0 s. subst s s0.
    rewrite Z.quot_div_nonneg by lia.
    pose proof (Z.mul_div_le (leb_size ubi) rec Hrec) as Hq.
    destruct (Z.gtb_spec (leb_size ubi / rec) cap); split; nia. }
  destruct (Hslots (UBI_VTBL_RECORD_SIZE P) (UBI_MAX_VOLUMES P) Hvr)
    as [Hv1 Hv2].
  destruct (Hslots (UBI_PTBL_RECORD_SIZE P) (UBI_MAX_PMAP P) Hpr)
    as [Hp1 Hp2].
  cbv zeta in Hv1, Hv2, Hp1, Hp2.
  destruct (ALIGN_fits _ k (leb_size ubi) Hk Hv2 Hmod) as [Hva Hvm].
  destruct (ALIGN_fits _ k (leb_size ubi) Hk Hp2 Hmod) as [Hpa Hpm].
  repeat split; try assumption; lia.
Qed.

(** *** The verdict of [vtbl_check] *)

Ltac bool_prop H :=
  repeat (progress rewrite
    ?orb_true_iff, ?orb_false_iff, ?andb_true_iff, ?andb_false_iff,
    ?negb_true_iff, ?negb_false_iff, ?Z.gtb_ltb, ?Z.eqb_eq, ?Z.eqb_neq,
    ?Z.ltb_lt, ?Z.ltb_ge, ?bool_decide_eq_true, ?bool_decide_eq_false in H).

Lemma vtbl_record_check_none ubi r :
  be32_to_cpu P (vt_crc r) = crc32_vtbl_record P r ->
  (vtbl_record_check P ubi r = None <-> vtbl_record_sane P ubi r).
Proof.
  intros Hcrc. unfold vtbl_record_check, vtbl_record_sane. cbv zeta.
  set (rp := to_int (be32_to_cpu P (vt_reserved_pebs r))).
  set (al := to_int (be32_to_cpu P (vt_alignment r))).
  set (dp := to_int (be32_to_cpu P (vt_data_pad r))).
  set (nl := be16_to_cpu P (vt_name_len r)).
  destruct (rp =? 0) eqn:E0; bool_prop E0.
  { destruct (bool_decide (r = empty_vtbl_record P)) eqn:Ee; bool_prop Ee.
    - split; [|reflexivity]. intros _. split; [exact Hcrc|].
      split; [auto|]. intros H. contradiction.
    - split; [discriminate|]. intros (_ & H & _). specialize (H E0).
      contradiction. }
  destruct ((rp <? 0) || (al <? 0) || (dp <? 0) || (nl <? 0)) eqn:E3;
    bool_prop E3.
  { split; [discriminate|]. intros (_ & _ & H). exfalso. lia. }
  destruct ((al >? leb_size ubi) || (al =? 0)) eqn:E4; bool_prop E4.
  { split; [discriminate|]. intros (_ & _ & H). exfalso. lia. }
  destruct (negb (al =? 1) && negb (Z.land al (min_io_size ubi - 1) =? 0))
    eqn:E5; bool_prop E5.
  { split; [discriminate|]. intros (_ & _ & H). exfalso. lia. }
  destruct (negb (dp =? Z.rem (leb_size ubi) al)) eqn:E6; bool_prop E6.
  { split; [discriminate|]. intros (_ & _ & H). exfalso. lia. }
  destruct (negb (vt_vol_type r =? UBI_VID_DYNAMIC P)
            && negb (vt_vol_type r =? UBI_VID_STATIC P)) eqn:E7;
    bool_prop E7.
  { split; [discriminate|]. intros (_ & _ & H). exfalso. lia. }
  destruct (negb (vt_upd_marker r =? 0) && negb (vt_upd_marker r =? 1))
    eqn:E8; bool_prop E8.
  { split; [discriminate|]. intros (_ & _ & H). exfalso. lia. }
  destruct (rp >? good_peb_count ubi) eqn:E9; bool_prop E9.
  { split; [discriminate|]. intros (_ & _ & H). exfalso. lia. }
  destruct (nl >? UBI_VOL_NAME_MAX P) eqn:E10; bool_prop E10.
  { split; [discriminate|]. intros (_ & _ & H). exfalso. lia. }
  destruct (hd 0 (vt_name r) =? 0) eqn:E11; bool_prop E11.
  { split; [discriminate|]. intros (_ & _ & H). exfalso. lia. }
  destruct (negb (nl =? strnlen (vt_name r) (Z.to_nat (nl + 1)))) eqn:E12;
    bool_prop E12.
  { split; [discriminate|]. intros (_ & _ & H). exfalso. lia. }
  split; [|reflexivity]. intros _.
  split; [exact Hcrc|]. split; [intros H; contradiction|]. intros _.
  repeat split; lia.
Qed.

Lemma vtbl_records_check_cases ubi vt :
  (vtbl_records_check P ubi vt = 0 /\ Forall (vtbl_record_sane P ubi) vt)
  \/ (vtbl_records_check P ubi vt = 1 /\ Exists (vtbl_crc_bad P) vt)
  \/ (vtbl_records_check P ubi vt = - EINVAL
      /\ ~ Forall (vtbl_record_sane P ubi) vt).
Proof.
  induction vt as [|r vt IH]; [left; split; [reflexivity|constructor]|].
  cbn [vtbl_records_check].
  destruct (Z.eqb_spec (be32_to_cpu P (vt_crc r)) (crc32_vtbl_record P r))
    as [Hcrc|Hcrc]; cbn [negb].
  2:{ right. left. split; [reflexivity|]. left. exact Hcrc. }
  pose proof (vtbl_record_check_none ubi r Hcrc) as Hsane.
  destruct (vtbl_record_check P ubi r) as [e|].
  - right. right. split; [reflexivity|]. intros H.
    apply Forall_inv in H. apply Hsane in H. discriminate.
  - destruct IH as [[H1 H2]|[[H1 H2]|[H1 H2]]].
    + left. split; [exact H1|]. constructor; [apply Hsane; reflexivity|exact H2].
    + right. left. split; [exact H1|]. right. exact H2.
    + right. right. split; [exact H1|]. intros H. apply H2.
      eapply Forall_inv_tail. exact H.
Qed.

Lemma pmap_records_check_cases ubi pt :
  (pmap_records_check P ubi pt = 0 /\ Forall (pmap_record_sane P ubi) pt)
  \/ (pmap_records_check P ubi pt = 1 /\ Exists (pmap_crc_bad P) pt)
  \/ (pmap_records_check P ubi pt = - EINVAL
      /\ ~ Forall (pmap_record_sane P ubi) pt).
Proof.
  induction pt as [|r pt IH]; [left; split; [reflexivity|constructor]|].
  cbn [pmap_records_check]. cbv zeta.
  destruct (Z.eqb_spec (be32_to_cpu P (pr_crc r)) (crc32_pmap_record P r))
    as [Hcrc|Hcrc]; cbn [negb].
  2:{ right. left. split; [reflexivity|]. left. exact Hcrc. }
  destruct ((to_int (be32_to_cpu P (pr_peb r)) <? 0)
            || (to_int (be32_to_cpu P (pr_leb r)) <? 0)) eqn:E14.
  { right. right. split; [reflexivity|]. intros H. apply Forall_inv in H.
    destruct H as (_ & H1 & H2 & _). bool_prop E14. lia. }
  destruct (Z.eqb_spec
              (Z.land (pr_flags r)
                 (Z.lnot (Z.lor (UBI_PEB_FREE P) (UBI_PEB_BAD P)))) 0)
    as [E15|E15]; cbn [negb].
  2:{ right. right. split; [reflexivity|]. intros H. apply Forall_inv in H.
      destruct H as (_ & _ & _ & H & _). contradiction. }
  destruct (vol_id2idx P ubi (to_int (be32_to_cpu P (pr_vol_id r)))
            >? vtbl_slots ubi + UBI_INT_VOL_COUNT P) eqn:E16.
  { right. right. split; [reflexivity|]. intros H. apply Forall_inv in H.
    destruct H as (_ & _ & _ & _ & H). bool_prop E16. lia. }
  bool_prop E14. bool_prop E16.
  assert (Hr : pmap_record_sane P ubi r).
  { unfold pmap_record_sane. repeat split; try assumption; lia. }
  destruct IH as [[H1 H2]|[[H1 H2]|[H1 H2]]].
  - left. split; [exact H1|]. constructor; assumption.
  - right. left. split; [exact H1|]. right. exact H2.
  - right. right. split; [exact H1|]. intros H. apply H2.
    eapply Forall_inv_tail. exact H.
Qed.

(** X16.  The verdict of [vtbl_check] is zero, one or [-EINVAL].  It is
    zero exactly when every record of both tables carries the CRC of its
    contents, every volume table record is either the empty record or a
    sane description of a volume (sizes positive and within the device,
    padding that of the alignment, a known type, a name of the recorded
    length), no two volumes share a name, and every PEB map record has
    non-negative PEB and LEB numbers, known flags and a volume within the
    table.  It is one only when some record fails its CRC. *)
Theorem vtbl_check_verdict (ubi : ubi_device) (vt : list ubi_vtbl_record)
    (pt : list ubi_pmap_record) :
  let r := vtbl_check P ubi vt pt in
  (r = 0 \/ r = 1 \/ r = - EINVAL)
  /\ (r = 0 <->
      Forall (vtbl_record_sane P ubi) vt /\ names_clash P vt = false
      /\ Forall (pmap_record_sane P ubi) pt)
  /\ (r = 1 -> Exists (vtbl_crc_bad P) vt \/ Exists (pmap_crc_bad P) pt).
Proof.
  unfold vtbl_check. unfold EINVAL.
  destruct (vtbl_records_check_cases ubi vt) as [[H1 H2]|[[H1 H2]|[H1 H2]]];
    rewrite H1; cbn [Z.eqb negb]; unfold EINVAL; cbn [Z.eqb negb Z.opp].
  - destruct (names_clash P vt) eqn:Ec.
    + split; [auto|]. split; [|discriminate].
      split; [discriminate|]. intros (_ & H & _). discriminate.
    + destruct (pmap_records_check_cases ubi pt)
        as [[H3 H4]|[[H3 H4]|[H3 H4]]]; rewrite H3; unfold EINVAL.
      * split; [auto|]. split; [|discriminate]. split; auto.
      * split; [auto|]. split; [|auto]. split; [discriminate|].
        intros (_ & _ & H). exfalso.
        apply Exists_exists in H4 as (x & Hx & Hbad).
        rewrite Forall_forall in H. destruct (H x Hx) as [Hc _].
        apply Hbad, Hc.
      * split; [auto|]. split; [|discriminate]. split; [discriminate|].
        intros (_ & _ & H). contradiction.
  - split; [auto|]. split; [|auto]. split; [discriminate|].
    intros (H & _). exfalso.
    apply Exists_exists in H2 as (x & Hx & Hbad).
    rewrite Forall_forall in H. destruct (H x Hx) as [Hc _].
    apply Hbad, Hc.
  - split; [auto|]. split; [|discriminate]. split; [discriminate|].
    intros (H & _). contradiction.
Qed.

(** *** The volume objects [init_volumes] builds *)

Lemma init_vtbl_loop_frame vt i ubi reserved ubi' reserved' :
  init_vtbl_loop P vt i ubi reserved = (0, ubi', reserved') ->
  leb_size ubi' = leb_size ubi
  /\ good_peb_count ubi' = good_peb_count ubi
  /\ corr_peb_count ubi' = corr_peb_count ubi
  /\ avail_pebs ubi' = avail_pebs ubi
  /\ rsvd_pebs ubi' = rsvd_pebs ubi
  /\ reserved' = reserved + table_reserved_pebs P vt
  /\ vol_count ubi'
     = vol_count ubi + Z.of_nat (length (List.filter (record_in_use P) vt))
  /\ forall k, k < i -> volumes ubi' k = volumes ubi k.
Proof.
  revert i ubi reserved. induction vt as [|r vt IH]; intros i ubi reserved.
  - simpl. intros [= <- <-]. repeat split; try reflexivity; lia.
  - cbn [init_vtbl_loop table_reserved_pebs fold_right List.filter].
    assert (Eu : record_in_use P r
                 = negb (be32_to_cpu P (vt_reserved_pebs r) mod 4294967296
                         =? 0)) by reflexivity.
    destruct (be32_to_cpu P (vt_reserved_pebs r) mod 4294967296 =? 0);
      cbn [negb] in Eu; rewrite !Eu.
    + intros H. apply IH in H as (H1 & H2 & H3 & H4 & H5 & H6 & H7 & H8).
      repeat split; try assumption;
        try (fold (table_reserved_pebs P vt); lia).
      intros k Hk. apply H8. lia.
    + cbv zeta.
      destruct (negb (Z.land (vt_flags r) (UBI_VTBL_AUTORESIZE_FLG P) =? 0)
                && negb (autoresize_vol_id ubi =? -1)); [discriminate|].
      intros H. apply IH in H as (H1 & H2 & H3 & H4 & H5 & H6 & H7 & H8).
      assert (Hf : forall (b : bool) u,
                (if b then set_autoresize u i else u) = u
                \/ (if b then set_autoresize u i else u) = set_autoresize u i)
        by (intros [] u; auto).
      destruct (Hf (negb (Z.land (vt_flags r) (UBI_VTBL_AUTORESIZE_FLG P) =? 0))
                  ubi) as [E|E]; rewrite E in *; cbn in H1, H2, H3, H4, H5, H7;
        (repeat split; try assumption;
         try (fold (table_reserved_pebs P vt); cbn [length]; lia);
         intros k Hk; rewrite H8 by lia; cbn;
         destruct (Z.eqb_spec k i); [lia|reflexivity]).
Qed.

Lemma init_vtbl_loop_volumes vt i ubi reserved ubi' reserved' :
  init_vtbl_loop P vt i ubi reserved = (0, ubi', reserved') ->
  forall (j : nat) r, vt !! j = Some r ->
    if record_in_use P r
    then exists vol,
           volumes ubi' (i + Z.of_nat j) = Some vol
           /\ vol_vol_id vol = i + Z.of_nat j
           /\ vol_reserved_pebs vol
              = to_int (be32_to_cpu P (vt_reserved_pebs r))
           /\ vol_usable_leb_size vol
              = leb_size ubi - to_int (be32_to_cpu P (vt_data_pad r))
    else volumes ubi' (i + Z.of_nat j) = volumes ubi (i + Z.of_nat j).
Proof.
  revert i ubi reserved. induction vt as [|r0 vt IH]; intros i ubi reserved H j r Hj;
    [discriminate|].
  cbn [init_vtbl_loop] in H.
  destruct j as [|j].
  - injection Hj as ->. replace (i + Z.of_nat 0) with i by lia.
    unfold record_in_use.
    destruct (be32_to_cpu P (vt_reserved_pebs r) mod 4294967296 =? 0);
      cbn [negb].
    + apply init_vtbl_loop_frame in H as (_ & _ & _ & _ & _ & _ & _ & H).
      apply H. lia.
    + cbv zeta in H.
      destruct (negb (Z.land (vt_flags r) (UBI_VTBL_AUTORESIZE_FLG P) =? 0)
                && negb (autoresize_vol_id ubi =? -1)); [discriminate|].
      apply init_vtbl_loop_frame in H as (_ & _ & _ & _ & _ & _ & _ & H).
      rewrite H by lia. cbn [volumes add_volume]. rewrite Z.eqb_refl.
      eexists. split; [reflexivity|]. cbn.
      destruct (negb (Z.land (vt_flags r) (UBI_VTBL_AUTORESIZE_FLG P) =? 0));
        repeat split; reflexivity.
  - cbn in Hj. replace (i + Z.of_nat (S j)) with (i + 1 + Z.of_nat j) by lia.
    destruct (be32_to_cpu P (vt_reserved_pebs r0) mod 4294967296 =? 0).
    + apply (IH _ _ _ H j r Hj).
    + cbv zeta in H.
      destruct (negb (Z.land (vt_flags r0) (UBI_VTBL_AUTORESIZE_FLG P) =? 0)
                && negb (autoresize_vol_id ubi =? -1)); [discriminate|].
      pose proof (IH _ _ _ H j r Hj) as Hr.
      assert (Hl : forall (b : bool) v,
                leb_size (add_volume (if b then set_autoresize ubi i else ubi)
                            i v) = leb_size ubi) by (intros [] v; reflexivity).
      assert (Hv : forall (b : bool) v k, k <> i ->
                volumes (add_volume (if b then set_autoresize ubi i else ubi)
                           i v) k = volumes ubi k).
      { intros b v k Hk. cbn [volumes add_volume].
        destruct (Z.eqb_spec k i); [contradiction|]. destruct b; reflexivity. }
      rewrite Hl in Hr. rewrite Hv in Hr by lia. exact Hr.
Qed.

(** After the first flagged record the loop accepts no other. *)
Lemma init_vtbl_loop_no_second vt i ubi reserved ubi' reserved' :
  init_vtbl_loop P vt i ubi reserved = (0, ubi', reserved') ->
  autoresize_vol_id ubi <> -1 ->
  forall (j : nat) r, vt !! j = Some r -> record_autoresize P r = false.
Proof.
  revert i ubi reserved. induction vt as [|r0 vt IH];
    intros i ubi reserved H Hset j r Hj; [discriminate|].
  cbn [init_vtbl_loop] in H. unfold record_autoresize, record_in_use.
  destruct j as [|j].
  - injection Hj as ->.
    destruct (be32_to_cpu P (vt_reserved_pebs r) mod 4294967296 =? 0);
      [reflexivity|]. cbv zeta in H. cbn [negb andb].
    destruct (negb (Z.land (vt_flags r) (UBI_VTBL_AUTORESIZE_FLG P) =? 0));
      [|reflexivity].
    destruct (Z.eqb_spec (autoresize_vol_id ubi) (-1)); [contradiction|].
    discriminate.
  - cbn in Hj.
    destruct (be32_to_cpu P (vt_reserved_pebs r0) mod 4294967296 =? 0).
    + apply (IH _ _ _ H Hset j r Hj).
    + cbv zeta in H.
      destruct (negb (Z.land (vt_flags r0) (UBI_VTBL_AUTORESIZE_FLG P) =? 0)
                && negb (autoresize_vol_id ubi =? -1)) eqn:E; [discriminate|].
      refine (IH _ _ _ H _ j r Hj).
      destruct (negb (Z.land (vt_flags r0) (UBI_VTBL_AUTORESIZE_FLG P) =? 0));
        [|exact Hset].
      cbn [andb] in E. apply negb_false_iff, Z.eqb_eq in E. contradiction.
Qed.

Lemma init_vtbl_loop_one_autoresize vt i ubi reserved ubi' reserved' :
  init_vtbl_loop P vt i ubi reserved = (0, ubi', reserved') ->
  0 <= i ->
  forall (j k : nat) rj rk,
    vt !! j = Some rj -> vt !! k = Some rk ->
    record_autoresize P rj = true -> record_autoresize P rk = true -> j = k.
Proof.
  revert i ubi reserved. induction vt as [|r0 vt IH];
    intros i ubi reserved H Hi j k rj rk Hj Hk Fj Fk; [discriminate|].
  cbn [init_vtbl_loop] in H.
  destruct (be32_to_cpu P (vt_reserved_pebs r0) mod 4294967296 =? 0) eqn:E0.
  { assert (Hr0 : record_autoresize P r0 = false)
      by (unfold record_autoresize, record_in_use; rewrite E0; reflexivity).
    destruct j as [|j]; [injection Hj as ->; congruence|].
    destruct k as [|k]; [injection Hk as ->; congruence|].
    f_equal. apply (IH _ _ _ H ltac:(lia) j k rj rk); assumption. }
  cbv zeta in H.
  destruct (negb (Z.land (vt_flags r0) (UBI_VTBL_AUTORESIZE_FLG P) =? 0)
            && negb (autoresize_vol_id ubi =? -1)) eqn:E; [discriminate|].
  destruct (negb (Z.land (vt_flags r0) (UBI_VTBL_AUTORESIZE_FLG P) =? 0))
    eqn:Ef.
  - (* the first record is flagged: no other one is *)
    assert (Hnone : forall (n : nat) r, vt !! n = Some r ->
              record_autoresize P r = false).
    { apply (init_vtbl_loop_no_second _ _ _ _ _ _ H). cbn. lia. }
    destruct j as [|j], k as [|k]; try reflexivity.
    + cbn in Hk. rewrite (Hnone k rk Hk) in Fk. discriminate.
    + cbn in Hj. rewrite (Hnone j rj Hj) in Fj. discriminate.
    + cbn in Hj. rewrite (Hnone j rj Hj) in Fj. discriminate.
  - assert (Hr0 : record_autoresize P r0 = false).
    { unfold record_autoresize. rewrite Ef. apply andb_false_r. }
    destruct j as [|j]; [injection Hj as ->; congruence|].
    destruct k as [|k]; [injection Hk as ->; congruence|].
    f_equal. apply (IH _ _ _ H ltac:(lia) j k rj rk); assumption.
Qed.

(** X17.  What a successful [init_volumes] leaves in the device: every
    volume table record with a non-zero [reserved_pebs] has a volume
    object at its index, with the record's size and the usable LEB size
    that the record's padding leaves, and the other slots are as they were;
    the volume count has grown by the number of such records; at most one
    of them carries the auto-resize flag; and the PEBs reserved by the
    layout volume and by the table have moved from [avail_pebs] (set to the
    number of good PEBs the PEB map table lists) to [rsvd_pebs].
    [vol_id2idx] is taken to depend on the device through [vtbl_slots]
    only, as the macro of mainline UBI does. *)
Theorem init_volumes_instantiates (ubi ubi' : ubi_device)
    (vt : list ubi_vtbl_record) (pt : list ubi_pmap_record) :
  (forall u v, vtbl_slots u = vtbl_slots ubi ->
               vol_id2idx P u v = vol_id2idx P ubi v) ->
  init_volumes P ubi vt pt = (0, ubi') ->
  let lvol_reserved :=
    match volumes ubi (vol_id2idx P ubi (UBI_LAYOUT_VOLUME_ID P)) with
    | Some lvol => vol_reserved_pebs lvol
    | None => 0
    end in
  (forall (i : nat) r, vt !! i = Some r ->
     if record_in_use P r
     then exists vol,
            volumes ubi' (Z.of_nat i) = Some vol
            /\ vol_vol_id vol = Z.of_nat i
            /\ vol_reserved_pebs vol
               = to_int (be32_to_cpu P (vt_reserved_pebs r))
            /\ vol_usable_leb_size vol
               = leb_size ubi - to_int (be32_to_cpu P (vt_data_pad r))
     else volumes ubi' (Z.of_nat i) = volumes ubi (Z.of_nat i))
  /\ vol_count ubi'
     = vol_count ubi + Z.of_nat (length (List.filter (record_in_use P) vt))
  /\ (forall (j k : nat) rj rk,
        vt !! j = Some rj -> vt !! k = Some rk ->
        record_autoresize P rj = true -> record_autoresize P rk = true ->
        j = k)
  /\ corr_peb_count ubi' = 0
  /\ rsvd_pebs ubi'
     = rsvd_pebs ubi + lvol_reserved + table_reserved_pebs P vt
  /\ avail_pebs ubi'
     = good_peb_count ubi' - (lvol_reserved + table_reserved_pebs P vt).
Proof.
  intros Hidx. unfold init_volumes.
  destruct (init_ptbl_loop P ubi pt 0 0 (peb_map ubi)) as [err [[good bad_] m]].
  destruct (Z.ltb_spec err 0) as [Hneg|_]; [intros [= E _]; lia|].
  set (u1 := set_peb_counts _ good 0 bad_ (good - 0) _).
  change (volumes u1) with (volumes ubi).
  rewrite (Hidx u1) by reflexivity.
  set (lr := match volumes ubi (vol_id2idx P ubi (UBI_LAYOUT_VOLUME_ID P)) with
             | Some lvol => vol_reserved_pebs lvol
             | None => 0
             end).
  destruct (init_vtbl_loop P vt 0 u1 lr) as [[e u2] reserved] eqn:El.
  destruct (Z.eqb_spec e 0) as [->|Hne]; cbn [negb]; [|intros [= E _]; lia].
  intros [= <-].
  pose proof (init_vtbl_loop_frame _ _ _ _ _ _ El)
    as (H1 & H2 & H3 & H4 & H5 & H6 & H7 & H8).
  pose proof (init_vtbl_loop_volumes _ _ _ _ _ _ El) as Hvol.
  pose proof (init_vtbl_loop_one_autoresize _ _ _ _ _ _ El ltac:(lia)) as Hone.
  split; [|split; [|split; [|split; [|split]]]].
  - intros i r Hi. specialize (Hvol i r Hi). cbn [Z.add] in Hvol.
    exact Hvol.
  - exact H7.
  - exact Hone.
  - cbn. exact H3.
  - cbn. rewrite H5, H6. cbn. lia.
  - cbn. rewrite H4, H2, H6. cbn. lia.
Qed.

(** *** The PEB map against the volume table *)

Local Abbreviation lv_id := (UBI_LAYOUT_VOLUME_ID P).
Local Abbreviation lv_res := (UBI_LAYOUT_VOLUME_RESERVED_EBS P).

Lemma check_lookup_loop_cases ubi (m : list ubi_pmap) vol n i :
  (check_lookup_loop P ubi m vol n i = 0
   /\ forall l, i <= l < i + Z.of_nat n ->
        0 <= Pmap.ubi_pmap_lookup_pnum lv_id lv_res (peb_count ubi) m vol l)
  \/ (check_lookup_loop P ubi m vol n i = - EINVAL
      /\ exists l, i <= l < i + Z.of_nat n
           /\ Pmap.ubi_pmap_lookup_pnum lv_id lv_res (peb_count ubi) m vol l
              < 0).
Proof.
  revert i. induction n as [|n IH]; intros i.
  - left. split; [reflexivity|]. intros l Hl. lia.
  - cbn [check_lookup_loop].
    destruct (Z.ltb_spec
                (Pmap.ubi_pmap_lookup_pnum lv_id lv_res (peb_count ubi) m vol i)
                0) as [Hneg|Hpos].
    + right. split; [reflexivity|]. exists i. split; [lia|exact Hneg].
    + destruct (IH (i + 1)) as [[H1 H2]|[H1 (l & Hl & H2)]].
      * left. split; [exact H1|]. intros l Hl.
        destruct (Z.eq_dec l i) as [->|Hne]; [exact Hpos|apply H2; lia].
      * right. split; [exact H1|]. exists l. split; [lia|exact H2].
Qed.

(** [check_pmap] is zero when the volume has the PEBs its record reserves
    and every LEB below that number resolves, and [-EINVAL] otherwise. *)
Lemma check_pmap_cases ubi (m : list ubi_pmap) vol idx :
  (check_pmap P ubi m vol idx = 0
   /\ Pmap.ubi_pmap_vol_peb_count lv_id lv_res (peb_count ubi) m idx
      = vol_reserved_pebs vol
   /\ forall l, 0 <= l < vol_reserved_pebs vol ->
        0 <= Pmap.ubi_pmap_lookup_pnum lv_id lv_res (peb_count ubi) m idx l)
  \/ (check_pmap P ubi m vol idx = - EINVAL
      /\ (Pmap.ubi_pmap_vol_peb_count lv_id lv_res (peb_count ubi) m idx
          <> vol_reserved_pebs vol
          \/ exists l, 0 <= l < vol_reserved_pebs vol
               /\ Pmap.ubi_pmap_lookup_pnum lv_id lv_res (peb_count ubi) m
                    idx l < 0)).
Proof.
  unfold check_pmap, vol_peb_count.
  destruct (Z.eqb_spec
              (Pmap.ubi_pmap_vol_peb_count lv_id lv_res (peb_count ubi) m idx)
              (vol_reserved_pebs vol)) as [Hc|Hc]; cbn [negb].
  2:{ right. split; [reflexivity|]. left. exact Hc. }
  destruct (check_lookup_loop_cases ubi m idx
              (Z.to_nat (vol_reserved_pebs vol)) 0)
    as [[H1 H2]|[H1 (l & Hl & H2)]].
  - left. split; [exact H1|]. split; [exact Hc|]. intros l Hl. apply H2. lia.
  - right. split; [exact H1|]. right. exists l. split; [lia|exact H2].
Qed.

Lemma contiguous_lookups (m : list ubi_pmap) pc vol k :
  0 <= lv_res ->
  Pmap.vol_contiguous lv_id lv_res pc m vol k ->
  forall l, 0 <= l < k ->
    0 <= Pmap.ubi_pmap_lookup_pnum lv_id lv_res pc m vol l.
Proof.
  intros Hres (_ & _ & Hex) l Hl.
  destruct (Hex l Hl) as (p & Hp & Ho & Hlp).
  rewrite lookup_pnum_unfold.
  pose proof (area_first_nonneg lv_id lv_res pc vol Hres) as Hfp.
  unfold Pmap.in_area in Hp.
  destruct (lookup_loop_spec m vol l
              (Pmap.span (fst (Pmap.ubi_pmap_vol_reserved_area lv_id lv_res pc
                                 vol))
                 (snd (Pmap.ubi_pmap_vol_reserved_area lv_id lv_res pc vol)))
              (fst (Pmap.ubi_pmap_vol_reserved_area lv_id lv_res pc vol)))
    as [[_ Hno]|(Hr & _)]; [|lia].
  specialize (Hno p ltac:(apply span_range; exact Hp)).
  assert (Hm : lookup_match vol l (peb_at m p) = true)
    by (apply lookup_match_owned; auto).
  congruence.
Qed.

(** X18.  [check_pmap] returns zero when the volume has exactly the number
    of PEBs its volume table record reserves and every LEB number below
    that number resolves to a PEB, and [-EINVAL] in every other case.  A
    volume that [ubi_pmap_resize_volume] has just brought to the size of
    its record, from a state in which its LEB numbers were [0 .. size-1],
    passes the check. *)
Theorem check_pmap_verdict (ubi : ubi_device) (m : list ubi_pmap)
    (vol : ubi_volume) (idx : Z) :
  let count mm := Pmap.ubi_pmap_vol_peb_count lv_id lv_res (peb_count ubi)
                    mm idx in
  let lookup mm := Pmap.ubi_pmap_lookup_pnum lv_id lv_res (peb_count ubi)
                     mm idx in
  let fp := fst (Pmap.ubi_pmap_vol_reserved_area lv_id lv_res (peb_count ubi)
                   idx) in
  let lp := snd (Pmap.ubi_pmap_vol_reserved_area lv_id lv_res (peb_count ubi)
                   idx) in
  (check_pmap P ubi m vol idx = 0 <->
   count m = vol_reserved_pebs vol
   /\ forall l, 0 <= l < vol_reserved_pebs vol -> 0 <= lookup m l)
  /\ (check_pmap P ubi m vol idx <> 0 ->
      check_pmap P ubi m vol idx = - EINVAL)
  /\ (forall fuel,
        Pmap.areas_in_map lv_res (peb_count ubi) m ->
        Pmap.vol_contiguous lv_id lv_res (peb_count ubi) m idx (count m) ->
        0 <= vol_reserved_pebs vol
          <= count m + Pmap.count_free m (Pmap.span fp lp) fp ->
        (vol_reserved_pebs vol < count m ->
         (count m - vol_reserved_pebs vol) * (lp - fp + 1)
         <= Z.of_nat fuel) ->
        exists m',
          Pmap.ubi_pmap_resize_volume lv_id lv_res (peb_count ubi) fuel m idx
            (vol_reserved_pebs vol) = Some (0, m')
          /\ check_pmap P ubi m' vol idx = 0).
Proof.
  intros count lookup fp lp.
  split; [|split].
  - destruct (check_pmap_cases ubi m vol idx)
      as [(H1 & H2 & H3)|(H1 & [H2|(l & Hl & H2)])]; rewrite H1.
    + split; auto.
    + split; [discriminate|]. intros [H _]. contradiction.
    + split; [discriminate|]. intros [_ H]. specialize (H l Hl).
      subst lookup. simpl in H. lia.
  - destruct (check_pmap_cases ubi m vol idx) as [(H1 & _)|(H1 & _)];
      rewrite H1; [intros H; contradiction|reflexivity].
  - intros fuel Hmap Hcont Hfit Hfuel.
    destruct (resize_contiguous lv_id lv_res (peb_count ubi) fuel m idx
                (vol_reserved_pebs vol) Hmap Hcont Hfit Hfuel)
      as (m' & Hres & Hlen & Hcnt & Hcont').
    exists m'. split; [exact Hres|].
    destruct (check_pmap_cases ubi m' vol idx)
      as [(H1 & _)|(H1 & [H2|(l & Hl & H2)])]; [exact H1| |].
    + contradiction.
    + assert (Hres0 : 0 <= lv_res) by (destruct Hmap; lia).
      pose proof (contiguous_lookups m' (peb_count ubi) idx
                    (vol_reserved_pebs vol) Hres0 Hcont' l Hl). lia.
Qed.

Lemma areas_in_map_length (m m' : list ubi_pmap) res pc :
  length m' = length m ->
  Pmap.areas_in_map res pc m -> Pmap.areas_in_map res pc m'.
Proof. intros Hl [H1 H2]. split; [exact H1|]. rewrite Hl. exact H2. Qed.

(** The deletion [check_volume_pmap] applies to a volume that has no
    record: the volume is left no PEB and the other volumes are as they
    were. *)
Lemma release_volume ubi (m : list ubi_pmap) i :
  Pmap.areas_in_map lv_res (peb_count ubi) m ->
  exists m0,
    Pmap.ubi_pmap_resize_volume lv_id lv_res (peb_count ubi) 0 m i 0
    = Some (0, m0)
    /\ length m0 = length m
    /\ Pmap.ubi_pmap_vol_peb_count lv_id lv_res (peb_count ubi) m0 i = 0
    /\ forall v, v <> i ->
         Pmap.ubi_pmap_vol_peb_count lv_id lv_res (peb_count ubi) m0 v
         = Pmap.ubi_pmap_vol_peb_count lv_id lv_res (peb_count ubi) m v
         /\ forall l,
              Pmap.ubi_pmap_lookup_pnum lv_id lv_res (peb_count ubi) m0 v l
              = Pmap.ubi_pmap_lookup_pnum lv_id lv_res (peb_count ubi) m v l.
Proof.
  intros Hmap.
  destruct (resize_zero_empties lv_id lv_res (peb_count ubi) 0 m i Hmap)
    as (m0 & Hres & Hlen & Hcnt).
  exists m0. split; [exact Hres|]. split; [exact Hlen|].
  split; [exact Hcnt|]. intros v Hv.
  apply (touched_same_lookups lv_id lv_res (peb_count ubi) m m0 i v Hv).
  intros q. eapply resize_touched. exact Hres.
Qed.

Lemma check_volume_loop_post ubi n i (m m' : list ubi_pmap) err :
  Pmap.areas_in_map lv_res (peb_count ubi) m ->
  check_volume_loop P ubi n i m = (err, m') ->
  (err = 0 \/ err = - EINVAL)
  /\ length m' = length m
  /\ (forall v, v < i ->
        Pmap.ubi_pmap_vol_peb_count lv_id lv_res (peb_count ubi) m' v
        = Pmap.ubi_pmap_vol_peb_count lv_id lv_res (peb_count ubi) m v
        /\ forall l,
             Pmap.ubi_pmap_lookup_pnum lv_id lv_res (peb_count ubi) m' v l
             = Pmap.ubi_pmap_lookup_pnum lv_id lv_res (peb_count ubi) m v l)
  /\ (err = 0 ->
      forall j, i <= j < i + Z.of_nat n -> volume_agrees P ubi m' j).
Proof.
  revert i m. induction n as [|n IH]; intros i m Hmap.
  { simpl. intros [= <- <-]. split; [auto|]. split; [reflexivity|].
    split; [auto|]. intros _ j Hj. lia. }
  cbn [check_volume_loop]. cbv zeta. unfold vol_peb_count.
  destruct (release_volume ubi m i Hmap) as (m0 & Hres & Hlen0 & Hc0 & Hfr0).
  rewrite Hres.
  set (c := Pmap.ubi_pmap_vol_peb_count lv_id lv_res (peb_count ubi) m i).
  (* the step from a map [m1] that settles volume [i] *)
  assert (Hstep : forall m1,
            length m1 = length m ->
            (forall v, v < i ->
               Pmap.ubi_pmap_vol_peb_count lv_id lv_res (peb_count ubi) m1 v
               = Pmap.ubi_pmap_vol_peb_count lv_id lv_res (peb_count ubi) m v
               /\ forall l,
                    Pmap.ubi_pmap_lookup_pnum lv_id lv_res (peb_count ubi) m1
                      v l
                    = Pmap.ubi_pmap_lookup_pnum lv_id lv_res (peb_count ubi) m
                        v l) ->
            volume_agrees P ubi m1 i ->
            check_volume_loop P ubi n (i + 1) m1 = (err, m') ->
            (err = 0 \/ err = - EINVAL)
            /\ length m' = length m
            /\ (forall v, v < i ->
                  Pmap.ubi_pmap_vol_peb_count lv_id lv_res (peb_count ubi) m' v
                  = Pmap.ubi_pmap_vol_peb_count lv_id lv_res (peb_count ubi) m
                      v
                  /\ forall l,
                       Pmap.ubi_pmap_lookup_pnum lv_id lv_res (peb_count ubi)
                         m' v l
                       = Pmap.ubi_pmap_lookup_pnum lv_id lv_res (peb_count ubi)
                           m v l)
            /\ (err = 0 ->
                forall j, i <= j < i + Z.of_nat (S n) ->
                          volume_agrees P ubi m' j)).
  { intros m1 Hl1 Hf1 Hag1 Hloop.
    destruct (IH (i + 1) m1 (areas_in_map_length m m1 _ _ Hl1 Hmap) Hloop)
      as (He & Hl & Hf & Hpost).
    split; [exact He|]. split; [congruence|]. split.
    - intros v Hv. destruct (Hf v ltac:(lia)) as [Hfc Hfl].
      destruct (Hf1 v Hv) as [Hc1 Hk1]. split; [congruence|].
      intros l. rewrite Hfl. apply Hk1.
    - intros Hz j Hj. destruct (Z.eq_dec j i) as [->|Hne];
        [|apply Hpost; [exact Hz|lia]].
      destruct (Hf i ltac:(lia)) as [Hfc Hfl].
      unfold volume_agrees in *. cbv zeta in *. rewrite Hfc.
      destruct (volumes ubi i) as [vol|]; [|exact Hag1].
      destruct (vol_reserved_pebs vol =? 0); [exact Hag1|].
      destruct Hag1 as [Hag1|[Hag1 Hag2]]; [left; exact Hag1|].
      right. split; [exact Hag1|]. intros l Hl'. rewrite Hfl. apply Hag2, Hl'. }
  assert (Hsame : forall v, v < i ->
            Pmap.ubi_pmap_vol_peb_count lv_id lv_res (peb_count ubi) m v
            = Pmap.ubi_pmap_vol_peb_count lv_id lv_res (peb_count ubi) m v
            /\ forall l,
                 Pmap.ubi_pmap_lookup_pnum lv_id lv_res (peb_count ubi) m v l
                 = Pmap.ubi_pmap_lookup_pnum lv_id lv_res (peb_count ubi) m v l)
    by (intros; split; reflexivity).
  assert (Hrel : forall v, v < i ->
            Pmap.ubi_pmap_vol_peb_count lv_id lv_res (peb_count ubi) m0 v
            = Pmap.ubi_pmap_vol_peb_count lv_id lv_res (peb_count ubi) m v
            /\ forall l,
                 Pmap.ubi_pmap_lookup_pnum lv_id lv_res (peb_count ubi) m0 v l
                 = Pmap.ubi_pmap_lookup_pnum lv_id lv_res (peb_count ubi) m v l)
    by (intros v Hv; apply Hfr0; lia).
  destruct (volumes ubi i) as [vol|] eqn:Ev.
  - destruct (Z.eqb_spec (vol_reserved_pebs vol) 0) as [Hr0|Hr0].
    + destruct (Z.eqb_spec c 0) as [Hc|Hc].
      * apply (Hstep m eq_refl Hsame). unfold volume_agrees. cbv zeta.
        rewrite Ev. rewrite (proj2 (Z.eqb_eq _ _) Hr0). exact Hc.
      * apply (Hstep m0 Hlen0 Hrel). unfold volume_agrees. cbv zeta.
        rewrite Ev. rewrite (proj2 (Z.eqb_eq _ _) Hr0). exact Hc0.
    + destruct (Z.eqb_spec c 0) as [Hc|Hc]; cbn [negb].
      * apply (Hstep m eq_refl Hsame). unfold volume_agrees. cbv zeta.
        rewrite Ev. rewrite (proj2 (Z.eqb_neq _ _) Hr0). left. exact Hc.
      * destruct (check_pmap_cases ubi m vol i)
          as [(H1 & H2 & H3)|(H1 & _)]; rewrite H1.
        -- cbn [Z.eqb negb]. apply (Hstep m eq_refl Hsame).
           unfold volume_agrees. cbv zeta.
           rewrite Ev. rewrite (proj2 (Z.eqb_neq _ _) Hr0). right. auto.
        -- unfold EINVAL. cbn [Z.opp Z.eqb negb]. intros [= <- <-].
           split; [right; reflexivity|]. split; [reflexivity|].
           split; [auto|]. discriminate.
  - destruct (Z.eqb_spec c 0) as [Hc|Hc]; cbn [negb].
    + apply (Hstep m eq_refl Hsame). unfold volume_agrees. cbv zeta.
      rewrite Ev. exact Hc.
    + apply (Hstep m0 Hlen0 Hrel). unfold volume_agrees. cbv zeta.
      rewrite Ev. exact Hc0.
Qed.

(** X19.  [check_volume_pmap] returns, with zero or [-EINVAL]; it changes
    nothing of the device but the PEB map; and when it returns zero the PEB
    map agrees with the volume objects at every index it visits: a volume
    that is absent, or present with no reserved PEB, has been left no PEB
    in the map (an interrupted removal is finished), and a volume with
    reserved PEBs has either none in the map, or exactly the reserved
    number with every LEB below it resolving. *)
Theorem check_volume_pmap_postcondition (fuel : nat) (ubi : ubi_device) :
  Pmap.areas_in_map lv_res (peb_count ubi) (peb_map ubi) ->
  exists err m',
    check_volume_pmap P (S fuel) ubi = Some (err, set_peb_map ubi m')
    /\ (err = 0 \/ err = - EINVAL)
    /\ length m' = length (peb_map ubi)
    /\ (err = 0 ->
        forall j, 0 <= j < vtbl_slots ubi + UBI_INT_VOL_COUNT P ->
                  volume_agrees P ubi m' j).
Proof.
  intros Hmap. unfold check_volume_pmap.
  unfold Pmap.ubi_pmap_number_vols.
  cbn [Pmap.number_vols_loop]. rewrite next_vol_loop_keeps.
  cbn [Z.eqb Pmap.INT_MAX Pos.eqb].
  destruct (0 >? UBI_INT_VOL_COUNT P + vtbl_slots ubi) eqn:En.
  { exists (- EINVAL), (peb_map ubi).
    split; [destruct ubi; reflexivity|]. split; [auto|].
    split; [reflexivity|]. discriminate. }
  destruct (check_volume_loop P ubi
              (Z.to_nat (vtbl_slots ubi + UBI_INT_VOL_COUNT P)) 0 (peb_map ubi))
    as [err m'] eqn:El.
  destruct (check_volume_loop_post ubi _ 0 (peb_map ubi) m' err Hmap El)
    as (He & Hlen & _ & Hpost).
  exists err, m'. split; [reflexivity|]. split; [exact He|].
  split; [exact Hlen|]. intros Hz j Hj. apply Hpost; [exact Hz|lia].
Qed.

(** *** The layout volume on the first good PEBs *)

Lemma layout_scan_post ubi f n p ln err0 (m : list ubi_pmap) :
  Pmap.areas_in_map lv_res (peb_count ubi) m ->
  layout_scan_ok lv_id lv_res (UBI_LAYOUT_VOLUME_EBS P) (ubi_io_is_bad P f)
    m p ln ->
  Z.of_nat n = peb_count ubi - p ->
  let r := layout_scan P ubi f (UBI_LAYOUT_VOLUME_EBS P) n p ln err0 m in
  fst r <= 0
  /\ length (snd r) = length m
  /\ (fst r = 0 ->
      contiguous_in (snd r) lv_id 0 (lv_res - 1) (UBI_LAYOUT_VOLUME_EBS P)
      /\ on_first_good lv_id lv_res (ubi_io_is_bad P f) (snd r)).
Proof.
  revert p ln err0 m. induction n as [|n IH]; intros p ln err0 m Hmap Hok Hn.
  { exfalso.
    pose proof (scan_in_area lv_id lv_res _ _ m p ln Hok) as Hlt.
    destruct Hmap as [Hres _]. lia. }
  cbn [layout_scan]. cbv zeta.
  destruct (Z.ltb_spec (ubi_io_is_bad P f p) 0) as [Hneg|Hpos].
  { cbn [fst snd]. split; [lia|]. split; [reflexivity|]. lia. }
  destruct (Z.eqb_spec (ubi_io_is_bad P f p) 0) as [Hgood|Hisbad]; cbn [negb].
  - destruct (scan_good lv_id lv_res _ _ m p ln Hok Hgood) as [Hlast Hmore].
    destruct (Z.eqb_spec (ln + 1) (UBI_LAYOUT_VOLUME_EBS P)) as [E|E].
    + cbn [fst snd]. split; [lia|]. split; [reflexivity|]. intros _.
      split; [|apply Hlast; exact E].
      destruct Hok as (_ & _ & _ & _ & _ & Hcont & _). exact Hcont.
    + apply IH; [exact Hmap|apply Hmore; exact E|lia].
  - destruct (scan_bad lv_id lv_res (peb_count ubi) _ _ m p ln Hmap Hok Hisbad)
      as [Hlen Hnext].
    destruct (Pmap.ubi_pmap_markbad_replace lv_id lv_res (peb_count ubi) m p)
      as [r m'].
    cbn [fst snd] in Hlen, Hnext.
    destruct (Z.ltb_spec r 0) as [Hr|Hr].
    { cbn [fst snd]. split; [lia|]. split; [exact Hlen|]. lia. }
    destruct Hnext as [E|[_ Hok']]; [unfold ENOMEM in E; lia|].
    rewrite <- Hlen. apply IH; [|exact Hok'|lia].
    apply (areas_in_map_length m); assumption.
Qed.

(** X21.  [init_layout_volume] puts the layout volume on the first good
    PEBs of the device.  On a map in which no entry of the layout area is
    in use, the entries marked bad are bad on the flash, and at least
    [UBI_LAYOUT_VOLUME_EBS] entries are free, the call returns a value that
    is never positive; when it returns zero, the layout volume is among the
    volumes of the device, its entries carry the LEB numbers
    [0 .. UBI_LAYOUT_VOLUME_EBS - 1] once each, and an entry of the layout
    area belongs to it exactly when its PEB is good and not beyond the last
    PEB the scan looked at: no PEB of the volume is bad and no good PEB
    before one of the volume is left out. *)
Theorem init_layout_volume_on_good_pebs (fuel : nat) (ubi : ubi_device)
    (f : flash P) :
  let m := peb_map ubi in
  let ebs := UBI_LAYOUT_VOLUME_EBS P in
  let isbad := ubi_io_is_bad P f in
  Pmap.areas_in_map lv_res (peb_count ubi) m ->
  0 < ebs ->
  (forall q, 0 <= q < lv_res -> inuse (peb_at m q) = false) ->
  (forall q, 0 <= q < lv_res -> bad (peb_at m q) = true -> isbad q <> 0) ->
  ebs <= Pmap.count_free m (Z.to_nat lv_res) 0 ->
  exists err ubi',
    init_layout_volume P fuel ubi f = Some (err, ubi')
    /\ err <= 0
    /\ length (peb_map ubi') = length m
    /\ (err = 0 ->
        vol_count ubi' = vol_count ubi + 1
        /\ (exists lvol,
              volumes ubi' (vol_id2idx P ubi lv_id) = Some lvol
              /\ vol_vol_id lvol = lv_id /\ vol_reserved_pebs lvol = ebs)
        /\ Pmap.vol_contiguous lv_id lv_res (peb_count ubi) (peb_map ubi')
             lv_id ebs
        /\ exists last,
             0 <= last < lv_res
             /\ forall q, 0 <= q < lv_res ->
                  (owned_by lv_id (peb_at (peb_map ubi') q) = true
                   <-> q <= last /\ isbad q = 0)).
Proof.
  intros m ebs isbad Hmap Hebs Hidle Hmarks Hfree.
  destruct (scan_start lv_id lv_res (peb_count ubi) ebs isbad fuel m
              Hmap Hebs Hidle Hmarks Hfree) as (m1 & Hres & Hlen1 & Hok).
  unfold init_layout_volume, pmap_resize. cbv zeta.
  cbn [peb_count peb_map add_volume]. fold m. fold ebs. rewrite Hres.
  pose proof (layout_scan_post
                (add_volume ubi (vol_id2idx P ubi lv_id)
                   (mk_volume ebs 1 0 0 (UBI_DYNAMIC_VOLUME P)
                      (Z.of_nat (length (UBI_LAYOUT_VOLUME_NAME P)))
                      (leb_size ubi) (UBI_LAYOUT_VOLUME_NAME P) lv_id ebs ebs
                      (ebs * (leb_size ubi - 0)) 1))
                f (Z.to_nat (peb_count ubi)) 0 0 0 m1) as Hpost.
  cbn [peb_count add_volume] in Hpost. cbv zeta in Hpost.
  fold ebs isbad in Hpost.
  destruct Hpost as (Hle & Hlen & Hzero).
  { apply (areas_in_map_length m); assumption. }
  { exact Hok. }
  { destruct Hmap as [Hr _]. lia. }
  destruct (layout_scan _ _ _ _ _ _ _ _ m1) as [err m'].
  cbn [fst snd] in Hle, Hlen, Hzero.
  eexists. eexists. split; [reflexivity|]. split; [exact Hle|].
  cbn [peb_map set_peb_map vol_count volumes add_volume].
  split; [congruence|]. intros Herr.
  destruct (Hzero Herr) as [Hcont Hgood].
  split; [reflexivity|]. split.
  { eexists. rewrite Z.eqb_refl. split; [reflexivity|]. split; reflexivity. }
  split; [|exact Hgood].
  apply vol_contiguous_in. rewrite area_layout. exact Hcont.
Qed.

(** *** The tables of a newly created layout volume *)

Lemma concat_pmap_record_num pr1 pr2 :
  be32_to_cpu P 0 = 0 -> cpu_to_be32 P 0 = 0 ->
  pr_num pr1 = 0 -> pr_num pr2 = 0 ->
  pr_num (fst (concat_pmap_record P pr1 pr2)) = 0
  /\ pr_num (snd (concat_pmap_record P pr1 pr2)) = 0.
Proof.
  intros Hbe Hcpu H1 H2. unfold concat_pmap_record. cbv zeta.
  rewrite H1, H2, Hbe.
  destruct (_ && _); [|auto].
  destruct (_ || _); [|auto].
  cbn [fst snd pr_num]. split; [exact Hcpu|auto].
Qed.

Lemma normalise_inner_num n i j pt :
  be32_to_cpu P 0 = 0 -> cpu_to_be32 P 0 = 0 ->
  Forall (fun r => pr_num r = 0) pt ->
  Forall (fun r => pr_num r = 0) (normalise_inner P n i j pt).
Proof.
  intros Hbe Hcpu. revert j pt.
  induction n as [|n IH]; intros j pt Hpt; [exact Hpt|].
  cbn [normalise_inner].
  destruct (pt !! i) as [p1|] eqn:E1; [|exact Hpt].
  destruct (pt !! j) as [p2|] eqn:E2; [|exact Hpt].
  destruct (inuse_not_bad P p2); [|apply IH; exact Hpt].
  pose proof (concat_pmap_record_num p1 p2 Hbe Hcpu
                (Forall_lookup_1 _ _ _ _ Hpt E1)
                (Forall_lookup_1 _ _ _ _ Hpt E2)) as [Hn1 Hn2].
  destruct (concat_pmap_record P p1 p2) as [p1' p2'].
  apply IH. apply Forall_insert; [apply Forall_insert|]; assumption.
Qed.

Lemma normalise_outer_num n i slots pt :
  be32_to_cpu P 0 = 0 -> cpu_to_be32 P 0 = 0 ->
  Forall (fun r => pr_num r = 0) pt ->
  Forall (fun r => pr_num r = 0) (normalise_outer P n i slots pt).
Proof.
  intros Hbe Hcpu. revert i pt.
  induction n as [|n IH]; intros i pt Hpt; [exact Hpt|].
  cbn [normalise_outer].
  destruct (pt !! i) as [p1|]; [|exact Hpt].
  apply IH. destruct (inuse_not_bad P p1); [|exact Hpt].
  apply normalise_inner_num; assumption.
Qed.

Lemma reserve_layout_records_num ubi n i pt :
  Forall (fun r => pr_num r = 0) pt ->
  Forall (fun r => pr_num r = 0) (reserve_layout_records P ubi n i pt).
Proof.
  revert i pt. induction n as [|n IH]; intros i pt Hpt; [exact Hpt|].
  cbn [reserve_layout_records]. cbv zeta. apply IH.
  apply Forall_insert; [exact Hpt|]. cbn [pr_num].
  destruct (pt !! Z.to_nat i) as [r|] eqn:E; cbn [default].
  - exact (Forall_lookup_1 _ _ _ _ Hpt E).
  - reflexivity.
Qed.

(** A PEB table whose records all have [num] zero is read as no record at
    all. *)
Lemma init_ptbl_loop_skip ubi pt good bad_ (m : list ubi_pmap) :
  be32_to_cpu P 0 = 0 ->
  Forall (fun r => pr_num r = 0) pt ->
  init_ptbl_loop P ubi pt good bad_ m = (0, (good, bad_, m)).
Proof.
  intros Hbe Hpt. induction Hpt as [|r rest Hr _ IH]; [reflexivity|].
  cbn [init_ptbl_loop]. cbv zeta. rewrite Hr, Hbe. exact IH.
Qed.

(** A volume table whose records all have [reserved_pebs] zero is read as
    no volume at all. *)
Lemma init_vtbl_loop_skip vt i ubi reserved :
  be32_to_cpu P 0 = 0 ->
  Forall (fun r => vt_reserved_pebs r = 0) vt ->
  init_vtbl_loop P vt i ubi reserved = (0, ubi, reserved).
Proof.
  intros Hbe Hvt. revert i.
  induction Hvt as [|r rest Hr _ IH]; intros i; [reflexivity|].
  cbn [init_vtbl_loop]. rewrite Hr, Hbe. apply IH.
Qed.

(** X22.  The tables [create_empty_lvol] makes list no PEB.  Its records
    for the layout volume are given a PEB, a LEB, a volume and a flag but
    no [num], and a record whose [num] is zero is an empty record for
    [init_volumes]: read back, the tables leave the PEB map and the volumes
    as they are, with [good_peb_count] and [bad_peb_count] zero; so
    [avail_pebs] ends below zero by the PEBs of the layout volume, which
    [init_volumes] reports and does not refuse.  The byte order conversions
    are taken to map zero to zero, and [vol_id2idx] to depend on the device
    through [vtbl_slots] only. *)
Theorem created_tables_list_no_pebs (ubi ubi' : ubi_device)
    (f f' : flash P) :
  be32_to_cpu P 0 = 0 -> cpu_to_be32 P 0 = 0 ->
  (forall u v, vtbl_slots u = vtbl_slots ubi ->
               vol_id2idx P u v = vol_id2idx P ubi v) ->
  create_empty_lvol P ubi f = (0, ubi', f') ->
  exists vt pt ubi'',
    vtbl ubi' = Some vt /\ ptbl ubi' = Some pt
    /\ Forall (fun r => pr_num r = 0) pt
    /\ init_volumes P ubi' vt pt = (0, ubi'')
    /\ peb_map ubi'' = peb_map ubi
    /\ volumes ubi'' = volumes ubi
    /\ vol_count ubi'' = vol_count ubi
    /\ good_peb_count ubi'' = 0
    /\ bad_peb_count ubi'' = 0
    /\ avail_pebs ubi''
       = - match volumes ubi (vol_id2idx P ubi lv_id) with
           | Some lvol => vol_reserved_pebs lvol
           | None => 0
           end.
Proof.
  intros Hbe Hcpu Hidx. unfold create_empty_lvol. cbv zeta.
  set (vt := replicate (Z.to_nat (vtbl_slots ubi)) (empty_vtbl_record P)).
  set (pt := normalise_ptbl P ubi _).
  destruct (create_copies P ubi _ 0 vt pt f) as [err f1].
  destruct (Z.eqb_spec err 0) as [->|Hne]; cbn [negb];
    [|intros [= E _ _]; congruence].
  intros [= <- _].
  assert (Hpt : Forall (fun r => pr_num r = 0) pt).
  { unfold pt, normalise_ptbl. apply normalise_outer_num; try assumption.
    apply reserve_layout_records_num. apply Forall_replicate. reflexivity. }
  assert (Hvt : Forall (fun r => vt_reserved_pebs r = 0) vt)
    by (apply Forall_replicate; reflexivity).
  exists vt, pt. eexists.
  split; [reflexivity|]. split; [reflexivity|]. split; [exact Hpt|].
  unfold init_volumes. rewrite (init_ptbl_loop_skip _ _ _ _ _ Hbe Hpt).
  cbn [Z.ltb Z.compare]. cbv zeta.
  rewrite (init_vtbl_loop_skip _ _ _ _ Hbe Hvt). cbn [Z.eqb negb].
  split; [reflexivity|].
  cbn [peb_map volumes vol_count good_peb_count bad_peb_count avail_pebs
       set_peb_counts set_peb_map set_tables].
  repeat (split; [reflexivity|]).
  rewrite Hidx by reflexivity. lia.
Qed.

End LayoutProofs.
(** ** The layout volume on the concrete platform *)

(** The constant the code stores in its empty volume table record is the
    checksum of that record. *)
Example empty_vtbl_record_crc :
  DevFlash.crc32 DevFlash.UBI_CRC32_INIT (replicate 168 0) = 4044800875
  /\ Layout.crc32_vtbl_record DevFlash.dev
       (Layout.empty_vtbl_record DevFlash.dev)
     = Layout.vt_crc (Layout.empty_vtbl_record DevFlash.dev).
Proof. split; vm_compute; reflexivity. Qed.

Example empty_tables_valid :
  Layout.vtbl_check DevFlash.dev DevFlash.attached_ubi DevFlash.empty_vtbl
    DevFlash.empty_ptbl = 0.
Proof. vm_compute. reflexivity. Qed.

(** C1 on a flash image whose two copies are valid and byte-for-byte
    identical: [process_lvol] adopts copy 0 and returns zero, after it has
    unmapped and rewritten both LEBs of copy 1. *)
Theorem process_lvol_rewrites_identical_copy :
  DevFlash.lebs DevFlash.in_use_flash !! 2%nat
  = DevFlash.lebs DevFlash.in_use_flash !! 0%nat
  /\ DevFlash.lebs DevFlash.in_use_flash !! 3%nat
     = DevFlash.lebs DevFlash.in_use_flash !! 1%nat
  /\ Layout.vtbl_check DevFlash.dev DevFlash.attached_counted_ubi
       (Layout.copy_vtbl DevFlash.dev DevFlash.attached_counted_ubi
          DevFlash.in_use_flash 0)
       (Layout.copy_ptbl DevFlash.dev DevFlash.attached_counted_ubi
          DevFlash.in_use_flash 0) = 0
  /\ Layout.vtbl_check DevFlash.dev DevFlash.attached_counted_ubi
       (Layout.copy_vtbl DevFlash.dev DevFlash.attached_counted_ubi
          DevFlash.in_use_flash 1)
       (Layout.copy_ptbl DevFlash.dev DevFlash.attached_counted_ubi
          DevFlash.in_use_flash 1) = 0
  /\ exists ubi' f',
       Layout.process_lvol DevFlash.dev DevFlash.attached_counted_ubi
         DevFlash.in_use_flash = (0, ubi', f')
       /\ Layout.vtbl ubi' = Some DevFlash.in_use_vtbl
       /\ Layout.ptbl ubi' = Some DevFlash.empty_ptbl
       /\ DevFlash.oplog f'
          = [DevFlash.Unmap 2; DevFlash.Write 2; DevFlash.Unmap 3;
             DevFlash.Write 3].
Proof.
  split; [reflexivity|]. split; [reflexivity|].
  split; [vm_compute; reflexivity|]. split; [vm_compute; reflexivity|].
  eexists. eexists. split; [vm_compute; reflexivity|].
  split; [reflexivity|]. split; reflexivity.
Qed.

(** The same on empty tables: the empty records carry the constant of the
    code, and copy 1 is rewritten all the same. *)
Example process_lvol_rewrites_identical_empty_copy :
  Layout.vtbl_check DevFlash.dev DevFlash.attached_ubi
    (Layout.copy_vtbl DevFlash.dev DevFlash.attached_ubi
       DevFlash.consistent_flash 0)
    (Layout.copy_ptbl DevFlash.dev DevFlash.attached_ubi
       DevFlash.consistent_flash 0) = 0
  /\ exists ubi' f',
       Layout.process_lvol DevFlash.dev DevFlash.attached_ubi
         DevFlash.consistent_flash = (0, ubi', f')
       /\ Layout.vtbl ubi' = Some DevFlash.empty_vtbl
       /\ Layout.ptbl ubi' = Some DevFlash.empty_ptbl
       /\ DevFlash.oplog f'
          = [DevFlash.Unmap 2; DevFlash.Write 2; DevFlash.Unmap 3;
             DevFlash.Write 3].
Proof.
  split; [vm_compute; reflexivity|].
  eexists. eexists. split; [vm_compute; reflexivity|].
  split; [reflexivity|]. split; reflexivity.
Qed.

(** On a layout volume that cannot be written, the image with identical
    copies makes [process_lvol] fail with [-EROFS] without adopting a
    table. *)
Example process_lvol_identical_copy_read_only :
  exists ubi' f',
    Layout.process_lvol DevFlash.dev_ro DevFlash.attached_counted_ubi
      DevFlash.in_use_flash = (- EROFS, ubi', f')
    /\ Layout.vtbl ubi' = None.
Proof. eexists. eexists. split; [vm_compute; reflexivity|reflexivity]. Qed.

(** After a commit that was interrupted between the two copies,
    [process_lvol] adopts copy 0 and rewrites copy 1 to match it. *)
Example process_lvol_after_interrupted_commit :
  DevFlash.lebs DevFlash.interrupted_flash !! 3%nat
  <> DevFlash.lebs DevFlash.interrupted_flash !! 1%nat
  /\ exists ubi' f',
       Layout.process_lvol DevFlash.dev DevFlash.attached_ubi
         DevFlash.interrupted_flash = (0, ubi', f')
       /\ Layout.ptbl ubi' = Some DevFlash.empty_ptbl
       /\ DevFlash.lebs f' = DevFlash.lebs DevFlash.consistent_flash.
Proof.
  split; [vm_compute; discriminate|].
  eexists. eexists. split; [vm_compute; reflexivity|].
  split; reflexivity.
Qed.


(** The same attach on erased flash, the only way an empty device gets its
    tables. *)
Example attach_creates_tables_on_erased_flash :
  exists ubi' f',
    Layout.ubi_read_volume_table DevFlash.dev 1 DevFlash.fresh_ubi
      DevFlash.erased_flash = Some (0, ubi', f')
    /\ Layout.vtbl ubi' = Some DevFlash.empty_vtbl
    /\ DevFlash.oplog f'
       = [DevFlash.Unmap 0; DevFlash.Write 0; DevFlash.Unmap 1;
          DevFlash.Write 1; DevFlash.Unmap 2; DevFlash.Write 2;
          DevFlash.Unmap 3; DevFlash.Write 3].
Proof.
  eexists. eexists. split; [vm_compute; reflexivity|].
  split; reflexivity.
Qed.


(** ** The attach steps at concrete devices *)

(** X15 at the eight-PEB device: 512-byte LEBs and an I/O unit of 8 bytes
    give two volume table slots in 344 bytes and twenty-one PEB table slots
    in 504 bytes. *)
Lemma table_geometry_fits_witness :
  0 <= 3
  /\ Layout.min_io_size DevFlash.fresh_ubi = 2 ^ 3
  /\ 0 <= Layout.leb_size DevFlash.fresh_ubi
  /\ Layout.leb_size DevFlash.fresh_ubi
       mod Layout.min_io_size DevFlash.fresh_ubi = 0
  /\ 0 < Layout.UBI_VTBL_RECORD_SIZE DevFlash.dev
  /\ 0 < Layout.UBI_PTBL_RECORD_SIZE DevFlash.dev
  /\ Layout.vtbl_size (Layout.table_geometry DevFlash.dev DevFlash.fresh_ubi)
     <= 512
  /\ Layout.ptbl_size (Layout.table_geometry DevFlash.dev DevFlash.fresh_ubi)
       mod 8 = 0.
Proof.
  assert (H1 : 0 <= 3) by lia.
  assert (H2 : Layout.min_io_size DevFlash.fresh_ubi = 2 ^ 3) by reflexivity.
  assert (H3 : 0 <= Layout.leb_size DevFlash.fresh_ubi) by (simpl; lia).
  assert (H4 : Layout.leb_size DevFlash.fresh_ubi
                 mod Layout.min_io_size DevFlash.fresh_ubi = 0)
    by reflexivity.
  assert (H5 : 0 < Layout.UBI_VTBL_RECORD_SIZE DevFlash.dev) by (simpl; lia).
  assert (H6 : 0 < Layout.UBI_PTBL_RECORD_SIZE DevFlash.dev) by (simpl; lia).
  pose proof (table_geometry_fits DevFlash.dev DevFlash.fresh_ubi 3
                H1 H2 H3 H4 H5 H6) as H.
  cbv zeta in H. destruct H as (_ & _ & [_ Hv] & _ & _ & Hp).
  split; [exact H1|]. split; [exact H2|]. split; [exact H3|].
  split; [exact H4|]. split; [exact H5|]. split; [exact H6|].
  split; [exact Hv|exact Hp].
Defined.

(** X17 at the tables of one volume: volume 0 is instantiated with its two
    PEBs, and the six PEBs of the layout volume and volume 0 are
    reserved. *)
Lemma init_volumes_instantiates_witness :
  (forall u v,
     Layout.vtbl_slots u = Layout.vtbl_slots DevFlash.attached_ubi ->
     Layout.vol_id2idx DevFlash.dev u v
     = Layout.vol_id2idx DevFlash.dev DevFlash.attached_ubi v)
  /\ Layout.init_volumes DevFlash.dev DevFlash.attached_ubi
       DevFlash.one_volume_vtbl DevFlash.one_volume_ptbl
     = (0, DevFlash.one_volume_ubi)
  /\ (exists vol,
        Layout.volumes DevFlash.one_volume_ubi 0 = Some vol
        /\ Layout.vol_reserved_pebs vol = 2
        /\ Layout.vol_usable_leb_size vol = 512)
  /\ Layout.vol_count DevFlash.one_volume_ubi = 2
  /\ Layout.rsvd_pebs DevFlash.one_volume_ubi = 6.
Proof.
  assert (Hidx : forall u v,
            Layout.vtbl_slots u = Layout.vtbl_slots DevFlash.attached_ubi ->
            Layout.vol_id2idx DevFlash.dev u v
            = Layout.vol_id2idx DevFlash.dev DevFlash.attached_ubi v).
  { intros u v Hu. simpl. unfold DevFlash.mainline_vol_id2idx.
    rewrite Hu. reflexivity. }
  assert (Hinit : Layout.init_volumes DevFlash.dev DevFlash.attached_ubi
                    DevFlash.one_volume_vtbl DevFlash.one_volume_ptbl
                  = (0, DevFlash.one_volume_ubi)) by reflexivity.
  split; [exact Hidx|]. split; [exact Hinit|].
  pose proof (init_volumes_instantiates DevFlash.dev DevFlash.attached_ubi
                DevFlash.one_volume_ubi DevFlash.one_volume_vtbl
                DevFlash.one_volume_ptbl Hidx Hinit) as H.
  cbv zeta in H. destruct H as (Hvols & Hcount & _ & _ & Hrsvd & _).
  split; [|split; [exact Hcount|exact Hrsvd]].
  destruct (Hvols 0%nat _ eq_refl) as (vol & Hvol & _ & Hres & Hleb).
  exists vol. split; [exact Hvol|]. split; [exact Hres|exact Hleb].
Defined.

(** X19 at the device with one volume: the check returns zero and the map
    agrees with volume 0. *)
Lemma check_volume_pmap_postcondition_witness :
  Pmap.areas_in_map (Layout.UBI_LAYOUT_VOLUME_RESERVED_EBS DevFlash.dev)
    (Layout.peb_count DevFlash.one_volume_ubi)
    (Layout.peb_map DevFlash.one_volume_ubi)
  /\ exists m',
       Layout.check_volume_pmap DevFlash.dev 1 DevFlash.one_volume_ubi
       = Some (0, Layout.set_peb_map DevFlash.one_volume_ubi m')
       /\ volume_agrees DevFlash.dev DevFlash.one_volume_ubi m' 0.
Proof.
  assert (Hmap : Pmap.areas_in_map
                   (Layout.UBI_LAYOUT_VOLUME_RESERVED_EBS DevFlash.dev)
                   (Layout.peb_count DevFlash.one_volume_ubi)
                   (Layout.peb_map DevFlash.one_volume_ubi))
    by (split; [vm_compute; split; discriminate|reflexivity]).
  split; [exact Hmap|].
  destruct (check_volume_pmap_postcondition DevFlash.dev 0
              DevFlash.one_volume_ubi Hmap)
    as (err & m' & Hcheck & _ & _ & Hagree).
  assert (Herr : err = 0).
  { pose proof Hcheck as H. vm_compute in H. injection H as H _.
    symmetry. exact H. }
  subst err. exists m'. split; [exact Hcheck|].
  apply Hagree; [reflexivity|]. vm_compute. split; [discriminate|reflexivity].
Defined.

(** X21 on a flash whose PEB 1 is bad: the layout volume ends on PEBs 0, 2,
    3 and 4, PEB 4 carrying the LEB number PEB 1 had. *)
Lemma init_layout_volume_on_good_pebs_witness :
  Pmap.areas_in_map (Layout.UBI_LAYOUT_VOLUME_RESERVED_EBS DevFlash.dev_worn)
    (Layout.peb_count DevFlash.fresh_ubi)
    (Layout.peb_map DevFlash.fresh_ubi)
  /\ 0 < Layout.UBI_LAYOUT_VOLUME_EBS DevFlash.dev_worn
  /\ Layout.UBI_LAYOUT_VOLUME_EBS DevFlash.dev_worn
     <= Pmap.count_free (Layout.peb_map DevFlash.fresh_ubi)
          (Z.to_nat (Layout.UBI_LAYOUT_VOLUME_RESERVED_EBS DevFlash.dev_worn))
          0
  /\ exists ubi',
       Layout.init_layout_volume DevFlash.dev_worn 0 DevFlash.fresh_ubi
         DevFlash.erased_flash = Some (0, ubi')
       /\ Pmap.vol_contiguous
            (Layout.UBI_LAYOUT_VOLUME_ID DevFlash.dev_worn)
            (Layout.UBI_LAYOUT_VOLUME_RESERVED_EBS DevFlash.dev_worn)
            (Layout.peb_count DevFlash.fresh_ubi) (Layout.peb_map ubi')
            (Layout.UBI_LAYOUT_VOLUME_ID DevFlash.dev_worn) 4
       /\ peb_at (Layout.peb_map ubi') 1
          = mk_pmap (Layout.UBI_LAYOUT_VOLUME_ID DevFlash.dev_worn) 1 false
              true
       /\ peb_at (Layout.peb_map ubi') 4
          = mk_pmap (Layout.UBI_LAYOUT_VOLUME_ID DevFlash.dev_worn) 1 true
              false.
Proof.
  assert (Hmap : Pmap.areas_in_map
                   (Layout.UBI_LAYOUT_VOLUME_RESERVED_EBS DevFlash.dev_worn)
                   (Layout.peb_count DevFlash.fresh_ubi)
                   (Layout.peb_map DevFlash.fresh_ubi))
    by (split; [vm_compute; split; discriminate|reflexivity]).
  assert (Hebs : 0 < Layout.UBI_LAYOUT_VOLUME_EBS DevFlash.dev_worn)
    by reflexivity.
  assert (Hfree : Layout.UBI_LAYOUT_VOLUME_EBS DevFlash.dev_worn
                  <= Pmap.count_free (Layout.peb_map DevFlash.fresh_ubi)
                       (Z.to_nat
                          (Layout.UBI_LAYOUT_VOLUME_RESERVED_EBS
                             DevFlash.dev_worn)) 0)
    by (vm_compute; discriminate).
  split; [exact Hmap|]. split; [exact Hebs|]. split; [exact Hfree|].
  pose proof (init_layout_volume_on_good_pebs DevFlash.dev_worn 0
                DevFlash.fresh_ubi DevFlash.erased_flash) as H.
  cbv zeta in H.
  destruct H as (err & ubi' & Hinit & _ & _ & Hzero);
    [exact Hmap|exact Hebs| | |exact Hfree|].
  - intros q _. change (Layout.peb_map DevFlash.fresh_ubi)
      with (replicate (Z.to_nat 8) zero_pmap).
    rewrite peb_at_replicate. reflexivity.
  - intros q _. change (Layout.peb_map DevFlash.fresh_ubi)
      with (replicate (Z.to_nat 8) zero_pmap).
    rewrite peb_at_replicate. discriminate.
  - assert (Hres : Some (err, Layout.peb_map ubi')
                   = Some (0, [Dev.used Dev.layout_volume_id 0;
                               mk_pmap Dev.layout_volume_id 1 false true;
                               Dev.used Dev.layout_volume_id 2;
                               Dev.used Dev.layout_volume_id 3;
                               Dev.used Dev.layout_volume_id 1;
                               Dev.free_peb; Dev.free_peb; Dev.free_peb])).
    { change (Some (err, Layout.peb_map ubi'))
        with (match Some (err, ubi') with
              | Some (e, u) => Some (e, Layout.peb_map u)
              | None => None
              end).
      rewrite <- Hinit. vm_compute. reflexivity. }
    injection Hres as Herr Hm. subst err.
    exists ubi'. split; [exact Hinit|].
    destruct (Hzero eq_refl) as (_ & _ & Hcont & _).
    split; [exact Hcont|]. rewrite Hm. split; reflexivity.
Defined.

(** X22 at the erased device: the tables written at the first attach list
    no PEB, and reading them leaves [avail_pebs] at minus four. *)
Lemma created_tables_list_no_pebs_witness :
  Layout.be32_to_cpu DevFlash.dev 0 = 0
  /\ Layout.cpu_to_be32 DevFlash.dev 0 = 0
  /\ (forall u v,
        Layout.vtbl_slots u = Layout.vtbl_slots DevFlash.attached_ubi ->
        Layout.vol_id2idx DevFlash.dev u v
        = Layout.vol_id2idx DevFlash.dev DevFlash.attached_ubi v)
  /\ fst (fst (Layout.create_empty_lvol DevFlash.dev DevFlash.attached_ubi
                 DevFlash.erased_flash)) = 0
  /\ exists vt pt ubi'',
       Layout.init_volumes DevFlash.dev
         (snd (fst (Layout.create_empty_lvol DevFlash.dev
                      DevFlash.attached_ubi DevFlash.erased_flash))) vt pt
       = (0, ubi'')
       /\ Layout.good_peb_count ubi'' = 0
       /\ Layout.avail_pebs ubi'' = -4.
Proof.
  assert (Hbe : Layout.be32_to_cpu DevFlash.dev 0 = 0) by reflexivity.
  assert (Hcpu : Layout.cpu_to_be32 DevFlash.dev 0 = 0) by reflexivity.
  assert (Hidx : forall u v,
            Layout.vtbl_slots u = Layout.vtbl_slots DevFlash.attached_ubi ->
            Layout.vol_id2idx DevFlash.dev u v
            = Layout.vol_id2idx DevFlash.dev DevFlash.attached_ubi v).
  { intros u v Hu. simpl. unfold DevFlash.mainline_vol_id2idx.
    rewrite Hu. reflexivity. }
  split; [exact Hbe|]. split; [exact Hcpu|]. split; [exact Hidx|].
  split; [reflexivity|].
  destruct (created_tables_list_no_pebs DevFlash.dev DevFlash.attached_ubi
              (snd (fst (Layout.create_empty_lvol DevFlash.dev
                           DevFlash.attached_ubi DevFlash.erased_flash)))
              DevFlash.erased_flash
              (snd (Layout.create_empty_lvol DevFlash.dev
                      DevFlash.attached_ubi DevFlash.erased_flash))
              Hbe Hcpu Hidx eq_refl)
    as (vt & pt & ubi'' & _ & _ & _ & Hinit & _ & _ & _ & Hgood & _ & Havail).
  exists vt, pt, ubi''. split; [exact Hinit|]. split; [exact Hgood|].
  exact Havail.
Defined.

(** ** The PPO byte code *)

Lemma all_bytes_ok :
  forallb Ppo.byte_class_ok (List.map Z.of_nat (List.seq 0 256)) = true.
Proof. vm_compute. reflexivity. Qed.

Lemma byte_class_ok_true (b : Z) :
  0 <= b < 256 -> Ppo.byte_class_ok b = true.
Proof.
  intros Hb. pose proof all_bytes_ok as H.
  rewrite forallb_forall in H. apply H.
  apply List.in_map_iff. exists (Z.to_nat b). split; [lia|].
  apply List.in_seq. lia.
Qed.

Lemma decode_byte_low b :
  0 <= b < 256 -> Ppo.bits_set b <= 2 -> Ppo.ppo_decode_byte b = Ppo.Used 0.
Proof.
  intros Hb Hc. pose proof (byte_class_ok_true b Hb) as H.
  unfold Ppo.byte_class_ok in H.
  destruct (Z.leb_spec (Ppo.bits_set b) 2); [|lia].
  apply bool_decide_eq_true in H. exact H.
Qed.

Lemma decode_byte_mid b :
  0 <= b < 256 -> 3 <= Ppo.bits_set b <= 5 ->
  Ppo.ppo_decode_byte b = Ppo.Invalid.
Proof.
  intros Hb Hc. pose proof (byte_class_ok_true b Hb) as H.
  unfold Ppo.byte_class_ok in H.
  destruct (Z.leb_spec (Ppo.bits_set b) 2); [lia|].
  destruct (Z.leb_spec (Ppo.bits_set b) 5); [|lia].
  apply bool_decide_eq_true in H. exact H.
Qed.

Lemma decode_byte_high b :
  0 <= b < 256 -> 6 <= Ppo.bits_set b -> Ppo.ppo_decode_byte b = Ppo.Used 1.
Proof.
  intros Hb Hc. pose proof (byte_class_ok_true b Hb) as H.
  unfold Ppo.byte_class_ok in H.
  destruct (Z.leb_spec (Ppo.bits_set b) 2); [lia|].
  destruct (Z.leb_spec (Ppo.bits_set b) 5); [lia|].
  apply bool_decide_eq_true in H. exact H.
Qed.

Lemma bits_set_range b : 0 <= Ppo.bits_set b <= 8.
Proof.
  unfold Ppo.bits_set.
  pose proof (List.filter_length_le (Z.testbit b) [0; 1; 2; 3; 4; 5; 6; 7]) as H.
  simpl length in H at 2. lia.
Qed.

(** A region without an invalid byte splits into its leading used bytes
    and a rest that is empty or starts with an erased byte. *)
Lemma leading_used_split (region : list Z) :
  (forall b, In b region ->
     0 <= b < 256 /\ ~ (3 <= Ppo.bits_set b <= 5)) ->
  exists pre post,
    region = pre ++ post
    /\ (forall b, In b pre -> Ppo.bits_set b <= 2)
    /\ (post = [] \/ exists b rest, post = b :: rest /\ 6 <= Ppo.bits_set b)
    /\ Ppo.leading_used region = Z.of_nat (length pre).
Proof.
  induction region as [|b region IH]; intros Hall.
  - exists [], []. repeat split; auto. intros b [].
  - destruct (Hall b (or_introl eq_refl)) as [Hb Hmid].
    destruct (Z_le_gt_dec (Ppo.bits_set b) 2) as [Hlow|Hhigh].
    + destruct IH as (pre & post & -> & Hpre & Hpost & Hlen).
      { intros c Hc. apply Hall. right. exact Hc. }
      exists (b :: pre), post. split; [reflexivity|]. split.
      * intros c [<-|Hc]; [exact Hlow|apply Hpre; exact Hc].
      * split; [exact Hpost|].
        cbn [Ppo.leading_used]. rewrite (decode_byte_low b Hb Hlow).
        cbn [Ppo.is_used]. rewrite Hlen. cbn [length]. lia.
    + exists [], (b :: region). split; [reflexivity|].
      split; [intros c []|]. split.
      * right. exists b, region. split; [reflexivity|lia].
      * cbn [Ppo.leading_used].
        rewrite (decode_byte_high b Hb ltac:(lia)). reflexivity.
Qed.

Lemma no_invalid_byte (region : list Z) :
  (forall b, In b region ->
     0 <= b < 256 /\ ~ (3 <= Ppo.bits_set b <= 5)) ->
  existsb (fun b => Ppo.is_invalid (Ppo.ppo_decode_byte b)) region = false.
Proof.
  intros Hall. apply not_true_is_false. intros H.
  apply existsb_exists in H as (b & Hin & Hinv).
  destruct (Hall b Hin) as [Hb Hmid].
  pose proof (bits_set_range b) as Hr.
  destruct (Z_le_gt_dec (Ppo.bits_set b) 2) as [Hlow|Hhigh].
  - rewrite (decode_byte_low b Hb Hlow) in Hinv. discriminate.
  - rewrite (decode_byte_high b Hb ltac:(lia)) in Hinv. discriminate.
Qed.

(** C4.  For every byte value, the decoder yields unit value 0 when the
    byte has at most two bits set, an invalid result when it has three, four
    or five bits set, and unit value 1 when it has six, seven or eight bits
    set.  A region with a three-to-five-bit byte anywhere decodes to the
    error; any other region decodes to the number of its leading used bytes,
    the bytes before the first erased one. *)
Theorem ppo_decoding :
  (forall b, 0 <= b < 256 ->
     (Ppo.bits_set b <= 2 -> Ppo.ppo_decode_byte b = Ppo.Used 0)
     /\ (3 <= Ppo.bits_set b <= 5 -> Ppo.ppo_decode_byte b = Ppo.Invalid)
     /\ (6 <= Ppo.bits_set b -> Ppo.ppo_decode_byte b = Ppo.Used 1))
  /\ (forall region b,
        In b region -> 0 <= b < 256 -> 3 <= Ppo.bits_set b <= 5 ->
        Ppo.ppo_decode region = None)
  /\ (forall region,
        (forall b, In b region ->
           0 <= b < 256 /\ ~ (3 <= Ppo.bits_set b <= 5)) ->
        exists pre post,
          region = pre ++ post
          /\ (forall b, In b pre -> Ppo.bits_set b <= 2)
          /\ (post = []
              \/ exists b rest, post = b :: rest /\ 6 <= Ppo.bits_set b)
          /\ Ppo.ppo_decode region = Some (Z.of_nat (length pre))).
Proof.
  split; [|split].
  - intros b Hb. split; [|split].
    + apply decode_byte_low. exact Hb.
    + apply decode_byte_mid. exact Hb.
    + apply decode_byte_high. exact Hb.
  - intros region b Hin Hb Hmid. unfold Ppo.ppo_decode.
    assert (H : existsb (fun b => Ppo.is_invalid (Ppo.ppo_decode_byte b))
                  region = true).
    { apply existsb_exists. exists b. split; [exact Hin|].
      rewrite (decode_byte_mid b Hb Hmid). reflexivity. }
    rewrite H. reflexivity.
  - intros region Hall.
    destruct (leading_used_split region Hall)
      as (pre & post & Hsplit & Hpre & Hpost & Hlen).
    exists pre, post. split; [exact Hsplit|]. split; [exact Hpre|].
    split; [exact Hpost|].
    unfold Ppo.ppo_decode. rewrite (no_invalid_byte region Hall), Hlen.
    reflexivity.
Qed.

(** C4 at the region of the design notes that carries one bit error: seven
    used bytes, the third read as [0x40], then an erased byte. *)
Lemma ppo_decoding_witness :
  0 <= 64 < 256
  /\ Ppo.ppo_decode_byte 64 = Ppo.Used 0
  /\ Ppo.ppo_decode [0; 0; 64; 0; 0; 0; 0; 255] = Some 7
  /\ Ppo.ppo_decode [0; 0; 7; 0; 255] = None.
Proof.
  assert (Hb : 0 <= 64 < 256) by lia.
  destruct ppo_decoding as (Hbyte & Hbad & Hgood).
  split; [exact Hb|]. split; [|split].
  - apply (Hbyte 64 Hb). vm_compute. discriminate.
  - reflexivity.
  - apply (Hbad [0; 0; 7; 0; 255] 7).
    + simpl. auto.
    + lia.
    + vm_compute. split; discriminate.
Defined.

(** The byte values the design notes list, and their two example regions. *)
Example notes_byte_values :
  List.map Ppo.ppo_decode_byte [0; 1; 2; 4; 8; 16; 32; 64; 128; 3; 6]
  = List.repeat (Ppo.Used 0) 11
  /\ List.map Ppo.ppo_decode_byte
       [252; 249; 254; 253; 251; 247; 239; 223; 191; 127; 255]
     = List.repeat (Ppo.Used 1) 11
  /\ Ppo.ppo_decode [0; 0; 0; 0; 0; 255; 255; 255] = Some 5
  /\ Ppo.ppo_decode [0; 0; 0; 0; 0; 0; 0; 255] = Some 7.
Proof. repeat split. Qed.
